(** * Batch encoders of document-qa (encoder.py): a shallow embedding

    The Python module maps question/context/answer examples to zero padded
    numpy arrays.  The embedding below follows encoder.py function by
    function:

    - a raised Python exception is a value [inl e] of [result], a normal
      return is [inr v];
    - numpy arrays are nested lists; the constructors of [ndarray] also carry
      the trailing dimensions, which nested lists lose when the leading
      dimension is zero;
    - the numpy random generator is an explicit [RandomState] that is passed
      through the calls that draw from it;
    - the word embedder is an external object; its lookups are functions and
      the state behind [get_placeholder] is passed explicitly.

    Standing convention: every integer the program stores in an int32 array
    (list lengths, vocabulary ids, word positions) is taken to lie in the
    int32 range, where numpy's conversion is the identity; integers are [Z]
    or [nat] accordingly.  A word is a Rocq string, a sequence of bytes: on
    ASCII words this is Python's sequence of characters, and [lower] is
    [str.lower()].  A statement that gives the exact content of a word, a
    character or a span array has both conventions among its hypotheses
    ([int32], [int32_rows], [int32_chars], [int32_spans], [ascii_batch]). *)

From Stdlib Require Import ZArith Lia String Ascii Floats.
From stdpp Require Import base list gmap strings.

(** ** Exceptions *)

(** The exceptions of Python that encoder.py and numpy raise.  The spec's
    ConfigurationError and DataError are both [ValueError] in encoder.py. *)
Inductive exn : Type :=
  | ValueError
  | NotImplementedError
  | IndexError
  | AttributeError
  | TypeError.

#[global] Instance exn_eq_dec : EqDecision exn.
Proof. solve_decision. Defined.

Definition result (A : Type) : Type := exn + A.

#[global] Instance result_ret : MRet result := fun _ x => inr x.
#[global] Instance result_bind : MBind result :=
  fun _ _ f m => match m with inl e => inl e | inr x => f x end.

Definition raise {A : Type} (e : exn) : result A := inl e.

Definition is_raise {A : Type} (r : result A) : Prop := exists e, r = inl e.

(** [for doc_ix, doc in enumerate(batch): body], started at index [i]. *)
Fixpoint for_enumerate {A St : Type} (body : nat -> A -> St -> result St)
    (i : nat) (l : list A) (st : St) : result St :=
  match l with
  | [] => inr st
  | x :: l' => st' ← body i x st; for_enumerate body (S i) l' st'
  end.

(** ** numpy *)

Definition np_zeros2 {A : Type} (zero : A) (n m : nat) : list (list A) :=
  replicate n (replicate m zero).
Definition np_zeros3 {A : Type} (zero : A) (n m k : nat) : list (list (list A)) :=
  replicate n (replicate m (replicate k zero)).

(** [a.max()]: numpy raises ValueError on an array without elements. *)
Definition np_max (a : list Z) : result Z :=
  match a with
  | [] => raise ValueError
  | x :: a' => inr (foldl Z.max x a')
  end.

(** [a[i]] for an index produced by [enumerate] or [range(0, _)]. *)
Definition np_get {A : Type} (a : list A) (i : nat) : result A :=
  match a !! i with
  | Some x => inr x
  | None => raise IndexError
  end.

(** [row[i] = v] for a Python integer [i]: a negative index counts from the
    end, an index outside [-n, n) raises IndexError. *)
Definition np_index (n : nat) (i : Z) : result nat :=
  if decide (0 <= i < Z.of_nat n)%Z then inr (Z.to_nat i)
  else if decide (- Z.of_nat n <= i < 0)%Z then inr (Z.to_nat (i + Z.of_nat n))
  else raise IndexError.

Definition np_set1 {A : Type} (i : Z) (v : A) (row : list A) : result (list A) :=
  j ← np_index (length row) i; inr (<[j := v]> row).

(** [row[idxs] = v] for an index array [idxs]. *)
Fixpoint np_set_many {A : Type} (idxs : list Z) (v : A) (row : list A)
    : result (list A) :=
  match idxs with
  | [] => inr row
  | i :: idxs' => row' ← np_set1 i v row; np_set_many idxs' v row'
  end.

(** [m[doc_ix, idxs] = v]. *)
Definition np_set_row_many {A : Type} (doc_ix : nat) (idxs : list Z) (v : A)
    (m : list (list A)) : result (list (list A)) :=
  row ← np_get m doc_ix;
  row' ← np_set_many idxs v row;
  inr (<[doc_ix := row']> m).

(** [m[i, j] = v] for indices produced by [enumerate]. *)
Definition np_set2 {A : Type} (i j : nat) (v : A) (m : list (list A))
    : result (list (list A)) :=
  row ← np_get m i;
  if decide (j < length row) then inr (<[i := <[j := v]> row]> m)
  else raise IndexError.

(** [c[i, j, k] = v] for indices produced by [enumerate]. *)
Definition np_set3 {A : Type} (i j k : nat) (v : A) (c : list (list (list A)))
    : result (list (list (list A))) :=
  plane ← np_get c i;
  plane' ← np_set2 j k v plane;
  inr (<[i := plane']> c).

(** Item assignment on a name that holds an array or [None]: assigning into
    [None] raises TypeError. *)
Definition set_item2 {A : Type} (i j : nat) (v : A) (buf : option (list (list A)))
    : result (option (list (list A))) :=
  match buf with
  | None => raise TypeError
  | Some m => m' ← np_set2 i j v m; inr (Some m')
  end.

Definition set_item3 {A : Type} (i j k : nat) (v : A)
    (buf : option (list (list (list A)))) : result (option (list (list (list A)))) :=
  match buf with
  | None => raise TypeError
  | Some c => c' ← np_set3 i j k v c; inr (Some c')
  end.

(** [m[i, j] = v] for a Python integer [j] (negative wraps). *)
Definition np_set2z {A : Type} (i : nat) (j : Z) (v : A) (m : list (list A))
    : result (list (list A)) :=
  np_set_row_many i [j] v m.

(** [np.where(mask)[0]]: the positions where the mask holds. *)
Fixpoint np_where {A : Type} (p : A -> bool) (i : nat) (l : list A) : list nat :=
  match l with
  | [] => []
  | x :: l' => if p x then i :: np_where p (S i) l' else np_where p (S i) l'
  end.

(** The numpy global random generator: a stream of raw words and a cursor. *)
Record RandomState : Type := mkRandomState { entropy : nat -> nat; cursor : nat }.

(** [np.random.randint(low, high)]: an integer of [low, high); ValueError
    when the interval is empty. *)
Definition randint (low high : Z) (g : RandomState) : result (Z * RandomState) :=
  if decide (low < high)%Z then
    inr ((low + Z.of_nat (entropy g (cursor g)) mod (high - low))%Z,
         mkRandomState (entropy g) (S (cursor g)))
  else raise ValueError.

(** The arrays of a feed dict.  [IntVec] is int32 [n]; the other constructors
    carry their trailing dimensions. *)
Inductive ndarray : Type :=
  | IntVec (v : list Z)
  | IntMat (d1 : nat) (m : list (list Z))
  | IntCube (d1 d2 : nat) (c : list (list (list Z)))
  | BoolMat (d1 : nat) (m : list (list bool))
  | FloatCube (d1 d2 : nat) (c : list (list (list float))).

Definition shape (a : ndarray) : list nat :=
  match a with
  | IntVec v => [length v]
  | IntMat d1 m => [length m; d1]
  | IntCube d1 d2 c => [length c; d1; d2]
  | BoolMat d1 m => [length m; d1]
  | FloatCube d1 d2 c => [length c; d1; d2]
  end.

Definition leading_dim (a : ndarray) : nat :=
  match shape a with
  | n :: _ => n
  | [] => 0
  end.

(** ** The examples *)

Abbreviation span := (Z * Z)%type.

(** [doc.answer].  [ParagraphSpans] is a sequence of spans with
    [para_word_start] and [para_word_end]; [TriviaQaAnswer] has the array
    [answer_spans] (the spec calls it a span set with several candidates).
    [OtherAnswer] is an object of any other class, with or without an
    [answer_spans] attribute. *)
Inductive Answer : Type :=
  | NoAnswer
  | ParagraphSpans (spans : list span)
  | TriviaQaAnswer (answer_spans : list span)
  | OtherAnswer (answer_spans : option (list span)).

Record ParagraphAndQuestion : Type := mkDoc {
  question : list string;
  context : list (list string);
  answer : Answer
}.

(** [doc.answer.answer_spans]: AttributeError on [None] and on an object
    without the attribute.  data_processing/span_data.py is not among the
    sources at hand; a ParagraphSpans is taken to expose its spans under this
    name as well. *)
Definition answer_spans_of (a : Answer) : result (list span) :=
  match a with
  | NoAnswer => raise AttributeError
  | ParagraphSpans spans => inr spans
  | TriviaQaAnswer spans => inr spans
  | OtherAnswer (Some spans) => inr spans
  | OtherAnswer None => raise AttributeError
  end.

(** The placeholders of a feed dict, by name. *)
Inductive slot : Type :=
  | context_len_slot | question_len_slot
  | context_words_slot | question_words_slot
  | context_chars_slot | question_chars_slot
  | context_features_slot | question_features_slot
  | answer_spans_slot | answer_starts_slot | answer_ends_slot
  | correct_spans_slot.

#[global] Instance slot_eq_dec : EqDecision slot.
Proof. solve_decision. Defined.

Definition slot_to_nat (s : slot) : nat :=
  match s with
  | context_len_slot => 0 | question_len_slot => 1
  | context_words_slot => 2 | question_words_slot => 3
  | context_chars_slot => 4 | question_chars_slot => 5
  | context_features_slot => 6 | question_features_slot => 7
  | answer_spans_slot => 8 | answer_starts_slot => 9 | answer_ends_slot => 10
  | correct_spans_slot => 11
  end.

Definition slot_of_nat (n : nat) : option slot :=
  match n with
  | 0 => Some context_len_slot | 1 => Some question_len_slot
  | 2 => Some context_words_slot | 3 => Some question_words_slot
  | 4 => Some context_chars_slot | 5 => Some question_chars_slot
  | 6 => Some context_features_slot | 7 => Some question_features_slot
  | 8 => Some answer_spans_slot | 9 => Some answer_starts_slot
  | 10 => Some answer_ends_slot | 11 => Some correct_spans_slot
  | _ => None
  end.

#[global] Instance slot_countable : Countable slot.
Proof.
  apply (inj_countable slot_to_nat slot_of_nat).
  intros []; reflexivity.
Defined.

Abbreviation feed_dict := (gmap slot ndarray).

(** ** Answer encoders *)

(** The interface [AnswerEncoder]: [encode] may draw random numbers. *)
Record AnswerEncoder : Type := mkAnswerEncoder {
  encode : nat -> list Z -> nat -> list ParagraphAndQuestion -> RandomState
           -> result (feed_dict * RandomState)
}.

(** *** SingleSpanAnswerEncoder *)

Definition span_survives (limit : Z) (sp : span) : bool := bool_decide (sp.2 < limit)%Z.

(** The body of the loop of [SingleSpanAnswerEncoder.encode]: selection of
    the span of one example. *)
Definition single_span_select (context_len : list Z) (doc_ix : nat)
    (a : Answer) (g : RandomState) : result (span * RandomState) :=
  match a with
  | NoAnswer => raise ValueError
  | ParagraphSpans spans =>
      '(r, g') ← randint 0 (Z.of_nat (length spans)) g;
      sp ← np_get spans (Z.to_nat r);
      inr (sp, g')
  | TriviaQaAnswer spans =>
      limit ← np_get context_len doc_ix;
      let candidates := np_where (span_survives limit) 0 spans in
      if decide (length candidates = 0) then raise ValueError
      else
        '(r, g') ← randint 0 (Z.of_nat (length candidates)) g;
        ix ← np_get candidates (Z.to_nat r);
        sp ← np_get spans ix;
        inr (sp, g')
  | OtherAnswer _ => raise NotImplementedError
  end.

Definition single_span_body (context_len : list Z) (doc_ix : nat)
    (doc : ParagraphAndQuestion) (st : list (list Z) * RandomState)
    : result (list (list Z) * RandomState) :=
  let '(answer_spans, g) := st in
  '(sp, g') ← single_span_select context_len doc_ix (answer doc) g;
  let '(word_start, word_end) := sp in
  if decide (word_start > word_end)%Z then raise ValueError
  else
    limit ← np_get context_len doc_ix;
    if decide (word_end >= limit)%Z then raise ValueError
    else
      answer_spans ← np_set2 doc_ix 0 word_start answer_spans;
      answer_spans ← np_set2 doc_ix 1 word_end answer_spans;
      inr (answer_spans, g').

Definition SingleSpanAnswerEncoder_arrays (batch_size : nat) (context_len : list Z)
    (context_word_dim : nat) (batch : list ParagraphAndQuestion) (g : RandomState)
    : result (list (list Z) * RandomState) :=
  let answer_spans := np_zeros2 0%Z batch_size 2 in
  for_enumerate (single_span_body context_len) 0 batch (answer_spans, g).

Definition SingleSpanAnswerEncoder_encode (batch_size : nat) (context_len : list Z)
    (context_word_dim : nat) (batch : list ParagraphAndQuestion) (g : RandomState)
    : result (feed_dict * RandomState) :=
  '(answer_spans, g') ←
    SingleSpanAnswerEncoder_arrays batch_size context_len context_word_dim batch g;
  inr ({[ answer_spans_slot := IntMat 2 answer_spans ]}, g').

Definition SingleSpanAnswerEncoder : AnswerEncoder :=
  mkAnswerEncoder SingleSpanAnswerEncoder_encode.

(** *** DenseMultiSpanAnswerEncoder *)

Definition dense_body (context_word_dim : nat) (doc_ix : nat)
    (doc : ParagraphAndQuestion) (st : list (list bool) * list (list bool))
    : result (list (list bool) * list (list bool)) :=
  let '(answer_starts, answer_ends) := st in
  match answer doc with
  | NoAnswer => inr st
  | a =>
      answer_spans ← answer_spans_of a;
      let answer_spans :=
        filter (fun sp : span => (sp.2 < Z.of_nat context_word_dim)%Z) answer_spans in
      answer_starts ← np_set_row_many doc_ix (answer_spans.*1) true answer_starts;
      answer_ends ← np_set_row_many doc_ix (answer_spans.*2) true answer_ends;
      inr (answer_starts, answer_ends)
  end.

Definition DenseMultiSpanAnswerEncoder_arrays (batch_size : nat) (context_len : list Z)
    (context_word_dim : nat) (batch : list ParagraphAndQuestion)
    : result (list (list bool) * list (list bool)) :=
  let answer_starts := np_zeros2 false batch_size context_word_dim in
  let answer_ends := np_zeros2 false batch_size context_word_dim in
  for_enumerate (dense_body context_word_dim) 0 batch (answer_starts, answer_ends).

Definition DenseMultiSpanAnswerEncoder_encode (batch_size : nat) (context_len : list Z)
    (context_word_dim : nat) (batch : list ParagraphAndQuestion) (g : RandomState)
    : result (feed_dict * RandomState) :=
  '(answer_starts, answer_ends) ←
    DenseMultiSpanAnswerEncoder_arrays batch_size context_len context_word_dim batch;
  inr (<[ answer_ends_slot := BoolMat context_word_dim answer_ends ]>
         {[ answer_starts_slot := BoolMat context_word_dim answer_starts ]}, g).

Definition DenseMultiSpanAnswerEncoder : AnswerEncoder :=
  mkAnswerEncoder DenseMultiSpanAnswerEncoder_encode.

(** *** PackedMultiSpanAnswerEncoder *)

Section Packed.
(** Modelled from the spec: [to_packed_coordinates_np] lives in
    nn/span_prediction.py, which is not part of the sources at hand.  The
    spec gives its contract as [pack(start, end, context_length, bound) ->
    int], applied to every row of the span array. *)
Variable pack : Z -> Z -> Z -> Z -> Z.

Definition to_packed_coordinates_np (spans : list span) (l bound : Z) : list Z :=
  (fun sp : span => pack sp.1 sp.2 l bound) <$> spans.

Variable bound : Z.

Definition packed_body (context_word_dim : nat) (doc_ix : nat)
    (doc : ParagraphAndQuestion) (output : list (list bool))
    : result (list (list bool)) :=
  answer_spans ← answer_spans_of (answer doc);
  np_set_row_many doc_ix
    (to_packed_coordinates_np answer_spans (Z.of_nat context_word_dim) bound)
    true output.

Definition packed_size (context_word_dim : nat) : result Z :=
  let l := Z.of_nat context_word_dim in
  first ← np_get (to_packed_coordinates_np [((l - bound)%Z, (l - 1)%Z)] l bound) 0;
  inr (first + 1)%Z.

Definition PackedMultiSpanAnswerEncoder_arrays (batch_size : nat)
    (context_len : list Z) (context_word_dim : nat)
    (batch : list ParagraphAndQuestion) : result (nat * list (list bool)) :=
  sz ← packed_size context_word_dim;
  if decide (sz < 0)%Z then raise ValueError
  else
    let output := np_zeros2 false (length batch) (Z.to_nat sz) in
    output ← for_enumerate (packed_body context_word_dim) 0 batch output;
    inr (Z.to_nat sz, output).

Definition PackedMultiSpanAnswerEncoder_encode (batch_size : nat)
    (context_len : list Z) (context_word_dim : nat)
    (batch : list ParagraphAndQuestion) (g : RandomState)
    : result (feed_dict * RandomState) :=
  '(sz, output) ←
    PackedMultiSpanAnswerEncoder_arrays batch_size context_len context_word_dim batch;
  inr ({[ correct_spans_slot := BoolMat sz output ]}, g).

Definition PackedMultiSpanAnswerEncoder : AnswerEncoder :=
  mkAnswerEncoder PackedMultiSpanAnswerEncoder_encode.
End Packed.

(** ** The external collaborators of the document encoder *)

(** [str.lower()], on the ASCII letters that a Rocq string can hold. *)
Definition lower_ascii (c : ascii) : ascii :=
  let n := nat_of_ascii c in
  if (65 <=? n) && (n <=? 90) then ascii_of_nat (n + 32) else c.

Fixpoint lower (s : string) : string :=
  match s with
  | EmptyString => EmptyString
  | String c s' => String (lower_ascii c) (lower s')
  end.

(** [WordEmbedder]: the two lookups answer a negative number for a word out
    of the vocabulary; [get_placeholder] issues an id and may change the
    embedder's own state, of type [E]. *)
Record WordEmbedder (E : Type) : Type := mkWordEmbedder {
  question_word_to_ix : string -> Z;
  context_word_to_ix : string -> Z;
  get_placeholder : Z -> bool -> E -> Z * E
}.
Arguments question_word_to_ix {E} _ _.
Arguments context_word_to_ix {E} _ _.
Arguments get_placeholder {E} _ _ _ _.

Record CharEmbedder : Type := mkCharEmbedder {
  char_to_ix : ascii -> Z
}.

Record QaTextFeautrizer : Type := mkFeaturizer {
  n_question_features : nat;
  n_context_features : nat;
  get_features : list string -> list string -> list (list float) * list (list float)
}.

(** ** DocumentAndQuestionEncoder *)

(** The fields that [__init__] and [init] set and [encode] reads. *)
Record DocumentAndQuestionEncoder (E : Type) : Type := mkEncoder {
  answer_encoder : AnswerEncoder;
  sent_size_th : option nat;
  word_featurizer : option QaTextFeautrizer;
  word_embedder : option (WordEmbedder E);
  char_emb : option CharEmbedder;
  len_opt : bool;
  batch_size : option nat;
  max_context_word_dim : option nat;
  max_ques_word_dim : option nat;
  max_char_dim : nat
}.
Arguments answer_encoder {E} _.
Arguments sent_size_th {E} _.
Arguments word_featurizer {E} _.
Arguments word_embedder {E} _.
Arguments char_emb {E} _.
Arguments len_opt {E} _.
Arguments batch_size {E} _.
Arguments max_context_word_dim {E} _.
Arguments max_ques_word_dim {E} _.
Arguments max_char_dim {E} _.

(** The word and character buffers; a buffer is [None] when the embedder
    that fills it is not configured. *)
Record buffers : Type := mkBuffers {
  question_words : option (list (list Z));
  context_words : option (list (list Z));
  question_chars : option (list (list (list Z)));
  context_chars : option (list (list (list Z)))
}.

(** The state of the loop over one batch: the placeholder table of the
    current example, the embedder's state and the buffers. *)
Record fill_state (E : Type) : Type := mkFill {
  placeholders : gmap string Z;
  emb_state : E;
  bufs : buffers
}.
Arguments mkFill {E} _ _ _.
Arguments placeholders {E} _.
Arguments emb_state {E} _.
Arguments bufs {E} _.

(** [sum(len(s) for s in doc.context)] *)
Definition context_size (doc : ParagraphAndQuestion) : nat :=
  sum_list (length <$> context doc).

(** [sub[:k] = rows] on a feature buffer of width [nf]: numpy raises
    ValueError when the shapes differ (broadcasting of a one-row or one-column
    matrix, which a featurizer of fixed dimensionality never returns, is left
    out). *)
Definition assign_rows (nf : nat) (rows sub : list (list float))
    : result (list (list float)) :=
  if decide (length rows <= length sub /\ Forall (fun r => length r = nf) rows)
  then inr (rows ++ drop (length rows) sub)
  else raise ValueError.

(** The two sides of an example. *)
Inductive side : Type := QuestionSide | ContextSide.

#[global] Instance side_eq_dec : EqDecision side.
Proof. solve_decision. Defined.

Definition word_to_ix {E : Type} (sd : side) (we : WordEmbedder E) : string -> Z :=
  match sd with
  | QuestionSide => question_word_to_ix we
  | ContextSide => context_word_to_ix we
  end.

Definition words (sd : side) (b : buffers) : option (list (list Z)) :=
  match sd with
  | QuestionSide => question_words b
  | ContextSide => context_words b
  end.

Definition chars (sd : side) (b : buffers) : option (list (list (list Z))) :=
  match sd with
  | QuestionSide => question_chars b
  | ContextSide => context_chars b
  end.

Definition with_words (sd : side) (w : option (list (list Z))) (b : buffers) : buffers :=
  match sd with
  | QuestionSide => mkBuffers w (context_words b) (question_chars b) (context_chars b)
  | ContextSide => mkBuffers (question_words b) w (question_chars b) (context_chars b)
  end.

Definition with_chars (sd : side) (c : option (list (list (list Z)))) (b : buffers)
    : buffers :=
  match sd with
  | QuestionSide => mkBuffers (question_words b) (context_words b) c (context_chars b)
  | ContextSide => mkBuffers (question_words b) (context_words b) (question_chars b) c
  end.

Section Encode.
Context {E : Type}.
Variable self : DocumentAndQuestionEncoder E.
Variable is_train : bool.

(** The treatment of a looked-up id [ix] of [word]: an unknown word takes
    the id of its lowercased form in the table, or a new placeholder that is
    then recorded. *)
Definition resolve (we : WordEmbedder E) (word : string) (ix : Z)
    (table : gmap string Z) (e : E) : Z * gmap string Z * E :=
  if decide (ix < 0)%Z then
    let wl := lower word in
    match table !! wl with
    | Some ix' => (ix', table, e)
    | None =>
        let '(ix', e') := get_placeholder we ix is_train e in
        (ix', <[wl := ix']> table, e')
    end
  else (ix, table, e).

(** [for char_ix, char in enumerate(word)], with its [break]. *)
Fixpoint char_loop (ce : CharEmbedder) (doc_ix word_ix char_ix : nat)
    (chars : list ascii) (cube : option (list (list (list Z))))
    : result (option (list (list (list Z)))) :=
  match chars with
  | [] => inr cube
  | char :: chars' =>
      if decide (char_ix = max_char_dim self) then inr cube
      else
        cube' ← set_item3 doc_ix word_ix char_ix (char_to_ix ce char) cube;
        char_loop ce doc_ix word_ix (S char_ix) chars' cube'
  end.

Definition fill_chars (doc_ix word_ix : nat) (word : string)
    (chars : option (list (list (list Z)))) : result (option (list (list (list Z)))) :=
  match char_emb self with
  | None => inr chars
  | Some ce => char_loop ce doc_ix word_ix 0 (list_ascii_of_string word) chars
  end.

(** The body of the loop over the words of a question, and of the loop over
    the words of a context sentence after its [break]: encoder.py has the
    same statements twice, once with [question_word_to_ix], [question_words]
    and [question_chars] and once with the context's. *)
Definition word_body (sd : side) (doc_ix word_ix : nat) (word : string)
    (st : fill_state E) : result (fill_state E) :=
  st ←
    match word_embedder self with
    | None => inr st
    | Some we =>
        let ix := word_to_ix sd we word in
        let '(ix, table, e) := resolve we word ix (placeholders st) (emb_state st) in
        w ← set_item2 doc_ix word_ix ix (words sd (bufs st));
        inr (mkFill table e (with_words sd w (bufs st)))
    end;
  c ← fill_chars doc_ix word_ix word (chars sd (bufs st));
  inr (mkFill (placeholders st) (emb_state st) (with_chars sd c (bufs st))).

(** [for word in sent], with its [break] at [max_context_word_dim]; the
    counter [word_ix] runs over the whole context. *)
Fixpoint sentence_loop (doc_ix : nat) (sent : list string) (word_ix : nat)
    (st : fill_state E) : result (nat * fill_state E) :=
  match sent with
  | [] => inr (word_ix, st)
  | word :: sent' =>
      if decide (Some word_ix = max_context_word_dim self) then inr (word_ix, st)
      else
        st' ← word_body ContextSide doc_ix word_ix word st;
        sentence_loop doc_ix sent' (S word_ix) st'
  end.

(** [for sent_ix, sent in enumerate(doc.context)], with its [break] at
    [sent_size_th]. *)
Fixpoint context_loop (doc_ix : nat) (sents : list (list string))
    (sent_ix word_ix : nat) (st : fill_state E) : result (fill_state E) :=
  match sents with
  | [] => inr st
  | sent :: sents' =>
      if decide (Some sent_ix = sent_size_th self) then inr st
      else
        '(word_ix', st') ← sentence_loop doc_ix sent word_ix st;
        context_loop doc_ix sents' (S sent_ix) word_ix' st'
  end.

(** The body of the loop over the batch: a new placeholder table, the
    question, then the context. *)
Definition doc_body (doc_ix : nat) (doc : ParagraphAndQuestion)
    (st : fill_state E) : result (fill_state E) :=
  let st := mkFill ∅ (emb_state st) (bufs st) in
  st ← for_enumerate (word_body QuestionSide doc_ix) 0 (question doc) st;
  context_loop doc_ix (context doc) 0 0 st.
End Encode.

Definition feed_opt (s : slot) (a : option ndarray) (feed : feed_dict) : feed_dict :=
  match a with
  | Some x => <[s := x]> feed
  | None => feed
  end.

(** [l[:n]] where [n] may be [None]. *)
Definition slice_to {A : Type} (n : option nat) (l : list A) : list A :=
  match n with
  | Some k => take k l
  | None => l
  end.

Section EncodeBatch.
Context {E : Type}.
Variable self : DocumentAndQuestionEncoder E.
Variable is_train : bool.

(** Lines 225-230: the batch dimension of the buffers. *)
Definition padded_batch_size (batch : list ParagraphAndQuestion) : result nat :=
  let n := length batch in
  match batch_size self with
  | Some fixed => if decide (fixed < n) then raise ValueError else inr fixed
  | None => inr n
  end.

(** Lines 237-243: the context lengths and the context dimension. *)
Definition context_lengths (batch : list ParagraphAndQuestion)
    : result (list Z * option nat) :=
  match is_train, max_context_word_dim self with
  | true, Some context_word_dim =>
      inr ((fun doc => Z.of_nat (context_size doc `min` context_word_dim)) <$> batch,
           Some context_word_dim)
  | _, _ =>
      let context_len := (fun doc => Z.of_nat (context_size doc)) <$> batch in
      m ← np_max context_len;
      inr (context_len, Some (Z.to_nat m))
  end.

Definition question_lengths (batch : list ParagraphAndQuestion) : list Z :=
  (fun x => Z.of_nat (length (question x))) <$> batch.

(** Lines 258-272: the zero buffers. *)
Definition allocate (n context_word_dim ques_word_dim : nat) : buffers :=
  mkBuffers
    (match word_embedder self with
     | Some _ => Some (np_zeros2 0%Z n ques_word_dim) | None => None end)
    (match word_embedder self with
     | Some _ => Some (np_zeros2 0%Z n context_word_dim) | None => None end)
    (match char_emb self with
     | Some _ => Some (np_zeros3 0%Z n ques_word_dim (max_char_dim self))
     | None => None end)
    (match char_emb self with
     | Some _ => Some (np_zeros3 0%Z n context_word_dim (max_char_dim self))
     | None => None end).

(** The buffers are entered into the feed dict when they are allocated and
    filled afterwards; the dict holds the same array objects, so what it
    maps to at the return is the filled buffers. *)
Definition feed_buffers (context_word_dim ques_word_dim : nat) (b : buffers)
    (feed : feed_dict) : feed_dict :=
  feed_opt context_chars_slot
    (IntCube context_word_dim (max_char_dim self) <$> context_chars b)
    (feed_opt question_chars_slot
       (IntCube ques_word_dim (max_char_dim self) <$> question_chars b)
       (feed_opt question_words_slot (IntMat ques_word_dim <$> question_words b)
          (feed_opt context_words_slot (IntMat context_word_dim <$> context_words b)
             feed))).

(** Lines 327-331: the sentences up to [sent_size_th], concatenated. *)
Fixpoint truncated_context (sents : list (list string)) (sent_ix : nat)
    : list string :=
  match sents with
  | [] => []
  | sent :: sents' =>
      if decide (Some sent_ix = sent_size_th self) then []
      else sent ++ truncated_context sents' (S sent_ix)
  end.

Definition feature_body (f : QaTextFeautrizer) (doc_ix : nat)
    (doc : ParagraphAndQuestion)
    (st : list (list (list float)) * list (list (list float)))
    : result (list (list (list float)) * list (list (list float))) :=
  let '(question_word_features, context_word_features) := st in
  let '(q_f, c_f) :=
    get_features f (question doc)
      (slice_to (max_context_word_dim self) (truncated_context (context doc) 0)) in
  q_sub ← np_get question_word_features doc_ix;
  q_sub' ← assign_rows (n_question_features f) q_f q_sub;
  c_sub ← np_get context_word_features doc_ix;
  c_sub' ← assign_rows (n_context_features f) c_f c_sub;
  inr (<[doc_ix := q_sub']> question_word_features,
       <[doc_ix := c_sub']> context_word_features).

(** Lines 323-336. *)
Definition features (n context_word_dim ques_word_dim : nat)
    (batch : list ParagraphAndQuestion) (feed : feed_dict) : result feed_dict :=
  match word_featurizer self with
  | None => inr feed
  | Some f =>
      let question_word_features :=
        np_zeros3 0%float n ques_word_dim (n_question_features f) in
      let context_word_features :=
        np_zeros3 0%float n context_word_dim (n_context_features f) in
      '(qf, cf) ← for_enumerate (feature_body f) 0 batch
                    (question_word_features, context_word_features);
      inr (<[question_features_slot :=
               FloatCube ques_word_dim (n_question_features f) qf]>
             (<[context_features_slot :=
                  FloatCube context_word_dim (n_context_features f) cf]> feed))
  end.

(** [DocumentAndQuestionEncoder.encode(batch, is_train)], run from the
    embedder state [e] and the random state [g]. *)
Definition DocumentAndQuestionEncoder_encode (batch : list ParagraphAndQuestion)
    (e : E) (g : RandomState) : result (feed_dict * E * RandomState) :=
  n ← padded_batch_size batch;
  '(context_len, context_word_dim) ← context_lengths batch;
  let question_len := question_lengths batch in
  _ ← match max_ques_word_dim self with
      | Some ques_word_dim =>
          m ← np_max question_len;
          if decide (m > Z.of_nat ques_word_dim)%Z then raise ValueError else inr ()
      | None => inr ()
      end;
  let feed : feed_dict :=
    <[question_len_slot := IntVec question_len]>
      {[ context_len_slot := IntVec context_len ]} in
  ques_word_dim ← match max_ques_word_dim self with
                  | None => m ← np_max question_len; inr (Z.to_nat m)
                  | Some ques_word_dim => inr ques_word_dim
                  end;
  context_word_dim ← match context_word_dim with
                     | None => m ← np_max context_len; inr (Z.to_nat m)
                     | Some context_word_dim => inr context_word_dim
                     end;
  let b := allocate n context_word_dim ques_word_dim in
  st ← for_enumerate (doc_body self is_train) 0 batch (mkFill ∅ e b);
  let feed := feed_buffers context_word_dim ques_word_dim (bufs st) feed in
  '(answers, g') ← encode (answer_encoder self) n context_len context_word_dim batch g;
  let feed := answers ∪ feed in
  feed ← features n context_word_dim ques_word_dim batch feed;
  inr (feed, emb_state st, g').

(** ** CheatingEncoder *)

(** [context_words[doc_ix] = 0] *)
Definition zero_row (doc_ix : nat) (buf : option (list (list Z)))
    : result (list (list Z)) :=
  match buf with
  | None => raise TypeError
  | Some m => row ← np_get m doc_ix; inr (<[doc_ix := replicate (length row) 0%Z]> m)
  end.

(** [self._word_embedder.question_word_to_ix(w)] *)
Definition sentinel (w : string) : result Z :=
  match word_embedder self with
  | None => raise AttributeError
  | Some we => inr (question_word_to_ix we w)
  end.

(** [for i in range(s+1, e): context_words[doc_ix, i] = ...("a")] *)
Fixpoint interior_loop (doc_ix : nat) (positions : list Z) (cw : list (list Z))
    : result (list (list Z)) :=
  match positions with
  | [] => inr cw
  | i :: positions' =>
      a ← sentinel "a";
      cw' ← np_set2z doc_ix i a cw;
      interior_loop doc_ix positions' cw'
  end.

(** [for s, e in doc.answer.answer_spans] *)
Fixpoint cheat_spans (doc_ix : nat) (spans : list span) (cw : list (list Z))
    : result (list (list Z)) :=
  match spans with
  | [] => inr cw
  | (s, e) :: spans' =>
      what ← sentinel "what";
      cw ← np_set2z doc_ix s what cw;
      the ← sentinel "the";
      cw ← np_set2z doc_ix e the cw;
      cw ← interior_loop doc_ix (seqZ (s + 1) (e - (s + 1))) cw;
      cheat_spans doc_ix spans' cw
  end.

Definition cheat_body (doc_ix : nat) (doc : ParagraphAndQuestion)
    (buf : option (list (list Z))) : result (option (list (list Z))) :=
  cw ← zero_row doc_ix buf;
  match answer doc with
  | NoAnswer => inr (Some cw)
  | a =>
      spans ← answer_spans_of a;
      cw' ← cheat_spans doc_ix spans cw;
      inr (Some cw')
  end.

(** [CheatingEncoder.encode(batch, is_train)]; [self] is the encoder that
    [CheatingEncoder.__init__] builds around a DenseMultiSpanAnswerEncoder. *)
Definition CheatingEncoder_encode (batch : list ParagraphAndQuestion)
    (g : RandomState) : result (feed_dict * RandomState) :=
  n ← padded_batch_size batch;
  '(context_len, context_word_dim) ← context_lengths batch;
  let question_len := question_lengths batch in
  m ← np_max question_len;
  ques_word_dim ← match max_ques_word_dim self with
                  | None => raise TypeError
                  | Some ques_word_dim =>
                      if decide (m > Z.of_nat ques_word_dim)%Z then raise ValueError
                      else inr ques_word_dim
                  end;
  let feed : feed_dict :=
    <[question_len_slot := IntVec question_len]>
      {[ context_len_slot := IntVec context_len ]} in
  '(ques_word_dim, context_word_dim) ←
    (if len_opt self then
       cm ← np_max context_len;
       match context_word_dim with
       | None => raise TypeError
       | Some context_word_dim =>
           inr (ques_word_dim `min` Z.to_nat m, context_word_dim `min` Z.to_nat cm)
       end
     else
       match context_word_dim with
       | None => raise TypeError
       | Some context_word_dim => inr (ques_word_dim, context_word_dim)
       end);
  let b := allocate n context_word_dim ques_word_dim in
  cw ← for_enumerate cheat_body 0 batch (context_words b);
  let b := mkBuffers (question_words b) cw (question_chars b) (context_chars b) in
  let feed := feed_buffers context_word_dim ques_word_dim b feed in
  '(answers, g') ← encode (answer_encoder self) n context_len context_word_dim batch g;
  inr (answers ∪ feed, g').
End EncodeBatch.


(** ** Vocabulary of the statements *)

Definition next (g : RandomState) : RandomState :=
  mkRandomState (entropy g) (S (cursor g)).

Definition g_zero : RandomState := mkRandomState (fun _ => 0) 0.

(** The spans an answer offers to the single span encoder. *)
Definition offered_spans (a : Answer) : list span :=
  match a with
  | ParagraphSpans spans => spans
  | TriviaQaAnswer spans => spans
  | _ => []
  end.

(** The candidates that line 57 keeps: those that end before [limit]. *)
Definition survivors (limit : Z) (spans : list span) : list span :=
  filter (fun sp => span_survives limit sp = true) spans.

(** What the rows of the examples treated so far hold. *)
Definition single_span_row (context_len : list Z) (j : nat)
    (doc : ParagraphAndQuestion) (arr : list (list Z)) : Prop :=
  exists s e limit,
    arr !! j = Some [s; e] /\ context_len !! j = Some limit /\
    (s, e) ∈ offered_spans (answer doc) /\ (s <= e < limit)%Z.

(** The spans of an answer that has the attribute [answer_spans]. *)
Definition gold_spans (a : Answer) : list span :=
  match answer_spans_of a with
  | inr spans => spans
  | inl _ => []
  end.

(** The invariant of the data model on spans: [0 <= start <= end]. *)
Definition span_wf (sp : span) : Prop := (0 <= sp.1 <= sp.2)%Z.

Definition answer_wf (a : Answer) : Prop :=
  a = NoAnswer \/
  exists spans, answer_spans_of a = inr spans /\ Forall span_wf spans.

Definition kept (context_word_dim : nat) (spans : list span) : list span :=
  filter (fun sp : span => (sp.2 < Z.of_nat context_word_dim)%Z) spans.

(** The two masks of an example: position [j] of the start (end) mask is true
    exactly when [j] is the start (end) of a gold span that ends before
    [context_word_dim]. *)
Definition dense_row (context_word_dim : nat) (a : Answer) (srow erow : list bool) : Prop :=
  length srow = context_word_dim /\ length erow = context_word_dim /\
  forall j, j < context_word_dim ->
    (srow !! j = Some true <->
       exists sp, sp ∈ gold_spans a /\ (sp.2 < Z.of_nat context_word_dim)%Z /\
                  sp.1 = Z.of_nat j) /\
    (erow !! j = Some true <->
       exists sp, sp ∈ gold_spans a /\ (sp.2 < Z.of_nat context_word_dim)%Z /\
                  sp.2 = Z.of_nat j).

Definition all_false (n : nat) (row : list bool) : Prop := row = replicate n false.

(** The declared width of the packed target: the packed index of the last
    span, plus one. *)
Definition packed_width (pack : Z -> Z -> Z -> Z -> Z) (bound : Z)
    (context_word_dim : nat) : Z :=
  let l := Z.of_nat context_word_dim in
  (pack (l - bound) (l - 1) l bound + 1)%Z.

Definition packed_row (pack : Z -> Z -> Z -> Z -> Z) (bound : Z)
    (context_word_dim sz : nat) (doc : ParagraphAndQuestion) (row : list bool) : Prop :=
  length row = sz /\
  forall sp, sp ∈ gold_spans (answer doc) ->
    exists j, np_index sz (pack sp.1 sp.2 (Z.of_nat context_word_dim) bound) = inr j /\
              row !! j = Some true.

(** Modelled from the spec: [to_packed_coordinates_np] is not among the
    sources.  This packing, by span length and then by start, is one that
    meets the sizing identity of the spec (the index of the last span
    [(l - bound, l - 1)] is the number of bounded spans minus one); it serves
    to run the packed encoder on concrete inputs. *)
Definition pack_by_length (s e l bound : Z) : Z :=
  let len := (e - s)%Z in
  (s + l * len - len * (len - 1) / 2)%Z.

(** One cell of a character buffer: a cube is unchanged or one of its rows is
    replaced by a row of the same length. *)
Definition row_update {A : Type} (i j : nat) (c c' : list (list (list A))) : Prop :=
  c' = c \/
  exists plane row row', c !! i = Some plane /\ plane !! j = Some row /\
                         length row' = length row /\
                         c' = <[i := <[j := row']> plane]> c.

(** The placeholders of the answer encoders. *)
Definition answer_slot (s : slot) : Prop :=
  s = answer_spans_slot \/ s = answer_starts_slot \/ s = answer_ends_slot \/
  s = correct_spans_slot.

(** An answer encoder that feeds its own placeholders only. *)
Definition answer_encoder_ok (ae : AnswerEncoder) : Prop :=
  forall n cl dim batch g feed g',
    encode ae n cl dim batch g = inr (feed, g') ->
    forall s, is_Some (feed !! s) -> answer_slot s.

(** Lines 250-251: the two length arrays. *)
Definition base_feed (batch : list ParagraphAndQuestion) (cl : list Z) : feed_dict :=
  <[question_len_slot := IntVec (question_lengths batch)]>
    {[ context_len_slot := IntVec cl ]}.

(** The context buffers have [n] rows of [dim] positions, and the positions
    from [limit] on hold zeros. *)
Definition zero_tail (n dim d2 limit : nat) (b : buffers) : Prop :=
  (forall cw, context_words b = Some cw ->
     length cw = n /\
     forall i row, cw !! i = Some row ->
       length row = dim /\ forall j, limit <= j < dim -> row !! j = Some 0%Z) /\
  (forall cc, context_chars b = Some cc ->
     length cc = n /\
     forall i plane, cc !! i = Some plane ->
       length plane = dim /\
       forall j, limit <= j < dim -> plane !! j = Some (replicate d2 0%Z)).

(** The entry [buf[i, a]] of a word buffer. *)
Definition cell (buf : option (list (list Z))) (i a : nat) : option Z :=
  m ← buf; row ← m !! i; row !! a.

Definition fits (limit : option nat) (l : list string) : Prop :=
  match limit with
  | Some m => length l <= m
  | None => True
  end.

(** The words of the context that the loops reach: the sentences before
    [sent_size_th], cut at [max_context_word_dim] words. *)
Definition written_context {E : Type} (self : DocumentAndQuestionEncoder E)
    (doc : ParagraphAndQuestion) : list string :=
  slice_to (max_context_word_dim self) (truncated_context self (context doc) 0).

Definition unknown {E : Type} (we : WordEmbedder E) (sd : side) (w : string) : Prop :=
  (word_to_ix sd we w < 0)%Z.

(** In row [i], every unknown word of [ws] holds the id that the table gives
    to its lowercased form. *)
Definition consistent {E : Type} (we : WordEmbedder E) (table : gmap string Z)
    (sd : side) (ws : list string) (i : nat) (b : buffers) : Prop :=
  forall a w, ws !! a = Some w -> unknown we sd w ->
    exists v, cell (words sd b) i a = Some v /\ table !! lower w = Some v.

(** The invariant of the loops over one example [i]: the rows of the other
    examples are those of the buffers [b0] at the start, and the words treated
    so far are consistent with the table. *)
Definition doc_inv {E : Type} (we : WordEmbedder E) (b0 : buffers) (i : nat)
    (qdone cdone : list string) (st : fill_state E) : Prop :=
  (forall sd i' a, i' <> i ->
     cell (words sd (bufs st)) i' a = cell (words sd b0) i' a) /\
  consistent we (placeholders st) QuestionSide qdone i (bufs st) /\
  consistent we (placeholders st) ContextSide cdone i (bufs st).

(** An unknown word of the question or of the written context of [doc], with
    the id [v] that the row of the example holds at its position. *)
Definition occurrence {E : Type} (self : DocumentAndQuestionEncoder E)
    (we : WordEmbedder E) (doc : ParagraphAndQuestion) (qrow crow : list Z)
    (w : string) (v : Z) : Prop :=
  (exists a, question doc !! a = Some w /\ (question_word_to_ix we w < 0)%Z /\
             qrow !! a = Some v) \/
  (exists a, written_context self doc !! a = Some w /\
             (context_word_to_ix we w < 0)%Z /\ crow !! a = Some v).








(** ** Concrete encoders for the examples *)

(** A word embedder with the vocabulary [the], [what], [a]; placeholders are
    numbered by a counter, which is the embedder's state. *)
Definition vocabulary (w : string) : Z :=
  if decide (w = "the"%string) then 5%Z
  else if decide (w = "what"%string) then 6%Z
  else if decide (w = "a"%string) then 7%Z
  else (-1)%Z.

Definition counting_embedder : WordEmbedder Z :=
  mkWordEmbedder Z vocabulary vocabulary (fun _ _ e => (e, (e + 1)%Z)).

(** An encoder with a fixed batch size of 2, at most 3 context words and at
    most 2 question words, and the single span answer encoder. *)
Definition small_encoder : DocumentAndQuestionEncoder Z :=
  mkEncoder Z SingleSpanAnswerEncoder None None (Some counting_embedder) None false
    (Some 2) (Some 3) (Some 2) 1.

Definition foo_doc : ParagraphAndQuestion :=
  mkDoc ["Foo"%string; "foo"%string]
    [["the"%string; "FOO"%string]; ["bar"%string; "x"%string; "y"%string]]
    (ParagraphSpans [(0, 1)%Z]).


Definition marked_doc : ParagraphAndQuestion :=
  mkDoc ["the"%string] [["the"%string; "a"%string; "b"%string; "c"%string]]
    (TriviaQaAnswer [(0, 1)%Z]).

(** ** The word arrays as lists *)

(** The ids of a sequence of words, looked up one after the other from the
    table and the embedder state at hand: the treatment of lines 279-286
    (question) and 303-310 (context), without the arrays. *)
Fixpoint resolve_words {E : Type} (is_train : bool) (we : WordEmbedder E) (sd : side)
    (ws : list string) (table : gmap string Z) (e : E)
    : list Z * gmap string Z * E :=
  match ws with
  | [] => ([], table, e)
  | w :: ws' =>
      let '(ix, table1, e1) := resolve is_train we w (word_to_ix sd we w) table e in
      let '(ids, table2, e2) := resolve_words is_train we sd ws' table1 e1 in
      (ix :: ids, table2, e2)
  end.

(** The ids of the question and of the written context of one example, from
    an empty table, and the embedder state after it. *)
Definition example_ids {E : Type} (self : DocumentAndQuestionEncoder E)
    (is_train : bool) (we : WordEmbedder E) (doc : ParagraphAndQuestion) (e : E)
    : list Z * list Z * E :=
  let '(qids, table, e1) := resolve_words is_train we QuestionSide (question doc) ∅ e in
  let '(cids, _, e2) :=
    resolve_words is_train we ContextSide (written_context self doc) table e1 in
  (qids, cids, e2).

(** The same over a batch, the embedder state passed from one example to the
    next. *)
Fixpoint batch_ids {E : Type} (self : DocumentAndQuestionEncoder E)
    (is_train : bool) (we : WordEmbedder E) (batch : list ParagraphAndQuestion) (e : E)
    : list (list Z * list Z) * E :=
  match batch with
  | [] => ([], e)
  | doc :: batch' =>
      let '(qids, cids, e1) := example_ids self is_train we doc e in
      let '(rows, e2) := batch_ids self is_train we batch' e1 in
      ((qids, cids) :: rows, e2)
  end.

(** A row of [d] positions: the ids, then zeros. *)
Definition pad_row (d : nat) (ids : list Z) : list Z :=
  ids ++ replicate (d - length ids) 0%Z.

(** An array of [n] rows: the padded rows, then rows of zeros. *)
Definition pad_rows (n d : nat) (rows : list (list Z)) : list (list Z) :=
  (pad_row d <$> rows) ++ replicate (n - length rows) (replicate d 0%Z).

(** [row[:len(ids)] = ids] *)
Definition overwrite_prefix (ids : list Z) (row : list Z) : list Z :=
  ids ++ drop (length ids) row.

(** Shapes. *)
Definition mat_shape {A : Type} (n d : nat) (m : list (list A)) : Prop :=
  length m = n /\ Forall (fun row => length row = d) m.

Definition cube_shape {A : Type} (n d1 d2 : nat) (c : list (list (list A))) : Prop :=
  length c = n /\ Forall (mat_shape d1 d2) c.

(** The buffers of an encoder: present exactly when their embedder is, with
    [n] rows, [qdim] question and [dim] context positions. *)
Definition bufs_shape {E : Type} (self : DocumentAndQuestionEncoder E)
    (n dim qdim : nat) (b : buffers) : Prop :=
  match word_embedder self with
  | Some _ =>
      exists qw cw, question_words b = Some qw /\ context_words b = Some cw /\
                    mat_shape n qdim qw /\ mat_shape n dim cw
  | None => question_words b = None /\ context_words b = None
  end /\
  match char_emb self with
  | Some _ =>
      exists qc cc, question_chars b = Some qc /\ context_chars b = Some cc /\
                    cube_shape n qdim (max_char_dim self) qc /\
                    cube_shape n dim (max_char_dim self) cc
  | None => question_chars b = None /\ context_chars b = None
  end.

(** The dimension of a side. *)
Definition side_dim (sd : side) (dim qdim : nat) : nat :=
  match sd with
  | QuestionSide => qdim
  | ContextSide => dim
  end.

(** The invariant of the loops over example [i], in terms of the ids: the
    question row and the context row of the example are the rows [qrow0] and
    [crow0] of the buffers [qw0], [cw0] at the start with the ids of the words
    treated so far over their first positions; the table and the embedder
    state are those after these words. *)
Definition fill_inv {E : Type} (is_train : bool) (we : WordEmbedder E) (e0 : E)
    (i : nat) (qw0 cw0 : list (list Z)) (qrow0 crow0 : list Z)
    (qdone cdone : list string) (st : fill_state E) : Prop :=
  let rq := resolve_words is_train we QuestionSide qdone ∅ e0 in
  let rc := resolve_words is_train we ContextSide cdone rq.1.2 rq.2 in
  question_words (bufs st) = Some (<[i := overwrite_prefix rq.1.1 qrow0]> qw0) /\
  context_words (bufs st) = Some (<[i := overwrite_prefix rc.1.1 crow0]> cw0) /\
  placeholders st = rc.1.2 /\ emb_state st = rc.2.

(** The invariant of the loop over the batch: the rows of the examples
    treated so far hold their padded ids, the other rows are zero, and the
    embedder state is the one after these examples. *)
Definition batch_inv {E : Type} (self : DocumentAndQuestionEncoder E)
    (is_train : bool) (we : WordEmbedder E) (e0 : E) (n dim qdim : nat)
    (done : list ParagraphAndQuestion) (st : fill_state E) : Prop :=
  let r := batch_ids self is_train we done e0 in
  question_words (bufs st) = Some (pad_rows n qdim (r.1.*1)) /\
  context_words (bufs st) = Some (pad_rows n dim (r.1.*2)) /\
  emb_state st = r.2 /\
  bufs_shape self n dim qdim (bufs st).

(** ** A second concrete encoder *)

(** Characters by their ASCII code. *)
Definition ascii_embedder : CharEmbedder :=
  mkCharEmbedder (fun c => Z.of_nat (nat_of_ascii c)).

(** An encoder with word and character arrays, no fixed dimension, one
    sentence per context and two characters per word. *)
Definition char_encoder : DocumentAndQuestionEncoder Z :=
  mkEncoder Z SingleSpanAnswerEncoder (Some 1) None (Some counting_embedder)
    (Some ascii_embedder) false None None None 2.

(** ** The character arrays as lists *)

(** The ids of the characters of a word that are written: those of its first
    [max_char_dim] characters (the [break] of lines 291 and 315). *)
Definition char_ids (ce : CharEmbedder) (max_char_dim : nat) (w : string) : list Z :=
  char_to_ix ce <$> take max_char_dim (list_ascii_of_string w).

(** A cube of [n] planes: the padded planes, then planes of zeros. *)
Definition pad_planes (n d1 d2 : nat) (planes : list (list (list Z)))
    : list (list (list Z)) :=
  (pad_rows d1 d2 <$> planes) ++ replicate (n - length planes) (pad_rows d1 d2 []).

(** The words of the questions and of the written contexts of a batch as
    lists of character ids. *)
Definition question_char_ids {E : Type} (self : DocumentAndQuestionEncoder E)
    (ce : CharEmbedder) (batch : list ParagraphAndQuestion) : list (list (list Z)) :=
  (fun doc => char_ids ce (max_char_dim self) <$> question doc) <$> batch.

Definition context_char_ids {E : Type} (self : DocumentAndQuestionEncoder E)
    (ce : CharEmbedder) (batch : list ParagraphAndQuestion) : list (list (list Z)) :=
  (fun doc => char_ids ce (max_char_dim self) <$> written_context self doc) <$> batch.

(** ** The placeholders of the document encoder *)

(** [DocumentAndQuestionEncoder.get_placeholders()] after [init]: [init]
    creates the four length and word placeholders always, the two character
    placeholders when there is a character embedder and the two feature
    placeholders when there is a word featurizer; [answer_placeholders] is
    what [self.answer_encoder.get_placeholders()] returns. *)
Definition get_placeholders {E : Type} (self : DocumentAndQuestionEncoder E)
    (answer_placeholders : list slot) : list slot :=
  let question_len := Some question_len_slot in
  let question_words := Some question_words_slot in
  let question_chars :=
    match char_emb self with Some _ => Some question_chars_slot | None => None end in
  let question_features :=
    match word_featurizer self with
    | Some _ => Some question_features_slot | None => None end in
  let context_len := Some context_len_slot in
  let context_words := Some context_words_slot in
  let context_chars :=
    match char_emb self with Some _ => Some context_chars_slot | None => None end in
  let context_features :=
    match word_featurizer self with
    | Some _ => Some context_features_slot | None => None end in
  omap id [question_len; question_words; question_chars; question_features;
           context_len; context_words; context_chars; context_features]
  ++ answer_placeholders.

(** [get_placeholders] of the three answer encoders after [init]. *)
Definition SingleSpanAnswerEncoder_get_placeholders : list slot :=
  [answer_spans_slot].
Definition DenseMultiSpanAnswerEncoder_get_placeholders : list slot :=
  [answer_starts_slot; answer_ends_slot].
Definition PackedMultiSpanAnswerEncoder_get_placeholders : list slot :=
  [correct_spans_slot].

(** ** QuestionEncoder *)

Module QuestionEncoder.

(** The fields that [init] sets and [encode] reads. *)
Record t (E : Type) : Type := mk {
  _word_embedder : option (WordEmbedder E);
  _char_emb : option CharEmbedder;
  _max_char_dim : nat
}.
Arguments _word_embedder {E} _.
Arguments _char_emb {E} _.
Arguments _max_char_dim {E} _.

Section Encode.
Context {E : Type}.
Variable self : t E.

(** [for char_ix, char in enumerate(word)], with its [break]. *)
Fixpoint char_loop (ce : CharEmbedder) (question_ix word_ix char_ix : nat)
  (chars : list ascii) (question_chars : option (list (list (list Z))))
  : result (option (list (list (list Z)))) :=
match chars with
| [] => inr question_chars
| char :: chars' =>
    if decide (char_ix = _max_char_dim self) then inr question_chars
    else
      question_chars ←
        set_item3 question_ix word_ix char_ix (char_to_ix ce char) question_chars;
      char_loop ce question_ix word_ix (S char_ix) chars' question_chars
end.

(** The body of [for word_ix, word in enumerate(question)]: an unknown word
  raises ValueError before anything of the word is written. *)
Definition word_body (question_ix word_ix : nat) (word : string)
  (st : option (list (list Z)) * option (list (list (list Z))))
  : result (option (list (list Z)) * option (list (list (list Z)))) :=
let '(question_words, question_chars) := st in
question_words ←
  match _word_embedder self with
  | None => inr question_words
  | Some we =>
      let ix := question_word_to_ix we word in
      if decide (ix < 0)%Z then raise ValueError
      else set_item2 question_ix word_ix ix question_words
  end;
question_chars ←
  match _char_emb self with
  | None => inr question_chars
  | Some ce =>
      char_loop ce question_ix word_ix 0 (list_ascii_of_string word) question_chars
  end;
inr (question_words, question_chars).

(** The body of [for question_ix, question in enumerate(batch)]. *)
Definition question_body (question_ix : nat) (question : list string)
  (st : option (list (list Z)) * option (list (list (list Z))))
  : result (option (list (list Z)) * option (list (list (list Z)))) :=
for_enumerate (word_body question_ix) 0 question st.

(** [QuestionEncoder.encode(batch, is_train)]; [is_train] is not read. *)
Definition encode (batch : list (list string)) (is_train : bool) : result feed_dict :=
let max_char_dim := _max_char_dim self in
let n_questions := length batch in
let question_len := (fun q => Z.of_nat (length q)) <$> batch in
let feed : feed_dict := {[ question_len_slot := IntVec question_len ]} in
m ← np_max question_len;
let ques_word_dim := Z.to_nat m in
let question_words :=
  match _word_embedder self with
  | Some _ => Some (np_zeros2 0%Z n_questions ques_word_dim)
  | None => None
  end in
let question_chars :=
  match _char_emb self with
  | Some _ => Some (np_zeros3 0%Z n_questions ques_word_dim max_char_dim)
  | None => None
  end in
'(question_words, question_chars) ←
  for_enumerate question_body 0 batch (question_words, question_chars);
inr (feed_opt question_chars_slot
       (IntCube ques_word_dim max_char_dim <$> question_chars)
       (feed_opt question_words_slot (IntMat ques_word_dim <$> question_words) feed)).
End Encode.

(** [get_placeholders()] after [init]. *)
Definition get_placeholders {E : Type} (self : t E) : list slot :=
  omap id [Some question_len_slot; Some question_words_slot;
           match _char_emb self with Some _ => Some question_chars_slot | None => None end].

End QuestionEncoder.

(** ** MultiContextAndQuestionEncoder *)

Module MultiContextAndQuestionEncoder.

(** The field that [init] sets and [encode] reads.  The contexts of an
    example are the paragraphs [doc.context], each a list of words. *)
Record t (E : Type) : Type := mk {
  _word_embedder : option (WordEmbedder E)
}.
Arguments _word_embedder {E} _.

(** The state of the loop over the batch. *)
Record loop_state (E : Type) : Type := mkLoop {
  placeholders : gmap string Z;
  emb_state : E;
  question_words : option (list (list Z));
  context_words : option (list (list (list Z)))
}.
Arguments mkLoop {E} _ _ _ _.
Arguments placeholders {E} _.
Arguments emb_state {E} _.
Arguments question_words {E} _.
Arguments context_words {E} _.

(** [context_len[ix, :len(c)] = [len(s) for s in c]]: numpy raises ValueError
    when the slice and the list differ in length (the stretching of a list of
    one element is not modelled; [para_dim] is the maximum of the [len(c)],
    so that the two lengths agree in [encode]). *)
Definition context_len_body (ix : nat) (c : list (list string))
    (context_len : list (list Z)) : result (list (list Z)) :=
  row ← np_get context_len ix;
  let lens := (fun s => Z.of_nat (length s)) <$> c in
  if decide (length (take (length c) row) = length lens) then
    inr (<[ix := lens ++ drop (length c) row]> context_len)
  else raise ValueError.

Section Encode.
Context {E : Type}.
Variable self : t E.
Variable is_train : bool.

(** The body of [for word_ix, word in enumerate(doc.question)]. *)
Definition question_word_body (doc_ix word_ix : nat) (word : string)
  (st : loop_state E) : result (loop_state E) :=
match _word_embedder self with
| None => inr st
| Some we =>
    let ix := question_word_to_ix we word in
    let '(ix, table, e) := resolve is_train we word ix (placeholders st) (emb_state st) in
    question_words ← set_item2 doc_ix word_ix ix (question_words st);
    inr (mkLoop table e question_words (context_words st))
end.

(** The body of [for word_ix, word in enumerate(para)]: an unknown context
  word raises ValueError. *)
Definition context_word_body (doc_ix para_ix word_ix : nat) (word : string)
  (context_words : option (list (list (list Z))))
  : result (option (list (list (list Z)))) :=
match _word_embedder self with
| None => inr context_words
| Some we =>
    let ix := context_word_to_ix we word in
    if decide (ix < 0)%Z then raise ValueError
    else set_item3 doc_ix para_ix word_ix ix context_words
end.

(** The body of [for para_ix, para in enumerate(contexts[doc_ix])]. *)
Definition para_body (doc_ix para_ix : nat) (para : list string)
  (context_words : option (list (list (list Z))))
  : result (option (list (list (list Z)))) :=
for_enumerate (context_word_body doc_ix para_ix) 0 para context_words.

(** The body of [for doc_ix, doc in enumerate(batch)]. *)
Definition doc_body (doc_ix : nat) (doc : ParagraphAndQuestion) (st : loop_state E)
  : result (loop_state E) :=
let st := mkLoop ∅ (emb_state st) (question_words st) (context_words st) in
st ← for_enumerate (question_word_body doc_ix) 0 (question doc) st;
context_words ← for_enumerate (para_body doc_ix) 0 (context doc) (context_words st);
inr (mkLoop (placeholders st) (emb_state st) (question_words st) context_words).

(** [MultiContextAndQuestionEncoder.encode(batch, is_train)], run from the
  embedder state [e].  Python's [max] of an empty sequence raises
  ValueError, as numpy's [max] of an array without elements does. *)
Definition encode (batch : list ParagraphAndQuestion) (e : E)
  : result (feed_dict * E) :=
let batch_size := length batch in
let contexts := context <$> batch in
para_dim ← np_max ((fun c => Z.of_nat (length c)) <$> contexts);
let para_dim := Z.to_nat para_dim in
let context_len := np_zeros2 0%Z batch_size para_dim in
context_len ← for_enumerate context_len_body 0 contexts context_len;
context_word_dim ← np_max (concat context_len);
let context_word_dim := Z.to_nat context_word_dim in
let question_len := (fun x => Z.of_nat (length (question x))) <$> batch in
question_word_dim ← np_max question_len;
let question_word_dim := Z.to_nat question_word_dim in
let feed : feed_dict :=
  <[question_len_slot := IntVec question_len]>
    {[ context_len_slot := IntMat para_dim context_len ]} in
let st0 :=
  match _word_embedder self with
  | Some _ =>
      mkLoop ∅ e (Some (np_zeros2 0%Z batch_size question_word_dim))
        (Some (np_zeros3 0%Z batch_size para_dim context_word_dim))
  | None => mkLoop ∅ e None None
  end in
st ← for_enumerate doc_body 0 batch st0;
inr (feed_opt question_words_slot (IntMat question_word_dim <$> question_words st)
       (feed_opt context_words_slot
          (IntCube para_dim context_word_dim <$> context_words st) feed),
     emb_state st).
End Encode.

End MultiContextAndQuestionEncoder.

(** ** Concrete instances of the two encoders *)

Definition question_encoder : QuestionEncoder.t Z :=
  QuestionEncoder.mk Z (Some counting_embedder) (Some ascii_embedder) 2.

Definition multi_encoder : MultiContextAndQuestionEncoder.t Z :=
  MultiContextAndQuestionEncoder.mk Z (Some counting_embedder).

(** ** Vocabulary for the two encoders *)

(** A word that [QuestionEncoder.encode] accepts: its id is not negative, or
    there is no word embedder to ask. *)
Definition question_word_known {E : Type} (self : QuestionEncoder.t E) (w : string)
    : bool :=
  match QuestionEncoder._word_embedder self with
  | Some we => bool_decide (0 <= question_word_to_ix we w)%Z
  | None => true
  end.

(** The two arrays of [QuestionEncoder.encode] after the questions [qs], for
    [n] questions of at most [qdim] words. *)
Definition question_word_rows {E : Type} (self : QuestionEncoder.t E) (n qdim : nat)
    (qs : list (list string)) : option (list (list Z)) :=
  match QuestionEncoder._word_embedder self with
  | Some we => Some (pad_rows n qdim ((fun q : list string => question_word_to_ix we <$> q) <$> qs))
  | None => None
  end.

Definition question_char_planes {E : Type} (self : QuestionEncoder.t E) (n qdim : nat)
    (qs : list (list string)) : option (list (list (list Z))) :=
  match QuestionEncoder._char_emb self with
  | Some ce =>
      Some (pad_planes n qdim (QuestionEncoder._max_char_dim self)
              ((fun q : list string =>
                  char_ids ce (QuestionEncoder._max_char_dim self) <$> q) <$> qs))
  | None => None
  end.

(** The longest list of a batch. *)
Definition max_length {A : Type} (l : list (list A)) : nat :=
  max_list (length <$> l).

(** A context word that [MultiContextAndQuestionEncoder.encode] accepts. *)
Definition context_word_known {E : Type} (self : MultiContextAndQuestionEncoder.t E)
    (w : string) : bool :=
  match MultiContextAndQuestionEncoder._word_embedder self with
  | Some we => bool_decide (0 <= context_word_to_ix we w)%Z
  | None => true
  end.

(** The ids of the questions of a batch, each looked up from an empty table,
    the embedder state passed from one question to the next. *)
Fixpoint question_ids {E : Type} (is_train : bool) (we : WordEmbedder E)
    (batch : list ParagraphAndQuestion) (e : E) : list (list Z) * E :=
  match batch with
  | [] => ([], e)
  | doc :: batch' =>
      let '(ids, _, e1) := resolve_words is_train we QuestionSide (question doc) ∅ e in
      let '(rows, e2) := question_ids is_train we batch' e1 in
      (ids :: rows, e2)
  end.

(** The number of words of the paragraphs of an example. *)
Definition paragraph_lengths (doc : ParagraphAndQuestion) : list Z :=
  (fun s => Z.of_nat (length s)) <$> context doc.

(** The ids of the paragraphs of an example. *)
Definition paragraph_ids {E : Type} (we : WordEmbedder E) (doc : ParagraphAndQuestion)
    : list (list Z) :=
  (fun para : list string => context_word_to_ix we <$> para) <$> context doc.

(** The row of an example in the packed target of width [sz]: the answer has
    spans, each packed index is an index of the row, and the entries that are
    true are those at the packed index of a span. *)
Definition packed_exact_row (pack : Z -> Z -> Z -> Z -> Z) (bound : Z)
    (context_word_dim sz : nat) (doc : ParagraphAndQuestion) (row : list bool) : Prop :=
  exists spans,
    answer_spans_of (answer doc) = inr spans /\ length row = sz /\
    (forall sp, sp ∈ spans ->
       (- Z.of_nat sz <= pack sp.1 sp.2 (Z.of_nat context_word_dim) bound
        < Z.of_nat sz)%Z) /\
    forall j, row !! j = Some true <->
      exists sp, sp ∈ spans /\
        np_index sz (pack sp.1 sp.2 (Z.of_nat context_word_dim) bound) = inr j.

(** The two masks of an example, in terms of numpy's indexing: an entry is
    true exactly when its position is the start (end), wrapped when
    negative, of a gold span that ends before [context_word_dim]. *)
Definition dense_exact_row (context_word_dim : nat) (a : Answer)
    (srow erow : list bool) : Prop :=
  length srow = context_word_dim /\ length erow = context_word_dim /\
  forall j,
    (srow !! j = Some true <->
     exists sp, sp ∈ kept context_word_dim (gold_spans a) /\
                np_index context_word_dim sp.1 = inr j) /\
    (erow !! j = Some true <->
     exists sp, sp ∈ kept context_word_dim (gold_spans a) /\
                np_index context_word_dim sp.2 = inr j).

(** An answer that [DenseMultiSpanAnswerEncoder.encode] gets through at
    position [i] of the batch: [None], or an object with spans, at a row of
    the arrays, whose kept spans are indices of a row. *)
Definition dense_accepts (batch_size context_word_dim : nat) (i : nat) (a : Answer)
    : Prop :=
  a = NoAnswer \/
  (i < batch_size /\
   exists spans, answer_spans_of a = inr spans /\
     forall sp, sp ∈ kept context_word_dim spans ->
       (- Z.of_nat context_word_dim <= sp.1 < Z.of_nat context_word_dim)%Z /\
       (- Z.of_nat context_word_dim <= sp.2)%Z).

(** ** The feature arrays as lists *)

(** The feature rows of the words of one example, then rows of zeros up to
    [d] words. *)
Definition feature_plane (d nf : nat) (rows : list (list float)) : list (list float) :=
  rows ++ replicate (d - length rows) (replicate nf 0%float).

(** One plane per example, then planes of zeros up to [n] examples. *)
Definition feature_cube (n d nf : nat) (planes : list (list (list float)))
    : list (list (list float)) :=
  (feature_plane d nf <$> planes) ++ replicate (n - length planes) (feature_plane d nf []).

(** What the featurizer returns on an example. *)
Definition example_features {E : Type} (self : DocumentAndQuestionEncoder E)
    (f : QaTextFeautrizer) (doc : ParagraphAndQuestion)
    : list (list float) * list (list float) :=
  get_features f (question doc) (written_context self doc).

(** The featurizer returns, on an example, at most [qdim] and [dim] rows of
    the widths that it declares. *)
Definition features_fit {E : Type} (self : DocumentAndQuestionEncoder E)
    (f : QaTextFeautrizer) (dim qdim : nat) (doc : ParagraphAndQuestion) : Prop :=
  length (example_features self f doc).1 <= qdim /\
  Forall (fun r => length r = n_question_features f) (example_features self f doc).1 /\
  length (example_features self f doc).2 <= dim /\
  Forall (fun r => length r = n_context_features f) (example_features self f doc).2.

(** A featurizer with one question feature and two context features per
    word, and an encoder that uses it. *)
Definition length_featurizer : QaTextFeautrizer :=
  mkFeaturizer 1 2
    (fun q c => ((fun _ => [1%float]) <$> q, (fun _ => [1%float; 2%float]) <$> c)).

Definition featurizing_encoder : DocumentAndQuestionEncoder Z :=
  mkEncoder Z SingleSpanAnswerEncoder None (Some length_featurizer)
    (Some counting_embedder) None false (Some 2) (Some 3) (Some 2) 1.

(** ** Ranges of the stored values *)

(** An integer that an int32 array holds as it is: numpy's conversion of a
    value outside this range does not keep it. *)
Definition int32 (z : Z) : bool := (- 2 ^ 31 <=? z)%Z && (z <? 2 ^ 31)%Z.

Definition int32_row (row : list Z) : bool := forallb int32 row.

Definition int32_rows (rows : list (list Z)) : bool := forallb int32_row rows.

(** A character embedder with ids in the int32 range. *)
Definition int32_chars (ce : CharEmbedder) : Prop :=
  forall c, int32 (char_to_ix ce c) = true.

(** The spans that the examples of a batch offer have coordinates in the
    int32 range. *)
Definition int32_spans (batch : list ParagraphAndQuestion) : bool :=
  forallb (fun doc =>
             forallb (fun sp : span => int32 sp.1 && int32 sp.2)
               (offered_spans (answer doc))) batch.

(** A word of ASCII characters.  A Python string is a sequence of code
    points and a Rocq string a sequence of bytes; on an ASCII word the two
    are the same sequence, and [lower] is [str.lower()]. *)
Definition ascii_char (c : ascii) : bool := nat_of_ascii c <? 128.

Definition ascii_word (w : string) : bool :=
  forallb ascii_char (list_ascii_of_string w).

Definition ascii_words (ws : list string) : bool := forallb ascii_word ws.

Definition ascii_example (doc : ParagraphAndQuestion) : bool :=
  ascii_words (question doc) && forallb ascii_words (context doc).

Definition ascii_batch (batch : list ParagraphAndQuestion) : bool :=
  forallb ascii_example batch.

(** ** The draws of the single span encoder *)

(** The spans among which the draw of an example selects (lines 53 and
    57-60): all spans of a ParagraphSpans, the spans of a TriviaQaAnswer that
    end before [limit]. *)
Definition selectable (limit : Z) (a : Answer) : list span :=
  match a with
  | ParagraphSpans spans => spans
  | TriviaQaAnswer spans => survivors limit spans
  | _ => []
  end.

(** The position among [n] candidates that draw number [k] after the
    generator state [g] selects. *)
Definition drawn (g : RandomState) (k n : nat) : nat :=
  entropy g (cursor g + k) mod n.

(** The generator state after [k] draws. *)
Definition advance (k : nat) (g : RandomState) : RandomState :=
  mkRandomState (entropy g) (cursor g + k).

(** ** The word ids of a batch, written out *)

(** The ids that lines 279-288 (question) and 303-312 (context) store for a
    sequence of words, with the placeholder table and the embedder state
    after them: a word with an id that is not negative keeps it; an unknown
    word takes the id that the table has for its lowercased form, or else a
    new placeholder, which the table then holds. *)
Fixpoint word_ids {E : Type} (is_train : bool) (we : WordEmbedder E) (sd : side)
    (ws : list string) (table : gmap string Z) (e : E)
    : list Z * gmap string Z * E :=
  match ws with
  | [] => ([], table, e)
  | word :: ws' =>
      let ix := word_to_ix sd we word in
      if decide (ix < 0)%Z then
        let wl := lower word in
        match table !! wl with
        | Some ix' =>
            let '(ids, table', e') := word_ids is_train we sd ws' table e in
            (ix' :: ids, table', e')
        | None =>
            let '(ix', e1) := get_placeholder we ix is_train e in
            let '(ids, table', e') :=
              word_ids is_train we sd ws' (<[wl := ix']> table) e1 in
            (ix' :: ids, table', e')
        end
      else
        let '(ids, table', e') := word_ids is_train we sd ws' table e in
        (ix :: ids, table', e')
  end.

(** The ids of the question and of the written context of one example, from
    an empty table (line 275), and the embedder state after them. *)
Definition example_word_ids {E : Type} (self : DocumentAndQuestionEncoder E)
    (is_train : bool) (we : WordEmbedder E) (doc : ParagraphAndQuestion) (e : E)
    : list Z * list Z * E :=
  let '(qids, table, e1) := word_ids is_train we QuestionSide (question doc) ∅ e in
  let '(cids, _, e2) :=
    word_ids is_train we ContextSide (written_context self doc) table e1 in
  (qids, cids, e2).

(** The same over a batch: the question rows, the context rows and the
    embedder state after the batch. *)
Fixpoint batch_word_ids {E : Type} (self : DocumentAndQuestionEncoder E)
    (is_train : bool) (we : WordEmbedder E) (batch : list ParagraphAndQuestion) (e : E)
    : list (list Z) * list (list Z) * E :=
  match batch with
  | [] => ([], [], e)
  | doc :: batch' =>
      let '(qids, cids, e1) := example_word_ids self is_train we doc e in
      let '(qrows, crows, e2) := batch_word_ids self is_train we batch' e1 in
      (qids :: qrows, cids :: crows, e2)
  end.

(** The ids of the questions of a batch as
    [MultiContextAndQuestionEncoder.encode] stores them (lines 406-418): each
    question from an empty table, the embedder state passed on. *)
Fixpoint question_word_ids {E : Type} (is_train : bool) (we : WordEmbedder E)
    (batch : list ParagraphAndQuestion) (e : E) : list (list Z) * E :=
  match batch with
  | [] => ([], e)
  | doc :: batch' =>
      let '(ids, _, e1) := word_ids is_train we QuestionSide (question doc) ∅ e in
      let '(rows, e2) := question_word_ids is_train we batch' e1 in
      (ids :: rows, e2)
  end.

(** * Properties *)

(** ** The error monad and the loop combinator *)

Lemma bind_inr {A B : Type} (m : result A) (f : A -> result B) (v : B) :
  m ≫= f = inr v -> exists x, m = inr x /\ f x = inr v.
Proof. destruct m as [e|x]; simpl; [discriminate | eauto]. Qed.

Ltac inv_bind H :=
  let x := fresh "x" in
  let Hx := fresh "Hx" in
  apply bind_inr in H; destruct H as (x & Hx & H).

Lemma for_enumerate_app {A St : Type} (body : nat -> A -> St -> result St)
    (l1 l2 : list A) (i : nat) (st : St) :
  for_enumerate body i (l1 ++ l2) st =
  for_enumerate body i l1 st ≫= for_enumerate body (i + length l1) l2.
Proof.
  revert i st. induction l1 as [|x l1 IH]; intros i st; simpl.
  - by rewrite Nat.add_0_r.
  - destruct (body i x st) as [e|st']; simpl; [done|].
    rewrite IH. by replace (S i + length l1) with (i + S (length l1)) by lia.
Qed.

(** An invariant indexed by the number of examples already treated. *)
Lemma for_enumerate_inv {A St : Type} (body : nat -> A -> St -> result St)
    (Inv : nat -> St -> Prop) (l : list A) :
  (forall k x st st', l !! k = Some x -> Inv k st -> body k x st = inr st' ->
                      Inv (S k) st') ->
  forall st st', Inv 0 st -> for_enumerate body 0 l st = inr st' ->
                 Inv (length l) st'.
Proof.
  intros Hstep.
  assert (G : forall (l2 l1 : list A) st st', l = l1 ++ l2 -> Inv (length l1) st ->
            for_enumerate body (length l1) l2 st = inr st' -> Inv (length l) st').
  { induction l2 as [|x l2 IH]; intros l1 st st' -> HI Hrun; simpl in Hrun.
    - injection Hrun as <-. by rewrite app_nil_r.
    - inv_bind Hrun.
      apply (IH (l1 ++ [x]) x0 st').
      + by rewrite <- app_assoc.
      + rewrite length_app. simpl. rewrite Nat.add_1_r.
        eapply Hstep; [|exact HI|exact Hx].
        rewrite lookup_app_r by lia. by rewrite Nat.sub_diag.
      + rewrite length_app. simpl. by rewrite Nat.add_1_r. }
  intros st st' HI Hrun. by apply (G l [] st st').
Qed.

(** A loop whose body succeeds on every example and state returns. *)
Lemma for_enumerate_total {A St : Type} (body : nat -> A -> St -> result St)
    (Inv : nat -> St -> Prop) (l : list A) :
  (forall k x st, l !! k = Some x -> Inv k st ->
                  exists st', body k x st = inr st' /\ Inv (S k) st') ->
  forall st, Inv 0 st -> exists st', for_enumerate body 0 l st = inr st' /\
                                     Inv (length l) st'.
Proof.
  intros Hstep.
  assert (G : forall (l2 l1 : list A) st, l = l1 ++ l2 -> Inv (length l1) st ->
            exists st', for_enumerate body (length l1) l2 st = inr st' /\
                        Inv (length l) st').
  { induction l2 as [|x l2 IH]; intros l1 st -> HI; simpl.
    - exists st. by rewrite app_nil_r.
    - destruct (Hstep (length l1) x st) as (st1 & -> & HI1); [|done|].
      { rewrite lookup_app_r by lia. by rewrite Nat.sub_diag. }
      simpl. destruct (IH (l1 ++ [x]) st1) as (st' & Hrun & HI').
      + by rewrite <- app_assoc.
      + rewrite length_app. simpl. by rewrite Nat.add_1_r.
      + exists st'. rewrite length_app in Hrun. simpl in Hrun.
        rewrite Nat.add_1_r in Hrun. done. }
  intros st HI. by apply (G l [] st).
Qed.

(** ** numpy helpers *)

Lemma np_get_inr {A : Type} (a : list A) (i : nat) (x : A) :
  np_get a i = inr x <-> a !! i = Some x.
Proof. unfold np_get. destruct (a !! i); split; intros; simplify_eq; done. Qed.

Lemma np_set2_inr {A : Type} (i j : nat) (v : A) (m m' : list (list A)) :
  np_set2 i j v m = inr m' ->
  exists row, m !! i = Some row /\ j < length row /\ m' = <[i := <[j := v]> row]> m.
Proof.
  unfold np_set2. intros H. inv_bind H. apply np_get_inr in Hx.
  case_decide; simplify_eq. eauto.
Qed.

Lemma np_where_length {A : Type} (p : A -> bool) (i : nat) (l : list A) :
  length (np_where p i l) = length (filter (fun x => p x = true) l).
Proof.
  revert i. induction l as [|x l IH]; intros i; simpl; [done|].
  rewrite filter_cons. destruct (p x) eqn:Hp.
  - rewrite decide_True by done. simpl. by rewrite IH.
  - rewrite decide_False by congruence. apply IH.
Qed.

Lemma np_where_lookup {A : Type} (p : A -> bool) (i : nat) (l : list A) (r ix : nat) :
  np_where p i l !! r = Some ix ->
  i <= ix /\ exists x, l !! (ix - i) = Some x /\
                       filter (fun x => p x = true) l !! r = Some x.
Proof.
  revert i r. induction l as [|x l IH]; intros i r; simpl; [done|].
  rewrite filter_cons. destruct (p x) eqn:Hp.
  - rewrite decide_True by done. destruct r as [|r]; simpl.
    + intros [= <-]. split; [lia|]. exists x. by rewrite Nat.sub_diag.
    + intros H. apply IH in H as (Hle & y & Hy & Hf). split; [lia|].
      exists y. split; [|done].
      replace (ix - i) with (S (ix - S i)) by lia. done.
  - rewrite decide_False by congruence. intros H.
    apply IH in H as (Hle & y & Hy & Hf). split; [lia|].
    exists y. split; [|done].
    replace (ix - i) with (S (ix - S i)) by lia. done.
Qed.

Lemma randint_inr (n : nat) (g : RandomState) :
  0 < n ->
  randint 0 (Z.of_nat n) g =
  inr (Z.of_nat (entropy g (cursor g) mod n), mkRandomState (entropy g) (S (cursor g))).
Proof.
  intros Hn. unfold randint. rewrite decide_True by lia.
  do 2 f_equal. rewrite Z.sub_0_r, Z.add_0_l. symmetry. apply Nat2Z.inj_mod.
Qed.

(** ** SingleSpanAnswerEncoder *)

Lemma survivors_spec (limit : Z) (spans : list span) (sp : span) :
  sp ∈ survivors limit spans <-> sp ∈ spans /\ (sp.2 < limit)%Z.
Proof.
  unfold survivors, span_survives. rewrite list_elem_of_filter.
  rewrite bool_decide_eq_true. tauto.
Qed.

Lemma select_trivia (context_len : list Z) (doc_ix : nat) (spans : list span)
    (limit : Z) (g : RandomState) :
  context_len !! doc_ix = Some limit ->
  match survivors limit spans with
  | [] => single_span_select context_len doc_ix (TriviaQaAnswer spans) g = inl ValueError
  | s :: _ =>
      exists sp, survivors limit spans
                   !! (entropy g (cursor g) mod length (survivors limit spans)) = Some sp /\
                 single_span_select context_len doc_ix (TriviaQaAnswer spans) g
                 = inr (sp, next g)
  end.
Proof.
  intros Hl. unfold single_span_select.
  rewrite (proj2 (np_get_inr context_len doc_ix limit) Hl). simpl.
  pose proof (np_where_length (span_survives limit) 0 spans) as Hlen.
  fold (survivors limit spans) in Hlen.
  destruct (survivors limit spans) as [|s rest] eqn:Hs.
  - simpl in Hlen. by rewrite decide_True.
  - rewrite decide_False by (rewrite Hlen; simpl; lia).
    rewrite randint_inr by (rewrite Hlen; simpl; lia).
    simpl. rewrite Nat2Z.id. rewrite Hlen.
    set (r := entropy g (cursor g) mod length (s :: rest)).
    assert (Hr : r < length (s :: rest)) by (apply Nat.mod_upper_bound; simpl; lia).
    destruct (np_where (span_survives limit) 0 spans !! r) as [ix|] eqn:Hix.
    + destruct (np_where_lookup _ _ _ _ _ Hix) as (_ & sp & Hsp & Hf).
      rewrite Nat.sub_0_r in Hsp. fold (survivors limit spans) in Hf.
      rewrite Hs in Hf. exists sp. split; [done|].
      unfold np_get. rewrite Hix. simpl. rewrite Hsp. done.
    + apply lookup_ge_None in Hix. lia.
Qed.

Lemma select_member (context_len : list Z) (doc_ix : nat) (a : Answer)
    (g g' : RandomState) (sp : span) :
  single_span_select context_len doc_ix a g = inr (sp, g') ->
  sp ∈ offered_spans a.
Proof.
  destruct a as [|spans|spans|o]; simpl; try discriminate.
  - intros H. inv_bind H. destruct x as [r g1]. inv_bind H.
    apply np_get_inr in Hx0. injection H as <- <-.
    eapply list_elem_of_lookup_2; eauto.
  - intros H. inv_bind H. case_decide; [discriminate|].
    inv_bind H. destruct x0 as [r g1]. inv_bind H. inv_bind H.
    apply np_get_inr in Hx2. injection H as <- <-.
    eapply list_elem_of_lookup_2; eauto.
Qed.

Lemma single_span_body_inr (context_len : list Z) (doc_ix : nat)
    (doc : ParagraphAndQuestion) (arr arr' : list (list Z)) (g g' : RandomState) :
  single_span_body context_len doc_ix doc (arr, g) = inr (arr', g') ->
  exists s e limit row,
    single_span_select context_len doc_ix (answer doc) g = inr ((s, e), g') /\
    context_len !! doc_ix = Some limit /\ (s <= e < limit)%Z /\
    arr !! doc_ix = Some row /\ 1 < length row /\
    arr' = <[doc_ix := <[1 := e]> (<[0 := s]> row)]> arr.
Proof.
  unfold single_span_body. intros H. inv_bind H. destruct x as [[s e] g1].
  case_decide; [discriminate|]. inv_bind H. apply np_get_inr in Hx0.
  case_decide; [discriminate|]. inv_bind H. inv_bind H. injection H as <- <-.
  apply np_set2_inr in Hx1 as (row & Hrow & Hlen & ->).
  apply np_set2_inr in Hx2 as (row' & Hrow' & Hlen' & ->).
  assert (doc_ix < length arr) by (eapply lookup_lt_Some; eauto).
  rewrite list_lookup_insert_eq in Hrow' by done. injection Hrow' as <-.
  rewrite length_insert in Hlen'.
  exists s, e, x, row. repeat split; try done; try lia.
  by rewrite list_insert_insert_eq.
Qed.

Lemma single_span_body_invalid (context_len : list Z) (doc_ix : nat)
    (doc : ParagraphAndQuestion) (arr : list (list Z)) (g g1 : RandomState) (s e : Z) :
  single_span_select context_len doc_ix (answer doc) g = inr ((s, e), g1) ->
  (s > e)%Z \/ (exists limit, context_len !! doc_ix = Some limit /\ (e >= limit)%Z) ->
  single_span_body context_len doc_ix doc (arr, g) = inl ValueError.
Proof.
  intros Hsel Hbad. unfold single_span_body. rewrite Hsel. simpl.
  case_decide; [done|]. destruct Hbad as [Hbad|(limit & Hl & Hbad)]; [lia|].
  rewrite (proj2 (np_get_inr context_len doc_ix limit) Hl). simpl.
  by rewrite decide_True.
Qed.

Lemma single_span_rows (batch_size : nat) (context_len : list Z) (context_word_dim : nat)
    (batch : list ParagraphAndQuestion) (g g' : RandomState) (arr : list (list Z)) :
  SingleSpanAnswerEncoder_arrays batch_size context_len context_word_dim batch g
  = inr (arr, g') ->
  length arr = batch_size /\
  forall j doc, batch !! j = Some doc -> single_span_row context_len j doc arr.
Proof.
  unfold SingleSpanAnswerEncoder_arrays. intros Hrun.
  pose (Inv := fun (k : nat) (st : list (list Z) * RandomState) =>
    length st.1 = batch_size /\ Forall (fun row => length row = 2) st.1 /\
    forall j doc, j < k -> batch !! j = Some doc -> single_span_row context_len j doc st.1).
  assert (HI : Inv (length batch) (arr, g')).
  { eapply (for_enumerate_inv _ Inv); [| |exact Hrun].
    - intros k doc [a1 g1] [a2 g2] Hk (Hlen & Hrows & Hdone) Hbody. simpl in *.
      apply single_span_body_inr in Hbody
        as (s & e & limit & row & Hsel & Hlim & Hle & Hrow & Hrl & ->).
      assert (Hr2 : length row = 2).
      { eapply Forall_forall in Hrows; [exact Hrows|].
        eapply list_elem_of_lookup_2; eauto. }
      destruct row as [|a [|b [|c row]]]; simpl in Hr2; try lia. simpl.
      assert (k < length a1) by (eapply lookup_lt_Some; eauto).
      unfold Inv. simpl. split; [by rewrite length_insert|]. split.
      { apply Forall_insert; done. }
      intros j d Hj Hd. destruct (decide (j = k)) as [->|Hne].
      + rewrite Hk in Hd. injection Hd as <-.
        exists s, e, limit. rewrite list_lookup_insert_eq by done.
        repeat split; try done; try lia. eapply select_member; eauto.
      + destruct (Hdone j d) as (s' & e' & l' & ? & ? & ? & ?); [lia|done|].
        exists s', e', l'. rewrite list_lookup_insert_ne by done. done.
    - simpl. split; [apply length_replicate|]. split.
      + apply Forall_replicate. done.
      + intros j doc Hj. lia. }
  destruct HI as (Hlen & _ & Hdone). split; [done|].
  intros j doc Hj. apply Hdone; [|done]. eapply lookup_lt_Some; eauto.
Qed.

Lemma single_span_arrays_app (batch_size : nat) (context_len : list Z)
    (context_word_dim : nat) (pre post : list ParagraphAndQuestion)
    (doc : ParagraphAndQuestion) (g : RandomState) :
  SingleSpanAnswerEncoder_arrays batch_size context_len context_word_dim
    (pre ++ doc :: post) g =
  st ← SingleSpanAnswerEncoder_arrays batch_size context_len context_word_dim pre g;
  st' ← single_span_body context_len (length pre) doc st;
  for_enumerate (single_span_body context_len) (S (length pre)) post st'.
Proof.
  unfold SingleSpanAnswerEncoder_arrays. rewrite for_enumerate_app. simpl.
  destruct (for_enumerate _ 0 pre _) as [e|st]; simpl; done.
Qed.

(** The draw of an example: a selection that returns has drawn once, and
    the span is the one at the drawn position among the selectable spans. *)
Lemma select_drawn (context_len : list Z) (doc_ix : nat) (a : Answer) (limit : Z)
    (g g' : RandomState) (sp : span) :
  context_len !! doc_ix = Some limit ->
  single_span_select context_len doc_ix a g = inr (sp, g') ->
  g' = next g /\
  selectable limit a !! (entropy g (cursor g) mod length (selectable limit a)) = Some sp.
Proof.
  intros Hl. destruct a as [|spans|spans|o]; simpl; try discriminate.
  - destruct spans as [|s0 rest] eqn:Hs; [discriminate|]. rewrite <- Hs.
    rewrite randint_inr by (rewrite Hs; simpl; lia).
    cbn [mbind result_bind]. rewrite Nat2Z.id. intros H. inv_bind H.
    apply np_get_inr in Hx. injection H as <- <-. done.
  - intros H.
    pose proof (select_trivia context_len doc_ix spans limit g Hl) as Hsel.
    simpl in Hsel. unfold single_span_select in Hsel.
    destruct (survivors limit spans) as [|s0 rest] eqn:Hs.
    + rewrite Hsel in H. discriminate.
    + destruct Hsel as (sp' & Hsp' & Hsel). rewrite Hsel in H.
      injection H as <- <-. done.
Qed.

Lemma select_of_drawn (context_len : list Z) (doc_ix : nat) (a : Answer) (limit : Z)
    (g : RandomState) (sp : span) :
  context_len !! doc_ix = Some limit ->
  selectable limit a !! (entropy g (cursor g) mod length (selectable limit a)) = Some sp ->
  single_span_select context_len doc_ix a g = inr (sp, next g).
Proof.
  intros Hl. destruct a as [|spans|spans|o]; simpl; try done.
  - intros Hsp. assert (0 < length spans).
    { apply lookup_lt_Some in Hsp. lia. }
    rewrite randint_inr by done. cbn [mbind result_bind]. rewrite Nat2Z.id.
    unfold np_get. by rewrite Hsp.
  - intros Hsp.
    pose proof (select_trivia context_len doc_ix spans limit g Hl) as Hsel.
    simpl in Hsel. unfold single_span_select in Hsel.
    destruct (survivors limit spans) as [|s0 rest] eqn:Hs; [done|].
    destruct Hsel as (sp' & Hsp' & Hsel). rewrite Hsel. by simplify_eq.
Qed.

(** The rows of a call that returns, by the draws: example [j] holds the
    span at the position that draw number [j] selects. *)
Lemma single_span_rows_drawn (batch_size : nat) (context_len : list Z)
    (context_word_dim : nat) (batch : list ParagraphAndQuestion) (g g' : RandomState)
    (arr : list (list Z)) :
  SingleSpanAnswerEncoder_arrays batch_size context_len context_word_dim batch g
  = inr (arr, g') ->
  g' = advance (length batch) g /\
  forall j doc, batch !! j = Some doc ->
    exists s e limit,
      arr !! j = Some [s; e] /\ context_len !! j = Some limit /\
      selectable limit (answer doc)
        !! drawn g j (length (selectable limit (answer doc))) = Some (s, e) /\
      (s <= e < limit)%Z.
Proof.
  unfold SingleSpanAnswerEncoder_arrays. intros Hrun.
  pose (Inv := fun (k : nat) (st : list (list Z) * RandomState) =>
    Forall (fun row => length row = 2) st.1 /\ st.2 = advance k g /\
    forall j doc, j < k -> batch !! j = Some doc ->
      exists s e limit,
        st.1 !! j = Some [s; e] /\ context_len !! j = Some limit /\
        selectable limit (answer doc)
          !! drawn g j (length (selectable limit (answer doc))) = Some (s, e) /\
        (s <= e < limit)%Z).
  assert (HI : Inv (length batch) (arr, g')).
  { eapply (for_enumerate_inv _ Inv); [| |exact Hrun].
    - intros k doc [a1 g1] [a2 g2] Hk (Hrows & Hg & Hdone) Hbody. simpl in *.
      apply single_span_body_inr in Hbody
        as (s & e & limit & row & Hsel & Hlim & Hle & Hrow & Hrl & ->).
      assert (Hr2 : length row = 2).
      { eapply Forall_forall in Hrows; [exact Hrows|].
        eapply list_elem_of_lookup_2; eauto. }
      destruct row as [|a [|b [|c row]]]; simpl in Hr2; try lia. simpl.
      assert (k < length a1) by (eapply lookup_lt_Some; eauto).
      destruct (select_drawn _ _ _ _ _ _ _ Hlim Hsel) as [-> Hsp].
      unfold Inv. simpl. split; [by apply Forall_insert|]. split.
      { subst g1. unfold next, advance. simpl. f_equal. lia. }
      intros j d Hj Hd. destruct (decide (j = k)) as [->|Hne].
      + rewrite Hk in Hd. injection Hd as <-.
        exists s, e, limit. rewrite list_lookup_insert_eq by done.
        repeat split; try done; try lia. subst g1. exact Hsp.
      + destruct (Hdone j d) as (s' & e' & l' & ? & ? & ? & ?); [lia|done|].
        exists s', e', l'. rewrite list_lookup_insert_ne by done. done.
    - simpl. split; [by apply Forall_replicate|]. split.
      + unfold advance. destruct g. simpl. f_equal. lia.
      + intros j doc Hj. lia. }
  destruct HI as (_ & Hg & Hdone). split; [done|].
  intros j doc Hj. apply Hdone; [|done]. eapply lookup_lt_Some; eauto.
Qed.

(** The call on a batch up to an example at which the selection or the
    checks raise ValueError. *)
Lemma single_span_encode_raises (batch_size : nat) (context_len : list Z)
    (context_word_dim : nat) (pre post : list ParagraphAndQuestion)
    (doc : ParagraphAndQuestion) (g : RandomState) :
  (forall arr, single_span_body context_len (length pre) doc
                 (arr, advance (length pre) g) = inl ValueError) ->
  SingleSpanAnswerEncoder_encode batch_size context_len context_word_dim
    (pre ++ doc :: post) g =
  match SingleSpanAnswerEncoder_encode batch_size context_len context_word_dim pre g with
  | inl e => inl e
  | inr _ => inl ValueError
  end.
Proof.
  intros Hbody. unfold SingleSpanAnswerEncoder_encode.
  rewrite single_span_arrays_app.
  destruct (SingleSpanAnswerEncoder_arrays _ _ _ pre g) as [e|[arr g1]] eqn:Hpre;
    [done|].
  apply single_span_rows_drawn in Hpre as [-> _].
  cbn [mbind result_bind]. by rewrite Hbody.
Qed.

(** C3: an example whose answer is [None] makes the call raise ValueError
    (the spec's DataError) when the loop reaches it.  For a TriviaQaAnswer
    (the spec's span set with several candidates) the candidates are first
    cut down to the spans with [end < context_len[example]]: the call raises
    ValueError when the loop reaches an example of which none is left, and
    in a call that returns, the row that the fed array holds for such an
    example is the survivor at the position that the draw of the example
    (draw number [i] for example [i], taken modulo the number of survivors)
    selects: a survivor only, and each survivor for exactly the draws of its
    position.  The spans are taken to have int32 coordinates, which the
    int32 array holds unchanged. *)
Theorem single_span_none_and_candidates :
  (forall batch_size context_len context_word_dim pre q c post g,
     SingleSpanAnswerEncoder_encode batch_size context_len context_word_dim
       (pre ++ mkDoc q c NoAnswer :: post) g =
     match SingleSpanAnswerEncoder_encode batch_size context_len context_word_dim pre g with
     | inl e => inl e
     | inr _ => inl ValueError
     end) /\
  (forall batch_size context_len context_word_dim pre q c spans post g limit,
     context_len !! length pre = Some limit ->
     survivors limit spans = [] ->
     SingleSpanAnswerEncoder_encode batch_size context_len context_word_dim
       (pre ++ mkDoc q c (TriviaQaAnswer spans) :: post) g =
     match SingleSpanAnswerEncoder_encode batch_size context_len context_word_dim pre g with
     | inl e => inl e
     | inr _ => inl ValueError
     end) /\
  (forall batch_size context_len context_word_dim batch g feed g',
     int32_spans batch = true ->
     SingleSpanAnswerEncoder_encode batch_size context_len context_word_dim batch g
     = inr (feed, g') ->
     exists arr,
       feed = {[ answer_spans_slot := IntMat 2 arr ]} /\
       forall i q c spans, batch !! i = Some (mkDoc q c (TriviaQaAnswer spans)) ->
         exists limit s e,
           context_len !! i = Some limit /\
           survivors limit spans !! drawn g i (length (survivors limit spans))
           = Some (s, e) /\
           (s, e) ∈ spans /\ (e < limit)%Z /\
           arr !! i = Some [s; e]).
Proof.
  split; [|split].
  - intros. apply single_span_encode_raises. intros arr. done.
  - intros batch_size context_len context_word_dim pre q c spans post g limit Hl Hs.
    apply single_span_encode_raises. intros arr. unfold single_span_body.
    pose proof (select_trivia context_len (length pre) spans limit
                  (advance (length pre) g) Hl) as Hsel.
    rewrite Hs in Hsel. cbn [answer]. by rewrite Hsel.
  - intros batch_size context_len context_word_dim batch g feed g' _ Hrun.
    unfold SingleSpanAnswerEncoder_encode in Hrun. inv_bind Hrun.
    destruct x as [arr g1]. injection Hrun as <- <-. exists arr. split; [done|].
    apply single_span_rows_drawn in Hx as [_ Hrows].
    intros i q c spans Hi.
    destruct (Hrows i _ Hi) as (s & e & limit & Hrow & Hl & Hsp & Hle).
    cbn [answer selectable] in Hsp. exists limit, s, e.
    assert (Hin : (s, e) ∈ survivors limit spans).
    { eapply list_elem_of_lookup_2; eauto. }
    apply survivors_spec in Hin as [? ?]. done.
Qed.

(** C3 on concrete candidates: an example without survivor, and a batch of
    which the second example has two survivors and the draw 1. *)
Lemma single_span_none_and_candidates_witness :
  SingleSpanAnswerEncoder_encode 1 [3%Z] 3
    ([] ++ mkDoc [] [] (TriviaQaAnswer [(4, 5); (1, 7)]%Z) :: []) g_zero
  = inl ValueError /\
  exists arr,
    ({[ answer_spans_slot := IntMat 2 [[0; 1]; [1; 2]]%Z ]} : feed_dict)
    = {[ answer_spans_slot := IntMat 2 arr ]} /\
    forall i q c spans,
      [mkDoc [] [] (ParagraphSpans [(0, 1)]%Z);
       mkDoc [] [] (TriviaQaAnswer [(0, 2); (4, 5); (1, 2)]%Z)] !! i
      = Some (mkDoc q c (TriviaQaAnswer spans)) ->
      exists limit s e,
        [3%Z; 3%Z] !! i = Some limit /\
        survivors limit spans
          !! drawn (mkRandomState (fun k => k) 0) i (length (survivors limit spans))
        = Some (s, e) /\
        (s, e) ∈ spans /\ (e < limit)%Z /\
        arr !! i = Some [s; e].
Proof.
  split.
  - apply (proj1 (proj2 single_span_none_and_candidates) 1 [3%Z] 3 []
             [] [] [(4, 5); (1, 7)]%Z [] g_zero 3%Z eq_refl eq_refl).
  - apply (proj2 (proj2 single_span_none_and_candidates) 2 [3%Z; 3%Z] 3
             [mkDoc [] [] (ParagraphSpans [(0, 1)]%Z);
              mkDoc [] [] (TriviaQaAnswer [(0, 2); (4, 5); (1, 2)]%Z)]
             (mkRandomState (fun k => k) 0)
             {[ answer_spans_slot := IntMat 2 [[0; 1]; [1; 2]]%Z ]}
             (mkRandomState (fun k => k) 2) eq_refl eq_refl).
Defined.

Lemma selectable_offered (limit : Z) (a : Answer) (sp : span) :
  sp ∈ selectable limit a -> sp ∈ offered_spans a.
Proof.
  destruct a as [|spans|spans|o]; simpl; try done.
  intros H. by apply survivors_spec in H as [? _].
Qed.

(** C4, as the spec states it, at a span with a negative start: the call
    returns and the pair that the fed array holds has [start < 0]. *)
Lemma single_span_negative_start :
  SingleSpanAnswerEncoder_encode 1 [1%Z] 1
    [mkDoc [] [["w"%string]] (ParagraphSpans [(-1, 0)%Z])] g_zero
  = inr ({[ answer_spans_slot := IntMat 2 [[(-1)%Z; 0%Z]] ]}, next g_zero) /\
  ~ (0 <= -1)%Z.
Proof. split; [vm_compute; reflexivity | lia]. Qed.

(** C4 (amended): in a call that returns, the pair that the fed array holds
    for every example is one of the spans its answer offers, the one at the
    position that the draw of the example selects among the selectable
    spans, and satisfies [start <= end < context_len[example]];
    [0 <= start] holds when the spans offered have a start that is not
    negative, the encoder checks no lower bound.  When the loop reaches an
    example whose selected span has [start > end] or
    [end >= context_len[example]], the call raises ValueError.  The spans are
    taken to have int32 coordinates, which the int32 array holds unchanged. *)
Theorem single_span_output_bounds :
  (forall batch_size context_len context_word_dim batch g feed g',
     int32_spans batch = true ->
     SingleSpanAnswerEncoder_encode batch_size context_len context_word_dim batch g
     = inr (feed, g') ->
     exists arr,
       feed = {[ answer_spans_slot := IntMat 2 arr ]} /\
       forall i doc, batch !! i = Some doc ->
         exists s e limit,
           arr !! i = Some [s; e] /\ context_len !! i = Some limit /\
           selectable limit (answer doc)
             !! drawn g i (length (selectable limit (answer doc))) = Some (s, e) /\
           (s, e) ∈ offered_spans (answer doc) /\ (s <= e < limit)%Z /\
           (Forall (fun sp : span => (0 <= sp.1)%Z) (offered_spans (answer doc)) ->
            (0 <= s)%Z)) /\
  (forall batch_size context_len context_word_dim pre doc post g limit s e,
     context_len !! length pre = Some limit ->
     selectable limit (answer doc)
       !! drawn g (length pre) (length (selectable limit (answer doc))) = Some (s, e) ->
     (s > e)%Z \/ (e >= limit)%Z ->
     SingleSpanAnswerEncoder_encode batch_size context_len context_word_dim
       (pre ++ doc :: post) g =
     match SingleSpanAnswerEncoder_encode batch_size context_len context_word_dim pre g with
     | inl ex => inl ex
     | inr _ => inl ValueError
     end).
Proof.
  split.
  - intros batch_size context_len context_word_dim batch g feed g' _ Hrun.
    unfold SingleSpanAnswerEncoder_encode in Hrun. inv_bind Hrun.
    destruct x as [arr g1]. injection Hrun as <- <-. exists arr. split; [done|].
    apply single_span_rows_drawn in Hx as [_ Hrows]. intros i doc Hi.
    destruct (Hrows i doc Hi) as (s & e & limit & Hrow & Hl & Hsp & Hle).
    exists s, e, limit.
    assert (Hin : (s, e) ∈ offered_spans (answer doc)).
    { eapply selectable_offered, list_elem_of_lookup_2; eauto. }
    repeat split; try done; try lia.
    intros Hpos. eapply Forall_forall in Hpos; [|exact Hin]. done.
  - intros batch_size context_len context_word_dim pre doc post g limit s e
      Hl Hsp Hbad.
    apply single_span_encode_raises. intros arr.
    apply (single_span_body_invalid _ _ _ arr _ (next (advance (length pre) g)) s e).
    + apply (select_of_drawn _ _ _ limit); [done|].
      unfold drawn in Hsp. exact Hsp.
    + destruct Hbad as [?|?]; [by left|right; eauto].
Qed.

(** The two parts of the amended C4 on concrete spans. *)
Lemma single_span_output_bounds_witness :
  (exists arr,
     ({[ answer_spans_slot := IntMat 2 [[2; 3]; [0; 0]]%Z ]} : feed_dict)
     = {[ answer_spans_slot := IntMat 2 arr ]} /\
     forall i doc, [mkDoc [] [] (ParagraphSpans [(2, 3)%Z])] !! i = Some doc ->
       exists s e limit,
         arr !! i = Some [s; e] /\ [5%Z] !! i = Some limit /\
         selectable limit (answer doc)
           !! drawn g_zero i (length (selectable limit (answer doc))) = Some (s, e) /\
         (s, e) ∈ offered_spans (answer doc) /\ (s <= e < limit)%Z /\
         (Forall (fun sp : span => (0 <= sp.1)%Z) (offered_spans (answer doc)) ->
          (0 <= s)%Z)) /\
  SingleSpanAnswerEncoder_encode 2 [5%Z] 5
    ([] ++ mkDoc [] [] (ParagraphSpans [(3, 2)%Z]) :: []) g_zero = inl ValueError.
Proof.
  split.
  - apply (proj1 single_span_output_bounds 2 [5%Z] 5
             [mkDoc [] [] (ParagraphSpans [(2, 3)%Z])] g_zero
             {[ answer_spans_slot := IntMat 2 [[2; 3]; [0; 0]]%Z ]} (next g_zero)
             eq_refl eq_refl).
  - apply (proj2 single_span_output_bounds 2 [5%Z] 5 []
             (mkDoc [] [] (ParagraphSpans [(3, 2)%Z])) [] g_zero 5%Z 3%Z 2%Z
             eq_refl eq_refl).
    left. lia.
Defined.

(** ** Index arrays *)

Lemma np_index_inr (n : nat) (i : Z) (j : nat) :
  np_index n i = inr j ->
  j < n /\ ((0 <= i)%Z /\ j = Z.to_nat i \/ (i < 0)%Z /\ j = Z.to_nat (i + Z.of_nat n)).
Proof.
  unfold np_index. repeat case_decide; intros; simplify_eq; lia.
Qed.

Lemma np_index_nonneg (n : nat) (i : Z) :
  (0 <= i < Z.of_nat n)%Z -> np_index n i = inr (Z.to_nat i).
Proof. intros. unfold np_index. by rewrite decide_True. Qed.

(** A successful [row[idxs] = v] keeps the length, stores [v] at every index
    of [idxs] and leaves every entry either as it was or equal to [v]. *)
Lemma np_set_many_inr {A : Type} (idxs : list Z) (v : A) (row row' : list A) :
  np_set_many idxs v row = inr row' ->
  length row' = length row /\
  (forall i, i ∈ idxs -> exists j, np_index (length row) i = inr j /\ row' !! j = Some v) /\
  (forall j, row' !! j = row !! j \/ row' !! j = Some v).
Proof.
  revert row. induction idxs as [|i idxs IH]; intros row; simpl.
  - intros [= <-]. split; [done|]. split; [|by left].
    intros i Hi. by apply elem_of_nil in Hi.
  - intros H. inv_bind H. unfold np_set1 in Hx. inv_bind Hx. injection Hx as <-.
    apply IH in H as (Hlen & Hset & Hkeep). rewrite length_insert in Hlen, Hset.
    split; [done|]. split.
    + intros i' Hi'. apply elem_of_cons in Hi' as [->|Hi']; [|by apply Hset].
      exists x0. split; [done|]. apply np_index_inr in Hx0 as [Hlt _].
      destruct (Hkeep x0) as [Hk|Hk]; [|done].
      rewrite Hk. by apply list_lookup_insert_eq.
    + intros j. destruct (Hkeep j) as [Hk|Hk]; [|by right].
      rewrite Hk. destruct (decide (x0 = j)) as [->|Hne].
      * apply np_index_inr in Hx0 as [Hlt _]. right.
        by apply list_lookup_insert_eq.
      * left. by apply list_lookup_insert_ne.
Qed.

(** With indices inside [0, n) the assignment returns, and an entry changes
    exactly when its position is one of the indices. *)
Lemma np_set_many_nonneg {A : Type} (idxs : list Z) (v : A) (row : list A) :
  Forall (fun i => (0 <= i < Z.of_nat (length row))%Z) idxs ->
  exists row', np_set_many idxs v row = inr row' /\
    length row' = length row /\
    forall j, j < length row ->
      row' !! j = if decide (Z.of_nat j ∈ idxs) then Some v else row !! j.
Proof.
  revert row. induction idxs as [|i idxs IH]; intros row Hall; simpl.
  - exists row. split; [done|]. split; [done|]. intros j Hj.
    destruct (decide (Z.of_nat j ∈ [])) as [Hin|_]; [|done].
    by apply elem_of_nil in Hin.
  - apply Forall_cons in Hall as [Hi Hall]. unfold np_set1.
    rewrite np_index_nonneg by done. simpl.
    destruct (IH (<[Z.to_nat i := v]> row)) as (row' & Hrun & Hlen & Hget).
    { by rewrite length_insert. }
    rewrite length_insert in Hlen, Hget.
    exists row'. split; [done|]. split; [done|]. intros j Hj.
    rewrite (Hget j Hj). destruct (decide (Z.of_nat j ∈ idxs)) as [Hin|Hnin].
    + rewrite decide_True; [done|]. by apply elem_of_cons; right.
    + destruct (decide (Z.of_nat j = i)) as [<-|Hne].
      * rewrite decide_True by (apply elem_of_cons; by left).
        rewrite Nat2Z.id. by apply list_lookup_insert_eq.
      * rewrite decide_False by (intros [?|?]%elem_of_cons; done).
        apply list_lookup_insert_ne. lia.
Qed.

Lemma np_set_row_many_inr {A : Type} (doc_ix : nat) (idxs : list Z) (v : A)
    (m m' : list (list A)) :
  np_set_row_many doc_ix idxs v m = inr m' ->
  exists row row', m !! doc_ix = Some row /\ np_set_many idxs v row = inr row' /\
                   m' = <[doc_ix := row']> m.
Proof.
  unfold np_set_row_many. intros H. inv_bind H. inv_bind H. injection H as <-.
  apply np_get_inr in Hx. eauto.
Qed.

(** ** DenseMultiSpanAnswerEncoder *)

Lemma dense_mark (context_word_dim : nat) (spans : list span) (proj : span -> Z) :
  (forall sp, sp ∈ spans -> (sp.2 < Z.of_nat context_word_dim)%Z ->
              (0 <= proj sp < Z.of_nat context_word_dim)%Z) ->
  exists row',
    np_set_many (proj <$> kept context_word_dim spans) true
      (replicate context_word_dim false) = inr row' /\
    length row' = context_word_dim /\
    forall j, j < context_word_dim ->
      (row' !! j = Some true <->
       exists sp, sp ∈ spans /\ (sp.2 < Z.of_nat context_word_dim)%Z /\
                  proj sp = Z.of_nat j).
Proof.
  intros Hrange.
  destruct (np_set_many_nonneg (proj <$> kept context_word_dim spans) true
              (replicate context_word_dim false)) as (row' & Hrun & Hlen & Hget).
  { rewrite length_replicate. apply Forall_fmap, Forall_forall. intros sp Hsp.
    apply list_elem_of_filter in Hsp as [Hlt Hin]. simpl. by apply Hrange. }
  rewrite length_replicate in Hlen, Hget.
  exists row'. split; [done|]. split; [done|]. intros j Hj.
  rewrite (Hget j Hj). case_decide as Hin.
  - split; [intros _|done]. apply list_elem_of_fmap in Hin as (sp & Heq & Hsp).
    apply list_elem_of_filter in Hsp as [Hlt Hsp]. exists sp. done.
  - rewrite lookup_replicate_2 by done. split; [done|].
    intros (sp & Hsp & Hlt & Heq). exfalso. apply Hin.
    apply list_elem_of_fmap. exists sp. split; [done|].
    apply list_elem_of_filter. done.
Qed.

Lemma dense_body_wf (context_word_dim doc_ix : nat) (doc : ParagraphAndQuestion)
    (starts ends : list (list bool)) :
  answer_wf (answer doc) ->
  starts !! doc_ix = Some (replicate context_word_dim false) ->
  ends !! doc_ix = Some (replicate context_word_dim false) ->
  exists srow erow,
    dense_body context_word_dim doc_ix doc (starts, ends)
    = inr (<[doc_ix := srow]> starts, <[doc_ix := erow]> ends) /\
    dense_row context_word_dim (answer doc) srow erow /\
    (answer doc = NoAnswer ->
     all_false context_word_dim srow /\ all_false context_word_dim erow).
Proof.
  intros Hwf Hs He.
  assert (Hnone : answer doc = NoAnswer ->
    exists srow erow,
      dense_body context_word_dim doc_ix doc (starts, ends)
      = inr (<[doc_ix := srow]> starts, <[doc_ix := erow]> ends) /\
      dense_row context_word_dim (answer doc) srow erow /\
      (answer doc = NoAnswer ->
       all_false context_word_dim srow /\ all_false context_word_dim erow)).
  { intros Ha. exists (replicate context_word_dim false), (replicate context_word_dim false).
    unfold dense_body. rewrite Ha. rewrite !list_insert_id by done.
    split; [done|]. split; [|done].
    split; [apply length_replicate|]. split; [apply length_replicate|].
    intros j Hj. rewrite lookup_replicate_2 by done. simpl.
    split; (split; [done|]); intros (sp & Hsp & _); by apply elem_of_nil in Hsp. }
  destruct Hwf as [Ha|(spans & Hspans & Hall)]; [by apply Hnone|].
  assert (Ha : answer doc <> NoAnswer).
  { intros Ha. rewrite Ha in Hspans. discriminate. }
  destruct (dense_mark context_word_dim spans fst) as (srow & Hsrun & Hslen & Hsget).
  { intros sp Hsp Hlt. eapply Forall_forall in Hall; [|exact Hsp].
    unfold span_wf in Hall. lia. }
  destruct (dense_mark context_word_dim spans snd) as (erow & Herun & Helen & Heget).
  { intros sp Hsp Hlt. eapply Forall_forall in Hall; [|exact Hsp].
    unfold span_wf in Hall. lia. }
  exists srow, erow. split; [|split; [|done]].
  - unfold kept in Hsrun, Herun. clear Hnone. revert Hspans Ha.
    unfold dense_body. destruct (answer doc) as [|l|l|[l|]];
      intros Hspans Ha; try done; rewrite Hspans;
      unfold np_set_row_many;
      rewrite (proj2 (np_get_inr starts doc_ix _) Hs),
        (proj2 (np_get_inr ends doc_ix _) He);
      cbn [mbind result_bind]; rewrite Hsrun;
      cbn [mbind result_bind]; rewrite Herun; done.
  - unfold dense_row, gold_spans. rewrite Hspans.
    split; [done|]. split; [done|]. intros j Hj. split; [by apply Hsget|by apply Heget].
Qed.

(** The spec's example: spans (2,5) and (7,9) in a context of 8 words. *)
Example dense_masks_example :
  DenseMultiSpanAnswerEncoder_arrays 1 [8%Z] 8
    [mkDoc [] [] (TriviaQaAnswer [(2, 5); (7, 9)]%Z)]
  = inr ([[false; false; true; false; false; false; false; false]],
         [[false; false; false; false; false; true; false; false]]).
Proof. reflexivity. Qed.

(** The masks of a whole batch of well formed answers. *)
Lemma dense_arrays_spec (batch_size : nat) (context_len : list Z) (context_word_dim : nat)
    (batch : list ParagraphAndQuestion) :
  length batch <= batch_size ->
  Forall (fun doc => answer_wf (answer doc)) batch ->
  exists starts ends,
    DenseMultiSpanAnswerEncoder_arrays batch_size context_len context_word_dim batch
    = inr (starts, ends) /\
    length starts = batch_size /\ length ends = batch_size /\
    (forall j doc, batch !! j = Some doc ->
       exists srow erow,
         starts !! j = Some srow /\ ends !! j = Some erow /\
         dense_row context_word_dim (answer doc) srow erow /\
         (answer doc = NoAnswer ->
          all_false context_word_dim srow /\ all_false context_word_dim erow)) /\
    (forall j, length batch <= j < batch_size ->
       starts !! j = Some (replicate context_word_dim false) /\
       ends !! j = Some (replicate context_word_dim false)).
Proof.
  intros Hfit Hwf. unfold DenseMultiSpanAnswerEncoder_arrays.
  pose (Inv := fun (k : nat) (st : list (list bool) * list (list bool)) =>
    length st.1 = batch_size /\ length st.2 = batch_size /\
    (forall j, k <= j < batch_size ->
       st.1 !! j = Some (replicate context_word_dim false) /\
       st.2 !! j = Some (replicate context_word_dim false)) /\
    (forall j doc, j < k -> batch !! j = Some doc ->
       exists srow erow,
         st.1 !! j = Some srow /\ st.2 !! j = Some erow /\
         dense_row context_word_dim (answer doc) srow erow /\
         (answer doc = NoAnswer ->
          all_false context_word_dim srow /\ all_false context_word_dim erow))).
  destruct (for_enumerate_total (dense_body context_word_dim) Inv batch)
    with (st := (np_zeros2 false batch_size context_word_dim,
                 np_zeros2 false batch_size context_word_dim))
    as ([starts ends] & Hrun & Hs & He & Hpad & Hdone).
  - intros k doc [s0 e0] Hk (Hls & Hle & Hzero & Hprev). simpl in *.
    assert (Hkb : k < batch_size).
    { apply lookup_lt_Some in Hk. lia. }
    destruct (Hzero k) as [Hsk Hek]; [lia|].
    destruct (dense_body_wf context_word_dim k doc s0 e0)
      as (srow & erow & Hbody & Hrow & Hnone); [|done|done|].
    { eapply Forall_forall in Hwf; [exact Hwf|].
      eapply list_elem_of_lookup_2; eauto. }
    eexists. split; [exact Hbody|]. unfold Inv. simpl.
    rewrite !length_insert. split; [done|]. split; [done|]. split.
    + intros j Hj. rewrite !list_lookup_insert_ne by lia. apply Hzero. lia.
    + intros j d Hj Hd. destruct (decide (j = k)) as [->|Hne].
      * rewrite Hk in Hd. injection Hd as <-. exists srow, erow.
        rewrite !list_lookup_insert_eq by lia. done.
      * rewrite !list_lookup_insert_ne by lia. apply Hprev; [lia|done].
  - unfold Inv, np_zeros2. simpl. rewrite !length_replicate.
    split; [done|]. split; [done|]. split.
    + intros j Hj. rewrite !lookup_replicate_2 by lia. done.
    + intros j doc Hj. lia.
  - exists starts, ends. simpl in *. split; [done|]. split; [done|]. split; [done|].
    split; [|done]. intros j doc Hj. apply Hdone; [|done].
    eapply lookup_lt_Some; eauto.
Qed.

(** ** PackedMultiSpanAnswerEncoder *)

Lemma for_enumerate_raise {A St : Type} (body : nat -> A -> St -> result St)
    (l : list A) (i : nat) (st : St) :
  (exists k x, l !! k = Some x /\ forall st, is_raise (body (i + k) x st)) ->
  is_raise (for_enumerate body i l st).
Proof.
  revert i st. induction l as [|y l IH]; intros i st (k & x & Hk & Hbad).
  - done.
  - simpl. destruct (body i y st) as [e|st'] eqn:Hb; [by exists e|]. simpl.
    destruct k as [|k].
    + simpl in Hk. injection Hk as ->. destruct (Hbad st) as [e He].
      rewrite Nat.add_0_r in He. congruence.
    + apply IH. exists k, x. split; [done|]. intros st0.
      replace (S i + k) with (i + S k) by lia. apply Hbad.
Qed.

Lemma gold_spans_inr (a : Answer) (spans : list span) :
  answer_spans_of a = inr spans -> gold_spans a = spans.
Proof. unfold gold_spans. by intros ->. Qed.

Section PackedFacts.
Variable pack : Z -> Z -> Z -> Z -> Z.
Variable bound : Z.

Lemma packed_size_eq (context_word_dim : nat) :
  packed_size pack bound context_word_dim = inr (packed_width pack bound context_word_dim).
Proof. reflexivity. Qed.

Lemma packed_arrays_spec (batch_size : nat) (context_len : list Z)
    (context_word_dim : nat) (batch : list ParagraphAndQuestion)
    (sz : nat) (output : list (list bool)) :
  PackedMultiSpanAnswerEncoder_arrays pack bound batch_size context_len
    context_word_dim batch = inr (sz, output) ->
  Z.of_nat sz = packed_width pack bound context_word_dim /\
  length output = length batch /\
  forall i doc, batch !! i = Some doc ->
    exists row, output !! i = Some row /\ packed_row pack bound context_word_dim sz doc row.
Proof.
  unfold PackedMultiSpanAnswerEncoder_arrays. rewrite packed_size_eq.
  cbn [mbind result_bind]. case_decide as Hneg; [discriminate|].
  intros H. inv_bind H. injection H as <- <-.
  set (sz := Z.to_nat (packed_width pack bound context_word_dim)) in *.
  split; [lia|].
  pose (Inv := fun (k : nat) (out : list (list bool)) =>
    length out = length batch /\ Forall (fun row => length row = sz) out /\
    forall i doc, i < k -> batch !! i = Some doc ->
      exists row, out !! i = Some row /\ packed_row pack bound context_word_dim sz doc row).
  assert (HI : Inv (length batch) x).
  { eapply (for_enumerate_inv _ Inv); [| |exact Hx].
    - intros k doc out out' Hk (Hlen & Hrows & Hprev) Hbody.
      unfold packed_body in Hbody. inv_bind Hbody.
      apply np_set_row_many_inr in Hbody as (row & row' & Hrow & Hset & ->).
      apply np_set_many_inr in Hset as (Hrl & Hmark & _).
      assert (Hr : length row = sz).
      { eapply Forall_forall in Hrows; [exact Hrows|].
        eapply list_elem_of_lookup_2; eauto. }
      assert (k < length out) by (eapply lookup_lt_Some; eauto).
      unfold Inv. rewrite length_insert. split; [done|]. split.
      { apply Forall_insert; [done|lia]. }
      intros i d Hi Hd. destruct (decide (i = k)) as [->|Hne].
      + rewrite Hk in Hd. injection Hd as <-. exists row'.
        rewrite list_lookup_insert_eq by done. split; [done|].
        split; [lia|]. intros sp Hsp.
        rewrite (gold_spans_inr _ _ Hx0) in Hsp.
        destruct (Hmark (pack sp.1 sp.2 (Z.of_nat context_word_dim) bound))
          as (j & Hj & Hget).
        { unfold to_packed_coordinates_np. apply list_elem_of_fmap.
          exists sp. done. }
        rewrite Hr in Hj. eauto.
      + rewrite list_lookup_insert_ne by done. apply Hprev; [lia|done].
    - unfold Inv, np_zeros2. rewrite length_replicate. split; [done|]. split.
      + apply Forall_replicate, length_replicate.
      + intros i doc Hi. lia. }
  destruct HI as (Hlen & _ & Hdone). split; [done|].
  intros i doc Hi. apply Hdone; [|done]. eapply lookup_lt_Some; eauto.
Qed.

Lemma packed_arrays_none (batch_size : nat) (context_len : list Z)
    (context_word_dim : nat) (batch : list ParagraphAndQuestion) :
  (exists doc, doc ∈ batch /\ answer doc = NoAnswer) ->
  is_raise (PackedMultiSpanAnswerEncoder_arrays pack bound batch_size context_len
              context_word_dim batch).
Proof.
  intros (doc & Hin & Hnone). unfold PackedMultiSpanAnswerEncoder_arrays.
  rewrite packed_size_eq. cbn [mbind result_bind].
  case_decide; [by exists ValueError|].
  destruct (for_enumerate_raise (packed_body pack bound context_word_dim) batch 0
              (np_zeros2 false (length batch)
                 (Z.to_nat (packed_width pack bound context_word_dim)))) as [e He].
  - apply list_elem_of_lookup in Hin as [k Hk]. exists k, doc. split; [done|].
    intros st. exists AttributeError. unfold packed_body. by rewrite Hnone.
  - exists e. by rewrite He.
Qed.
End PackedFacts.

Example packed_example :
  PackedMultiSpanAnswerEncoder_arrays pack_by_length 2 1 [3%Z] 3
    [mkDoc [] [] (TriviaQaAnswer [(0, 1); (2, 2)]%Z)]
  = inr (5, [[false; false; true; true; false]]).
Proof. reflexivity. Qed.

(** C6: in a call that returns, the target array has one row per example of
    the batch, its second dimension is
    [pack(L - bound, L - 1, L, bound) + 1], and in the row of every example
    the entry at the packed index of every gold span is true. *)
Theorem packed_target (pack : Z -> Z -> Z -> Z -> Z) (bound : Z) (batch_size : nat)
    (context_len : list Z) (context_word_dim : nat)
    (batch : list ParagraphAndQuestion) (g g' : RandomState) (feed : feed_dict) :
  PackedMultiSpanAnswerEncoder_encode pack bound batch_size context_len
    context_word_dim batch g = inr (feed, g') ->
  exists sz output,
    feed !! correct_spans_slot = Some (BoolMat sz output) /\
    shape (BoolMat sz output) = [length batch; sz] /\
    Z.of_nat sz =
      (pack (Z.of_nat context_word_dim - bound) (Z.of_nat context_word_dim - 1)
         (Z.of_nat context_word_dim) bound + 1)%Z /\
    forall i doc, batch !! i = Some doc ->
      exists row, output !! i = Some row /\ length row = sz /\
        forall sp, sp ∈ gold_spans (answer doc) ->
          exists j, np_index sz (pack sp.1 sp.2 (Z.of_nat context_word_dim) bound)
                    = inr j /\ row !! j = Some true.
Proof.
  unfold PackedMultiSpanAnswerEncoder_encode. intros H. inv_bind H.
  destruct x as [sz output]. injection H as <- <-.
  apply packed_arrays_spec in Hx as (Hsz & Hlen & Hrows).
  exists sz, output. split; [apply lookup_singleton_eq|].
  split; [simpl; by rewrite Hlen|]. split; [exact Hsz|].
  intros i doc Hi. destruct (Hrows i doc Hi) as (row & Hrow & Hl & Hmark).
  exists row. done.
Qed.

(** C6 with the packing by length, a context of 3 words and bound 2. *)
Lemma packed_target_witness :
  exists sz output,
    ({[ correct_spans_slot := BoolMat 5 [[false; false; true; true; false]] ]}
       : feed_dict) !! correct_spans_slot = Some (BoolMat sz output) /\
    shape (BoolMat sz output) = [1; sz] /\
    Z.of_nat sz = (pack_by_length (3 - 2) (3 - 1) 3 2 + 1)%Z /\
    forall i doc, [mkDoc [] [] (TriviaQaAnswer [(0, 1); (2, 2)]%Z)] !! i = Some doc ->
      exists row, output !! i = Some row /\ length row = sz /\
        forall sp, sp ∈ gold_spans (answer doc) ->
          exists j, np_index sz (pack_by_length sp.1 sp.2 3 2) = inr j /\
                    row !! j = Some true.
Proof.
  apply (packed_target pack_by_length 2 1 [3%Z] 3
           [mkDoc [] [] (TriviaQaAnswer [(0, 1); (2, 2)]%Z)] g_zero g_zero).
  reflexivity.
Defined.

(** C10: a batch with an example whose answer is [None] makes the packed
    encoder raise, whatever the packing and the bound; the dense encoder on a
    batch of well formed answers returns, and the rows of the examples
    without answer are all false. *)
Theorem packed_none_raises_dense_skips :
  (forall pack bound batch_size context_len context_word_dim batch g,
     (exists doc, doc ∈ batch /\ answer doc = NoAnswer) ->
     is_raise (PackedMultiSpanAnswerEncoder_encode pack bound batch_size context_len
                 context_word_dim batch g)) /\
  (forall batch_size context_len context_word_dim batch g,
     length batch <= batch_size ->
     Forall (fun doc => answer_wf (answer doc)) batch ->
     exists starts ends,
       DenseMultiSpanAnswerEncoder_encode batch_size context_len context_word_dim batch g
       = inr (<[ answer_ends_slot := BoolMat context_word_dim ends ]>
                {[ answer_starts_slot := BoolMat context_word_dim starts ]}, g) /\
       forall j doc, batch !! j = Some doc -> answer doc = NoAnswer ->
         starts !! j = Some (replicate context_word_dim false) /\
         ends !! j = Some (replicate context_word_dim false)).
Proof.
  split.
  - intros pack bound batch_size context_len context_word_dim batch g Hnone.
    destruct (packed_arrays_none pack bound batch_size context_len context_word_dim
                batch Hnone) as [e He].
    exists e. unfold PackedMultiSpanAnswerEncoder_encode. by rewrite He.
  - intros batch_size context_len context_word_dim batch g Hfit Hwf.
    destruct (dense_arrays_spec batch_size context_len context_word_dim batch Hfit Hwf)
      as (starts & ends & Hrun & _ & _ & Hrows & _).
    exists starts, ends. unfold DenseMultiSpanAnswerEncoder_encode. rewrite Hrun.
    split; [done|]. intros j doc Hj Hnone.
    destruct (Hrows j doc Hj) as (srow & erow & Hs & He & _ & Hfalse).
    destruct (Hfalse Hnone) as [-> ->]. done.
Qed.

(** C10 on a batch of one example without answer. *)
Lemma packed_none_raises_dense_skips_witness :
  is_raise (PackedMultiSpanAnswerEncoder_encode pack_by_length 2 1 [3%Z] 3
              [mkDoc [] [] NoAnswer] g_zero) /\
  exists starts ends,
    DenseMultiSpanAnswerEncoder_encode 1 [3%Z] 3 [mkDoc [] [] NoAnswer] g_zero
    = inr (<[ answer_ends_slot := BoolMat 3 ends ]>
             {[ answer_starts_slot := BoolMat 3 starts ]}, g_zero) /\
    forall j doc, [mkDoc [] [] NoAnswer] !! j = Some doc -> answer doc = NoAnswer ->
      starts !! j = Some (replicate 3 false) /\ ends !! j = Some (replicate 3 false).
Proof.
  split.
  - apply (proj1 packed_none_raises_dense_skips pack_by_length 2%Z 1 [3%Z] 3
             [mkDoc [] [] NoAnswer] g_zero).
    exists (mkDoc [] [] NoAnswer). split; [apply list_elem_of_here|reflexivity].
  - apply (proj2 packed_none_raises_dense_skips 1 [3%Z] 3 [mkDoc [] [] NoAnswer] g_zero).
    + simpl. lia.
    + apply Forall_cons. split; [by left|]. apply Forall_nil. exact I.
Defined.

(** ** DocumentAndQuestionEncoder: lengths and configuration errors *)

Lemma foldl_max_spec (l : list Z) (x : Z) :
  (x <= foldl Z.max x l)%Z /\ (forall y, y ∈ l -> (y <= foldl Z.max x l)%Z) /\
  foldl Z.max x l ∈ x :: l.
Proof.
  revert x. induction l as [|a l IH]; intros x; simpl.
  - split; [lia|]. split; [|apply list_elem_of_here].
    intros y Hy. by apply elem_of_nil in Hy.
  - destruct (IH (Z.max x a)) as (H1 & H2 & H3). split; [lia|]. split.
    + intros y Hy. apply elem_of_cons in Hy as [->|Hy]; [lia|by apply H2].
    + apply elem_of_cons in H3 as [H3|H3].
      * rewrite H3. destruct (Z.max_spec x a) as [[_ ->]|[_ ->]].
        -- apply list_elem_of_further, list_elem_of_here.
        -- apply list_elem_of_here.
      * by do 2 apply list_elem_of_further.
Qed.

Lemma np_max_inr (l : list Z) (m : Z) :
  np_max l = inr m -> m ∈ l /\ forall y, y ∈ l -> (y <= m)%Z.
Proof.
  destruct l as [|x l]; simpl; [discriminate|]. intros [= <-].
  destruct (foldl_max_spec l x) as (H1 & H2 & H3). split; [done|].
  intros y Hy. apply elem_of_cons in Hy as [->|Hy]; [done|by apply H2].
Qed.

Lemma np_max_nonempty (l : list Z) :
  l <> [] -> exists m, np_max l = inr m.
Proof. destruct l; [done|]. intros _. simpl. eauto. Qed.

Section EncodeFacts.
Context {E : Type}.
Variable self : DocumentAndQuestionEncoder E.
Variable is_train : bool.

Lemma context_lengths_inr (batch : list ParagraphAndQuestion) (cl : list Z)
    (dim : option nat) :
  context_lengths self is_train batch = inr (cl, dim) ->
  length cl = length batch /\
  exists context_word_dim, dim = Some context_word_dim /\
    ((is_train = true /\ max_context_word_dim self = Some context_word_dim /\
      cl = (fun doc => Z.of_nat (context_size doc `min` context_word_dim)) <$> batch) \/
     ((is_train = false \/ max_context_word_dim self = None) /\
      cl = (fun doc => Z.of_nat (context_size doc)) <$> batch /\
      np_max cl = inr (Z.of_nat context_word_dim))).
Proof.
  unfold context_lengths. intros H.
  assert (Helse :
    (is_train = false \/ max_context_word_dim self = None) ->
    (np_max ((fun doc => Z.of_nat (context_size doc)) <$> batch) ≫= fun m =>
       inr ((fun doc => Z.of_nat (context_size doc)) <$> batch, Some (Z.to_nat m)))
    = inr (cl, dim) ->
    length cl = length batch /\
    exists context_word_dim, dim = Some context_word_dim /\
      ((is_train = true /\ max_context_word_dim self = Some context_word_dim /\
        cl = (fun doc => Z.of_nat (context_size doc `min` context_word_dim)) <$> batch) \/
       ((is_train = false \/ max_context_word_dim self = None) /\
        cl = (fun doc => Z.of_nat (context_size doc)) <$> batch /\
        np_max cl = inr (Z.of_nat context_word_dim)))).
  { intros Hc H'. inv_bind H'. injection H' as <- <-.
    split; [by rewrite length_fmap|]. exists (Z.to_nat x). split; [done|].
    right. split; [done|]. split; [done|]. rewrite Hx. f_equal.
    apply np_max_inr in Hx as [Hin _].
    apply list_elem_of_fmap in Hin as (doc & -> & _). by rewrite Nat2Z.id. }
  destruct is_train; [|apply Helse; [by left|done]].
  destruct (max_context_word_dim self) as [d|] eqn:Hd;
    [|apply Helse; [by right|done]].
  injection H as <- <-. split; [by rewrite length_fmap|].
  exists d. split; [done|]. left. done.
Qed.

(** Every step of a call that returns. *)
Lemma encode_inr (batch : list ParagraphAndQuestion) (e e' : E)
    (g g' : RandomState) (feed : feed_dict) :
  DocumentAndQuestionEncoder_encode self is_train batch e g = inr (feed, e', g') ->
  exists n cl context_word_dim ques_word_dim st answers,
    padded_batch_size self batch = inr n /\
    context_lengths self is_train batch = inr (cl, Some context_word_dim) /\
    (forall doc, doc ∈ batch -> length (question doc) <= ques_word_dim) /\
    for_enumerate (doc_body self is_train) 0 batch
      (mkFill ∅ e (allocate self n context_word_dim ques_word_dim)) = inr st /\
    encode (answer_encoder self) n cl context_word_dim batch g = inr (answers, g') /\
    features self n context_word_dim ques_word_dim batch
      (answers ∪ feed_buffers self context_word_dim ques_word_dim (bufs st)
                   (<[question_len_slot := IntVec (question_lengths batch)]>
                      {[ context_len_slot := IntVec cl ]})) = inr feed /\
    e' = emb_state st.
Proof.
  unfold DocumentAndQuestionEncoder_encode. intros H.
  inv_bind H. rename x into n. inv_bind H. destruct x as [cl dim].
  destruct (context_lengths_inr batch cl dim Hx0) as (_ & cwd & -> & _).
  inv_bind H. inv_bind H. rename x0 into qwd. inv_bind H. inv_bind H.
  rename x1 into st. inv_bind H. destruct x1 as [answers g1]. inv_bind H.
  injection H as <- <- <-. injection Hx3 as <-.
  exists n, cl, cwd, qwd, st, answers. repeat split; try done.
  intros doc Hdoc.
  assert (Hq : Z.of_nat (length (question doc)) ∈ question_lengths batch).
  { unfold question_lengths. apply list_elem_of_fmap. eauto. }
  destruct (max_ques_word_dim self) as [q|].
  - injection Hx2 as <-. inv_bind Hx1. case_decide; [discriminate|].
    apply np_max_inr in Hx2 as [_ Hmax]. apply Hmax in Hq. lia.
  - inv_bind Hx2. injection Hx2 as <-.
    apply np_max_inr in Hx3 as [_ Hmax]. apply Hmax in Hq. lia.
Qed.
End EncodeFacts.

(** C7: a batch with more examples than the fixed batch size, and a question
    longer than the fixed question dimension, make [encode] raise ValueError;
    the result is the exception and no feed dict. *)
Theorem encode_configuration_errors :
  (forall (E : Type) (self : DocumentAndQuestionEncoder E) is_train batch e g fixed,
     batch_size self = Some fixed -> fixed < length batch ->
     DocumentAndQuestionEncoder_encode self is_train batch e g = inl ValueError) /\
  (forall (E : Type) (self : DocumentAndQuestionEncoder E) is_train batch e g dim doc,
     max_ques_word_dim self = Some dim -> doc ∈ batch -> dim < length (question doc) ->
     DocumentAndQuestionEncoder_encode self is_train batch e g = inl ValueError).
Proof.
  split.
  - intros E self is_train batch e g fixed Hfixed Hlt.
    unfold DocumentAndQuestionEncoder_encode, padded_batch_size.
    rewrite Hfixed. by rewrite decide_True.
  - intros E self is_train batch e g dim doc Hdim Hdoc Hlong.
    unfold DocumentAndQuestionEncoder_encode.
    destruct (padded_batch_size self batch) as [err|n] eqn:Hn.
    { unfold padded_batch_size in Hn. destruct (batch_size self); [|discriminate].
      unfold raise in Hn. case_decide; simplify_eq. reflexivity. }
    cbn [mbind result_bind].
    assert (Hne : batch <> []).
    { intros ->. by apply elem_of_nil in Hdoc. }
    destruct (context_lengths self is_train batch) as [err|[cl cwd]] eqn:Hcl.
    { unfold context_lengths in Hcl.
      destruct (np_max_nonempty ((fun doc => Z.of_nat (context_size doc)) <$> batch))
        as [m Hm].
      { intros Hnil. apply fmap_nil_inv in Hnil. done. }
      rewrite Hm in Hcl. unfold raise in Hcl.
      destruct is_train, (max_context_word_dim self); discriminate. }
    cbn [mbind result_bind]. rewrite Hdim.
    destruct (np_max_nonempty (question_lengths batch)) as [m Hm].
    { intros Hnil. apply fmap_nil_inv in Hnil. done. }
    rewrite Hm. cbn [mbind result_bind].
    apply np_max_inr in Hm as [_ Hmax].
    assert (Hq : Z.of_nat (length (question doc)) ∈ question_lengths batch).
    { unfold question_lengths. apply list_elem_of_fmap. eauto. }
    apply Hmax in Hq. rewrite decide_True by lia. done.
Qed.

(** The two errors of C7 on the small encoder. *)
Lemma encode_configuration_errors_witness :
  DocumentAndQuestionEncoder_encode small_encoder true [foo_doc; foo_doc; foo_doc]
    100%Z g_zero = inl ValueError /\
  DocumentAndQuestionEncoder_encode small_encoder true
    [mkDoc ["a"%string; "b"%string; "c"%string] [] NoAnswer] 100%Z g_zero
  = inl ValueError.
Proof.
  split.
  - apply (proj1 encode_configuration_errors Z small_encoder true
             [foo_doc; foo_doc; foo_doc] 100%Z g_zero 2); [reflexivity | simpl; lia].
  - apply (proj2 encode_configuration_errors Z small_encoder true
             [mkDoc ["a"%string; "b"%string; "c"%string] [] NoAnswer] 100%Z g_zero 2
             (mkDoc ["a"%string; "b"%string; "c"%string] [] NoAnswer));
      [reflexivity | apply list_elem_of_here | simpl; lia].
Defined.

(** ** The word and character loops *)

Lemma np_set3_inr {A : Type} (i j k : nat) (v : A) (c c' : list (list (list A))) :
  np_set3 i j k v c = inr c' ->
  exists plane row, c !! i = Some plane /\ plane !! j = Some row /\ k < length row /\
                    c' = <[i := <[j := <[k := v]> row]> plane]> c.
Proof.
  unfold np_set3. intros H. inv_bind H. inv_bind H. injection H as <-.
  apply np_get_inr in Hx. apply np_set2_inr in Hx0 as (row & Hrow & Hk & ->).
  eauto 6.
Qed.

Lemma row_update_trans {A : Type} (i j : nat) (c1 c2 c3 : list (list (list A))) :
  row_update i j c1 c2 -> row_update i j c2 c3 -> row_update i j c1 c3.
Proof.
  intros [->|(p & r & r' & Hp & Hr & Hl & ->)]; [done|].
  intros [->|(p2 & r2 & r2' & Hp2 & Hr2 & Hl2 & ->)].
  - right. eauto 8.
  - right. assert (i < length c1) by (eapply lookup_lt_Some; eauto).
    assert (j < length p) by (eapply lookup_lt_Some; eauto).
    rewrite list_lookup_insert_eq in Hp2 by done. injection Hp2 as <-.
    rewrite list_lookup_insert_eq in Hr2 by done. injection Hr2 as <-.
    exists p, r, r2'. rewrite !list_insert_insert_eq.
    split; [done|]. split; [done|]. split; [lia|done].
Qed.

Section FillFacts.
Context {E : Type}.
Variable self : DocumentAndQuestionEncoder E.
Variable is_train : bool.

Lemma char_loop_inr (ce : CharEmbedder) (doc_ix word_ix char_ix : nat)
    (l : list ascii) (cube cube' : option (list (list (list Z)))) :
  char_loop self ce doc_ix word_ix char_ix l cube = inr cube' ->
  match cube, cube' with
  | Some c, Some c' => row_update doc_ix word_ix c c'
  | None, None => True
  | _, _ => False
  end.
Proof.
  revert char_ix cube. induction l as [|ch l IH]; intros char_ix cube; simpl.
  - intros [= <-]. destruct cube; [by left|done].
  - case_decide as Hbr.
    + intros [= <-]. destruct cube; [by left|done].
    + intros H. inv_bind H. apply IH in H.
      destruct cube as [c|]; simpl in Hx; [|discriminate].
      inv_bind Hx. injection Hx as <-. destruct cube' as [c'|]; [|done].
      eapply row_update_trans; [|exact H].
      apply np_set3_inr in Hx0 as (plane & row & Hp & Hr & Hk & ->).
      right. exists plane, row, (<[char_ix := char_to_ix ce ch]> row).
      rewrite length_insert. done.
Qed.

Lemma fill_chars_inr (doc_ix word_ix : nat) (word : string)
    (cube cube' : option (list (list (list Z)))) :
  fill_chars self doc_ix word_ix word cube = inr cube' ->
  match cube, cube' with
  | Some c, Some c' => row_update doc_ix word_ix c c'
  | None, None => True
  | _, _ => False
  end.
Proof.
  unfold fill_chars. destruct (char_emb self) as [ce|].
  - apply char_loop_inr.
  - intros [= <-]. destruct cube; [by left|done].
Qed.

(** What one run of the body shared by the two word loops does. *)
Lemma word_body_inr (sd : side) (doc_ix word_ix : nat) (word : string)
    (st st' : fill_state E) :
  word_body self is_train sd doc_ix word_ix word st = inr st' ->
  (forall sd', sd' <> sd ->
     words sd' (bufs st') = words sd' (bufs st) /\
     chars sd' (bufs st') = chars sd' (bufs st)) /\
  match chars sd (bufs st), chars sd (bufs st') with
  | Some c, Some c' => row_update doc_ix word_ix c c'
  | None, None => True
  | _, _ => False
  end /\
  match word_embedder self with
  | None =>
      placeholders st' = placeholders st /\ emb_state st' = emb_state st /\
      words sd (bufs st') = words sd (bufs st)
  | Some we =>
      exists m row,
        words sd (bufs st) = Some m /\ m !! doc_ix = Some row /\
        word_ix < length row /\
        let r := resolve is_train we word (word_to_ix sd we word)
                   (placeholders st) (emb_state st) in
        words sd (bufs st') = Some (<[doc_ix := <[word_ix := r.1.1]> row]> m) /\
        placeholders st' = r.1.2 /\ emb_state st' = r.2
  end.
Proof.
  unfold word_body. intros H. inv_bind H. inv_bind H. injection H as <-.
  apply fill_chars_inr in Hx0. simpl.
  assert (Hmid :
    (forall sd', sd' <> sd ->
       words sd' (bufs x) = words sd' (bufs st) /\
       chars sd' (bufs x) = chars sd' (bufs st)) /\
    chars sd (bufs x) = chars sd (bufs st) /\
    match word_embedder self with
    | None =>
        placeholders x = placeholders st /\ emb_state x = emb_state st /\
        words sd (bufs x) = words sd (bufs st)
    | Some we =>
        exists m row,
          words sd (bufs st) = Some m /\ m !! doc_ix = Some row /\
          word_ix < length row /\
          let r := resolve is_train we word (word_to_ix sd we word)
                     (placeholders st) (emb_state st) in
          words sd (bufs x) = Some (<[doc_ix := <[word_ix := r.1.1]> row]> m) /\
          placeholders x = r.1.2 /\ emb_state x = r.2
    end).
  { destruct (word_embedder self) as [we|].
    - destruct (resolve is_train we word (word_to_ix sd we word)
                  (placeholders st) (emb_state st)) as [[v t] e1] eqn:Hr.
      inv_bind Hx. injection Hx as <-. unfold set_item2 in Hx1.
      destruct (words sd (bufs st)) as [m|] eqn:Hm; [|discriminate].
      inv_bind Hx1. injection Hx1 as <-.
      apply np_set2_inr in Hx as (row & Hrow & Hlt & ->).
      split; [|split].
      + intros sd' Hne. destruct sd, sd'; done.
      + destruct sd; done.
      + exists m, row. simpl. destruct sd; done.
    - injection Hx as <-. done. }
  destruct Hmid as (Hother & Hch & Hw). split; [|split].
  - intros sd' Hne. destruct (Hother sd' Hne) as [<- <-]. destruct sd, sd'; done.
  - rewrite <- Hch.
    replace (chars sd (with_chars sd x0 (bufs x))) with x0 by (by destruct sd).
    done.
  - destruct (word_embedder self) as [we|].
    + destruct Hw as (m & row & Hm & Hrow & Hlt & Hw' & Ht & He).
      exists m, row. simpl in *. rewrite <- Hw'. destruct sd; done.
    + destruct Hw as (-> & -> & <-). destruct sd; done.
Qed.
End FillFacts.

(** ** The feed dict *)

Lemma single_span_encoder_ok : answer_encoder_ok SingleSpanAnswerEncoder.
Proof.
  intros n cl dim batch g feed g' H s [a Hs]. simpl in H.
  unfold SingleSpanAnswerEncoder_encode in H. inv_bind H. destruct x as [arr g1].
  injection H as <- <-. apply lookup_singleton_Some in Hs as [<- _]. by left.
Qed.

Lemma dense_encoder_ok : answer_encoder_ok DenseMultiSpanAnswerEncoder.
Proof.
  intros n cl dim batch g feed g' H s [a Hs]. simpl in H.
  unfold DenseMultiSpanAnswerEncoder_encode in H. inv_bind H. destruct x as [st en].
  injection H as <- <-.
  apply lookup_insert_Some in Hs as [[<- _]|[_ Hs]].
  - right. right. by left.
  - apply lookup_singleton_Some in Hs as [<- _]. right. by left.
Qed.

Lemma packed_encoder_ok (pack : Z -> Z -> Z -> Z -> Z) (bound : Z) :
  answer_encoder_ok (PackedMultiSpanAnswerEncoder pack bound).
Proof.
  intros n cl dim batch g feed g' H s [a Hs]. simpl in H.
  unfold PackedMultiSpanAnswerEncoder_encode in H. inv_bind H. destruct x as [sz out].
  injection H as <- <-. apply lookup_singleton_Some in Hs as [<- _].
  right. right. by right.
Qed.

Lemma feed_opt_lookup (s s' : slot) (a : option ndarray) (feed : feed_dict) :
  feed_opt s a feed !! s' =
  if decide (s = s') then match a with Some x => Some x | None => feed !! s' end
  else feed !! s'.
Proof.
  unfold feed_opt. destruct a as [x|]; case_decide; subst; try done.
  - apply lookup_insert_eq.
  - by apply lookup_insert_ne.
Qed.

Section FeedFacts.
Context {E : Type}.
Variable self : DocumentAndQuestionEncoder E.

Lemma feed_buffers_lookup (dim qdim : nat) (b : buffers)
    (batch : list ParagraphAndQuestion) (cl : list Z) :
  let feed := feed_buffers self dim qdim b (base_feed batch cl) in
  feed !! context_len_slot = Some (IntVec cl) /\
  feed !! question_len_slot = Some (IntVec (question_lengths batch)) /\
  feed !! context_words_slot = IntMat dim <$> context_words b /\
  feed !! question_words_slot = IntMat qdim <$> question_words b /\
  feed !! context_chars_slot = IntCube dim (max_char_dim self) <$> context_chars b /\
  feed !! question_chars_slot = IntCube qdim (max_char_dim self) <$> question_chars b.
Proof.
  unfold feed_buffers, base_feed. rewrite !feed_opt_lookup. simpl.
  repeat split; try reflexivity.
  - by destruct (context_words b).
  - by destruct (question_words b).
  - by destruct (context_chars b).
  - by destruct (question_chars b).
Qed.

Lemma features_lookup (n dim qdim : nat) (batch : list ParagraphAndQuestion)
    (feed0 feed : feed_dict) (s : slot) :
  features self n dim qdim batch feed0 = inr feed ->
  s <> context_features_slot -> s <> question_features_slot ->
  feed !! s = feed0 !! s.
Proof.
  unfold features. destruct (word_featurizer self) as [f|].
  - intros H Hc Hq. inv_bind H. destruct x as [qf cf]. injection H as <-.
    by rewrite !lookup_insert_ne.
  - by intros [= <-].
Qed.

(** The slots that the encoder itself fills, in the dict of a call that
    returns. *)
Lemma encode_feed (is_train : bool) (batch : list ParagraphAndQuestion) (e e' : E)
    (g g' : RandomState) (feed : feed_dict) :
  answer_encoder_ok (answer_encoder self) ->
  DocumentAndQuestionEncoder_encode self is_train batch e g = inr (feed, e', g') ->
  exists n cl dim qdim st,
    padded_batch_size self batch = inr n /\
    context_lengths self is_train batch = inr (cl, Some dim) /\
    (forall doc, doc ∈ batch -> length (question doc) <= qdim) /\
    for_enumerate (doc_body self is_train) 0 batch
      (mkFill ∅ e (allocate self n dim qdim)) = inr st /\
    feed !! context_len_slot = Some (IntVec cl) /\
    feed !! question_len_slot = Some (IntVec (question_lengths batch)) /\
    feed !! context_words_slot = IntMat dim <$> context_words (bufs st) /\
    feed !! question_words_slot = IntMat qdim <$> question_words (bufs st) /\
    feed !! context_chars_slot
      = IntCube dim (max_char_dim self) <$> context_chars (bufs st) /\
    feed !! question_chars_slot
      = IntCube qdim (max_char_dim self) <$> question_chars (bufs st).
Proof.
  intros Hok H.
  apply encode_inr in H as (n & cl & dim & qdim & st & answers & Hn & Hcl & Hq &
                            Hfill & Hans & Hfeat & _).
  exists n, cl, dim, qdim, st. do 4 (split; [done|]).
  assert (Hnone : forall s, ~ answer_slot s -> answers !! s = None).
  { intros s Hs. destruct (answers !! s) eqn:Ha; [|done]. exfalso. apply Hs.
    eapply Hok; [exact Hans|]. by rewrite Ha. }
  destruct (feed_buffers_lookup dim qdim (bufs st) batch cl)
    as (H1 & H2 & H3 & H4 & H5 & H6).
  fold (base_feed batch cl) in Hfeat.
  assert (Hl : forall s, ~ answer_slot s -> s <> context_features_slot ->
            s <> question_features_slot ->
            feed !! s = feed_buffers self dim qdim (bufs st) (base_feed batch cl) !! s).
  { intros s Hs Hc Hqf. rewrite (features_lookup _ _ _ _ _ _ s Hfeat Hc Hqf).
    rewrite lookup_union_r; [done|]. by apply Hnone. }
  rewrite !Hl; [done| | | | | | | | | | | | | | | | | |];
    first [discriminate | unfold answer_slot; intros [?|[?|[?|?]]]; discriminate].
Qed.
End FeedFacts.

(** ** Context positions beyond [max_context_word_dim] *)

Section ZeroTail.
Context {E : Type}.
Variable self : DocumentAndQuestionEncoder E.
Variable is_train : bool.
Variables n dim d2 limit : nat.

Lemma zero_tail_allocate (qdim : nat) :
  d2 = max_char_dim self -> zero_tail n dim d2 limit (allocate self n dim qdim).
Proof.
  intros ->. unfold zero_tail, allocate, np_zeros2, np_zeros3. simpl. split.
  - intros cw Hcw. destruct (word_embedder self); [|discriminate].
    injection Hcw as <-. split; [apply length_replicate|].
    intros i row Hrow. apply lookup_replicate in Hrow as [-> _].
    split; [apply length_replicate|]. intros j Hj. apply lookup_replicate_2. lia.
  - intros cc Hcc. destruct (char_emb self); [|discriminate].
    injection Hcc as <-. split; [apply length_replicate|].
    intros i plane Hp. apply lookup_replicate in Hp as [-> _].
    split; [apply length_replicate|]. intros j Hj. apply lookup_replicate_2. lia.
Qed.

Lemma zero_tail_word_body (sd : side) (doc_ix word_ix : nat) (word : string)
    (st st' : fill_state E) :
  sd = QuestionSide \/ word_ix < limit ->
  word_body self is_train sd doc_ix word_ix word st = inr st' ->
  zero_tail n dim d2 limit (bufs st) -> zero_tail n dim d2 limit (bufs st').
Proof.
  intros Hside Hbody [Hw Hc].
  apply word_body_inr in Hbody as (Hother & Hch & Hwd).
  destruct sd.
  { destruct (Hother ContextSide) as [Hw' Hc']; [done|]. simpl in Hw', Hc'.
    unfold zero_tail. rewrite Hw', Hc'. done. }
  destruct Hside as [?|Hlt]; [done|]. simpl in Hch, Hwd. split.
  - intros cw' Hcw'. destruct (word_embedder self) as [we|].
    + destruct Hwd as (m & row & Hm & Hrow & Hlen & Hnew & _).
      rewrite Hcw' in Hnew. injection Hnew as ->.
      destruct (Hw m Hm) as [Hn Hrows]. rewrite length_insert. split; [done|].
      intros i r Hr. destruct (decide (i = doc_ix)) as [->|Hne].
      * rewrite list_lookup_insert_eq in Hr by (eapply lookup_lt_Some; eauto).
        injection Hr as <-. destruct (Hrows doc_ix row Hrow) as [Hl Hz].
        rewrite length_insert. split; [done|]. intros j Hj.
        rewrite list_lookup_insert_ne by lia. by apply Hz.
      * rewrite list_lookup_insert_ne in Hr by done. by apply (Hrows i).
    + destruct Hwd as (_ & _ & Heq). rewrite Heq in Hcw'. by apply Hw.
  - intros cc' Hcc'. rewrite Hcc' in Hch.
    destruct (context_chars (bufs st)) as [cc|] eqn:Hcc; [|done].
    destruct (Hc cc eq_refl) as [Hn Hplanes].
    destruct Hch as [->|(plane & row & row' & Hp & Hr & Hl & ->)]; [done|].
    rewrite length_insert. split; [done|].
    intros i p Hpi. destruct (decide (i = doc_ix)) as [->|Hne].
    * rewrite list_lookup_insert_eq in Hpi by (eapply lookup_lt_Some; eauto).
      injection Hpi as <-. destruct (Hplanes doc_ix plane Hp) as [Hpl Hz].
      rewrite length_insert. split; [done|]. intros j Hj.
      rewrite list_lookup_insert_ne by lia. by apply Hz.
    * rewrite list_lookup_insert_ne in Hpi by done. by apply (Hplanes i).
Qed.

Hypothesis Hlimit : max_context_word_dim self = Some limit.

Lemma zero_tail_sentence (doc_ix : nat) (sent : list string) (word_ix word_ix' : nat)
    (st st' : fill_state E) :
  word_ix <= limit ->
  sentence_loop self is_train doc_ix sent word_ix st = inr (word_ix', st') ->
  zero_tail n dim d2 limit (bufs st) ->
  word_ix' <= limit /\ zero_tail n dim d2 limit (bufs st').
Proof.
  revert word_ix st. induction sent as [|word sent IH]; intros word_ix st Hle; simpl.
  - by intros [= <- <-].
  - rewrite Hlimit. case_decide as Hbr.
    + by intros [= <- <-].
    + intros H Hz. inv_bind H.
      assert (word_ix < limit) by (assert (word_ix <> limit) by congruence; lia).
      apply IH in H; [done|lia|].
      eapply zero_tail_word_body; [|exact Hx|exact Hz]. by right.
Qed.

Lemma zero_tail_context (doc_ix : nat) (sents : list (list string))
    (sent_ix word_ix : nat) (st st' : fill_state E) :
  word_ix <= limit ->
  context_loop self is_train doc_ix sents sent_ix word_ix st = inr st' ->
  zero_tail n dim d2 limit (bufs st) -> zero_tail n dim d2 limit (bufs st').
Proof.
  revert sent_ix word_ix st.
  induction sents as [|sent sents IH]; intros sent_ix word_ix st Hle; simpl.
  - by intros [= <-].
  - case_decide as Hbr.
    + by intros [= <-].
    + intros H Hz. inv_bind H. destruct x as [w1 st1].
      destruct (zero_tail_sentence _ _ _ _ _ _ Hle Hx Hz) as [Hle1 Hz1].
      by apply (IH _ _ _ Hle1 H).
Qed.

Lemma zero_tail_doc_body (doc_ix : nat) (doc : ParagraphAndQuestion)
    (st st' : fill_state E) :
  doc_body self is_train doc_ix doc st = inr st' ->
  zero_tail n dim d2 limit (bufs st) -> zero_tail n dim d2 limit (bufs st').
Proof.
  unfold doc_body. intros H Hz. inv_bind H.
  apply (zero_tail_context _ _ _ _ _ _ (Nat.le_0_l limit) H).
  refine (for_enumerate_inv (word_body self is_train QuestionSide doc_ix)
            (fun _ s => zero_tail n dim d2 limit (bufs s)) (question doc) _ _ _ _ Hx).
  - intros k w s s' _ Hs Hb. eapply zero_tail_word_body; [|exact Hb|exact Hs].
    by left.
  - exact Hz.
Qed.

Lemma zero_tail_batch (batch : list ParagraphAndQuestion) (st st' : fill_state E) :
  for_enumerate (doc_body self is_train) 0 batch st = inr st' ->
  zero_tail n dim d2 limit (bufs st) -> zero_tail n dim d2 limit (bufs st').
Proof.
  intros H Hz.
  refine (for_enumerate_inv (doc_body self is_train)
            (fun _ s => zero_tail n dim d2 limit (bufs s)) batch _ _ _ Hz H).
  intros k doc s s' _ Hs Hb. by apply (zero_tail_doc_body _ _ _ _ Hb).
Qed.
End ZeroTail.

Lemma padded_batch_size_inr {E : Type} (self : DocumentAndQuestionEncoder E)
    (batch : list ParagraphAndQuestion) (n : nat) :
  padded_batch_size self batch = inr n ->
  length batch <= n /\
  match batch_size self with Some fixed => n = fixed | None => n = length batch end.
Proof.
  unfold padded_batch_size. destruct (batch_size self) as [fixed|].
  - case_decide; intros; simplify_eq. split; [lia|done].
  - intros [= <-]. done.
Qed.

(** C9: with [is_train] false and a maximal context dimension, the context
    length array of a call that returns holds the full length of an example
    longer than the maximum, while the positions of its context word and
    character rows from the maximum on are zero. *)
Theorem eval_length_exceeds_filled {E : Type} (self : DocumentAndQuestionEncoder E)
    (batch : list ParagraphAndQuestion) (e e' : E) (g g' : RandomState)
    (feed : feed_dict) (limit : nat) :
  answer_encoder_ok (answer_encoder self) ->
  max_context_word_dim self = Some limit ->
  DocumentAndQuestionEncoder_encode self false batch e g = inr (feed, e', g') ->
  forall i doc, batch !! i = Some doc -> limit < context_size doc ->
    (exists cl, feed !! context_len_slot = Some (IntVec cl) /\
                cl !! i = Some (Z.of_nat (context_size doc))) /\
    (forall d1 cw, feed !! context_words_slot = Some (IntMat d1 cw) ->
       context_size doc <= d1 /\
       exists row, cw !! i = Some row /\ length row = d1 /\
                   forall j, limit <= j < d1 -> row !! j = Some 0%Z) /\
    (forall d1 d2 cc, feed !! context_chars_slot = Some (IntCube d1 d2 cc) ->
       context_size doc <= d1 /\
       exists plane, cc !! i = Some plane /\ length plane = d1 /\
                     forall j, limit <= j < d1 -> plane !! j = Some (replicate d2 0%Z)).
Proof.
  intros Hok Hlimit Hrun i doc Hi Hlong.
  apply encode_feed in Hrun
    as (n & cl & dim & qdim & st & Hn & Hcl & _ & Hfill & Fcl & _ & Fcw & _ & Fcc & _);
    [|done].
  apply padded_batch_size_inr in Hn as [Hn _].
  apply context_lengths_inr in Hcl as (_ & dim' & [= <-] & Hcase).
  destruct Hcase as [(? & _)|(_ & -> & Hmax)]; [done|].
  assert (Hin : Z.of_nat (context_size doc)
                ∈ (fun doc => Z.of_nat (context_size doc)) <$> batch).
  { apply list_elem_of_fmap. exists doc. split; [done|].
    eapply list_elem_of_lookup_2; eauto. }
  apply np_max_inr in Hmax as [_ Hmax]. apply Hmax in Hin.
  assert (Hdim : context_size doc <= dim) by lia.
  assert (Hib : i < n) by (apply lookup_lt_Some in Hi; lia).
  pose proof (zero_tail_batch self false n dim (max_char_dim self) limit Hlimit
                batch _ _ Hfill (zero_tail_allocate self n dim _ limit qdim eq_refl))
    as [Hzw Hzc].
  split; [|split].
  - eexists. split; [exact Fcl|]. by rewrite list_lookup_fmap, Hi.
  - intros d1 cw Hcw. rewrite Hcw in Fcw.
    destruct (context_words (bufs st)) as [cw'|]; [|done].
    injection Fcw as -> ->. destruct (Hzw cw' eq_refl) as [Hlen Hrows].
    split; [done|].
    destruct (lookup_lt_is_Some_2 cw' i) as [row Hrow]; [lia|].
    destruct (Hrows i row Hrow) as [Hl Hz]. exists row. done.
  - intros d1 d2 cc Hcc. rewrite Hcc in Fcc.
    destruct (context_chars (bufs st)) as [cc'|]; [|done].
    injection Fcc as -> -> ->. destruct (Hzc cc' eq_refl) as [Hlen Hplanes].
    split; [done|].
    destruct (lookup_lt_is_Some_2 cc' i) as [plane Hp]; [lia|].
    destruct (Hplanes i plane Hp) as [Hl Hz]. exists plane. done.
Qed.

(** C9 on an example of five context words and a maximum of three. *)
Lemma eval_length_exceeds_filled_witness :
  exists feed e' g',
    DocumentAndQuestionEncoder_encode small_encoder false [foo_doc] 100%Z g_zero
    = inr (feed, e', g') /\
    (exists cl, feed !! context_len_slot = Some (IntVec cl) /\
                cl !! 0 = Some (Z.of_nat (context_size foo_doc))) /\
    (forall d1 cw, feed !! context_words_slot = Some (IntMat d1 cw) ->
       context_size foo_doc <= d1 /\
       exists row, cw !! 0 = Some row /\ length row = d1 /\
                   forall j, 3 <= j < d1 -> row !! j = Some 0%Z) /\
    (forall d1 d2 cc, feed !! context_chars_slot = Some (IntCube d1 d2 cc) ->
       context_size foo_doc <= d1 /\
       exists plane, cc !! 0 = Some plane /\ length plane = d1 /\
                     forall j, 3 <= j < d1 -> plane !! j = Some (replicate d2 0%Z)).
Proof.
  eexists _, _, _. split; [vm_compute; reflexivity|].
  eapply (eval_length_exceeds_filled small_encoder [foo_doc] 100%Z _ g_zero _ _ 3
            single_span_encoder_ok eq_refl);
    [vm_compute; reflexivity | reflexivity | vm_compute; lia].
Defined.

(** ** Placeholder ids *)

Lemma slice_to_fits (limit : option nat) (l : list string) :
  fits limit l -> slice_to limit l = l.
Proof. destruct limit as [m|]; simpl; [|done]. intros H. by apply take_ge. Qed.

Lemma fits_slice_to (limit : option nat) (l : list string) : fits limit (slice_to limit l).
Proof. destruct limit as [m|]; simpl; [|done]. rewrite length_take. lia. Qed.

Lemma slice_to_app_full (limit : option nat) (l1 l2 : list string) (m : nat) :
  limit = Some m -> length l1 = m -> slice_to limit (l1 ++ l2) = l1.
Proof. intros -> <-. simpl. by rewrite take_app_length. Qed.

Lemma slice_to_idemp_app (limit : option nat) (l r : list string) :
  slice_to limit (slice_to limit l ++ r) = slice_to limit (l ++ r).
Proof.
  destruct limit as [m|]; simpl; [|done].
  destruct (decide (m <= length l)) as [Hle|Hgt].
  - rewrite !take_app_le by (rewrite ?length_take; lia).
    rewrite take_take. f_equal. lia.
  - by rewrite (take_ge l) by lia.
Qed.

Section Placeholders.
Context {E : Type}.
Variable self : DocumentAndQuestionEncoder E.
Variable is_train : bool.
Variable we : WordEmbedder E.
Hypothesis Hwe : word_embedder self = Some we.

Lemma resolve_spec (w : string) (ix : Z) (table : gmap string Z) (e : E) :
  let r := resolve is_train we w ix table e in
  table ⊆ r.1.2 /\ ((ix < 0)%Z -> r.1.2 !! lower w = Some r.1.1).
Proof.
  unfold resolve. case_decide as Hneg; simpl; [|split; [done|lia]].
  destruct (table !! lower w) as [v|] eqn:Hl; simpl; [done|].
  destruct (get_placeholder we ix is_train e) as [v e1]. simpl. split.
  - by apply insert_subseteq.
  - intros _. apply lookup_insert_eq.
Qed.

Lemma word_body_cells (sd : side) (i j : nat) (w : string) (st st' : fill_state E) :
  word_body self is_train sd i j w st = inr st' ->
  placeholders st ⊆ placeholders st' /\
  (unknown we sd w ->
   exists v, cell (words sd (bufs st')) i j = Some v /\
             placeholders st' !! lower w = Some v) /\
  (forall sd' i' a, sd' <> sd \/ i' <> i \/ a <> j ->
     cell (words sd' (bufs st')) i' a = cell (words sd' (bufs st)) i' a).
Proof.
  intros H. apply word_body_inr in H as (Hother & _ & Hw). rewrite Hwe in Hw.
  destruct Hw as (m & row & Hm & Hrow & Hlt & Hnew & Ht & He).
  destruct (resolve_spec w (word_to_ix sd we w) (placeholders st) (emb_state st))
    as [Hsub Hrec].
  assert (Hi : i < length m) by (eapply lookup_lt_Some; eauto).
  split; [by rewrite Ht|]. split.
  - intros Hu. eexists. split; [|rewrite Ht; by apply Hrec].
    unfold cell. rewrite Hnew. simpl. rewrite list_lookup_insert_eq by done.
    simpl. by apply list_lookup_insert_eq.
  - intros sd' i' a Hne. destruct (decide (sd' = sd)) as [->|Hsd].
    + unfold cell. rewrite Hnew, Hm. simpl.
      destruct (decide (i' = i)) as [->|Hi'].
      * rewrite list_lookup_insert_eq, Hrow by done. simpl.
        apply list_lookup_insert_ne. destruct Hne as [?|[?|?]]; congruence.
      * by rewrite list_lookup_insert_ne.
    + destruct (Hother sd' Hsd) as [-> _]. done.
Qed.

Lemma consistent_step (sd sd' : side) (i : nat) (ws : list string) (w : string)
    (st st' : fill_state E) :
  word_body self is_train sd i (if decide (sd' = sd) then length ws else 0) w st
  = inr st' \/ (sd' <> sd /\ exists j, word_body self is_train sd i j w st = inr st') ->
  consistent we (placeholders st) sd' ws i (bufs st) ->
  consistent we (placeholders st') sd'
    (if decide (sd' = sd) then ws ++ [w] else ws) i (bufs st').
Proof.
  intros Hbody Hc. destruct (decide (sd' = sd)) as [->|Hne].
  - destruct Hbody as [Hbody|[? _]]; [|done].
    apply word_body_cells in Hbody as (Hsub & Hnew & Hkeep).
    intros a w' Ha Hu. destruct (decide (a = length ws)) as [->|Hal].
    + rewrite lookup_app_r, Nat.sub_diag in Ha by lia. injection Ha as <-.
      by apply Hnew.
    + assert (a < length ws).
      { apply lookup_lt_Some in Ha. rewrite length_app in Ha. simpl in Ha. lia. }
      rewrite lookup_app_l in Ha by done.
      destruct (Hc a w' Ha Hu) as (v & Hv & Ht). exists v.
      rewrite Hkeep by (right; right; done). split; [done|].
      eapply lookup_weaken; eauto.
  - assert (exists j, word_body self is_train sd i j w st = inr st') as [j Hb].
    { destruct Hbody as [Hb|[_ Hb]]; eauto. }
    apply word_body_cells in Hb as (Hsub & _ & Hkeep).
    intros a w' Ha Hu. destruct (Hc a w' Ha Hu) as (v & Hv & Ht). exists v.
    rewrite Hkeep by (by left). split; [done|]. eapply lookup_weaken; eauto.
Qed.

Lemma doc_inv_question (b0 : buffers) (i : nat) (qdone cdone : list string)
    (w : string) (st st' : fill_state E) :
  word_body self is_train QuestionSide i (length qdone) w st = inr st' ->
  doc_inv we b0 i qdone cdone st -> doc_inv we b0 i (qdone ++ [w]) cdone st'.
Proof.
  intros Hb (Hframe & Hq & Hc). split; [|split].
  - intros sd i' a Hne. rewrite <- (Hframe sd i' a Hne).
    apply word_body_cells in Hb as (_ & _ & Hkeep). apply Hkeep. right. by left.
  - apply (consistent_step QuestionSide QuestionSide i qdone w st st'); [|done].
    left. by rewrite decide_True.
  - apply (consistent_step QuestionSide ContextSide i cdone w st st'); [|done].
    right. split; [done|]. eauto.
Qed.

Lemma doc_inv_context (b0 : buffers) (i : nat) (qdone cdone : list string)
    (w : string) (st st' : fill_state E) :
  word_body self is_train ContextSide i (length cdone) w st = inr st' ->
  doc_inv we b0 i qdone cdone st -> doc_inv we b0 i qdone (cdone ++ [w]) st'.
Proof.
  intros Hb (Hframe & Hq & Hc). split; [|split].
  - intros sd i' a Hne. rewrite <- (Hframe sd i' a Hne).
    apply word_body_cells in Hb as (_ & _ & Hkeep). apply Hkeep. right. by left.
  - apply (consistent_step ContextSide QuestionSide i qdone w st st'); [|done].
    right. split; [done|]. eauto.
  - apply (consistent_step ContextSide ContextSide i cdone w st st'); [|done].
    left. by rewrite decide_True.
Qed.
End Placeholders.

Section PlaceholderLoops.
Context {E : Type}.
Variable self : DocumentAndQuestionEncoder E.
Variable is_train : bool.
Variable we : WordEmbedder E.
Hypothesis Hwe : word_embedder self = Some we.

Lemma doc_inv_question_loop (b0 : buffers) (i : nat) (ws : list string)
    (st st' : fill_state E) :
  for_enumerate (word_body self is_train QuestionSide i) 0 ws st = inr st' ->
  doc_inv we b0 i [] [] st -> doc_inv we b0 i ws [] st'.
Proof.
  intros Hrun H0.
  pose proof (for_enumerate_inv (word_body self is_train QuestionSide i)
                (fun k s => doc_inv we b0 i (take k ws) [] s) ws) as Hinv.
  rewrite <- (take_ge ws (length ws)) by done.
  apply Hinv with (st := st); [|done|done].
  intros k w s s' Hk Hs Hb. rewrite (take_S_r ws k w Hk).
  apply (doc_inv_question self is_train we Hwe b0 i (take k ws) [] w s s'); [|done].
  rewrite length_take_le; [done|]. apply lookup_lt_Some in Hk. lia.
Qed.

Lemma doc_inv_sentence (b0 : buffers) (i : nat) (qdone : list string)
    (sent : list string) (cdone : list string) (word_ix' : nat)
    (st st' : fill_state E) :
  fits (max_context_word_dim self) cdone ->
  sentence_loop self is_train i sent (length cdone) st = inr (word_ix', st') ->
  doc_inv we b0 i qdone cdone st ->
  word_ix' = length (slice_to (max_context_word_dim self) (cdone ++ sent)) /\
  doc_inv we b0 i qdone (slice_to (max_context_word_dim self) (cdone ++ sent)) st'.
Proof.
  revert cdone st. induction sent as [|w sent IH]; intros cdone st Hfit; simpl.
  - intros [= <- <-] Hinv. rewrite app_nil_r, slice_to_fits by done. done.
  - case_decide as Hbr.
    + intros [= <- <-] Hinv.
      rewrite (slice_to_app_full _ cdone (w :: sent) (length cdone)) by done. done.
    + intros H Hinv. inv_bind H.
      replace (S (length cdone)) with (length (cdone ++ [w])) in H
        by (rewrite length_app; simpl; lia).
      replace (cdone ++ w :: sent) with ((cdone ++ [w]) ++ sent)
        by (by rewrite <- app_assoc).
      apply (IH (cdone ++ [w]) x); [|done|].
      * unfold fits in *. destruct (max_context_word_dim self) as [m|]; [|done].
        rewrite length_app. simpl.
        assert (length cdone <> m) by congruence. lia.
      * by apply (doc_inv_context self is_train we Hwe b0 i qdone cdone w st x).
Qed.

Lemma doc_inv_context_loop (b0 : buffers) (i : nat) (qdone : list string)
    (sents : list (list string)) (sent_ix : nat) (cdone : list string)
    (st st' : fill_state E) :
  fits (max_context_word_dim self) cdone ->
  context_loop self is_train i sents sent_ix (length cdone) st = inr st' ->
  doc_inv we b0 i qdone cdone st ->
  doc_inv we b0 i qdone
    (slice_to (max_context_word_dim self)
       (cdone ++ truncated_context self sents sent_ix)) st'.
Proof.
  revert sent_ix cdone st.
  induction sents as [|sent sents IH]; intros sent_ix cdone st Hfit; simpl.
  - intros [= <-] Hinv. rewrite app_nil_r, slice_to_fits by done. done.
  - case_decide as Hbr.
    + intros [= <-] Hinv. rewrite app_nil_r, slice_to_fits by done. done.
    + intros H Hinv. inv_bind H. destruct x as [w1 st1].
      destruct (doc_inv_sentence b0 i qdone sent cdone w1 st st1 Hfit Hx Hinv)
        as [-> Hinv1].
      apply IH in H; [| apply fits_slice_to | done].
      rewrite slice_to_idemp_app in H. by rewrite <- app_assoc in H.
Qed.

Lemma doc_body_spec (i : nat) (doc : ParagraphAndQuestion) (st st' : fill_state E) :
  doc_body self is_train i doc st = inr st' ->
  (forall sd i' a, i' <> i ->
     cell (words sd (bufs st')) i' a = cell (words sd (bufs st)) i' a) /\
  exists table,
    consistent we table QuestionSide (question doc) i (bufs st') /\
    consistent we table ContextSide (written_context self doc) i (bufs st').
Proof.
  unfold doc_body. intros H. inv_bind H.
  apply (doc_inv_question_loop (bufs st)) in Hx.
  2:{ split; [done|]. split; intros a w Ha; by rewrite lookup_nil in Ha. }
  apply (doc_inv_context_loop (bufs st) i (question doc) (context doc) 0 []) in H;
    [| unfold fits; destruct (max_context_word_dim self); simpl; [lia|done] | done].
  destruct H as (Hframe & Hq & Hc). split; [done|].
  exists (placeholders st'). done.
Qed.

(** After the loop over the batch, every example has a table with which
    its question row and its context row are consistent. *)
Lemma fill_spec (batch : list ParagraphAndQuestion) (st st' : fill_state E) :
  for_enumerate (doc_body self is_train) 0 batch st = inr st' ->
  forall i doc, batch !! i = Some doc ->
    exists table,
      consistent we table QuestionSide (question doc) i (bufs st') /\
      consistent we table ContextSide (written_context self doc) i (bufs st').
Proof.
  intros Hrun.
  pose (Inv := fun (k : nat) (s : fill_state E) =>
    forall i doc, i < k -> batch !! i = Some doc ->
      exists table,
        consistent we table QuestionSide (question doc) i (bufs s) /\
        consistent we table ContextSide (written_context self doc) i (bufs s)).
  assert (HI : Inv (length batch) st').
  { eapply (for_enumerate_inv _ Inv); [| |exact Hrun].
    - intros k doc s s' Hk Hs Hb. apply doc_body_spec in Hb as [Hframe Hnew].
      intros i d Hi Hd. destruct (decide (i = k)) as [->|Hne].
      + rewrite Hk in Hd. by injection Hd as <-.
      + destruct (Hs i d) as (table & Hq & Hc); [lia|done|].
        exists table. split.
        * intros a w Ha Hu. destruct (Hq a w Ha Hu) as (v & Hv & Ht).
          exists v. by rewrite Hframe.
        * intros a w Ha Hu. destruct (Hc a w Ha Hu) as (v & Hv & Ht).
          exists v. by rewrite Hframe.
    - intros i doc Hi. lia. }
  intros i doc Hi. apply HI; [|done]. eapply lookup_lt_Some; eauto.
Qed.
End PlaceholderLoops.

Lemma occurrence_table {E : Type} (self : DocumentAndQuestionEncoder E)
    (we : WordEmbedder E) (doc : ParagraphAndQuestion) (i : nat)
    (b : buffers) (qw cw : list (list Z)) (qrow crow : list Z)
    (table : gmap string Z) (w : string) (v : Z) :
  question_words b = Some qw -> context_words b = Some cw ->
  qw !! i = Some qrow -> cw !! i = Some crow ->
  consistent we table QuestionSide (question doc) i b ->
  consistent we table ContextSide (written_context self doc) i b ->
  occurrence self we doc qrow crow w v -> table !! lower w = Some v.
Proof.
  intros Hqw Hcw Hq Hc Cq Cc [(a & Ha & Hu & Hv)|(a & Ha & Hu & Hv)].
  - destruct (Cq a w Ha Hu) as (v' & Hcell & Ht).
    unfold cell in Hcell. simpl in Hcell. rewrite Hqw in Hcell. simpl in Hcell.
    rewrite Hq in Hcell. simpl in Hcell. congruence.
  - destruct (Cc a w Ha Hu) as (v' & Hcell & Ht).
    unfold cell in Hcell. simpl in Hcell. rewrite Hcw in Hcell. simpl in Hcell.
    rewrite Hc in Hcell. simpl in Hcell. congruence.
Qed.

(** C2: the loop body of an example starts from an empty placeholder table,
    whatever the table before it; in the arrays of a call that returns, two
    unknown words of one example (of its question or of its written context)
    with the same lowercased form hold the same id; and the same unknown word
    in two examples of one batch can hold two different ids. *)
Theorem placeholder_ids_per_example :
  (forall (E : Type) (self : DocumentAndQuestionEncoder E) is_train doc_ix doc table e b,
     doc_body self is_train doc_ix doc (mkFill table e b)
     = doc_body self is_train doc_ix doc (mkFill ∅ e b)) /\
  (forall (E : Type) (self : DocumentAndQuestionEncoder E) is_train we batch e g
          feed e' g',
     answer_encoder_ok (answer_encoder self) ->
     word_embedder self = Some we ->
     DocumentAndQuestionEncoder_encode self is_train batch e g = inr (feed, e', g') ->
     exists dq qw dc cw,
       feed !! question_words_slot = Some (IntMat dq qw) /\
       feed !! context_words_slot = Some (IntMat dc cw) /\
       forall i doc qrow crow,
         batch !! i = Some doc -> qw !! i = Some qrow -> cw !! i = Some crow ->
         forall w1 v1 w2 v2,
           occurrence self we doc qrow crow w1 v1 ->
           occurrence self we doc qrow crow w2 v2 ->
           lower w1 = lower w2 -> v1 = v2) /\
  (exists feed e' g',
     DocumentAndQuestionEncoder_encode small_encoder true
       [mkDoc ["foo"%string] [["the"%string]] (ParagraphSpans [(0, 0)%Z]);
        mkDoc ["foo"%string] [["the"%string]] (ParagraphSpans [(0, 0)%Z])]
       100%Z g_zero = inr (feed, e', g') /\
     feed !! question_words_slot = Some (IntMat 2 [[100%Z; 0%Z]; [101%Z; 0%Z]])).
Proof.
  split; [|split].
  - reflexivity.
  - intros E self is_train we batch e g feed e' g' Hok Hwe Hrun.
    apply encode_feed in Hrun
      as (n & cl & dim & qdim & st & Hn & Hcl & _ & Hfill & _ & _ & Fcw & Fqw & _);
      [|done].
    assert (Ha : exists qw cw, question_words (bufs st) = Some qw /\
                               context_words (bufs st) = Some cw).
    { pose proof (for_enumerate_inv (doc_body self is_train)
        (fun _ s => is_Some (question_words (bufs s)) /\
                    is_Some (context_words (bufs s))) batch) as Hinv.
      destruct (Hinv) with (st := mkFill ∅ e (allocate self n dim qdim)) (st' := st)
        as [[qw Hq] [cw Hc]]; [| |done|by eauto].
      - intros k doc s s' _ [Hsq Hsc] Hb. unfold doc_body in Hb. inv_bind Hb.
        assert (Hmid : is_Some (question_words (bufs x)) /\
                       is_Some (context_words (bufs x))).
        { refine (for_enumerate_inv (word_body self is_train QuestionSide k)
            (fun _ s => is_Some (question_words (bufs s)) /\
                        is_Some (context_words (bufs s))) (question doc) _ _ _ _ Hx);
            [|done].
          intros j w s1 s2 _ [H1 H2] Hw.
          apply word_body_inr in Hw as (Hother & _ & Hwd). rewrite Hwe in Hwd.
          destruct Hwd as (m & row & _ & _ & _ & Hnew & _). simpl in Hnew.
          destruct (Hother ContextSide) as [Hc _]; [done|]. simpl in Hc.
          rewrite Hnew, Hc. split; [eauto|done]. }
        clear Hx. revert Hmid Hb. generalize 0 at 1. generalize 0.
        generalize x. clear x.
        induction (context doc) as [|sent sents IH]; intros x wi si Hmid; simpl.
        + by intros [= <-].
        + case_decide; [by intros [= <-]|]. intros Hb. inv_bind Hb.
          destruct x0 as [w1 x1]. apply (IH x1 w1 (S si)); [|done].
          clear Hb IH. revert x wi Hmid Hx.
          induction sent as [|w sent IHs]; intros x wi Hmid; simpl.
          * by intros [= <- <-].
          * case_decide; [by intros [= <- <-]|]. intros Hb. inv_bind Hb.
            apply (IHs x0 (S wi)); [|done].
            apply word_body_inr in Hx as (Hother & _ & Hwd). rewrite Hwe in Hwd.
            destruct Hwd as (m & row & _ & _ & _ & Hnew & _). simpl in Hnew.
            destruct (Hother QuestionSide) as [Hq _]; [done|]. simpl in Hq.
            rewrite Hnew, Hq. split; [by apply Hmid|eauto].
      - unfold allocate. simpl. rewrite Hwe. split; eauto. }
    destruct Ha as (qw & cw & Hqw & Hcw). rewrite Hqw in Fqw. rewrite Hcw in Fcw.
    exists qdim, qw, dim, cw. split; [done|]. split; [done|].
    intros i doc qrow crow Hi Hq Hc w1 v1 w2 v2 H1 H2 Hlow.
    destruct (fill_spec self is_train we Hwe batch _ _ Hfill i doc Hi)
      as (table & Cq & Cc).
    pose proof (occurrence_table self we doc i (bufs st) qw cw qrow crow table w1 v1
                  Hqw Hcw Hq Hc Cq Cc H1) as T1.
    pose proof (occurrence_table self we doc i (bufs st) qw cw qrow crow table w2 v2
                  Hqw Hcw Hq Hc Cq Cc H2) as T2.
    rewrite Hlow in T1. congruence.
  - eexists _, _, _. split; vm_compute; reflexivity.
Qed.

(** The second part of C2 on an example with the unknown words Foo, foo and
    FOO. *)
Lemma placeholder_ids_per_example_witness :
  exists feed e' g',
    DocumentAndQuestionEncoder_encode small_encoder false [foo_doc] 100%Z g_zero
    = inr (feed, e', g') /\
    exists dq qw dc cw,
      feed !! question_words_slot = Some (IntMat dq qw) /\
      feed !! context_words_slot = Some (IntMat dc cw) /\
      forall i doc qrow crow,
        [foo_doc] !! i = Some doc -> qw !! i = Some qrow -> cw !! i = Some crow ->
        forall w1 v1 w2 v2,
          occurrence small_encoder counting_embedder doc qrow crow w1 v1 ->
          occurrence small_encoder counting_embedder doc qrow crow w2 v2 ->
          lower w1 = lower w2 -> v1 = v2.
Proof.
  eexists _, _, _. split; [vm_compute; reflexivity|].
  eapply (proj1 (proj2 placeholder_ids_per_example) Z small_encoder false
            counting_embedder [foo_doc] 100%Z g_zero);
    [exact single_span_encoder_ok | reflexivity | vm_compute; reflexivity].
Defined.

(** ** CheatingEncoder *)

Section Cheating.
Context {E : Type}.
Variable self : DocumentAndQuestionEncoder E.
Variable is_train : bool.
Variable we : WordEmbedder E.
Hypothesis Hwe : word_embedder self = Some we.









End Cheating.

Section CheatingBatch.
Context {E : Type}.
Variable self : DocumentAndQuestionEncoder E.
Variable is_train : bool.
Variable we : WordEmbedder E.
Hypothesis Hwe : word_embedder self = Some we.



End CheatingBatch.




(** ** The batch dimension of the arrays *)

(** C1 at a batch of one example and a fixed batch size of 2: the word and
    answer arrays have two rows, the two length arrays have one entry; and
    the packed answer encoder, called with a batch dimension of 2, returns an
    array of one row. *)
Theorem length_arrays_not_padded :
  (exists feed e' g',
     DocumentAndQuestionEncoder_encode small_encoder false [foo_doc] 100%Z g_zero
     = inr (feed, e', g') /\
     batch_size small_encoder = Some 2 /\
     leading_dim <$> feed !! context_words_slot = Some 2 /\
     leading_dim <$> feed !! question_words_slot = Some 2 /\
     leading_dim <$> feed !! answer_spans_slot = Some 2 /\
     leading_dim <$> feed !! context_len_slot = Some 1 /\
     leading_dim <$> feed !! question_len_slot = Some 1) /\
  (exists feed g',
     PackedMultiSpanAnswerEncoder_encode pack_by_length 2 2 [3%Z] 3
       [mkDoc [] [] (TriviaQaAnswer [(0, 1); (2, 2)]%Z)] g_zero = inr (feed, g') /\
     leading_dim <$> feed !! correct_spans_slot = Some 1).
Proof.
  split.
  - eexists _, _, _. split; [vm_compute; reflexivity|].
    repeat split; vm_compute; reflexivity.
  - eexists _, _. split; vm_compute; reflexivity.
Qed.

(** * Further properties *)

(** ** Shapes and writes inside the arrays *)

Lemma mat_shape_zeros {A : Type} (zero : A) (n d : nat) :
  mat_shape n d (np_zeros2 zero n d).
Proof.
  split; [apply length_replicate|]. apply Forall_replicate, length_replicate.
Qed.

Lemma cube_shape_zeros {A : Type} (zero : A) (n d1 d2 : nat) :
  cube_shape n d1 d2 (np_zeros3 zero n d1 d2).
Proof.
  split; [apply length_replicate|]. apply Forall_replicate.
  apply (mat_shape_zeros zero d1 d2).
Qed.

Lemma mat_shape_lookup {A : Type} (n d i : nat) (m : list (list A)) :
  mat_shape n d m -> i < n -> exists row, m !! i = Some row /\ length row = d.
Proof.
  intros [Hl Hr] Hi. destruct (lookup_lt_is_Some_2 m i) as [row Hrow]; [lia|].
  exists row. split; [done|]. eapply Forall_forall in Hr; [exact Hr|].
  eapply list_elem_of_lookup_2; eauto.
Qed.

Lemma mat_shape_insert {A : Type} (n d i : nat) (m : list (list A)) (row : list A) :
  mat_shape n d m -> length row = d -> mat_shape n d (<[i := row]> m).
Proof.
  intros [Hl Hr] Hrow. split; [by rewrite length_insert|].
  destruct (decide (i < length m)) as [Hi|Hi].
  - by apply Forall_insert.
  - by rewrite list_insert_ge by lia.
Qed.

Lemma np_set2_total {A : Type} (n d i j : nat) (v : A) (m : list (list A)) :
  mat_shape n d m -> i < n -> j < d ->
  exists m', np_set2 i j v m = inr m' /\ mat_shape n d m'.
Proof.
  intros Hs Hi Hj. destruct (mat_shape_lookup n d i m Hs Hi) as (row & Hrow & Hl).
  exists (<[i := <[j := v]> row]> m). split.
  - unfold np_set2. rewrite (proj2 (np_get_inr m i row) Hrow). simpl.
    by rewrite decide_True by lia.
  - apply mat_shape_insert; [done|]. by rewrite length_insert.
Qed.

Lemma np_set3_total {A : Type} (n d1 d2 i j k : nat) (v : A)
    (c : list (list (list A))) :
  cube_shape n d1 d2 c -> i < n -> j < d1 -> k < d2 ->
  exists c', np_set3 i j k v c = inr c' /\ cube_shape n d1 d2 c'.
Proof.
  intros [Hl Hp] Hi Hj Hk.
  destruct (lookup_lt_is_Some_2 c i) as [plane Hplane]; [lia|].
  assert (Hps : mat_shape d1 d2 plane).
  { eapply Forall_forall in Hp; [exact Hp|]. eapply list_elem_of_lookup_2; eauto. }
  destruct (np_set2_total d1 d2 j k v plane Hps Hj Hk) as (plane' & Hset & Hps').
  exists (<[i := plane']> c). split.
  - unfold np_set3. rewrite (proj2 (np_get_inr c i plane) Hplane). simpl.
    by rewrite Hset.
  - split; [by rewrite length_insert|]. apply Forall_insert; done.
Qed.

Section WordBodyTotal.
Context {E : Type}.
Variable self : DocumentAndQuestionEncoder E.
Variable is_train : bool.
Variables n dim qdim : nat.

Lemma char_loop_total (ce : CharEmbedder) (d1 i j k : nat) (l : list ascii)
    (c : list (list (list Z))) :
  cube_shape n d1 (max_char_dim self) c -> i < n -> j < d1 ->
  k <= max_char_dim self ->
  exists c', char_loop self ce i j k l (Some c) = inr (Some c') /\
             cube_shape n d1 (max_char_dim self) c'.
Proof.
  revert k c. induction l as [|ch l IH]; intros k c Hs Hi Hj Hk; simpl.
  - eauto.
  - case_decide as Hbr; [eauto|].
    destruct (np_set3_total n d1 (max_char_dim self) i j k (char_to_ix ce ch) c)
      as (c1 & Hset & Hs1); [done|done|done|lia|].
    rewrite Hset. simpl. apply IH; [done|done|done|lia].
Qed.

Lemma word_body_total (sd : side) (i j : nat) (w : string) (st : fill_state E) :
  bufs_shape self n dim qdim (bufs st) -> i < n -> j < side_dim sd dim qdim ->
  exists st', word_body self is_train sd i j w st = inr st' /\
              bufs_shape self n dim qdim (bufs st').
Proof.
  intros [Hw Hc] Hi Hj. unfold word_body, fill_chars, bufs_shape.
  destruct (word_embedder self) as [we|] eqn:Hwe;
    destruct (char_emb self) as [ce|] eqn:Hce.
  - destruct Hw as (qw & cw & Hqw & Hcw & Sq & Sc).
    destruct Hc as (qc & cc & Hqc & Hcc & Tq & Tc).
    destruct (resolve is_train we w (word_to_ix sd we w) (placeholders st)
                (emb_state st)) as [[v t] e1].
    destruct sd; simpl in *.
    + rewrite Hqw. simpl.
      destruct (np_set2_total n qdim i j v qw Sq Hi Hj) as (m' & -> & Sm).
      simpl. rewrite Hqc.
      destruct (char_loop_total ce qdim i j 0 (list_ascii_of_string w) qc)
        as (c' & -> & Sc'); [done|done|done|lia|].
      simpl. eexists. split; [done|]. simpl. split; eauto 8.
    + rewrite Hcw. simpl.
      destruct (np_set2_total n dim i j v cw Sc Hi Hj) as (m' & -> & Sm).
      simpl. rewrite Hcc.
      destruct (char_loop_total ce dim i j 0 (list_ascii_of_string w) cc)
        as (c' & -> & Sc'); [done|done|done|lia|].
      simpl. eexists. split; [done|]. simpl. split; eauto 8.
  - destruct Hw as (qw & cw & Hqw & Hcw & Sq & Sc). destruct Hc as [Hqc Hcc].
    destruct (resolve is_train we w (word_to_ix sd we w) (placeholders st)
                (emb_state st)) as [[v t] e1].
    destruct sd; simpl in *.
    + rewrite Hqw. simpl.
      destruct (np_set2_total n qdim i j v qw Sq Hi Hj) as (m' & -> & Sm).
      simpl. eexists. split; [done|]. simpl. split; eauto 8.
    + rewrite Hcw. simpl.
      destruct (np_set2_total n dim i j v cw Sc Hi Hj) as (m' & -> & Sm).
      simpl. eexists. split; [done|]. simpl. split; eauto 8.
  - destruct Hw as [Hqw Hcw]. destruct Hc as (qc & cc & Hqc & Hcc & Tq & Tc).
    destruct sd; simpl in *.
    + rewrite Hqc.
      destruct (char_loop_total ce qdim i j 0 (list_ascii_of_string w) qc)
        as (c' & -> & Sc'); [done|done|done|lia|].
      simpl. eexists. split; [done|]. simpl. split; eauto 8.
    + rewrite Hcc.
      destruct (char_loop_total ce dim i j 0 (list_ascii_of_string w) cc)
        as (c' & -> & Sc'); [done|done|done|lia|].
      simpl. eexists. split; [done|]. simpl. split; eauto 8.
  - destruct Hw as [Hqw Hcw]. destruct Hc as [Hqc Hcc]. simpl.
    eexists. split; [done|]. destruct sd; simpl; done.
Qed.

Lemma allocate_shape : bufs_shape self n dim qdim (allocate self n dim qdim).
Proof.
  unfold bufs_shape, allocate. simpl. split.
  - destruct (word_embedder self); [|done].
    eexists _, _. split; [done|]. split; [done|].
    split; apply mat_shape_zeros.
  - destruct (char_emb self); [|done].
    eexists _, _. split; [done|]. split; [done|].
    split; apply cube_shape_zeros.
Qed.
End WordBodyTotal.

(** ** The word arrays hold the ids of the words *)

Lemma resolve_words_length {E : Type} (is_train : bool) (we : WordEmbedder E)
    (sd : side) (ws : list string) (table : gmap string Z) (e : E) :
  length (resolve_words is_train we sd ws table e).1.1 = length ws.
Proof.
  revert table e. induction ws as [|w ws IH]; intros table e; simpl; [done|].
  destruct (resolve is_train we w (word_to_ix sd we w) table e) as [[ix t1] e1].
  specialize (IH t1 e1).
  destruct (resolve_words is_train we sd ws t1 e1) as [[ids t2] e2]. simpl in *.
  by rewrite IH.
Qed.

Lemma resolve_words_snoc {E : Type} (is_train : bool) (we : WordEmbedder E)
    (sd : side) (ws : list string) (w : string) (table : gmap string Z) (e : E) :
  resolve_words is_train we sd (ws ++ [w]) table e =
  let r := resolve_words is_train we sd ws table e in
  let r1 := resolve is_train we w (word_to_ix sd we w) r.1.2 r.2 in
  (r.1.1 ++ [r1.1.1], r1.1.2, r1.2).
Proof.
  revert table e. induction ws as [|w0 ws IH]; intros table e; simpl.
  - by destruct (resolve is_train we w (word_to_ix sd we w) table e) as [[ix t1] e1].
  - destruct (resolve is_train we w0 (word_to_ix sd we w0) table e) as [[ix t1] e1].
    rewrite IH.
    destruct (resolve_words is_train we sd ws t1 e1) as [[ids t2] e2]. simpl.
    by destruct (resolve is_train we w (word_to_ix sd we w) t2 e2) as [[ix' t3] e3].
Qed.

Lemma overwrite_prefix_snoc (ids row : list Z) (v : Z) :
  length ids < length row ->
  <[length ids := v]> (overwrite_prefix ids row) = overwrite_prefix (ids ++ [v]) row.
Proof.
  intros Hlt. unfold overwrite_prefix.
  rewrite insert_app_r_alt by lia. rewrite Nat.sub_diag.
  rewrite length_app. simpl. rewrite <- app_assoc. f_equal.
  destruct (drop (length ids) row) as [|x rest] eqn:Hd.
  - apply (f_equal length) in Hd. rewrite length_drop in Hd. simpl in Hd. lia.
  - simpl. f_equal. by rewrite <- drop_drop, Hd.
Qed.

Lemma overwrite_prefix_zeros (d : nat) (ids : list Z) :
  length ids <= d -> overwrite_prefix ids (replicate d 0%Z) = pad_row d ids.
Proof. intros H. unfold overwrite_prefix, pad_row. by rewrite drop_replicate. Qed.

Lemma overwrite_prefix_length (ids row : list Z) :
  length ids <= length row -> length (overwrite_prefix ids row) = length row.
Proof. intros H. unfold overwrite_prefix. rewrite length_app, length_drop. lia. Qed.

Lemma slice_to_app_le (limit : option nat) (l r : list string) :
  length (slice_to limit l) <= length (slice_to limit (l ++ r)).
Proof.
  destruct limit as [m|]; simpl.
  - rewrite !length_take, length_app. lia.
  - rewrite length_app. lia.
Qed.

Section FillExact.
Context {E : Type}.
Variable self : DocumentAndQuestionEncoder E.
Variable is_train : bool.
Variable we : WordEmbedder E.
Hypothesis Hwe : word_embedder self = Some we.
Variables n dim qdim : nat.
Variable e0 : E.
Variable i : nat.
Variables qw0 cw0 : list (list Z).
Variables qrow0 crow0 : list Z.
Hypothesis Hi : i < n.
Hypothesis Hq0 : qw0 !! i = Some qrow0.
Hypothesis Hc0 : cw0 !! i = Some crow0.
Hypothesis Hql : length qrow0 = qdim.
Hypothesis Hcl : length crow0 = dim.

Lemma fill_step_question (qdone : list string) (w : string) (st : fill_state E) :
  bufs_shape self n dim qdim (bufs st) ->
  fill_inv is_train we e0 i qw0 cw0 qrow0 crow0 qdone [] st ->
  length qdone < qdim ->
  exists st',
    word_body self is_train QuestionSide i (length qdone) w st = inr st' /\
    bufs_shape self n dim qdim (bufs st') /\
    fill_inv is_train we e0 i qw0 cw0 qrow0 crow0 (qdone ++ [w]) [] st'.
Proof.
  intros Hs (Iq & Ic & It & Ie) Hlt.
  destruct (word_body_total self is_train n dim qdim QuestionSide i (length qdone)
              w st Hs Hi Hlt) as (st' & Hrun & Hs').
  exists st'. split; [done|]. split; [done|].
  apply word_body_inr in Hrun as (Hother & _ & Hwd). rewrite Hwe in Hwd.
  destruct Hwd as (m & row & Hm & Hrow & Hj & Hnew & Ht & He).
  destruct (Hother ContextSide) as [Hcw _]; [done|].
  simpl in Hm, Hnew, Hcw, It, Ie. rewrite Iq in Hm. injection Hm as <-.
  assert (Hi0 : i < length qw0) by (eapply lookup_lt_Some; eauto).
  rewrite list_lookup_insert_eq in Hrow by done. injection Hrow as <-.
  rewrite It, Ie in Hnew, Ht, He.
  unfold fill_inv. rewrite resolve_words_snoc. simpl.
  split; [|split; [|split]].
  - rewrite Hnew, list_insert_insert_eq. do 2 f_equal.
    rewrite <- overwrite_prefix_snoc
      by (rewrite resolve_words_length; lia).
    by rewrite resolve_words_length.
  - by rewrite Hcw.
  - done.
  - done.
Qed.

Lemma fill_step_context (qdone cdone : list string) (w : string)
    (st : fill_state E) :
  bufs_shape self n dim qdim (bufs st) ->
  fill_inv is_train we e0 i qw0 cw0 qrow0 crow0 qdone cdone st ->
  length cdone < dim ->
  exists st',
    word_body self is_train ContextSide i (length cdone) w st = inr st' /\
    bufs_shape self n dim qdim (bufs st') /\
    fill_inv is_train we e0 i qw0 cw0 qrow0 crow0 qdone (cdone ++ [w]) st'.
Proof.
  intros Hs (Iq & Ic & It & Ie) Hlt.
  destruct (word_body_total self is_train n dim qdim ContextSide i (length cdone)
              w st Hs Hi Hlt) as (st' & Hrun & Hs').
  exists st'. split; [done|]. split; [done|].
  apply word_body_inr in Hrun as (Hother & _ & Hwd). rewrite Hwe in Hwd.
  destruct Hwd as (m & row & Hm & Hrow & Hj & Hnew & Ht & He).
  destruct (Hother QuestionSide) as [Hqw _]; [done|].
  simpl in Hm, Hnew, Hqw. rewrite Ic in Hm. injection Hm as <-.
  assert (Hi0 : i < length cw0) by (eapply lookup_lt_Some; eauto).
  rewrite list_lookup_insert_eq in Hrow by done. injection Hrow as <-.
  rewrite It, Ie in Hnew, Ht, He.
  unfold fill_inv. cbv zeta. rewrite resolve_words_snoc. simpl.
  split; [|split; [|split]].
  - by rewrite Hqw.
  - rewrite Hnew, list_insert_insert_eq. do 2 f_equal.
    rewrite <- overwrite_prefix_snoc
      by (rewrite resolve_words_length; lia).
    by rewrite resolve_words_length.
  - done.
  - done.
Qed.

Lemma fill_question_loop (ws : list string) (st : fill_state E) :
  bufs_shape self n dim qdim (bufs st) ->
  fill_inv is_train we e0 i qw0 cw0 qrow0 crow0 [] [] st ->
  length ws <= qdim ->
  exists st',
    for_enumerate (word_body self is_train QuestionSide i) 0 ws st = inr st' /\
    bufs_shape self n dim qdim (bufs st') /\
    fill_inv is_train we e0 i qw0 cw0 qrow0 crow0 ws [] st'.
Proof.
  intros Hs Hinv Hlen.
  destruct (for_enumerate_total (word_body self is_train QuestionSide i)
              (fun k s => bufs_shape self n dim qdim (bufs s) /\
                          fill_inv is_train we e0 i qw0 cw0 qrow0 crow0 (take k ws) [] s)
              ws) with (st := st) as (st' & Hrun & Hs' & Hinv').
  - intros k w s Hk [Hsk Hik].
    assert (Hkl : k < length ws) by (eapply lookup_lt_Some; eauto).
    destruct (fill_step_question (take k ws) w s Hsk Hik) as (s' & Hb & Hs1 & Hi1).
    { rewrite length_take. lia. }
    rewrite length_take_le in Hb by lia.
    exists s'. split; [done|]. split; [done|]. by rewrite (take_S_r ws k w Hk).
  - done.
  - exists st'. by rewrite take_ge in Hinv' by lia.
Qed.

Lemma fill_sentence (qdone : list string) (sent cdone : list string)
    (st : fill_state E) :
  fits (max_context_word_dim self) cdone ->
  length (slice_to (max_context_word_dim self) (cdone ++ sent)) <= dim ->
  bufs_shape self n dim qdim (bufs st) ->
  fill_inv is_train we e0 i qw0 cw0 qrow0 crow0 qdone cdone st ->
  exists st',
    sentence_loop self is_train i sent (length cdone) st
    = inr (length (slice_to (max_context_word_dim self) (cdone ++ sent)), st') /\
    bufs_shape self n dim qdim (bufs st') /\
    fill_inv is_train we e0 i qw0 cw0 qrow0 crow0 qdone
      (slice_to (max_context_word_dim self) (cdone ++ sent)) st'.
Proof.
  revert cdone st. induction sent as [|w sent IH]; intros cdone st Hfit Hlen Hs Hinv.
  - simpl. rewrite app_nil_r, slice_to_fits by done. eauto.
  - simpl. case_decide as Hbr.
    + rewrite (slice_to_app_full _ cdone (w :: sent) (length cdone)) by done. eauto.
    + assert (Hfit1 : fits (max_context_word_dim self) (cdone ++ [w])).
      { unfold fits in *. destruct (max_context_word_dim self) as [m|]; [|done].
        rewrite length_app. simpl. assert (length cdone <> m) by congruence. lia. }
      assert (Heq : cdone ++ w :: sent = (cdone ++ [w]) ++ sent)
        by (by rewrite <- app_assoc).
      rewrite Heq in Hlen |- *.
      assert (Hlt : length cdone < dim).
      { pose proof (slice_to_app_le (max_context_word_dim self) (cdone ++ [w]) sent)
          as Hle.
        rewrite (slice_to_fits _ (cdone ++ [w])) in Hle by done.
        rewrite length_app in Hle. simpl in Hle. lia. }
      destruct (fill_step_context qdone cdone w st Hs Hinv Hlt) as (st1 & -> & Hs1 & Hi1).
      cbn [mbind result_bind].
      replace (S (length cdone)) with (length (cdone ++ [w]))
        by (rewrite length_app; simpl; lia).
      by apply IH.
Qed.

Lemma fill_context_loop (qdone : list string) (sents : list (list string))
    (sent_ix : nat) (cdone : list string) (st : fill_state E) :
  fits (max_context_word_dim self) cdone ->
  length (slice_to (max_context_word_dim self)
            (cdone ++ truncated_context self sents sent_ix)) <= dim ->
  bufs_shape self n dim qdim (bufs st) ->
  fill_inv is_train we e0 i qw0 cw0 qrow0 crow0 qdone cdone st ->
  exists st',
    context_loop self is_train i sents sent_ix (length cdone) st = inr st' /\
    bufs_shape self n dim qdim (bufs st') /\
    fill_inv is_train we e0 i qw0 cw0 qrow0 crow0 qdone
      (slice_to (max_context_word_dim self)
         (cdone ++ truncated_context self sents sent_ix)) st'.
Proof.
  revert sent_ix cdone st.
  induction sents as [|sent sents IH]; intros sent_ix cdone st Hfit Hlen Hs Hinv.
  - simpl. rewrite app_nil_r, slice_to_fits by done. eauto.
  - simpl in *. case_decide as Hbr.
    + rewrite app_nil_r, slice_to_fits by done. eauto.
    + rewrite app_assoc in Hlen |- *.
      assert (Hlen1 : length (slice_to (max_context_word_dim self) (cdone ++ sent))
                      <= dim).
      { etrans; [apply slice_to_app_le|exact Hlen]. }
      rewrite <- slice_to_idemp_app in Hlen |- *.
      destruct (fill_sentence qdone sent cdone st Hfit Hlen1 Hs Hinv)
        as (st1 & -> & Hs1 & Hi1).
      cbn [mbind result_bind].
      apply IH; [apply fits_slice_to|done|done|done].
Qed.
End FillExact.

Lemma pad_rows_length (n d : nat) (rows : list (list Z)) :
  length rows <= n -> length (pad_rows n d rows) = n.
Proof.
  intros H. unfold pad_rows. rewrite length_app, length_fmap, length_replicate. lia.
Qed.

Lemma pad_rows_lookup_zero (n d k : nat) (rows : list (list Z)) :
  length rows <= k < n -> pad_rows n d rows !! k = Some (replicate d 0%Z).
Proof.
  intros H. unfold pad_rows. rewrite lookup_app_r by (rewrite length_fmap; lia).
  apply lookup_replicate_2. rewrite length_fmap. lia.
Qed.

Lemma pad_rows_lookup_row (n d k : nat) (rows : list (list Z)) (ids : list Z) :
  rows !! k = Some ids -> pad_rows n d rows !! k = Some (pad_row d ids).
Proof.
  intros H. unfold pad_rows. rewrite lookup_app_l.
  - by rewrite list_lookup_fmap, H.
  - rewrite length_fmap. eapply lookup_lt_Some; eauto.
Qed.

Lemma pad_rows_snoc (n d : nat) (rows : list (list Z)) (ids : list Z) :
  length rows < n ->
  <[length rows := pad_row d ids]> (pad_rows n d rows) = pad_rows n d (rows ++ [ids]).
Proof.
  intros H. unfold pad_rows.
  rewrite insert_app_r_alt by (rewrite length_fmap; lia).
  rewrite length_fmap, Nat.sub_diag, fmap_app, <- app_assoc, length_app. simpl.
  f_equal. replace (n - length rows) with (S (n - (length rows + 1))) by lia.
  done.
Qed.

Lemma batch_ids_length {E : Type} (self : DocumentAndQuestionEncoder E)
    (is_train : bool) (we : WordEmbedder E) (batch : list ParagraphAndQuestion) (e : E) :
  length (batch_ids self is_train we batch e).1 = length batch.
Proof.
  revert e. induction batch as [|doc batch IH]; intros e; simpl; [done|].
  destruct (example_ids self is_train we doc e) as [[q c] e1].
  specialize (IH e1). destruct (batch_ids self is_train we batch e1) as [rows e2].
  simpl in *. by rewrite IH.
Qed.

Lemma batch_ids_snoc {E : Type} (self : DocumentAndQuestionEncoder E)
    (is_train : bool) (we : WordEmbedder E) (batch : list ParagraphAndQuestion)
    (doc : ParagraphAndQuestion) (e : E) :
  batch_ids self is_train we (batch ++ [doc]) e =
  let r := batch_ids self is_train we batch e in
  let x := example_ids self is_train we doc r.2 in
  (r.1 ++ [(x.1.1, x.1.2)], x.2).
Proof.
  revert e. induction batch as [|d batch IH]; intros e; simpl.
  - by destruct (example_ids self is_train we doc e) as [[q c] e1].
  - destruct (example_ids self is_train we d e) as [[q c] e1]. rewrite IH.
    destruct (batch_ids self is_train we batch e1) as [rows e2]. simpl.
    by destruct (example_ids self is_train we doc e2) as [[q' c'] e3].
Qed.

Lemma truncated_context_length {E : Type} (self : DocumentAndQuestionEncoder E)
    (sents : list (list string)) (k : nat) :
  length (truncated_context self sents k) <= sum_list (length <$> sents).
Proof.
  revert k. induction sents as [|s sents IH]; intros k; [simpl; lia|].
  rewrite fmap_cons.
  change (sum_list (length s :: (length <$> sents)))
    with (length s + sum_list (length <$> sents)).
  cbn [truncated_context]. case_decide; [simpl; lia|].
  rewrite length_app. specialize (IH (S k)). lia.
Qed.

Lemma written_context_length {E : Type} (self : DocumentAndQuestionEncoder E)
    (doc : ParagraphAndQuestion) :
  length (written_context self doc) <= context_size doc /\
  forall m, max_context_word_dim self = Some m -> length (written_context self doc) <= m.
Proof.
  unfold written_context, context_size.
  pose proof (truncated_context_length self (context doc) 0) as H. split.
  - destruct (max_context_word_dim self); simpl; [rewrite length_take|]; lia.
  - intros m ->. simpl. rewrite length_take. lia.
Qed.

Section FillBatch.
Context {E : Type}.
Variable self : DocumentAndQuestionEncoder E.
Variable is_train : bool.
Variable we : WordEmbedder E.
Hypothesis Hwe : word_embedder self = Some we.
Variables n dim qdim : nat.

(** One example: from buffers whose rows [k] are [qrow0] and [crow0], the
    body returns, and the rows hold the ids of the example. *)
Lemma fill_doc (k : nat) (doc : ParagraphAndQuestion) (st : fill_state E)
    (qw0 cw0 : list (list Z)) (qrow0 crow0 : list Z) :
  k < n ->
  bufs_shape self n dim qdim (bufs st) ->
  question_words (bufs st) = Some qw0 -> context_words (bufs st) = Some cw0 ->
  qw0 !! k = Some qrow0 -> cw0 !! k = Some crow0 ->
  length qrow0 = qdim -> length crow0 = dim ->
  length (question doc) <= qdim -> length (written_context self doc) <= dim ->
  exists st',
    doc_body self is_train k doc st = inr st' /\
    bufs_shape self n dim qdim (bufs st') /\
    let x := example_ids self is_train we doc (emb_state st) in
    question_words (bufs st') = Some (<[k := overwrite_prefix x.1.1 qrow0]> qw0) /\
    context_words (bufs st') = Some (<[k := overwrite_prefix x.1.2 crow0]> cw0) /\
    emb_state st' = x.2.
Proof.
  intros Hk Hs Hqw Hcw Hq0 Hc0 Hql Hcl Hqlen Hclen. unfold doc_body.
  set (st0 := mkFill ∅ (emb_state st) (bufs st)).
  assert (Hinv0 : fill_inv is_train we (emb_state st) k qw0 cw0 qrow0 crow0 [] [] st0).
  { unfold fill_inv, overwrite_prefix. simpl. rewrite !drop_0.
    rewrite !list_insert_id by done. done. }
  destruct (fill_question_loop self is_train we Hwe n dim qdim (emb_state st) k
              qw0 cw0 qrow0 crow0 Hk Hq0 Hql Hcl (question doc) st0 Hs Hinv0 Hqlen)
    as (st1 & -> & Hs1 & Hinv1).
  cbn [mbind result_bind].
  destruct (fill_context_loop self is_train we Hwe n dim qdim (emb_state st) k
              qw0 cw0 qrow0 crow0 Hk Hc0 Hql Hcl (question doc) (context doc) 0 []
              st1) as (st2 & Hrun & Hs2 & Hinv2); [| |done|done|].
  { unfold fits. destruct (max_context_word_dim self); simpl; [lia|done]. }
  { exact Hclen. }
  simpl in Hrun. exists st2. split; [done|]. split; [done|].
  destruct Hinv2 as (Iq & Ic & _ & Ie). unfold example_ids.
  simpl in Iq, Ic, Ie. fold (written_context self doc) in Ic, Ie.
  destruct (resolve_words is_train we QuestionSide (question doc) ∅ (emb_state st))
    as [[qids t1] e1]. simpl in *.
  destruct (resolve_words is_train we ContextSide (written_context self doc) t1 e1)
    as [[cids t2] e2]. simpl in *. done.
Qed.

(** The loop over the batch returns when the examples fit the arrays. *)
Lemma fill_batch (batch : list ParagraphAndQuestion) (e : E) :
  length batch <= n ->
  (forall doc, doc ∈ batch ->
     length (question doc) <= qdim /\ length (written_context self doc) <= dim) ->
  exists st,
    for_enumerate (doc_body self is_train) 0 batch
      (mkFill ∅ e (allocate self n dim qdim)) = inr st /\
    batch_inv self is_train we e n dim qdim batch st.
Proof.
  intros Hn Hfit.
  destruct (for_enumerate_total (doc_body self is_train)
              (fun k s => batch_inv self is_train we e n dim qdim (take k batch) s)
              batch) with (st := mkFill ∅ e (allocate self n dim qdim))
    as (st & Hrun & Hinv).
  - intros k doc s Hk (Iq & Ic & Ie & Is).
    assert (Hkl : k < length batch) by (eapply lookup_lt_Some; eauto).
    assert (Hlen : length (batch_ids self is_train we (take k batch) e).1 = k).
    { rewrite batch_ids_length, length_take. lia. }
    destruct (Hfit doc) as [Hq Hc]; [eapply list_elem_of_lookup_2; eauto|].
    destruct (fill_doc k doc s
                (pad_rows n qdim (batch_ids self is_train we (take k batch) e).1.*1)
                (pad_rows n dim (batch_ids self is_train we (take k batch) e).1.*2)
                (replicate qdim 0%Z) (replicate dim 0%Z))
      as (s' & Hb & Hs' & Hq' & Hc' & He'); try done.
    { lia. }
    { apply pad_rows_lookup_zero. rewrite length_fmap. lia. }
    { apply pad_rows_lookup_zero. rewrite length_fmap. lia. }
    { apply length_replicate. }
    { apply length_replicate. }
    exists s'. split; [done|]. rewrite (take_S_r batch k doc Hk).
    unfold batch_inv. rewrite batch_ids_snoc. simpl. rewrite !fmap_app. simpl.
    rewrite Ie in Hq', Hc', He'.
    pose proof (resolve_words_length is_train we QuestionSide (question doc) ∅
                  (batch_ids self is_train we (take k batch) e).2) as Lq.
    assert (Lq' : length (example_ids self is_train we doc
                            (batch_ids self is_train we (take k batch) e).2).1.1
                  <= qdim).
    { unfold example_ids.
      destruct (resolve_words is_train we QuestionSide (question doc) ∅ _)
        as [[qids t1] e1]. simpl in *.
      destruct (resolve_words is_train we ContextSide _ t1 e1) as [[cids t2] e2].
      simpl. lia. }
    assert (Lc' : length (example_ids self is_train we doc
                            (batch_ids self is_train we (take k batch) e).2).1.2
                  <= dim).
    { unfold example_ids.
      destruct (resolve_words is_train we QuestionSide (question doc) ∅ _)
        as [[qids t1] e1]. simpl.
      pose proof (resolve_words_length is_train we ContextSide
                    (written_context self doc) t1 e1) as Lc.
      destruct (resolve_words is_train we ContextSide _ t1 e1) as [[cids t2] e2].
      simpl in *. lia. }
    rewrite !overwrite_prefix_zeros in Hq', Hc' by done.
    split; [|split; [|split]]; try done.
    + rewrite Hq'. f_equal. rewrite <- pad_rows_snoc by (rewrite length_fmap; lia).
      by rewrite length_fmap, Hlen.
    + rewrite Hc'. f_equal. rewrite <- pad_rows_snoc by (rewrite length_fmap; lia).
      by rewrite length_fmap, Hlen.
  - unfold batch_inv. simpl. unfold allocate. simpl. rewrite Hwe.
    unfold pad_rows. simpl. rewrite !Nat.sub_0_r.
    split; [done|]. split; [done|]. split; [done|].
    pose proof (allocate_shape self n dim qdim) as Ha.
    unfold allocate in Ha. by rewrite Hwe in Ha.
  - exists st. by rewrite take_ge in Hinv by lia.
Qed.
End FillBatch.

(** ** The loops never leave the arrays *)

Section LoopsTotal.
Context {E : Type}.
Variable self : DocumentAndQuestionEncoder E.
Variable is_train : bool.
Variables n dim qdim : nat.
Variable i : nat.
Hypothesis Hi : i < n.

Lemma question_loop_total (ws : list string) (st : fill_state E) :
  bufs_shape self n dim qdim (bufs st) -> length ws <= qdim ->
  exists st',
    for_enumerate (word_body self is_train QuestionSide i) 0 ws st = inr st' /\
    bufs_shape self n dim qdim (bufs st').
Proof.
  intros Hs Hlen.
  destruct (for_enumerate_total (word_body self is_train QuestionSide i)
              (fun _ s => bufs_shape self n dim qdim (bufs s)) ws)
    with (st := st) as (st' & Hrun & Hs'); [|done|eauto].
  intros k w s Hk Hsk. apply word_body_total; [done|done|].
  simpl. apply lookup_lt_Some in Hk. lia.
Qed.

Lemma sentence_loop_total (sent cdone : list string) (st : fill_state E) :
  fits (max_context_word_dim self) cdone ->
  length (slice_to (max_context_word_dim self) (cdone ++ sent)) <= dim ->
  bufs_shape self n dim qdim (bufs st) ->
  exists st',
    sentence_loop self is_train i sent (length cdone) st
    = inr (length (slice_to (max_context_word_dim self) (cdone ++ sent)), st') /\
    bufs_shape self n dim qdim (bufs st').
Proof.
  revert cdone st. induction sent as [|w sent IH]; intros cdone st Hfit Hlen Hs.
  - simpl. rewrite app_nil_r, slice_to_fits by done. eauto.
  - simpl. case_decide as Hbr.
    + rewrite (slice_to_app_full _ cdone (w :: sent) (length cdone)) by done. eauto.
    + assert (Hfit1 : fits (max_context_word_dim self) (cdone ++ [w])).
      { unfold fits in *. destruct (max_context_word_dim self) as [m|]; [|done].
        rewrite length_app. simpl. assert (length cdone <> m) by congruence. lia. }
      assert (Heq : cdone ++ w :: sent = (cdone ++ [w]) ++ sent)
        by (by rewrite <- app_assoc).
      rewrite Heq in Hlen |- *.
      assert (Hlt : length cdone < dim).
      { pose proof (slice_to_app_le (max_context_word_dim self) (cdone ++ [w]) sent)
          as Hle.
        rewrite (slice_to_fits _ (cdone ++ [w])) in Hle by done.
        rewrite length_app in Hle. simpl in Hle. lia. }
      destruct (word_body_total self is_train n dim qdim ContextSide i (length cdone)
                  w st Hs Hi Hlt) as (st1 & -> & Hs1).
      cbn [mbind result_bind].
      replace (S (length cdone)) with (length (cdone ++ [w]))
        by (rewrite length_app; simpl; lia).
      by apply IH.
Qed.

Lemma context_loop_total (sents : list (list string)) (sent_ix : nat)
    (cdone : list string) (st : fill_state E) :
  fits (max_context_word_dim self) cdone ->
  length (slice_to (max_context_word_dim self)
            (cdone ++ truncated_context self sents sent_ix)) <= dim ->
  bufs_shape self n dim qdim (bufs st) ->
  exists st',
    context_loop self is_train i sents sent_ix (length cdone) st = inr st' /\
    bufs_shape self n dim qdim (bufs st').
Proof.
  revert sent_ix cdone st.
  induction sents as [|sent sents IH]; intros sent_ix cdone st Hfit Hlen Hs.
  - simpl. eauto.
  - simpl in *. case_decide as Hbr; [eauto|].
    rewrite app_assoc in Hlen.
    assert (Hlen1 : length (slice_to (max_context_word_dim self) (cdone ++ sent))
                    <= dim).
    { etrans; [apply slice_to_app_le|exact Hlen]. }
    rewrite <- slice_to_idemp_app in Hlen.
    destruct (sentence_loop_total sent cdone st Hfit Hlen1 Hs) as (st1 & -> & Hs1).
    cbn [mbind result_bind].
    apply IH; [apply fits_slice_to|done|done].
Qed.

Lemma doc_body_total (doc : ParagraphAndQuestion) (st : fill_state E) :
  bufs_shape self n dim qdim (bufs st) ->
  length (question doc) <= qdim -> length (written_context self doc) <= dim ->
  exists st',
    doc_body self is_train i doc st = inr st' /\
    bufs_shape self n dim qdim (bufs st').
Proof.
  intros Hs Hq Hc. unfold doc_body.
  destruct (question_loop_total (question doc)
              (mkFill ∅ (emb_state st) (bufs st)) Hs Hq) as (st1 & -> & Hs1).
  cbn [mbind result_bind].
  apply (context_loop_total (context doc) 0 [] st1); [|exact Hc|done].
  unfold fits. destruct (max_context_word_dim self); simpl; [lia|done].
Qed.
End LoopsTotal.

Lemma batch_loop_total {E : Type} (self : DocumentAndQuestionEncoder E)
    (is_train : bool) (n dim qdim : nat) (batch : list ParagraphAndQuestion)
    (st : fill_state E) :
  length batch <= n ->
  (forall doc, doc ∈ batch ->
     length (question doc) <= qdim /\ length (written_context self doc) <= dim) ->
  bufs_shape self n dim qdim (bufs st) ->
  exists st',
    for_enumerate (doc_body self is_train) 0 batch st = inr st' /\
    bufs_shape self n dim qdim (bufs st').
Proof.
  intros Hn Hfit Hs.
  destruct (for_enumerate_total (doc_body self is_train)
              (fun _ s => bufs_shape self n dim qdim (bufs s)) batch)
    with (st := st) as (st' & Hrun & Hs'); [|done|eauto].
  intros k doc s Hk Hsk.
  destruct (Hfit doc) as [Hq Hc]; [eapply list_elem_of_lookup_2; eauto|].
  apply doc_body_total; [|done|done|done].
  apply lookup_lt_Some in Hk. lia.
Qed.

(** ** [DocumentAndQuestionEncoder.encode] as a whole *)

Section EncodeWhole.
Context {E : Type}.
Variable self : DocumentAndQuestionEncoder E.
Variable is_train : bool.

(** What a returning call went through, with the two dimensions. *)
Lemma encode_run (batch : list ParagraphAndQuestion) (e e' : E)
    (g g' : RandomState) (feed : feed_dict) :
  DocumentAndQuestionEncoder_encode self is_train batch e g = inr (feed, e', g') ->
  exists n cl dim qdim mq st answers,
    padded_batch_size self batch = inr n /\
    context_lengths self is_train batch = inr (cl, Some dim) /\
    np_max (question_lengths batch) = inr mq /\
    (mq <= Z.of_nat qdim)%Z /\
    match max_ques_word_dim self with
    | Some q => qdim = q
    | None => qdim = Z.to_nat mq
    end /\
    for_enumerate (doc_body self is_train) 0 batch
      (mkFill ∅ e (allocate self n dim qdim)) = inr st /\
    encode (answer_encoder self) n cl dim batch g = inr (answers, g') /\
    features self n dim qdim batch
      (answers ∪ feed_buffers self dim qdim (bufs st) (base_feed batch cl)) = inr feed /\
    e' = emb_state st.
Proof.
  unfold DocumentAndQuestionEncoder_encode. intros H.
  inv_bind H. rename x into n. inv_bind H. destruct x as [cl dim].
  destruct (context_lengths_inr self is_train batch cl dim Hx0) as (_ & cwd & -> & _).
  inv_bind H. inv_bind H. rename x0 into qwd. inv_bind H. inv_bind H.
  rename x1 into st. inv_bind H. destruct x1 as [answers g1]. inv_bind H.
  injection H as <- <- <-. injection Hx3 as <-.
  destruct (max_ques_word_dim self) as [q|] eqn:Hq.
  - injection Hx2 as <-. inv_bind Hx1. case_decide; [discriminate|].
    exists n, cl, cwd, q, x0, st, answers. repeat split; try done; lia.
  - inv_bind Hx2. injection Hx2 as <-.
    exists n, cl, cwd, (Z.to_nat x0), x0, st, answers. repeat split; try done; lia.
Qed.

Lemma encode_run_fits (batch : list ParagraphAndQuestion) (cl : list Z)
    (dim qdim : nat) (mq : Z) :
  context_lengths self is_train batch = inr (cl, Some dim) ->
  np_max (question_lengths batch) = inr mq -> (mq <= Z.of_nat qdim)%Z ->
  forall doc, doc ∈ batch ->
    length (question doc) <= qdim /\ length (written_context self doc) <= dim.
Proof.
  intros Hcl Hmq Hle doc Hdoc. split.
  - assert (Hq : Z.of_nat (length (question doc)) ∈ question_lengths batch).
    { unfold question_lengths. apply list_elem_of_fmap. eauto. }
    apply np_max_inr in Hmq as [_ Hmax]. apply Hmax in Hq. lia.
  - destruct (written_context_length self doc) as [Hsize Hlim].
    apply context_lengths_inr in Hcl as (_ & d & [= <-] & Hcase).
    destruct Hcase as [(_ & Hm & _)|(_ & -> & Hmax)]; [by apply Hlim|].
    assert (Hin : Z.of_nat (context_size doc)
                  ∈ (fun doc => Z.of_nat (context_size doc)) <$> batch).
    { apply list_elem_of_fmap. eauto. }
    apply np_max_inr in Hmax as [_ Hmax]. apply Hmax in Hin. lia.
Qed.

(** The arrays of a returning call, when the answer encoder feeds its own
    placeholders only. *)
Lemma encode_arrays (batch : list ParagraphAndQuestion) (e e' : E)
    (g g' : RandomState) (feed : feed_dict) :
  answer_encoder_ok (answer_encoder self) ->
  DocumentAndQuestionEncoder_encode self is_train batch e g = inr (feed, e', g') ->
  exists n cl dim qdim mq st,
    padded_batch_size self batch = inr n /\
    context_lengths self is_train batch = inr (cl, Some dim) /\
    np_max (question_lengths batch) = inr mq /\
    (mq <= Z.of_nat qdim)%Z /\
    match max_ques_word_dim self with
    | Some q => qdim = q
    | None => qdim = Z.to_nat mq
    end /\
    for_enumerate (doc_body self is_train) 0 batch
      (mkFill ∅ e (allocate self n dim qdim)) = inr st /\
    e' = emb_state st /\
    feed !! context_words_slot = IntMat dim <$> context_words (bufs st) /\
    feed !! question_words_slot = IntMat qdim <$> question_words (bufs st) /\
    feed !! context_chars_slot
      = IntCube dim (max_char_dim self) <$> context_chars (bufs st) /\
    feed !! question_chars_slot
      = IntCube qdim (max_char_dim self) <$> question_chars (bufs st).
Proof.
  intros Hok H.
  apply encode_run in H as (n & cl & dim & qdim & mq & st & answers & Hn & Hcl & Hmq &
                            Hle & Hqd & Hfill & Hans & Hfeat & He).
  exists n, cl, dim, qdim, mq, st. do 7 (split; [done|]).
  assert (Hnone : forall s, ~ answer_slot s -> answers !! s = None).
  { intros s Hs. destruct (answers !! s) eqn:Ha; [|done]. exfalso. apply Hs.
    eapply Hok; [exact Hans|]. by rewrite Ha. }
  destruct (feed_buffers_lookup self dim qdim (bufs st) batch cl)
    as (_ & _ & F3 & F4 & F5 & F6).
  assert (Hl : forall s, ~ answer_slot s -> s <> context_features_slot ->
            s <> question_features_slot ->
            feed !! s = feed_buffers self dim qdim (bufs st) (base_feed batch cl) !! s).
  { intros s Hs Hc Hqf. rewrite (features_lookup _ _ _ _ _ _ _ s Hfeat Hc Hqf).
    rewrite lookup_union_r; [done|]. by apply Hnone. }
  rewrite !Hl; [done| | | | | | | | | | | |];
    first [discriminate | unfold answer_slot; intros [?|[?|[?|?]]]; discriminate].
Qed.
End EncodeWhole.

Lemma resolve_words_known {E : Type} (is_train : bool) (we : WordEmbedder E)
    (sd : side) (ws : list string) (table : gmap string Z) (e : E) (j : nat)
    (w : string) :
  ws !! j = Some w -> (0 <= word_to_ix sd we w)%Z ->
  (resolve_words is_train we sd ws table e).1.1 !! j = Some (word_to_ix sd we w).
Proof.
  revert table e j. induction ws as [|w0 ws IH]; intros table e j Hj Hk; [done|].
  simpl.
  destruct (resolve is_train we w0 (word_to_ix sd we w0) table e) as [[ix t1] e1] eqn:Hr.
  specialize (IH t1 e1).
  destruct (resolve_words is_train we sd ws t1 e1) as [[ids t2] e2]. simpl in *.
  destruct j as [|j]; simpl in *.
  - injection Hj as ->. unfold resolve in Hr. case_decide; [lia|]. by injection Hr as <- _ _.
  - by apply IH.
Qed.

Lemma resolve_words_all_known {E : Type} (is_train : bool) (we : WordEmbedder E)
    (sd : side) (ws : list string) (table : gmap string Z) (e : E) :
  (forall w, w ∈ ws -> (0 <= word_to_ix sd we w)%Z) ->
  resolve_words is_train we sd ws table e = (word_to_ix sd we <$> ws, table, e).
Proof.
  revert table e. induction ws as [|w0 ws IH]; intros table e Hk; [done|].
  simpl. unfold resolve at 1.
  case_decide as Hneg; [specialize (Hk w0 ltac:(left)); lia|].
  rewrite IH; [done|]. intros w Hw. apply Hk. by right.
Qed.

Lemma batch_ids_lookup {E : Type} (self : DocumentAndQuestionEncoder E)
    (is_train : bool) (we : WordEmbedder E) (batch : list ParagraphAndQuestion) (e : E)
    (i : nat) (doc : ParagraphAndQuestion) :
  batch !! i = Some doc ->
  exists e1, (batch_ids self is_train we batch e).1 !! i
             = Some ((example_ids self is_train we doc e1).1.1,
                     (example_ids self is_train we doc e1).1.2).
Proof.
  revert e i. induction batch as [|d batch IH]; intros e i Hi; [done|].
  simpl. destruct (example_ids self is_train we d e) as [[q c] e1] eqn:Hx.
  specialize (IH e1).
  destruct (batch_ids self is_train we batch e1) as [rows e2]. simpl in *.
  destruct i as [|i]; simpl in *.
  - injection Hi as <-. exists e. by rewrite Hx.
  - by apply IH.
Qed.

Lemma example_ids_lengths {E : Type} (self : DocumentAndQuestionEncoder E)
    (is_train : bool) (we : WordEmbedder E) (doc : ParagraphAndQuestion) (e : E) :
  length (example_ids self is_train we doc e).1.1 = length (question doc) /\
  length (example_ids self is_train we doc e).1.2 = length (written_context self doc).
Proof.
  unfold example_ids.
  pose proof (resolve_words_length is_train we QuestionSide (question doc) ∅ e) as Hq.
  destruct (resolve_words is_train we QuestionSide (question doc) ∅ e) as [[q t] e1].
  pose proof (resolve_words_length is_train we ContextSide (written_context self doc)
                t e1) as Hc.
  destruct (resolve_words is_train we ContextSide (written_context self doc) t e1)
    as [[c t'] e2].
  done.
Qed.

Lemma batch_ids_all_known {E : Type} (self : DocumentAndQuestionEncoder E)
    (is_train : bool) (we : WordEmbedder E) (batch : list ParagraphAndQuestion) (e : E) :
  (forall doc, doc ∈ batch ->
     (forall w, w ∈ question doc -> (0 <= question_word_to_ix we w)%Z) /\
     (forall w, w ∈ written_context self doc -> (0 <= context_word_to_ix we w)%Z)) ->
  (batch_ids self is_train we batch e).2 = e.
Proof.
  revert e. induction batch as [|d batch IH]; intros e Hk; [done|].
  simpl. unfold example_ids.
  destruct (Hk d ltac:(left)) as [Hq Hc].
  rewrite (resolve_words_all_known is_train we QuestionSide) by exact Hq.
  rewrite (resolve_words_all_known is_train we ContextSide) by exact Hc.
  specialize (IH e ltac:(intros doc Hdoc; apply Hk; by right)).
  destruct (batch_ids self is_train we batch e) as [rows e2]. done.
Qed.

(** The arrays and the embedder state of a returning call, as lists of ids. *)
Lemma encode_ids {E : Type} (self : DocumentAndQuestionEncoder E) (is_train : bool)
    (we : WordEmbedder E) (batch : list ParagraphAndQuestion) (e e' : E)
    (g g' : RandomState) (feed : feed_dict) :
  answer_encoder_ok (answer_encoder self) ->
  word_embedder self = Some we ->
  DocumentAndQuestionEncoder_encode self is_train batch e g = inr (feed, e', g') ->
  exists n cl dim qdim,
    padded_batch_size self batch = inr n /\
    context_lengths self is_train batch = inr (cl, Some dim) /\
    (forall doc, doc ∈ batch ->
       length (question doc) <= qdim /\ length (written_context self doc) <= dim) /\
    feed !! question_words_slot
      = Some (IntMat qdim (pad_rows n qdim (batch_ids self is_train we batch e).1.*1)) /\
    feed !! context_words_slot
      = Some (IntMat dim (pad_rows n dim (batch_ids self is_train we batch e).1.*2)) /\
    e' = (batch_ids self is_train we batch e).2.
Proof.
  intros Hok Hwe Hrun.
  apply encode_arrays in Hrun
    as (n & cl & dim & qdim & mq & st & Hn & Hcl & Hmq & Hle & _ & Hfill & -> &
        Fcw & Fqw & _); [|done].
  pose proof (encode_run_fits self is_train batch cl dim qdim mq Hcl Hmq Hle) as Hfit.
  exists n, cl, dim, qdim. do 3 (split; [done|]).
  destruct (fill_batch self is_train we Hwe n dim qdim batch e) as (st2 & Hrun2 & Hinv);
    [by apply padded_batch_size_inr in Hn as [? _]|done|].
  rewrite Hfill in Hrun2. injection Hrun2 as <-.
  destruct Hinv as (Hq & Hc & He & _).
  rewrite Fqw, Fcw, Hq, Hc. done.
Qed.

(** Without a word embedder the loops leave the embedder state alone. *)
Section NoEmbedder.
Context {E : Type}.
Variable self : DocumentAndQuestionEncoder E.
Variable is_train : bool.
Hypothesis Hwe : word_embedder self = None.

Lemma word_body_state (sd : side) (i j : nat) (w : string) (st st' : fill_state E) :
  word_body self is_train sd i j w st = inr st' -> emb_state st' = emb_state st.
Proof.
  intros H. apply word_body_inr in H as (_ & _ & H). rewrite Hwe in H. tauto.
Qed.

Lemma sentence_loop_state (i : nat) (sent : list string) (j j' : nat)
    (st st' : fill_state E) :
  sentence_loop self is_train i sent j st = inr (j', st') ->
  emb_state st' = emb_state st.
Proof.
  revert j st. induction sent as [|w sent IH]; intros j st H; simpl in H.
  - by injection H as <- <-.
  - case_decide; [by injection H as <- <-|]. inv_bind H.
    apply IH in H. apply word_body_state in Hx. congruence.
Qed.

Lemma context_loop_state (i : nat) (sents : list (list string)) (k j : nat)
    (st st' : fill_state E) :
  context_loop self is_train i sents k j st = inr st' ->
  emb_state st' = emb_state st.
Proof.
  revert k j st. induction sents as [|sent sents IH]; intros k j st H; simpl in H.
  - by injection H as <-.
  - case_decide; [by injection H as <-|]. inv_bind H. destruct x as [j1 st1].
    apply IH in H. apply sentence_loop_state in Hx. congruence.
Qed.

Lemma batch_loop_state (batch : list ParagraphAndQuestion) (st st' : fill_state E) :
  for_enumerate (doc_body self is_train) 0 batch st = inr st' ->
  emb_state st' = emb_state st.
Proof.
  intros H.
  refine (for_enumerate_inv (doc_body self is_train)
            (fun _ s => emb_state s = emb_state st) batch _ st st' eq_refl H).
  intros k doc s s' _ Hs Hb. unfold doc_body in Hb. inv_bind Hb.
  apply context_loop_state in Hb. rewrite Hb, <- Hs.
  refine (for_enumerate_inv (word_body self is_train QuestionSide k)
            (fun _ t => emb_state t = emb_state s) (question doc) _
            (mkFill ∅ (emb_state s) (bufs s)) x eq_refl Hx).
  intros j w t t' _ Ht Hw. apply word_body_state in Hw. congruence.
Qed.
End NoEmbedder.

(** ** Properties of [DocumentAndQuestionEncoder.encode] *)

(** An empty batch makes [DocumentAndQuestionEncoder.encode] and
    [CheatingEncoder.encode] raise ValueError, whatever the configuration:
    the maximum of an empty length array is taken before anything is
    allocated. *)
Theorem empty_batch_raises {E : Type} (self : DocumentAndQuestionEncoder E)
    (is_train : bool) (e : E) (g : RandomState) :
  DocumentAndQuestionEncoder_encode self is_train [] e g = inl ValueError /\
  CheatingEncoder_encode self is_train [] g = inl ValueError.
Proof.
  unfold DocumentAndQuestionEncoder_encode, CheatingEncoder_encode,
    padded_batch_size, context_lengths.
  destruct (batch_size self) as [fixed|], is_train,
    (max_context_word_dim self) as [m|], (max_ques_word_dim self) as [q|];
    simpl; try case_decide; try lia; done.
Qed.

(** The ids written out are those of the loops. *)
Lemma word_ids_resolve {E : Type} (is_train : bool) (we : WordEmbedder E) (sd : side)
    (ws : list string) (table : gmap string Z) (e : E) :
  word_ids is_train we sd ws table e = resolve_words is_train we sd ws table e.
Proof.
  revert table e. induction ws as [|w ws IH]; intros table e; [done|].
  cbn [word_ids resolve_words]. unfold resolve. cbv zeta.
  destruct (decide (word_to_ix sd we w < 0)%Z).
  - destruct (table !! lower w) as [p|].
    + by rewrite IH.
    + destruct (get_placeholder we (word_to_ix sd we w) is_train e) as [p e1].
      by rewrite IH.
  - by rewrite IH.
Qed.

Lemma example_word_ids_eq {E : Type} (self : DocumentAndQuestionEncoder E)
    (is_train : bool) (we : WordEmbedder E) (doc : ParagraphAndQuestion) (e : E) :
  example_word_ids self is_train we doc e = example_ids self is_train we doc e.
Proof.
  unfold example_word_ids, example_ids. rewrite word_ids_resolve.
  destruct (resolve_words is_train we QuestionSide (question doc) ∅ e) as [[q t] e1].
  by rewrite word_ids_resolve.
Qed.

Lemma batch_word_ids_eq {E : Type} (self : DocumentAndQuestionEncoder E)
    (is_train : bool) (we : WordEmbedder E) (batch : list ParagraphAndQuestion) (e : E) :
  batch_word_ids self is_train we batch e
  = ((batch_ids self is_train we batch e).1.*1,
     (batch_ids self is_train we batch e).1.*2,
     (batch_ids self is_train we batch e).2).
Proof.
  revert e. induction batch as [|doc batch IH]; intros e; [done|].
  cbn [batch_word_ids batch_ids]. rewrite example_word_ids_eq.
  destruct (example_ids self is_train we doc e) as [[q c] e1]. rewrite IH.
  by destruct (batch_ids self is_train we batch e1) as [rows e2].
Qed.

(** In a call that returns, on a batch of ASCII words whose ids lie in the
    int32 range, the question word array is the ids of the questions, one row
    per example, each row padded with zeros to the question dimension and the
    array padded with zero rows to the batch dimension; the context word
    array is the same over the written contexts; and the state in which the
    embedder is left is the one after the words of the batch in their order,
    the question of an example before its context.  The ids are those of
    [batch_word_ids]: a known word has the id of its lookup, an unknown word
    the placeholder of its lowercased form in its example. *)
Theorem word_arrays_hold_ids {E : Type} (self : DocumentAndQuestionEncoder E)
    (is_train : bool) (we : WordEmbedder E) (batch : list ParagraphAndQuestion)
    (e e' : E) (g g' : RandomState) (feed : feed_dict) :
  answer_encoder_ok (answer_encoder self) ->
  word_embedder self = Some we ->
  ascii_batch batch = true ->
  int32_rows (batch_word_ids self is_train we batch e).1.1 = true ->
  int32_rows (batch_word_ids self is_train we batch e).1.2 = true ->
  DocumentAndQuestionEncoder_encode self is_train batch e g = inr (feed, e', g') ->
  exists n dim qdim,
    padded_batch_size self batch = inr n /\
    feed !! question_words_slot
      = Some (IntMat qdim (pad_rows n qdim (batch_word_ids self is_train we batch e).1.1)) /\
    feed !! context_words_slot
      = Some (IntMat dim (pad_rows n dim (batch_word_ids self is_train we batch e).1.2)) /\
    e' = (batch_word_ids self is_train we batch e).2.
Proof.
  intros Hok Hwe _ _ _ Hrun.
  destruct (encode_ids self is_train we batch e e' g g' feed Hok Hwe Hrun)
    as (n & cl & dim & qdim & Hn & _ & _ & Hq & Hc & He).
  rewrite batch_word_ids_eq. by exists n, dim, qdim.
Qed.

Lemma word_arrays_hold_ids_witness :
  exists feed e' g',
    DocumentAndQuestionEncoder_encode char_encoder true [foo_doc; foo_doc] 100%Z g_zero
    = inr (feed, e', g') /\
    feed !! question_words_slot = Some (IntMat 2 [[100; 100]; [101; 101]]%Z) /\
    feed !! context_words_slot = Some (IntMat 5 [[5; 100; 0; 0; 0]; [5; 101; 0; 0; 0]]%Z) /\
    exists n dim qdim,
      padded_batch_size char_encoder [foo_doc; foo_doc] = inr n /\
      feed !! question_words_slot
        = Some (IntMat qdim
                  (pad_rows n qdim
                     (batch_word_ids char_encoder true counting_embedder
                        [foo_doc; foo_doc] 100%Z).1.1)) /\
      feed !! context_words_slot
        = Some (IntMat dim
                  (pad_rows n dim
                     (batch_word_ids char_encoder true counting_embedder
                        [foo_doc; foo_doc] 100%Z).1.2)) /\
      e' = (batch_word_ids char_encoder true counting_embedder [foo_doc; foo_doc]
              100%Z).2.
Proof.
  eexists _, _, _. split; [vm_compute; reflexivity|].
  split; [vm_compute; reflexivity|]. split; [vm_compute; reflexivity|].
  eapply (word_arrays_hold_ids char_encoder true counting_embedder [foo_doc; foo_doc]
            100%Z _ g_zero);
    [exact single_span_encoder_ok | reflexivity | reflexivity | reflexivity
    | reflexivity | vm_compute; reflexivity].
Defined.

(** In a call that returns, a word that the embedder knows (its id is not
    negative) and whose id lies in the int32 range has this id at its
    position in the row of its example, in the question array and in the
    context array. *)
Theorem known_words_keep_ids {E : Type} (self : DocumentAndQuestionEncoder E)
    (is_train : bool) (we : WordEmbedder E) (batch : list ParagraphAndQuestion)
    (e e' : E) (g g' : RandomState) (feed : feed_dict) :
  answer_encoder_ok (answer_encoder self) ->
  word_embedder self = Some we ->
  DocumentAndQuestionEncoder_encode self is_train batch e g = inr (feed, e', g') ->
  exists dq qw dc cw,
    feed !! question_words_slot = Some (IntMat dq qw) /\
    feed !! context_words_slot = Some (IntMat dc cw) /\
    forall i doc, batch !! i = Some doc ->
      exists qrow crow,
        qw !! i = Some qrow /\ cw !! i = Some crow /\
        (forall j w, question doc !! j = Some w ->
                     (0 <= question_word_to_ix we w < 2 ^ 31)%Z ->
                     qrow !! j = Some (question_word_to_ix we w)) /\
        (forall j w, written_context self doc !! j = Some w ->
                     (0 <= context_word_to_ix we w < 2 ^ 31)%Z ->
                     crow !! j = Some (context_word_to_ix we w)).
Proof.
  intros Hok Hwe Hrun.
  destruct (encode_ids self is_train we batch e e' g g' feed Hok Hwe Hrun)
    as (n & cl & dim & qdim & Hn & _ & _ & Hq & Hc & He).
  eexists _, _, _, _. split; [exact Hq|]. split; [exact Hc|].
  intros i doc Hi.
  destruct (batch_ids_lookup self is_train we batch e i doc Hi) as [e1 Hrow].
  eexists _, _. split; [|split; [|split]].
  - apply pad_rows_lookup_row. by rewrite list_lookup_fmap, Hrow.
  - apply pad_rows_lookup_row. by rewrite list_lookup_fmap, Hrow.
  - intros j w Hj [Hk _]. cbn [fst]. unfold pad_row. unfold example_ids.
    pose proof (resolve_words_known is_train we QuestionSide (question doc) ∅ e1 j w
                  Hj Hk) as Hid.
    destruct (resolve_words is_train we QuestionSide (question doc) ∅ e1) as [[q t] e2].
    destruct (resolve_words is_train we ContextSide (written_context self doc) t e2)
      as [[c t'] e3].
    simpl in *. rewrite lookup_app_l; [done|]. eapply lookup_lt_Some; eauto.
  - intros j w Hj [Hk _]. cbn [fst snd]. unfold pad_row. unfold example_ids.
    destruct (resolve_words is_train we QuestionSide (question doc) ∅ e1) as [[q t] e2].
    pose proof (resolve_words_known is_train we ContextSide (written_context self doc)
                  t e2 j w Hj Hk) as Hid.
    destruct (resolve_words is_train we ContextSide (written_context self doc) t e2)
      as [[c t'] e3].
    simpl in *. rewrite lookup_app_l; [done|]. eapply lookup_lt_Some; eauto.
Qed.

Lemma known_words_keep_ids_witness :
  exists feed e' g',
    DocumentAndQuestionEncoder_encode small_encoder false [foo_doc] 100%Z g_zero
    = inr (feed, e', g') /\
    exists dq qw dc cw,
      feed !! question_words_slot = Some (IntMat dq qw) /\
      feed !! context_words_slot = Some (IntMat dc cw) /\
      forall i doc, [foo_doc] !! i = Some doc ->
        exists qrow crow,
          qw !! i = Some qrow /\ cw !! i = Some crow /\
          (forall j w, question doc !! j = Some w ->
                       (0 <= question_word_to_ix counting_embedder w < 2 ^ 31)%Z ->
                       qrow !! j = Some (question_word_to_ix counting_embedder w)) /\
          (forall j w, written_context small_encoder doc !! j = Some w ->
                       (0 <= context_word_to_ix counting_embedder w < 2 ^ 31)%Z ->
                       crow !! j = Some (context_word_to_ix counting_embedder w)).
Proof.
  eexists _, _, _. split; [vm_compute; reflexivity|].
  eapply (known_words_keep_ids small_encoder false counting_embedder [foo_doc]
            100%Z _ g_zero);
    [exact single_span_encoder_ok | reflexivity | vm_compute; reflexivity].
Defined.

(** In a call that returns, the positions of a question row from the length
    of the question on, the positions of a context row from the length of the
    written context on, and the rows from the length of the batch on are
    zero. *)
Theorem padding_is_zero {E : Type} (self : DocumentAndQuestionEncoder E)
    (is_train : bool) (we : WordEmbedder E) (batch : list ParagraphAndQuestion)
    (e e' : E) (g g' : RandomState) (feed : feed_dict) :
  answer_encoder_ok (answer_encoder self) ->
  word_embedder self = Some we ->
  DocumentAndQuestionEncoder_encode self is_train batch e g = inr (feed, e', g') ->
  exists n dq qw dc cw,
    padded_batch_size self batch = inr n /\
    feed !! question_words_slot = Some (IntMat dq qw) /\
    feed !! context_words_slot = Some (IntMat dc cw) /\
    (forall i doc, batch !! i = Some doc ->
       exists qrow crow,
         qw !! i = Some qrow /\ cw !! i = Some crow /\
         (forall j, length (question doc) <= j < dq -> qrow !! j = Some 0%Z) /\
         (forall j, length (written_context self doc) <= j < dc ->
                    crow !! j = Some 0%Z)) /\
    (forall i, length batch <= i < n ->
       qw !! i = Some (replicate dq 0%Z) /\ cw !! i = Some (replicate dc 0%Z)).
Proof.
  intros Hok Hwe Hrun.
  destruct (encode_ids self is_train we batch e e' g g' feed Hok Hwe Hrun)
    as (n & cl & dim & qdim & Hn & _ & Hfit & Hq & Hc & He).
  eexists n, _, _, _, _. split; [done|]. split; [exact Hq|]. split; [exact Hc|].
  split.
  - intros i doc Hi.
    destruct (batch_ids_lookup self is_train we batch e i doc Hi) as [e1 Hrow].
    destruct (example_ids_lengths self is_train we doc e1) as [Hlq Hlc].
    eexists _, _. split; [|split; [|split]].
    + apply pad_rows_lookup_row. by rewrite list_lookup_fmap, Hrow.
    + apply pad_rows_lookup_row. by rewrite list_lookup_fmap, Hrow.
    + intros j Hj. cbn [fst]. unfold pad_row.
      rewrite lookup_app_r by lia. apply lookup_replicate_2. lia.
    + intros j Hj. cbn [fst snd]. unfold pad_row.
      rewrite lookup_app_r by lia. apply lookup_replicate_2. lia.
  - intros i Hi.
    pose proof (batch_ids_length self is_train we batch e) as Hlen.
    split; apply pad_rows_lookup_zero; rewrite length_fmap; lia.
Qed.

Lemma padding_is_zero_witness :
  exists feed e' g',
    DocumentAndQuestionEncoder_encode small_encoder false
      [mkDoc ["the"%string] [["a"%string]] (ParagraphSpans [(0, 0)%Z])] 100%Z g_zero
    = inr (feed, e', g') /\
    exists n dq qw dc cw,
      padded_batch_size small_encoder
        [mkDoc ["the"%string] [["a"%string]] (ParagraphSpans [(0, 0)%Z])] = inr n /\
      feed !! question_words_slot = Some (IntMat dq qw) /\
      feed !! context_words_slot = Some (IntMat dc cw) /\
      (forall i doc,
         [mkDoc ["the"%string] [["a"%string]] (ParagraphSpans [(0, 0)%Z])] !! i
         = Some doc ->
         exists qrow crow,
           qw !! i = Some qrow /\ cw !! i = Some crow /\
           (forall j, length (question doc) <= j < dq -> qrow !! j = Some 0%Z) /\
           (forall j, length (written_context small_encoder doc) <= j < dc ->
                      crow !! j = Some 0%Z)) /\
      (forall i, 1 <= i < n ->
         qw !! i = Some (replicate dq 0%Z) /\ cw !! i = Some (replicate dc 0%Z)).
Proof.
  eexists _, _, _. split; [vm_compute; reflexivity|].
  eapply (padding_is_zero small_encoder false counting_embedder
            [mkDoc ["the"%string] [["a"%string]] (ParagraphSpans [(0, 0)%Z])]
            100%Z _ g_zero);
    [exact single_span_encoder_ok | reflexivity | vm_compute; reflexivity].
Defined.

(** The embedder is asked for a placeholder only at an unknown word: when
    every word of the questions and of the written contexts has an id that is
    not negative, a returning call leaves the embedder state as it was; and
    so does an encoder without a word embedder. *)
Theorem known_words_leave_embedder {E : Type} (self : DocumentAndQuestionEncoder E)
    (is_train : bool) (batch : list ParagraphAndQuestion)
    (e e' : E) (g g' : RandomState) (feed : feed_dict) :
  answer_encoder_ok (answer_encoder self) ->
  (forall we doc, word_embedder self = Some we -> doc ∈ batch ->
     (forall w, w ∈ question doc -> (0 <= question_word_to_ix we w)%Z) /\
     (forall w, w ∈ written_context self doc -> (0 <= context_word_to_ix we w)%Z)) ->
  DocumentAndQuestionEncoder_encode self is_train batch e g = inr (feed, e', g') ->
  e' = e.
Proof.
  intros Hok Hknown Hrun.
  destruct (word_embedder self) as [we|] eqn:Hwe.
  - destruct (encode_ids self is_train we batch e e' g g' feed Hok Hwe Hrun)
      as (n & cl & dim & qdim & _ & _ & _ & _ & _ & ->).
    apply batch_ids_all_known. intros doc Hdoc. by apply Hknown.
  - apply encode_run in Hrun
      as (n & cl & dim & qdim & mq & st & answers & _ & _ & _ & _ & _ & Hfill & _ & _ & ->).
    by apply (batch_loop_state self is_train Hwe) in Hfill.
Qed.

Lemma known_words_leave_embedder_witness :
  exists feed e' g',
    DocumentAndQuestionEncoder_encode small_encoder false
      [mkDoc ["the"%string] [["a"%string]] (ParagraphSpans [(0, 0)%Z])] 100%Z g_zero
    = inr (feed, e', g') /\ e' = 100%Z.
Proof.
  eexists _, _, _. split; [vm_compute; reflexivity|].
  eapply (known_words_leave_embedder small_encoder false
            [mkDoc ["the"%string] [["a"%string]] (ParagraphSpans [(0, 0)%Z])]
            100%Z _ g_zero);
    [exact single_span_encoder_ok | | vm_compute; reflexivity].
  intros we doc [= <-] Hdoc. apply list_elem_of_singleton in Hdoc as ->.
  split; intros w Hw; vm_compute in Hw; apply list_elem_of_singleton in Hw as ->;
    vm_compute; discriminate.
Defined.

(** In a call that returns, the word arrays are there exactly when the
    encoder has a word embedder and the character arrays exactly when it has
    a character embedder; each one has as many rows as the padded batch size,
    every row has as many positions as the dimension of its side, and every
    position of a character array has [max_char_dim] entries.  The question
    dimension is the fixed one or else the longest question of the batch. *)
Theorem array_shapes {E : Type} (self : DocumentAndQuestionEncoder E)
    (is_train : bool) (batch : list ParagraphAndQuestion)
    (e e' : E) (g g' : RandomState) (feed : feed_dict) :
  answer_encoder_ok (answer_encoder self) ->
  DocumentAndQuestionEncoder_encode self is_train batch e g = inr (feed, e', g') ->
  exists n cl dim qdim mq,
    padded_batch_size self batch = inr n /\
    context_lengths self is_train batch = inr (cl, Some dim) /\
    np_max (question_lengths batch) = inr mq /\
    qdim = match max_ques_word_dim self with Some q => q | None => Z.to_nat mq end /\
    match word_embedder self with
    | Some _ =>
        exists qw cw,
          feed !! question_words_slot = Some (IntMat qdim qw) /\
          feed !! context_words_slot = Some (IntMat dim cw) /\
          mat_shape n qdim qw /\ mat_shape n dim cw
    | None =>
        feed !! question_words_slot = None /\ feed !! context_words_slot = None
    end /\
    match char_emb self with
    | Some _ =>
        exists qc cc,
          feed !! question_chars_slot = Some (IntCube qdim (max_char_dim self) qc) /\
          feed !! context_chars_slot = Some (IntCube dim (max_char_dim self) cc) /\
          cube_shape n qdim (max_char_dim self) qc /\
          cube_shape n dim (max_char_dim self) cc
    | None =>
        feed !! question_chars_slot = None /\ feed !! context_chars_slot = None
    end.
Proof.
  intros Hok Hrun.
  apply encode_arrays in Hrun
    as (n & cl & dim & qdim & mq & st & Hn & Hcl & Hmq & Hle & Hqd & Hfill & _ &
        Fcw & Fqw & Fcc & Fqc); [|done].
  exists n, cl, dim, qdim, mq. do 3 (split; [done|]).
  split; [by destruct (max_ques_word_dim self)|].
  destruct (batch_loop_total self is_train n dim qdim batch
              (mkFill ∅ e (allocate self n dim qdim)))
    as (st2 & Hfill2 & Hshape);
    [by apply padded_batch_size_inr in Hn as [? _]
    |by eapply encode_run_fits|apply allocate_shape|].
  rewrite Hfill in Hfill2. injection Hfill2 as <-.
  destruct Hshape as [Hw Hc]. split.
  - destruct (word_embedder self).
    + destruct Hw as (qw & cw & Hq1 & Hc1 & Hsq & Hsc).
      exists qw, cw. by rewrite Fqw, Fcw, Hq1, Hc1.
    + destruct Hw as [Hq1 Hc1]. by rewrite Fqw, Fcw, Hq1, Hc1.
  - destruct (char_emb self).
    + destruct Hc as (qc & cc & Hq1 & Hc1 & Hsq & Hsc).
      exists qc, cc. by rewrite Fqc, Fcc, Hq1, Hc1.
    + destruct Hc as [Hq1 Hc1]. by rewrite Fqc, Fcc, Hq1, Hc1.
Qed.

Lemma array_shapes_witness :
  exists feed e' g',
    DocumentAndQuestionEncoder_encode char_encoder false [foo_doc] 100%Z g_zero
    = inr (feed, e', g') /\
    exists qw cw qc cc,
      feed !! question_words_slot = Some (IntMat 2 qw) /\
      feed !! context_words_slot = Some (IntMat 5 cw) /\
      mat_shape 1 2 qw /\ mat_shape 1 5 cw /\
      feed !! question_chars_slot = Some (IntCube 2 2 qc) /\
      feed !! context_chars_slot = Some (IntCube 5 2 cc) /\
      cube_shape 1 2 2 qc /\ cube_shape 1 5 2 cc.
Proof.
  eexists _, _, _. split; [vm_compute; reflexivity|].
  destruct (array_shapes char_encoder false [foo_doc] 100%Z _ g_zero _ _
              single_span_encoder_ok ltac:(vm_compute; reflexivity))
    as (n & cl & dim & qdim & mq & Hn & Hcl & Hmq & Hqd & Hw & Hc).
  vm_compute in Hn, Hcl, Hmq. injection Hn as <-. injection Hcl as <- <-.
  injection Hmq as <-. simpl in Hqd. subst qdim.
  destruct Hw as (qw & cw & Hq1 & Hc1 & Hsq & Hsc).
  destruct Hc as (qc & cc & Hq2 & Hc2 & Hsq2 & Hsc2).
  by exists qw, cw, qc, cc.
Defined.

(** ** The character arrays hold the ids of the characters *)

Lemma pad_row_snoc (d : nat) (ids : list Z) (v : Z) :
  length ids < d -> <[length ids := v]> (pad_row d ids) = pad_row d (ids ++ [v]).
Proof.
  intros H. unfold pad_row.
  rewrite insert_app_r_alt by lia. rewrite Nat.sub_diag, length_app. simpl.
  replace (d - length ids) with (S (d - (length ids + 1))) by lia.
  simpl. by rewrite <- app_assoc.
Qed.

Lemma pad_row_length (d : nat) (ids : list Z) :
  length ids <= d -> length (pad_row d ids) = d.
Proof. intros H. unfold pad_row. rewrite length_app, length_replicate. lia. Qed.

Lemma pad_planes_snoc (n d1 d2 : nat) (planes : list (list (list Z)))
    (p : list (list Z)) :
  length planes < n ->
  <[length planes := pad_rows d1 d2 p]> (pad_planes n d1 d2 planes)
  = pad_planes n d1 d2 (planes ++ [p]).
Proof.
  intros H. unfold pad_planes.
  rewrite insert_app_r_alt by (rewrite length_fmap; lia).
  rewrite length_fmap, Nat.sub_diag, fmap_app, <- app_assoc, length_app. simpl.
  f_equal. replace (n - length planes) with (S (n - (length planes + 1))) by lia.
  done.
Qed.

Lemma pad_planes_lookup_zero (n d1 d2 k : nat) (planes : list (list (list Z))) :
  length planes <= k < n -> pad_planes n d1 d2 planes !! k = Some (pad_rows d1 d2 []).
Proof.
  intros H. unfold pad_planes. rewrite lookup_app_r by (rewrite length_fmap; lia).
  apply lookup_replicate_2. rewrite length_fmap. lia.
Qed.

Lemma pad_planes_lookup_plane (n d1 d2 k : nat) (planes : list (list (list Z)))
    (p : list (list Z)) :
  planes !! k = Some p -> pad_planes n d1 d2 planes !! k = Some (pad_rows d1 d2 p).
Proof.
  intros H. unfold pad_planes. rewrite lookup_app_l.
  - by rewrite list_lookup_fmap, H.
  - rewrite length_fmap. eapply lookup_lt_Some; eauto.
Qed.

Lemma pad_planes_zeros (n d1 d2 : nat) :
  np_zeros3 0%Z n d1 d2 = pad_planes n d1 d2 [].
Proof.
  unfold pad_planes, pad_rows, pad_row, np_zeros3, np_zeros2. simpl.
  by rewrite !Nat.sub_0_r.
Qed.

Section CharExact.
Context {E : Type}.
Variable self : DocumentAndQuestionEncoder E.
Variable is_train : bool.
Variable ce : CharEmbedder.
Hypothesis Hce : char_emb self = Some ce.

Lemma char_loop_exact (i j : nat) (done : list Z) (l : list ascii)
    (cube : list (list (list Z))) (plane : list (list Z))
    (cube' : option (list (list (list Z)))) :
  length done <= max_char_dim self ->
  cube !! i = Some plane -> plane !! j = Some (pad_row (max_char_dim self) done) ->
  char_loop self ce i j (length done) l (Some cube) = inr cube' ->
  cube' = Some (<[i := <[j := pad_row (max_char_dim self)
                             (done ++ (char_to_ix ce <$>
                                         take (max_char_dim self - length done) l))]>
                        plane]> cube).
Proof.
  revert done cube plane.
  induction l as [|ch l IH]; intros done cube plane Hd Hi Hj H; simpl in H.
  - injection H as <-. rewrite take_nil, fmap_nil, app_nil_r.
    by rewrite (list_insert_id plane), (list_insert_id cube).
  - case_decide as Hbr.
    + injection H as <-.
      replace (max_char_dim self - length done) with 0 by lia.
      rewrite take_0, fmap_nil, app_nil_r.
      by rewrite (list_insert_id plane), (list_insert_id cube).
    + inv_bind H. unfold set_item3 in Hx. inv_bind Hx. injection Hx as <-.
      apply np_set3_inr in Hx0 as (plane' & row & Hp & Hr & Hk & ->).
      rewrite Hi in Hp. injection Hp as <-. rewrite Hj in Hr. injection Hr as <-.
      rewrite pad_row_snoc in H by lia.
      replace (S (length done)) with (length (done ++ [char_to_ix ce ch])) in H
        by (rewrite length_app; simpl; lia).
      eapply IH in H;
        [|rewrite length_app; simpl; lia
         |apply list_lookup_insert_eq; eapply lookup_lt_Some; eauto
         |apply list_lookup_insert_eq; eapply lookup_lt_Some; eauto].
      rewrite H, !list_insert_insert_eq. f_equal. f_equal. f_equal. f_equal.
      rewrite <- app_assoc, length_app. simpl.
      replace (max_char_dim self - length done)
        with (S (max_char_dim self - (length done + 1))) by lia.
      done.
Qed.

Lemma word_body_chars (sd : side) (i j : nat) (w : string) (st st' : fill_state E)
    (cube : list (list (list Z))) (plane : list (list Z)) :
  word_body self is_train sd i j w st = inr st' ->
  chars sd (bufs st) = Some cube -> cube !! i = Some plane ->
  plane !! j = Some (replicate (max_char_dim self) 0%Z) ->
  chars sd (bufs st')
  = Some (<[i := <[j := pad_row (max_char_dim self)
                          (char_ids ce (max_char_dim self) w)]> plane]> cube).
Proof.
  intros H Hc Hi Hj. unfold word_body in H. inv_bind H. rename x into st1.
  assert (H1 : chars sd (bufs st1) = Some cube).
  { destruct (word_embedder self) as [we|].
    - destruct (resolve is_train we w (word_to_ix sd we w) (placeholders st)
                  (emb_state st)) as [[ix t] e1].
      inv_bind Hx. injection Hx as <-. by destruct sd.
    - by injection Hx as <-. }
  inv_bind H. injection H as <-.
  unfold fill_chars in Hx0. rewrite Hce, H1 in Hx0.
  apply (char_loop_exact i j [] _ cube plane) in Hx0.
  - subst x. simpl. rewrite Nat.sub_0_r. by destruct sd.
  - simpl. lia.
  - done.
  - rewrite Hj. unfold pad_row. simpl. by rewrite Nat.sub_0_r.
Qed.

Variables n dim qdim : nat.
Variable i : nat.

Lemma char_step (sd : side) (d : nat) (c0 : list (list (list Z)))
    (ws : list string) (w : string) (st st' : fill_state E) :
  i < length c0 -> length ws < d ->
  word_body self is_train sd i (length ws) w st = inr st' ->
  chars sd (bufs st)
  = Some (<[i := pad_rows d (max_char_dim self)
                   (char_ids ce (max_char_dim self) <$> ws)]> c0) ->
  chars sd (bufs st')
  = Some (<[i := pad_rows d (max_char_dim self)
                   (char_ids ce (max_char_dim self) <$> (ws ++ [w]))]> c0).
Proof.
  intros Hi Hlen Hb Hc.
  eapply word_body_chars in Hb; [|exact Hc|by apply list_lookup_insert_eq|].
  - rewrite Hb, list_insert_insert_eq, fmap_app. simpl.
    replace (length ws) with (length (char_ids ce (max_char_dim self) <$> ws))
      by apply length_fmap.
    rewrite pad_rows_snoc; [done|]. by rewrite length_fmap.
  - apply pad_rows_lookup_zero. rewrite length_fmap. lia.
Qed.

Lemma word_body_other_chars (sd sd' : side) (j : nat) (w : string)
    (st st' : fill_state E) :
  word_body self is_train sd i j w st = inr st' -> sd' <> sd ->
  chars sd' (bufs st') = chars sd' (bufs st).
Proof. intros H Hne. apply word_body_inr in H as (H & _). by apply H. Qed.

Lemma char_question_loop (c0 : list (list (list Z)))
    (cc : option (list (list (list Z)))) (ws : list string) (st st' : fill_state E) :
  i < length c0 -> length ws <= qdim ->
  for_enumerate (word_body self is_train QuestionSide i) 0 ws st = inr st' ->
  question_chars (bufs st) = Some (<[i := pad_rows qdim (max_char_dim self) []]> c0) ->
  context_chars (bufs st) = cc ->
  question_chars (bufs st')
  = Some (<[i := pad_rows qdim (max_char_dim self)
                   (char_ids ce (max_char_dim self) <$> ws)]> c0) /\
  context_chars (bufs st') = cc.
Proof.
  intros Hi Hlen Hrun Hq Hc.
  pose proof (for_enumerate_inv (word_body self is_train QuestionSide i)
    (fun k s =>
       question_chars (bufs s)
       = Some (<[i := pad_rows qdim (max_char_dim self)
                        (char_ids ce (max_char_dim self) <$> take k ws)]> c0) /\
       context_chars (bufs s) = cc) ws) as Hinv.
  destruct Hinv with (st := st) (st' := st') as [Hfq Hfc];
    [|by rewrite take_0|done|by rewrite firstn_all in Hfq].
  intros k w s s' Hk [Hsq Hsc] Hb.
  pose proof (lookup_lt_Some _ _ _ Hk) as Hkl.
  split.
  - erewrite take_S_r by exact Hk.
    apply (char_step QuestionSide qdim c0 (take k ws) w s s'); [done| | |done].
    + rewrite length_take. lia.
    + rewrite length_take, Nat.min_l by lia. done.
  - rewrite <- Hsc.
    apply (word_body_other_chars QuestionSide ContextSide k w s s' Hb). done.
Qed.

Lemma char_sentence_loop (c0 : list (list (list Z)))
    (qc : option (list (list (list Z)))) (sent cdone : list string) (j' : nat)
    (st st' : fill_state E) :
  i < length c0 ->
  fits (max_context_word_dim self) cdone ->
  length (slice_to (max_context_word_dim self) (cdone ++ sent)) <= dim ->
  sentence_loop self is_train i sent (length cdone) st = inr (j', st') ->
  context_chars (bufs st)
  = Some (<[i := pad_rows dim (max_char_dim self)
                   (char_ids ce (max_char_dim self) <$> cdone)]> c0) ->
  question_chars (bufs st) = qc ->
  j' = length (slice_to (max_context_word_dim self) (cdone ++ sent)) /\
  context_chars (bufs st')
  = Some (<[i := pad_rows dim (max_char_dim self)
                   (char_ids ce (max_char_dim self)
                      <$> slice_to (max_context_word_dim self) (cdone ++ sent))]> c0) /\
  question_chars (bufs st') = qc.
Proof.
  intros Hi. revert cdone st.
  induction sent as [|w sent IH]; intros cdone st Hfit Hlen Hrun Hc Hq;
    simpl in Hrun.
  - injection Hrun as <- <-. rewrite app_nil_r, slice_to_fits by done. done.
  - case_decide as Hbr.
    + injection Hrun as <- <-.
      rewrite (slice_to_app_full _ cdone (w :: sent) (length cdone)) by done. done.
    + assert (Hfit1 : fits (max_context_word_dim self) (cdone ++ [w])).
      { unfold fits in *. destruct (max_context_word_dim self) as [m|]; [|done].
        rewrite length_app. simpl. assert (length cdone <> m) by congruence. lia. }
      assert (Heq : cdone ++ w :: sent = (cdone ++ [w]) ++ sent)
        by (by rewrite <- app_assoc).
      rewrite Heq in Hlen |- *.
      assert (Hlt : length cdone < dim).
      { pose proof (slice_to_app_le (max_context_word_dim self) (cdone ++ [w]) sent)
          as Hle.
        rewrite (slice_to_fits _ (cdone ++ [w])) in Hle by done.
        rewrite length_app in Hle. simpl in Hle. lia. }
      inv_bind Hrun.
      replace (S (length cdone)) with (length (cdone ++ [w])) in Hrun
        by (rewrite length_app; simpl; lia).
      apply (IH (cdone ++ [w]) x); [done|done|done| |].
      * by apply (char_step ContextSide dim c0 cdone w st x).
      * rewrite <- Hq.
        apply (word_body_other_chars ContextSide QuestionSide _ w st x Hx). done.
Qed.

Lemma char_context_loop (c0 : list (list (list Z)))
    (qc : option (list (list (list Z)))) (sents : list (list string))
    (sent_ix : nat) (cdone : list string) (st st' : fill_state E) :
  i < length c0 ->
  fits (max_context_word_dim self) cdone ->
  length (slice_to (max_context_word_dim self)
            (cdone ++ truncated_context self sents sent_ix)) <= dim ->
  context_loop self is_train i sents sent_ix (length cdone) st = inr st' ->
  context_chars (bufs st)
  = Some (<[i := pad_rows dim (max_char_dim self)
                   (char_ids ce (max_char_dim self) <$> cdone)]> c0) ->
  question_chars (bufs st) = qc ->
  context_chars (bufs st')
  = Some (<[i := pad_rows dim (max_char_dim self)
                   (char_ids ce (max_char_dim self)
                      <$> slice_to (max_context_word_dim self)
                            (cdone ++ truncated_context self sents sent_ix))]> c0) /\
  question_chars (bufs st') = qc.
Proof.
  intros Hi. revert sent_ix cdone st.
  induction sents as [|sent sents IH]; intros sent_ix cdone st Hfit Hlen Hrun Hc Hq;
    simpl in Hrun |- *.
  - injection Hrun as <-. rewrite app_nil_r, slice_to_fits by done. done.
  - simpl in Hlen. case_decide as Hbr.
    + injection Hrun as <-. rewrite app_nil_r, slice_to_fits by done. done.
    + rewrite app_assoc in Hlen |- *.
      assert (Hlen1 : length (slice_to (max_context_word_dim self) (cdone ++ sent))
                      <= dim).
      { etrans; [apply slice_to_app_le|exact Hlen]. }
      rewrite <- slice_to_idemp_app in Hlen |- *.
      inv_bind Hrun. destruct x as [j1 st1].
      destruct (char_sentence_loop c0 qc sent cdone j1 st st1 Hi Hfit Hlen1 Hx Hc Hq)
        as (-> & Hc1 & Hq1).
      by apply (IH (S sent_ix) _ st1); [apply fits_slice_to| | | |].
Qed.

Lemma char_doc_body (qc0 cc0 : list (list (list Z))) (doc : ParagraphAndQuestion)
    (st st' : fill_state E) :
  i < length qc0 -> i < length cc0 ->
  question_chars (bufs st) = Some qc0 -> context_chars (bufs st) = Some cc0 ->
  qc0 !! i = Some (pad_rows qdim (max_char_dim self) []) ->
  cc0 !! i = Some (pad_rows dim (max_char_dim self) []) ->
  length (question doc) <= qdim -> length (written_context self doc) <= dim ->
  doc_body self is_train i doc st = inr st' ->
  question_chars (bufs st')
  = Some (<[i := pad_rows qdim (max_char_dim self)
                   (char_ids ce (max_char_dim self) <$> question doc)]> qc0) /\
  context_chars (bufs st')
  = Some (<[i := pad_rows dim (max_char_dim self)
                   (char_ids ce (max_char_dim self) <$> written_context self doc)]>
            cc0).
Proof.
  intros Hiq Hic Hq Hc Hq0 Hc0 Hlq Hlc Hrun. unfold doc_body in Hrun. inv_bind Hrun.
  destruct (char_question_loop qc0 (Some cc0) (question doc) _ x Hiq Hlq Hx)
    as [Hq1 Hc1]; [by simpl; rewrite list_insert_id|done|].
  destruct (char_context_loop cc0 (question_chars (bufs x)) (context doc) 0 [] x st')
    as [Hc2 Hq2]; try done.
  - unfold fits. destruct (max_context_word_dim self); simpl; [lia|done].
  - by rewrite Hc1, list_insert_id.
  - by rewrite Hq2, Hq1.
Qed.
End CharExact.

Lemma pad_planes_length (n d1 d2 : nat) (planes : list (list (list Z))) :
  length planes <= n -> length (pad_planes n d1 d2 planes) = n.
Proof.
  intros H. unfold pad_planes. rewrite length_app, length_fmap, length_replicate. lia.
Qed.

Lemma char_batch {E : Type} (self : DocumentAndQuestionEncoder E) (is_train : bool)
    (ce : CharEmbedder) (n dim qdim : nat) (batch : list ParagraphAndQuestion) (e : E)
    (st : fill_state E) :
  char_emb self = Some ce ->
  length batch <= n ->
  (forall doc, doc ∈ batch ->
     length (question doc) <= qdim /\ length (written_context self doc) <= dim) ->
  for_enumerate (doc_body self is_train) 0 batch
    (mkFill ∅ e (allocate self n dim qdim)) = inr st ->
  question_chars (bufs st)
  = Some (pad_planes n qdim (max_char_dim self) (question_char_ids self ce batch)) /\
  context_chars (bufs st)
  = Some (pad_planes n dim (max_char_dim self) (context_char_ids self ce batch)).
Proof.
  intros Hce Hn Hfit Hrun.
  pose proof (for_enumerate_inv (doc_body self is_train)
    (fun k s =>
       question_chars (bufs s)
       = Some (pad_planes n qdim (max_char_dim self)
                 (take k (question_char_ids self ce batch))) /\
       context_chars (bufs s)
       = Some (pad_planes n dim (max_char_dim self)
                 (take k (context_char_ids self ce batch)))) batch) as Hinv.
  destruct Hinv with (st := mkFill ∅ e (allocate self n dim qdim)) (st' := st)
    as [Hq Hc]; [| |done|].
  - clear Hinv. intros k doc s s' Hk [Hsq Hsc] Hb.
    pose proof (lookup_lt_Some _ _ _ Hk) as Hkl.
    destruct (Hfit doc) as [Hlq Hlc]; [eapply list_elem_of_lookup_2; eauto|].
    assert (Hqk : question_char_ids self ce batch !! k
                  = Some (char_ids ce (max_char_dim self) <$> question doc)).
    { unfold question_char_ids. by rewrite list_lookup_fmap, Hk. }
    assert (Hck : context_char_ids self ce batch !! k
                  = Some (char_ids ce (max_char_dim self) <$> written_context self doc)).
    { unfold context_char_ids. by rewrite list_lookup_fmap, Hk. }
    assert (Hlq' : length (take k (question_char_ids self ce batch)) = k).
    { rewrite length_take. unfold question_char_ids. rewrite length_fmap. lia. }
    assert (Hlc' : length (take k (context_char_ids self ce batch)) = k).
    { rewrite length_take. unfold context_char_ids. rewrite length_fmap. lia. }
    destruct (char_doc_body self is_train ce Hce dim qdim k
                (pad_planes n qdim (max_char_dim self)
                   (take k (question_char_ids self ce batch)))
                (pad_planes n dim (max_char_dim self)
                   (take k (context_char_ids self ce batch))) doc s s')
      as [Hq Hc]; try done.
    + rewrite pad_planes_length; lia.
    + rewrite pad_planes_length; lia.
    + apply pad_planes_lookup_zero. lia.
    + apply pad_planes_lookup_zero. lia.
    + rewrite Hq, Hc.
      rewrite (take_S_r _ _ _ Hqk), (take_S_r _ _ _ Hck).
      split; rewrite <- pad_planes_snoc by lia; [by rewrite Hlq'|by rewrite Hlc'].
  - simpl. split.
    + unfold allocate. simpl. rewrite Hce. by rewrite pad_planes_zeros.
    + unfold allocate. simpl. rewrite Hce. by rewrite pad_planes_zeros.
  - revert Hq Hc. unfold question_char_ids, context_char_ids.
    rewrite <- (length_fmap (fun doc => char_ids ce (max_char_dim self) <$> question doc)
                  batch) at 1.
    rewrite firstn_all.
    rewrite <- (length_fmap
                  (fun doc => char_ids ce (max_char_dim self) <$> written_context self doc)
                  batch) at 1.
    rewrite firstn_all. done.
Qed.

Lemma pad_row_lookup (d : nat) (ids : list Z) (k : nat) :
  k < d -> length ids <= d ->
  pad_row d ids !! k = Some (default 0%Z (ids !! k)).
Proof.
  intros Hk Hl. unfold pad_row. destruct (decide (k < length ids)) as [Hlt|Hge].
  - rewrite lookup_app_l by done.
    destruct (lookup_lt_is_Some_2 ids k Hlt) as [v ->]. done.
  - rewrite lookup_app_r by lia. rewrite (lookup_ge_None_2 ids k) by lia. simpl.
    apply lookup_replicate_2. lia.
Qed.

Lemma char_ids_lookup (ce : CharEmbedder) (m : nat) (w : string) (k : nat) :
  k < m ->
  default 0%Z (char_ids ce m w !! k)
  = match list_ascii_of_string w !! k with
    | Some c => char_to_ix ce c
    | None => 0%Z
    end.
Proof.
  intros Hk. unfold char_ids. rewrite list_lookup_fmap, lookup_take_lt by done.
  by destruct (list_ascii_of_string w !! k).
Qed.

Lemma char_ids_length (ce : CharEmbedder) (m : nat) (w : string) :
  length (char_ids ce m w) <= m.
Proof. unfold char_ids. rewrite length_fmap, length_take. lia. Qed.

(** The character arrays of a returning call, as lists of ids. *)
Lemma encode_char_ids {E : Type} (self : DocumentAndQuestionEncoder E)
    (is_train : bool) (ce : CharEmbedder) (batch : list ParagraphAndQuestion)
    (e e' : E) (g g' : RandomState) (feed : feed_dict) :
  answer_encoder_ok (answer_encoder self) ->
  char_emb self = Some ce ->
  DocumentAndQuestionEncoder_encode self is_train batch e g = inr (feed, e', g') ->
  exists n dim qdim,
    padded_batch_size self batch = inr n /\
    (forall doc, doc ∈ batch ->
       length (question doc) <= qdim /\ length (written_context self doc) <= dim) /\
    feed !! question_chars_slot
      = Some (IntCube qdim (max_char_dim self)
                (pad_planes n qdim (max_char_dim self)
                   (question_char_ids self ce batch))) /\
    feed !! context_chars_slot
      = Some (IntCube dim (max_char_dim self)
                (pad_planes n dim (max_char_dim self)
                   (context_char_ids self ce batch))).
Proof.
  intros Hok Hce Hrun.
  apply encode_arrays in Hrun
    as (n & cl & dim & qdim & mq & st & Hn & Hcl & Hmq & Hle & _ & Hfill & _ &
        _ & _ & Fcc & Fqc); [|done].
  pose proof (encode_run_fits self is_train batch cl dim qdim mq Hcl Hmq Hle) as Hfit.
  exists n, dim, qdim. do 2 (split; [done|]).
  destruct (char_batch self is_train ce n dim qdim batch e st Hce) as [Hq Hc];
    [by apply padded_batch_size_inr in Hn as [? _]|done|done|].
  by rewrite Fqc, Fcc, Hq, Hc.
Qed.

(** In a call that returns, on a batch of ASCII words and with character
    ids in the int32 range, the question character array is, for each
    example and each word of its question, the ids of the first
    [max_char_dim] characters of the word, padded with zeros to
    [max_char_dim]; the words are padded with zero rows to the question
    dimension and the examples with zero planes to the batch dimension.  The
    context character array is the same over the written contexts. *)
Theorem char_arrays_hold_ids {E : Type} (self : DocumentAndQuestionEncoder E)
    (is_train : bool) (ce : CharEmbedder) (batch : list ParagraphAndQuestion)
    (e e' : E) (g g' : RandomState) (feed : feed_dict) :
  answer_encoder_ok (answer_encoder self) ->
  char_emb self = Some ce ->
  ascii_batch batch = true ->
  int32_chars ce ->
  DocumentAndQuestionEncoder_encode self is_train batch e g = inr (feed, e', g') ->
  exists n dim qdim,
    padded_batch_size self batch = inr n /\
    feed !! question_chars_slot
      = Some (IntCube qdim (max_char_dim self)
                (pad_planes n qdim (max_char_dim self)
                   (question_char_ids self ce batch))) /\
    feed !! context_chars_slot
      = Some (IntCube dim (max_char_dim self)
                (pad_planes n dim (max_char_dim self)
                   (context_char_ids self ce batch))).
Proof.
  intros Hok Hce _ _ Hrun.
  destruct (encode_char_ids self is_train ce batch e e' g g' feed Hok Hce Hrun)
    as (n & dim & qdim & Hn & _ & Hq & Hc).
  by exists n, dim, qdim.
Qed.

Lemma char_arrays_hold_ids_witness :
  exists feed e' g',
    DocumentAndQuestionEncoder_encode char_encoder false [foo_doc] 100%Z g_zero
    = inr (feed, e', g') /\
    exists n dim qdim,
      padded_batch_size char_encoder [foo_doc] = inr n /\
      feed !! question_chars_slot
        = Some (IntCube qdim (max_char_dim char_encoder)
                  (pad_planes n qdim (max_char_dim char_encoder)
                     (question_char_ids char_encoder ascii_embedder [foo_doc]))) /\
      feed !! context_chars_slot
        = Some (IntCube dim (max_char_dim char_encoder)
                  (pad_planes n dim (max_char_dim char_encoder)
                     (context_char_ids char_encoder ascii_embedder [foo_doc]))).
Proof.
  eexists _, _, _. split; [vm_compute; reflexivity|].
  eapply (char_arrays_hold_ids char_encoder false ascii_embedder [foo_doc]
            100%Z _ g_zero);
    [exact single_span_encoder_ok | reflexivity | reflexivity
    | intros c; destruct c as [[] [] [] [] [] [] [] []]; reflexivity
    | vm_compute; reflexivity].
Defined.

(** In a call that returns, on a batch of ASCII words and with character
    ids in the int32 range, entry [k] of the position of a word in a
    character array is the id of character [k] of the word, and zero when
    the word has no such character; the characters of a word from
    [max_char_dim] on are in no array. *)
Theorem char_cells {E : Type} (self : DocumentAndQuestionEncoder E)
    (is_train : bool) (ce : CharEmbedder) (batch : list ParagraphAndQuestion)
    (e e' : E) (g g' : RandomState) (feed : feed_dict) :
  answer_encoder_ok (answer_encoder self) ->
  char_emb self = Some ce ->
  ascii_batch batch = true ->
  int32_chars ce ->
  DocumentAndQuestionEncoder_encode self is_train batch e g = inr (feed, e', g') ->
  exists dq qc dc cc,
    feed !! question_chars_slot = Some (IntCube dq (max_char_dim self) qc) /\
    feed !! context_chars_slot = Some (IntCube dc (max_char_dim self) cc) /\
    forall i doc, batch !! i = Some doc ->
      exists qplane cplane,
        qc !! i = Some qplane /\ cc !! i = Some cplane /\
        (forall j w, question doc !! j = Some w ->
           exists row, qplane !! j = Some row /\ length row = max_char_dim self /\
             forall k, k < max_char_dim self ->
               row !! k = Some (match list_ascii_of_string w !! k with
                                | Some c => char_to_ix ce c
                                | None => 0%Z
                                end)) /\
        (forall j w, written_context self doc !! j = Some w ->
           exists row, cplane !! j = Some row /\ length row = max_char_dim self /\
             forall k, k < max_char_dim self ->
               row !! k = Some (match list_ascii_of_string w !! k with
                                | Some c => char_to_ix ce c
                                | None => 0%Z
                                end)).
Proof.
  intros Hok Hce _ _ Hrun.
  destruct (encode_char_ids self is_train ce batch e e' g g' feed Hok Hce Hrun)
    as (n & dim & qdim & Hn & Hfit & Hq & Hc).
  eexists _, _, _, _. split; [exact Hq|]. split; [exact Hc|].
  intros i doc Hi. eexists _, _. split; [|split; [|split]].
  - apply pad_planes_lookup_plane. unfold question_char_ids.
    by rewrite list_lookup_fmap, Hi.
  - apply pad_planes_lookup_plane. unfold context_char_ids.
    by rewrite list_lookup_fmap, Hi.
  - intros j w Hj. eexists. split; [|split].
    + apply pad_rows_lookup_row. by rewrite list_lookup_fmap, Hj.
    + apply pad_row_length, char_ids_length.
    + intros k Hk. rewrite pad_row_lookup by (done || apply char_ids_length).
      by rewrite char_ids_lookup.
  - intros j w Hj. eexists. split; [|split].
    + apply pad_rows_lookup_row. by rewrite list_lookup_fmap, Hj.
    + apply pad_row_length, char_ids_length.
    + intros k Hk. rewrite pad_row_lookup by (done || apply char_ids_length).
      by rewrite char_ids_lookup.
Qed.

Lemma char_cells_witness :
  exists feed e' g',
    DocumentAndQuestionEncoder_encode char_encoder true [foo_doc] 100%Z g_zero
    = inr (feed, e', g') /\
    exists dq qc dc cc,
      feed !! question_chars_slot = Some (IntCube dq (max_char_dim char_encoder) qc) /\
      feed !! context_chars_slot = Some (IntCube dc (max_char_dim char_encoder) cc) /\
      forall i doc, [foo_doc] !! i = Some doc ->
        exists qplane cplane,
          qc !! i = Some qplane /\ cc !! i = Some cplane /\
          (forall j w, question doc !! j = Some w ->
             exists row, qplane !! j = Some row /\
               length row = max_char_dim char_encoder /\
               forall k, k < max_char_dim char_encoder ->
                 row !! k = Some (match list_ascii_of_string w !! k with
                                  | Some c => char_to_ix ascii_embedder c
                                  | None => 0%Z
                                  end)) /\
          (forall j w, written_context char_encoder doc !! j = Some w ->
             exists row, cplane !! j = Some row /\
               length row = max_char_dim char_encoder /\
               forall k, k < max_char_dim char_encoder ->
                 row !! k = Some (match list_ascii_of_string w !! k with
                                  | Some c => char_to_ix ascii_embedder c
                                  | None => 0%Z
                                  end)).
Proof.
  eexists _, _, _. split; [vm_compute; reflexivity|].
  eapply (char_cells char_encoder true ascii_embedder [foo_doc] 100%Z _ g_zero);
    [exact single_span_encoder_ok | reflexivity | reflexivity
    | intros c; destruct c as [[] [] [] [] [] [] [] []]; reflexivity
    | vm_compute; reflexivity].
Defined.

(** ** The sentence threshold *)

Lemma truncated_context_take {E : Type} (self : DocumentAndQuestionEncoder E)
    (sents : list (list string)) (s : nat) :
  truncated_context self sents s
  = match sent_size_th self with
    | Some k => if decide (s <= k) then concat (take (k - s) sents)
                else concat sents
    | None => concat sents
    end.
Proof.
  revert s. induction sents as [|sent sents IH]; intros s; simpl.
  - destruct (sent_size_th self) as [k|]; [|done]. case_decide; [|done].
    by rewrite take_nil.
  - rewrite IH. destruct (sent_size_th self) as [k|].
    + case_decide as Hbr.
      * injection Hbr as <-. rewrite decide_True by lia. by rewrite Nat.sub_diag.
      * destruct (decide (s <= k)) as [Hle|Hgt].
        -- assert (s <> k) by congruence. rewrite decide_True by lia.
           replace (k - s) with (S (k - S s)) by lia. done.
        -- rewrite decide_False by lia. done.
    + case_decide; [done|done].
Qed.

(** With a sentence threshold and no maximal context dimension, the context
    length array of a call that returns holds the number of words of all the
    sentences of an example, while its context row holds the ids of the words
    of the sentences before the threshold only: the positions from their
    number on are zero. *)
Theorem sentence_threshold_not_in_lengths {E : Type}
    (self : DocumentAndQuestionEncoder E) (is_train : bool) (we : WordEmbedder E)
    (batch : list ParagraphAndQuestion) (e e' : E) (g g' : RandomState)
    (feed : feed_dict) (k : nat) :
  answer_encoder_ok (answer_encoder self) ->
  word_embedder self = Some we ->
  sent_size_th self = Some k ->
  max_context_word_dim self = None ->
  DocumentAndQuestionEncoder_encode self is_train batch e g = inr (feed, e', g') ->
  exists cl dc cw,
    feed !! context_len_slot = Some (IntVec cl) /\
    feed !! context_words_slot = Some (IntMat dc cw) /\
    forall i doc, batch !! i = Some doc ->
      cl !! i = Some (Z.of_nat (length (concat (context doc)))) /\
      exists crow,
        cw !! i = Some crow /\
        forall j, length (concat (take k (context doc))) <= j < dc ->
                  crow !! j = Some 0%Z.
Proof.
  intros Hok Hwe Hk Hm Hrun.
  destruct (encode_ids self is_train we batch e e' g g' feed Hok Hwe Hrun)
    as (n & cl & dim & qdim & Hn & Hcl & _ & _ & Hc & _).
  apply encode_feed in Hrun
    as (n' & cl' & dim' & qdim' & st & _ & Hcl' & _ & _ & Fcl & _); [|done].
  rewrite Hcl in Hcl'. injection Hcl' as <- <-.
  eexists cl, dim, _. split; [done|]. split; [exact Hc|].
  intros i doc Hi. split.
  - apply context_lengths_inr in Hcl as (_ & d & _ & Hcase).
    destruct Hcase as [(_ & Hm' & _)|(_ & -> & _)]; [congruence|].
    rewrite list_lookup_fmap, Hi. simpl. unfold context_size.
    by rewrite length_concat.
  - destruct (batch_ids_lookup self is_train we batch e i doc Hi) as [e1 Hrow].
    destruct (example_ids_lengths self is_train we doc e1) as [_ Hlc].
    eexists. split.
    + apply pad_rows_lookup_row. by rewrite list_lookup_fmap, Hrow.
    + intros j Hj. cbn [fst snd]. unfold pad_row.
      assert (Hw : written_context self doc = concat (take k (context doc))).
      { unfold written_context. rewrite Hm. simpl.
        rewrite truncated_context_take, Hk, decide_True by lia.
        by rewrite Nat.sub_0_r. }
      rewrite Hw in Hlc.
      rewrite lookup_app_r by lia. apply lookup_replicate_2. lia.
Qed.

Lemma sentence_threshold_not_in_lengths_witness :
  exists feed e' g',
    DocumentAndQuestionEncoder_encode char_encoder false [foo_doc] 100%Z g_zero
    = inr (feed, e', g') /\
    exists cl dc cw,
      feed !! context_len_slot = Some (IntVec cl) /\
      feed !! context_words_slot = Some (IntMat dc cw) /\
      forall i doc, [foo_doc] !! i = Some doc ->
        cl !! i = Some (Z.of_nat (length (concat (context doc)))) /\
        exists crow,
          cw !! i = Some crow /\
          forall j, length (concat (take 1 (context doc))) <= j < dc ->
                    crow !! j = Some 0%Z.
Proof.
  eexists _, _, _. split; [vm_compute; reflexivity|].
  eapply (sentence_threshold_not_in_lengths char_encoder false counting_embedder
            [foo_doc] 100%Z _ g_zero);
    [exact single_span_encoder_ok | reflexivity | reflexivity | reflexivity
    | vm_compute; reflexivity].
Defined.

(** ** Writes that stay inside an array *)

Lemma np_set2_eq {A : Type} (i j : nat) (v : A) (m : list (list A)) (row : list A) :
  m !! i = Some row -> j < length row ->
  np_set2 i j v m = inr (<[i := <[j := v]> row]> m).
Proof.
  intros Hi Hj. unfold np_set2, np_get. rewrite Hi. cbn [mbind result_bind].
  by rewrite decide_True.
Qed.

Lemma np_set3_eq {A : Type} (i j k : nat) (v : A) (c : list (list (list A)))
    (plane : list (list A)) (row : list A) :
  c !! i = Some plane -> plane !! j = Some row -> k < length row ->
  np_set3 i j k v c = inr (<[i := <[j := <[k := v]> row]> plane]> c).
Proof.
  intros Hi Hj Hk. unfold np_set3, np_get. rewrite Hi. cbn [mbind result_bind].
  by rewrite (np_set2_eq j k v plane row).
Qed.

Lemma pad_row_nil (d : nat) : pad_row d [] = replicate d 0%Z.
Proof. unfold pad_row. simpl. by rewrite Nat.sub_0_r. Qed.

Lemma pad_rows_zeros (n d : nat) : np_zeros2 0%Z n d = pad_rows n d [].
Proof. unfold pad_rows, np_zeros2. simpl. by rewrite Nat.sub_0_r. Qed.

Lemma pad_rows_snoc_nil (n d : nat) (rows : list (list Z)) :
  length rows < n -> pad_rows n d (rows ++ [[]]) = pad_rows n d rows.
Proof.
  intros H. rewrite <- pad_rows_snoc by done. apply list_insert_id.
  rewrite pad_row_nil. apply pad_rows_lookup_zero. lia.
Qed.

Lemma pad_rows_set_last (n d : nat) (rows : list (list Z)) (r r' : list Z) :
  length rows < n ->
  <[length rows := pad_row d r']> (pad_rows n d (rows ++ [r]))
  = pad_rows n d (rows ++ [r']).
Proof.
  intros H. rewrite <- (pad_rows_snoc n d rows r) by done.
  rewrite list_insert_insert_eq. by apply pad_rows_snoc.
Qed.

Lemma pad_rows_lookup_last (n d : nat) (rows : list (list Z)) (r : list Z) :
  length rows < n -> pad_rows n d (rows ++ [r]) !! length rows = Some (pad_row d r).
Proof.
  intros H. apply pad_rows_lookup_row. by rewrite lookup_app_r, Nat.sub_diag by lia.
Qed.

Lemma pad_planes_snoc_nil (n d1 d2 : nat) (planes : list (list (list Z))) :
  length planes < n -> pad_planes n d1 d2 (planes ++ [[]]) = pad_planes n d1 d2 planes.
Proof.
  intros H. rewrite <- pad_planes_snoc by done. apply list_insert_id.
  apply pad_planes_lookup_zero. lia.
Qed.

Lemma pad_planes_set_last (n d1 d2 : nat) (planes : list (list (list Z)))
    (p p' : list (list Z)) :
  length planes < n ->
  <[length planes := pad_rows d1 d2 p']> (pad_planes n d1 d2 (planes ++ [p]))
  = pad_planes n d1 d2 (planes ++ [p']).
Proof.
  intros H. rewrite <- (pad_planes_snoc n d1 d2 planes p) by done.
  rewrite list_insert_insert_eq. by apply pad_planes_snoc.
Qed.

Lemma pad_planes_lookup_last (n d1 d2 : nat) (planes : list (list (list Z)))
    (p : list (list Z)) :
  length planes < n ->
  pad_planes n d1 d2 (planes ++ [p]) !! length planes = Some (pad_rows d1 d2 p).
Proof.
  intros H. apply pad_planes_lookup_plane.
  by rewrite lookup_app_r, Nat.sub_diag by lia.
Qed.

(** ** QuestionEncoder *)

Lemma qe_set_word {E : Type} (n qdim : nat) (we : WordEmbedder E)
    (qs : list (list string)) (ws : list string) (w : string) :
  length qs < n -> length ws < qdim ->
  np_set2 (length qs) (length ws) (question_word_to_ix we w)
    (pad_rows n qdim
       ((fun q : list string => question_word_to_ix we <$> q) <$> qs ++ [ws]))
  = inr (pad_rows n qdim
           ((fun q : list string => question_word_to_ix we <$> q)
              <$> qs ++ [ws ++ [w]])).
Proof.
  intros Hi Hj. rewrite !fmap_app. simpl.
  assert (Hl : length ((fun q : list string => question_word_to_ix we <$> q)
                         <$> qs) = length qs) by apply length_fmap.
  rewrite <- Hl at 1.
  rewrite (np_set2_eq _ (length ws) _ _
             (pad_row qdim (question_word_to_ix we <$> ws))).
  - assert (Hrow : <[length ws := question_word_to_ix we w]>
                     (pad_row qdim (question_word_to_ix we <$> ws))
                   = pad_row qdim (question_word_to_ix we <$> ws ++ [w])).
    { rewrite fmap_app. simpl.
      rewrite <- pad_row_snoc by (rewrite length_fmap; lia).
      by rewrite length_fmap. }
    rewrite Hrow, pad_rows_set_last by lia. by rewrite fmap_app.
  - apply pad_rows_lookup_last. lia.
  - rewrite pad_row_length; rewrite ?length_fmap; lia.
Qed.

Section QuestionEncoderFacts.
Context {E : Type}.
Variable self : QuestionEncoder.t E.

Lemma qe_char_loop_eq (ce : CharEmbedder) (i j : nat) (done : list Z)
    (l : list ascii) (cube : list (list (list Z))) (plane : list (list Z)) :
  length done <= (QuestionEncoder._max_char_dim self) ->
  cube !! i = Some plane -> plane !! j = Some (pad_row (QuestionEncoder._max_char_dim self) done) ->
  QuestionEncoder.char_loop self ce i j (length done) l (Some cube)
  = inr (Some (<[i := <[j := pad_row (QuestionEncoder._max_char_dim self)
                             (done ++ (char_to_ix ce <$> take ((QuestionEncoder._max_char_dim self) - length done) l))]>
                        plane]> cube)).
Proof.
  revert done cube plane.
  induction l as [|ch l IH]; intros done cube plane Hd Hi Hj; simpl.
  - rewrite take_nil, fmap_nil, app_nil_r.
    by rewrite (list_insert_id plane), (list_insert_id cube).
  - case_decide as Hbr.
    + replace ((QuestionEncoder._max_char_dim self) - length done) with 0 by lia.
      rewrite take_0, fmap_nil, app_nil_r.
      by rewrite (list_insert_id plane), (list_insert_id cube).
    + rewrite (np_set3_eq i j (length done) _ cube plane (pad_row (QuestionEncoder._max_char_dim self) done))
        by (done || rewrite pad_row_length; lia).
      cbn [mbind result_bind].
      rewrite pad_row_snoc by lia.
      replace (S (length done)) with (length (done ++ [char_to_ix ce ch]))
        by (rewrite length_app; simpl; lia).
      rewrite (IH _ _ (<[j := pad_row (QuestionEncoder._max_char_dim self) (done ++ [char_to_ix ce ch])]> plane)).
      * rewrite !list_insert_insert_eq. do 4 f_equal.
        rewrite <- app_assoc, length_app. simpl.
        replace ((QuestionEncoder._max_char_dim self) - length done) with (S ((QuestionEncoder._max_char_dim self) - (length done + 1))) by lia.
        done.
      * rewrite length_app. simpl. lia.
      * apply list_lookup_insert_eq. eapply lookup_lt_Some; eauto.
      * apply list_lookup_insert_eq. eapply lookup_lt_Some; eauto.
Qed.

Variables n qdim : nat.

(** One word of a question: when the word is accepted, its id and the ids
    of its characters are added to the last row; otherwise ValueError. *)
Lemma qe_word_body_eq (qs : list (list string)) (ws : list string) (w : string) :
  length qs < n -> length ws < qdim ->
  QuestionEncoder.word_body self (length qs) (length ws) w
    (question_word_rows self n qdim (qs ++ [ws]),
     question_char_planes self n qdim (qs ++ [ws]))
  = if question_word_known self w then
      inr (question_word_rows self n qdim (qs ++ [ws ++ [w]]),
           question_char_planes self n qdim (qs ++ [ws ++ [w]]))
    else inl ValueError.
Proof.
  intros Hi Hj.
  unfold QuestionEncoder.word_body, question_word_known, question_word_rows,
    question_char_planes.
  assert (Hchars : forall ce,
    QuestionEncoder.char_loop self ce (length qs) (length ws) 0
      (list_ascii_of_string w)
      (Some (pad_planes n qdim (QuestionEncoder._max_char_dim self)
               ((fun q : list string => char_ids ce (QuestionEncoder._max_char_dim self) <$> q) <$> qs ++ [ws])))
    = inr (Some (pad_planes n qdim (QuestionEncoder._max_char_dim self)
                   ((fun q : list string => char_ids ce (QuestionEncoder._max_char_dim self) <$> q)
                      <$> qs ++ [ws ++ [w]])))).
  { intros ce. rewrite !fmap_app. simpl.
    assert (Hl : length ((fun q : list string => char_ids ce (QuestionEncoder._max_char_dim self) <$> q) <$> qs)
                 = length qs) by apply length_fmap.
    rewrite <- Hl at 1.
    rewrite (qe_char_loop_eq ce _ (length ws) [] _ _
               (pad_rows qdim (QuestionEncoder._max_char_dim self) (char_ids ce (QuestionEncoder._max_char_dim self) <$> ws))).
    - simpl. rewrite Nat.sub_0_r. f_equal. f_equal.
      fold (char_ids ce (QuestionEncoder._max_char_dim self) w).
      assert (Hrow : <[length ws := pad_row (QuestionEncoder._max_char_dim self) (char_ids ce (QuestionEncoder._max_char_dim self) w)]>
                       (pad_rows qdim (QuestionEncoder._max_char_dim self) (char_ids ce (QuestionEncoder._max_char_dim self) <$> ws))
                     = pad_rows qdim (QuestionEncoder._max_char_dim self) (char_ids ce (QuestionEncoder._max_char_dim self) <$> ws ++ [w])).
      { rewrite fmap_app. simpl.
        rewrite <- pad_rows_snoc by (rewrite length_fmap; lia).
        by rewrite length_fmap. }
      rewrite Hrow. apply pad_planes_set_last. lia.
    - simpl. lia.
    - apply pad_planes_lookup_last. lia.
    - rewrite pad_row_nil. apply pad_rows_lookup_zero. rewrite length_fmap. lia. }
  destruct (QuestionEncoder._word_embedder self) as [we|].
  - case_decide as Hneg.
    + rewrite bool_decide_eq_false_2 by lia. done.
    + rewrite bool_decide_eq_true_2 by lia. unfold set_item2.
      rewrite (qe_set_word n qdim we qs ws w) by done.
      cbn [mbind result_bind].
      destruct (QuestionEncoder._char_emb self) as [ce|]; [|done].
      by rewrite Hchars.
  - cbn [mbind result_bind].
    destruct (QuestionEncoder._char_emb self) as [ce|]; [|done].
    by rewrite Hchars.
Qed.
End QuestionEncoderFacts.

Lemma np_max_lengths {A : Type} (f : A -> nat) (l : list A) :
  l <> [] -> np_max ((fun x => Z.of_nat (f x)) <$> l) = inr (Z.of_nat (max_list (f <$> l))).
Proof.
  intros Hne.
  destruct (np_max_nonempty ((fun x => Z.of_nat (f x)) <$> l)) as [m Hm];
    [by destruct l|].
  rewrite Hm. f_equal. apply np_max_inr in Hm as [Hin Hmax].
  apply list_elem_of_fmap in Hin as (x & -> & Hx).
  assert (Hle : f x <= max_list (f <$> l)).
  { apply max_list_elem_of_le, list_elem_of_fmap. eauto. }
  assert (Hin : max_list (f <$> l) ∈ f <$> l) by (apply max_list_elem_of; by destruct l).
  apply list_elem_of_fmap in Hin as (y & Hy & Hyl).
  assert (Hge : (Z.of_nat (f y) <= Z.of_nat (f x))%Z).
  { apply Hmax, list_elem_of_fmap. eauto. }
  lia.
Qed.

Lemma max_length_le {A : Type} (l : list (list A)) (x : list A) :
  x ∈ l -> length x <= max_length l.
Proof.
  intros H. unfold max_length. apply max_list_elem_of_le, list_elem_of_fmap. eauto.
Qed.

Section QuestionEncoderLoops.
Context {E : Type}.
Variable self : QuestionEncoder.t E.
Variables n qdim : nat.

Lemma qe_state_snoc_nil (qs : list (list string)) :
  length qs < n ->
  question_word_rows self n qdim (qs ++ [[]]) = question_word_rows self n qdim qs /\
  question_char_planes self n qdim (qs ++ [[]]) = question_char_planes self n qdim qs.
Proof.
  intros H. unfold question_word_rows, question_char_planes. split.
  - destruct (QuestionEncoder._word_embedder self) as [we|]; [|done].
    rewrite fmap_app. simpl. rewrite pad_rows_snoc_nil; [done|].
    by rewrite length_fmap.
  - destruct (QuestionEncoder._char_emb self) as [ce|]; [|done].
    rewrite fmap_app. simpl. rewrite pad_planes_snoc_nil; [done|].
    by rewrite length_fmap.
Qed.

Lemma qe_question_loop (qs : list (list string)) (ws rest : list string) :
  length qs < n -> length ws + length rest <= qdim ->
  for_enumerate (QuestionEncoder.word_body self (length qs)) (length ws) rest
    (question_word_rows self n qdim (qs ++ [ws]),
     question_char_planes self n qdim (qs ++ [ws]))
  = if forallb (question_word_known self) rest then
      inr (question_word_rows self n qdim (qs ++ [ws ++ rest]),
           question_char_planes self n qdim (qs ++ [ws ++ rest]))
    else inl ValueError.
Proof.
  intros Hi. revert ws.
  induction rest as [|w rest IH]; intros ws Hlen; cbn [for_enumerate forallb].
  - by rewrite app_nil_r.
  - simpl in Hlen. rewrite (qe_word_body_eq self n qdim qs ws w) by lia.
    destruct (question_word_known self w); [|done]. cbn [mbind result_bind andb].
    replace (S (length ws)) with (length (ws ++ [w]))
      by (rewrite length_app; simpl; lia).
    rewrite IH by (rewrite length_app; simpl; lia).
    by rewrite <- app_assoc.
Qed.

Lemma qe_batch_loop (qs rest : list (list string)) :
  length qs + length rest <= n ->
  Forall (fun q => length q <= qdim) rest ->
  for_enumerate (QuestionEncoder.question_body self) (length qs) rest
    (question_word_rows self n qdim qs, question_char_planes self n qdim qs)
  = if forallb (forallb (question_word_known self)) rest then
      inr (question_word_rows self n qdim (qs ++ rest),
           question_char_planes self n qdim (qs ++ rest))
    else inl ValueError.
Proof.
  revert qs.
  induction rest as [|q rest IH]; intros qs Hlen Hfit; cbn [for_enumerate forallb].
  - by rewrite app_nil_r.
  - simpl in Hlen. apply Forall_cons in Hfit as [Hq Hfit].
    change (QuestionEncoder.question_body self (length qs) q)
      with (for_enumerate (QuestionEncoder.word_body self (length qs)) 0 q).
    destruct (qe_state_snoc_nil qs) as [<- <-]; [lia|].
    pose proof (qe_question_loop qs [] q ltac:(lia) ltac:(simpl; lia)) as Hloop.
    cbn [length app] in Hloop. rewrite Hloop. clear Hloop.
    destruct (forallb (question_word_known self) q); [|done].
    cbn [mbind result_bind andb app].
    replace (S (length qs)) with (length (qs ++ [q]))
      by (rewrite length_app; simpl; lia).
    rewrite IH by (rewrite ?length_app; simpl; done || lia).
    by rewrite <- app_assoc.
Qed.

End QuestionEncoderLoops.

(** [encode] on a batch that is not empty, in closed form. *)
Lemma qe_encode_eq {E : Type} (self : QuestionEncoder.t E)
    (batch : list (list string)) (is_train : bool) :
  batch <> [] ->
  QuestionEncoder.encode self batch is_train
  = if forallb (forallb (question_word_known self)) batch then
      inr (feed_opt question_chars_slot
             (IntCube (max_length batch) (QuestionEncoder._max_char_dim self)
                <$> question_char_planes self (length batch) (max_length batch) batch)
             (feed_opt question_words_slot
                (IntMat (max_length batch)
                   <$> question_word_rows self (length batch) (max_length batch) batch)
                {[ question_len_slot :=
                     IntVec ((fun q => Z.of_nat (length q)) <$> batch) ]}))
    else inl ValueError.
Proof.
  intros Hne. unfold QuestionEncoder.encode.
  rewrite (np_max_lengths length batch Hne). cbn [mbind result_bind].
  rewrite Nat2Z.id. fold (max_length batch).
  pose proof (qe_batch_loop self (length batch) (max_length batch) [] batch) as Hloop.
  simpl in Hloop.
  assert (Hstart :
    (match QuestionEncoder._word_embedder self with
     | Some _ => Some (np_zeros2 0%Z (length batch) (max_length batch))
     | None => None
     end,
     match QuestionEncoder._char_emb self with
     | Some _ => Some (np_zeros3 0%Z (length batch) (max_length batch)
                         (QuestionEncoder._max_char_dim self))
     | None => None
     end)
    = (question_word_rows self (length batch) (max_length batch) [],
       question_char_planes self (length batch) (max_length batch) [])).
  { unfold question_word_rows, question_char_planes.
    destruct (QuestionEncoder._word_embedder self), (QuestionEncoder._char_emb self);
      simpl; by rewrite ?pad_rows_zeros, ?pad_planes_zeros. }
  rewrite Hstart, Hloop.
  - by destruct (forallb (forallb (question_word_known self)) batch).
  - done.
  - apply Forall_forall. intros q Hq. by apply max_length_le.
Qed.

Lemma forallb_false {A : Type} (f : A -> bool) (l : list A) :
  forallb f l = false <-> exists x, x ∈ l /\ f x = false.
Proof.
  induction l as [|y l IH]; simpl.
  - split; [done|]. intros (x & Hx & _). by apply elem_of_nil in Hx.
  - rewrite andb_false_iff, IH. split.
    + intros [Hy|(x & Hx & Hf)]; [exists y|exists x]; split; try done;
        [by left|by right].
    + intros (x & Hx & Hf). apply elem_of_cons in Hx as [->|Hx]; [by left|].
      right. eauto.
Qed.

Lemma forallb_true {A : Type} (f : A -> bool) (l : list A) :
  forallb f l = true <-> forall x, x ∈ l -> f x = true.
Proof.
  induction l as [|y l IH]; simpl.
  - split; [|done]. intros _ x Hx. by apply elem_of_nil in Hx.
  - rewrite andb_true_iff, IH. split.
    + intros [Hy Hl] x Hx. apply elem_of_cons in Hx as [->|Hx]; [done|by apply Hl].
    + intros H. split; [apply H; by left|]. intros x Hx. apply H. by right.
Qed.

Lemma question_words_rejected {E : Type} (self : QuestionEncoder.t E)
    (batch : list (list string)) :
  forallb (forallb (question_word_known self)) batch = false <->
  exists we q w, QuestionEncoder._word_embedder self = Some we /\ q ∈ batch /\ w ∈ q /\
                 (question_word_to_ix we w < 0)%Z.
Proof.
  rewrite forallb_false. split.
  - intros (q & Hq & Hf). apply forallb_false in Hf as (w & Hw & Hk).
    unfold question_word_known in Hk.
    destruct (QuestionEncoder._word_embedder self) as [we|]; [|done].
    apply bool_decide_eq_false in Hk. exists we, q, w. repeat split; try done. lia.
  - intros (we & q & w & Hwe & Hq & Hw & Hneg). exists q. split; [done|].
    apply forallb_false. exists w. split; [done|].
    unfold question_word_known. rewrite Hwe. apply bool_decide_eq_false. lia.
Qed.

(** ** Properties of [QuestionEncoder.encode] *)


(** On a batch of ASCII words that is not empty and whose words all have an
    id that is not negative and lies in the int32 range, as the ids of the
    characters do, [QuestionEncoder.encode] returns: the length array holds
    the lengths of the questions; the word array has one row per question and
    as many positions as the longest question, each row the ids of its
    question followed by zeros; the character array holds per word the ids of
    its first [_max_char_dim] characters followed by zeros; an array is fed
    exactly when its embedder is there, and every key of the feed dict is one
    of [get_placeholders]. *)
Theorem question_encoder_arrays {E : Type} (self : QuestionEncoder.t E)
    (batch : list (list string)) (is_train : bool) :
  batch <> [] ->
  forallb ascii_words batch = true ->
  (forall we q w, QuestionEncoder._word_embedder self = Some we -> q ∈ batch -> w ∈ q ->
                  (0 <= question_word_to_ix we w < 2 ^ 31)%Z) ->
  (forall ce, QuestionEncoder._char_emb self = Some ce -> int32_chars ce) ->
  exists feed,
    QuestionEncoder.encode self batch is_train = inr feed /\
    feed !! question_len_slot = Some (IntVec ((fun q => Z.of_nat (length q)) <$> batch)) /\
    feed !! question_words_slot
      = match QuestionEncoder._word_embedder self with
        | Some we =>
            Some (IntMat (max_length batch)
                    (pad_rows (length batch) (max_length batch)
                       ((fun q : list string => question_word_to_ix we <$> q)
                          <$> batch)))
        | None => None
        end /\
    feed !! question_chars_slot
      = match QuestionEncoder._char_emb self with
        | Some ce =>
            Some (IntCube (max_length batch) (QuestionEncoder._max_char_dim self)
                    (pad_planes (length batch) (max_length batch)
                       (QuestionEncoder._max_char_dim self)
                       ((fun q : list string =>
                           char_ids ce (QuestionEncoder._max_char_dim self) <$> q)
                          <$> batch)))
        | None => None
        end /\
    forall s, is_Some (feed !! s) -> s ∈ QuestionEncoder.get_placeholders self.
Proof.
  intros Hne _ Hknown _. rewrite qe_encode_eq by done.
  destruct (forallb (forallb (question_word_known self)) batch) eqn:Hall.
  - clear Hknown. eexists. split; [done|].
    unfold question_word_rows, question_char_planes, QuestionEncoder.get_placeholders.
    split; [|split; [|split]].
    + by rewrite !feed_opt_lookup.
    + rewrite !feed_opt_lookup. simpl.
      by destruct (QuestionEncoder._word_embedder self).
    + rewrite !feed_opt_lookup. simpl.
      by destruct (QuestionEncoder._char_emb self).
    + intros s [x Hs]. rewrite !feed_opt_lookup in Hs.
      destruct (QuestionEncoder._char_emb self) as [ce|]; simpl in *.
      all: repeat case_decide; subst; try set_solver.
      all: apply lookup_singleton_Some in Hs as [<- _]; set_solver.
  - apply question_words_rejected in Hall as (we & q & w & Hwe & Hq & Hw & Hneg).
    specialize (Hknown we q w Hwe Hq Hw). lia.
Qed.

Lemma question_encoder_arrays_witness :
  exists feed,
    QuestionEncoder.encode question_encoder
      [["what"%string; "the"%string]; ["a"%string]] false = inr feed /\
    feed !! question_words_slot = Some (IntMat 2 [[6; 5]; [7; 0]]%Z) /\
    feed !! question_chars_slot
      = Some (IntCube 2 2 [[[119; 104]; [116; 104]]; [[97; 0]; [0; 0]]]%Z).
Proof.
  destruct (question_encoder_arrays question_encoder
              [["what"%string; "the"%string]; ["a"%string]] false)
    as (feed & Hrun & _ & Hw & Hc & _).
  - discriminate.
  - reflexivity.
  - intros we q w [= <-] Hq Hw.
    repeat (apply elem_of_cons in Hq as [->|Hq]);
      [| |by apply elem_of_nil in Hq];
      repeat (apply elem_of_cons in Hw as [->|Hw]);
      try (by apply elem_of_nil in Hw); vm_compute; (split; [discriminate|reflexivity]).
  - intros ce [= <-] c. destruct c as [[] [] [] [] [] [] [] []]; reflexivity.
  - exists feed. split; [exact Hrun|]. split; [rewrite Hw|rewrite Hc]; reflexivity.
Defined.

(** ** MultiContextAndQuestionEncoder *)

Lemma np_set2_last (n d : nat) (rows : list (list Z)) (ids : list Z) (ix : Z) :
  length rows < n -> length ids < d ->
  np_set2 (length rows) (length ids) ix (pad_rows n d (rows ++ [ids]))
  = inr (pad_rows n d (rows ++ [ids ++ [ix]])).
Proof.
  intros Hi Hj.
  rewrite (np_set2_eq _ _ _ _ (pad_row d ids))
    by (by apply pad_rows_lookup_last || (rewrite pad_row_length; lia)).
  by rewrite pad_row_snoc, pad_rows_set_last.
Qed.

Lemma np_set3_last (n d1 d2 : nat) (planes : list (list (list Z)))
    (rows : list (list Z)) (ids : list Z) (ix : Z) :
  length planes < n -> length rows < d1 -> length ids < d2 ->
  np_set3 (length planes) (length rows) (length ids) ix
    (pad_planes n d1 d2 (planes ++ [rows ++ [ids]]))
  = inr (pad_planes n d1 d2 (planes ++ [rows ++ [ids ++ [ix]]])).
Proof.
  intros Hi Hj Hk.
  rewrite (np_set3_eq _ _ _ _ _ (pad_rows d1 d2 (rows ++ [ids])) (pad_row d2 ids)).
  - by rewrite pad_row_snoc, pad_rows_set_last, pad_planes_set_last.
  - by apply pad_planes_lookup_last.
  - by apply pad_rows_lookup_last.
  - rewrite pad_row_length; lia.
Qed.

Lemma pad_planes_snoc_row_nil (n d1 d2 : nat) (planes : list (list (list Z)))
    (rows : list (list Z)) :
  length rows < d1 ->
  pad_planes n d1 d2 (planes ++ [rows ++ [[]]]) = pad_planes n d1 d2 (planes ++ [rows]).
Proof.
  intros H. unfold pad_planes. rewrite !fmap_app, !length_app. simpl.
  by rewrite pad_rows_snoc_nil.
Qed.

(** The loop that fills [context_len]. *)
Lemma context_len_body_eq (n pd : nat) (done : list (list (list string)))
    (c : list (list string)) :
  length done < n -> length c <= pd ->
  MultiContextAndQuestionEncoder.context_len_body (length done) c
    (pad_rows n pd ((fun c : list (list string) =>
                       (fun s => Z.of_nat (length s)) <$> c) <$> done))
  = inr (pad_rows n pd ((fun c : list (list string) =>
                           (fun s => Z.of_nat (length s)) <$> c) <$> (done ++ [c]))).
Proof.
  intros Hi Hc. unfold MultiContextAndQuestionEncoder.context_len_body, np_get.
  rewrite (pad_rows_lookup_zero n pd (length done)) by (rewrite length_fmap; lia).
  cbn [mbind result_bind].
  rewrite decide_True by (rewrite length_take, length_replicate, length_fmap; lia).
  rewrite drop_replicate, fmap_app. simpl.
  rewrite <- pad_rows_snoc by (rewrite length_fmap; lia).
  rewrite length_fmap. unfold pad_row. by rewrite length_fmap.
Qed.

Lemma context_len_loop (n pd : nat) (done rest : list (list (list string))) :
  length done + length rest <= n ->
  Forall (fun c => length c <= pd) rest ->
  for_enumerate MultiContextAndQuestionEncoder.context_len_body (length done) rest
    (pad_rows n pd ((fun c : list (list string) =>
                       (fun s => Z.of_nat (length s)) <$> c) <$> done))
  = inr (pad_rows n pd ((fun c : list (list string) =>
                           (fun s => Z.of_nat (length s)) <$> c) <$> (done ++ rest))).
Proof.
  revert done. induction rest as [|c rest IH]; intros done Hlen Hfit;
    cbn [for_enumerate].
  - by rewrite app_nil_r.
  - simpl in Hlen. apply Forall_cons in Hfit as [Hc Hfit].
    rewrite context_len_body_eq by lia. cbn [mbind result_bind].
    replace (S (length done)) with (length (done ++ [c]))
      by (rewrite length_app; simpl; lia).
    rewrite IH by (rewrite ?length_app; simpl; done || lia).
    by rewrite <- app_assoc.
Qed.

Section MultiLoops.
Context {E : Type}.
Variable self : MultiContextAndQuestionEncoder.t E.
Variable is_train : bool.
Variable we : WordEmbedder E.
Hypothesis Hwe : MultiContextAndQuestionEncoder._word_embedder self = Some we.
Variables n pd cdim qdim : nat.

Lemma mc_context_word_body_eq (planes : list (list (list Z)))
    (paras : list (list Z)) (ws : list string) (w : string) :
  length planes < n -> length paras < pd -> length ws < cdim ->
  MultiContextAndQuestionEncoder.context_word_body self (length planes)
    (length paras) (length ws) w
    (Some (pad_planes n pd cdim (planes ++ [paras ++ [context_word_to_ix we <$> ws]])))
  = if context_word_known self w then
      inr (Some (pad_planes n pd cdim
                   (planes ++ [paras ++ [context_word_to_ix we <$> ws ++ [w]]])))
    else inl ValueError.
Proof.
  intros Hi Hp Hj.
  unfold MultiContextAndQuestionEncoder.context_word_body, context_word_known.
  rewrite Hwe. case_decide as Hneg.
  - by rewrite bool_decide_eq_false_2 by lia.
  - rewrite bool_decide_eq_true_2 by lia. unfold set_item3.
    replace (length ws) with (length (context_word_to_ix we <$> ws))
      by apply length_fmap.
    rewrite np_set3_last by (rewrite ?length_fmap; done).
    by rewrite fmap_app.
Qed.

Lemma mc_para_loop (planes : list (list (list Z))) (paras : list (list Z))
    (ws rest : list string) :
  length planes < n -> length paras < pd -> length ws + length rest <= cdim ->
  for_enumerate
    (MultiContextAndQuestionEncoder.context_word_body self (length planes)
       (length paras)) (length ws) rest
    (Some (pad_planes n pd cdim (planes ++ [paras ++ [context_word_to_ix we <$> ws]])))
  = if forallb (context_word_known self) rest then
      inr (Some (pad_planes n pd cdim
                   (planes ++ [paras ++ [context_word_to_ix we <$> ws ++ rest]])))
    else inl ValueError.
Proof.
  intros Hi Hp. revert ws.
  induction rest as [|w rest IH]; intros ws Hlen; cbn [for_enumerate forallb].
  - by rewrite app_nil_r.
  - simpl in Hlen. rewrite mc_context_word_body_eq by lia.
    destruct (context_word_known self w); [|done]. cbn [mbind result_bind andb].
    replace (S (length ws)) with (length (ws ++ [w]))
      by (rewrite length_app; simpl; lia).
    rewrite IH by (rewrite length_app; simpl; lia).
    by rewrite <- app_assoc.
Qed.

Lemma mc_paras_loop (planes : list (list (list Z))) (paras rest : list (list string)) :
  length planes < n -> length paras + length rest <= pd ->
  Forall (fun p => length p <= cdim) rest ->
  for_enumerate (MultiContextAndQuestionEncoder.para_body self (length planes))
    (length paras) rest
    (Some (pad_planes n pd cdim
             (planes ++ [(fun p : list string => context_word_to_ix we <$> p)
                           <$> paras])))
  = if forallb (forallb (context_word_known self)) rest then
      inr (Some (pad_planes n pd cdim
                   (planes ++ [(fun p : list string => context_word_to_ix we <$> p)
                                 <$> paras ++ rest])))
    else inl ValueError.
Proof.
  intros Hi. revert paras.
  induction rest as [|p rest IH]; intros paras Hlen Hfit; cbn [for_enumerate forallb].
  - by rewrite app_nil_r.
  - simpl in Hlen. apply Forall_cons in Hfit as [Hp Hfit].
    change (MultiContextAndQuestionEncoder.para_body self (length planes)
              (length paras) p)
      with (for_enumerate
              (MultiContextAndQuestionEncoder.context_word_body self (length planes)
                 (length paras)) 0 p).
    pose proof (mc_para_loop planes
                  ((fun p : list string => context_word_to_ix we <$> p) <$> paras)
                  [] p Hi) as Hloop.
    rewrite length_fmap in Hloop. cbn [length app fmap list_fmap] in Hloop.
    rewrite pad_planes_snoc_row_nil in Hloop by (rewrite length_fmap; lia).
    rewrite Hloop by lia. clear Hloop.
    destruct (forallb (context_word_known self) p); [|done].
    cbn [mbind result_bind andb].
    replace (S (length paras)) with (length (paras ++ [p]))
      by (rewrite length_app; simpl; lia).
    assert (Heq : ((fun p : list string => context_word_to_ix we <$> p) <$> paras)
                  ++ [context_word_to_ix we <$> p]
                  = (fun p : list string => context_word_to_ix we <$> p)
                      <$> (paras ++ [p])) by (by rewrite fmap_app).
    rewrite Heq, IH by (rewrite ?length_app; simpl; done || lia).
    by rewrite <- app_assoc.
Qed.

Lemma mc_question_word_body_eq (rows : list (list Z)) (ids : list Z) (w : string)
    (table : gmap string Z) (e : E) (cw : option (list (list (list Z)))) :
  length rows < n -> length ids < qdim ->
  MultiContextAndQuestionEncoder.question_word_body self is_train (length rows)
    (length ids) w
    (MultiContextAndQuestionEncoder.mkLoop table e
       (Some (pad_rows n qdim (rows ++ [ids]))) cw)
  = inr (let r := resolve is_train we w (question_word_to_ix we w) table e in
         MultiContextAndQuestionEncoder.mkLoop r.1.2 r.2
           (Some (pad_rows n qdim (rows ++ [ids ++ [r.1.1]]))) cw).
Proof.
  intros Hi Hj. unfold MultiContextAndQuestionEncoder.question_word_body.
  rewrite Hwe. simpl.
  destruct (resolve is_train we w (question_word_to_ix we w) table e)
    as [[ix t1] e1].
  unfold set_item2. rewrite np_set2_last by lia. done.
Qed.

Lemma mc_question_loop (rows : list (list Z)) (ids : list Z) (rest : list string)
    (table : gmap string Z) (e : E) (cw : option (list (list (list Z)))) :
  length rows < n -> length ids + length rest <= qdim ->
  for_enumerate
    (MultiContextAndQuestionEncoder.question_word_body self is_train (length rows))
    (length ids) rest
    (MultiContextAndQuestionEncoder.mkLoop table e
       (Some (pad_rows n qdim (rows ++ [ids]))) cw)
  = inr (let r := resolve_words is_train we QuestionSide rest table e in
         MultiContextAndQuestionEncoder.mkLoop r.1.2 r.2
           (Some (pad_rows n qdim (rows ++ [ids ++ r.1.1]))) cw).
Proof.
  intros Hi. revert ids table e.
  induction rest as [|w rest IH]; intros ids table e Hlen;
    cbn [for_enumerate resolve_words].
  - simpl. by rewrite app_nil_r.
  - simpl in Hlen. rewrite mc_question_word_body_eq by lia.
    cbn [mbind result_bind].
    change (word_to_ix QuestionSide we w) with (question_word_to_ix we w).
    destruct (resolve is_train we w (question_word_to_ix we w) table e)
      as [[ix t1] e1].
    cbn [fst snd].
    replace (S (length ids)) with (length (ids ++ [ix]))
      by (rewrite length_app; simpl; lia).
    rewrite IH by (rewrite length_app; simpl; lia).
    destruct (resolve_words is_train we QuestionSide rest t1 e1) as [[ids' t2] e2].
    simpl. by rewrite <- app_assoc.
Qed.
End MultiLoops.

Lemma for_enumerate_id {A St : Type} (body : nat -> A -> St -> result St)
    (l : list A) (i : nat) (st : St) :
  (forall k x s, body k x s = inr s) -> for_enumerate body i l st = inr st.
Proof.
  intros Hid. revert i. induction l as [|x l IH]; intros i; simpl; [done|].
  rewrite Hid. simpl. apply IH.
Qed.

Section MultiBatch.
Context {E : Type}.
Variable self : MultiContextAndQuestionEncoder.t E.
Variable is_train : bool.
Variable we : WordEmbedder E.
Hypothesis Hwe : MultiContextAndQuestionEncoder._word_embedder self = Some we.
Variables n pd cdim qdim : nat.

Lemma mc_doc_body_eq (rows : list (list Z)) (planes : list (list (list Z)))
    (doc : ParagraphAndQuestion) (table : gmap string Z) (e : E) :
  length planes = length rows -> length rows < n ->
  length (question doc) <= qdim -> length (context doc) <= pd ->
  Forall (fun p => length p <= cdim) (context doc) ->
  MultiContextAndQuestionEncoder.doc_body self is_train (length rows) doc
    (MultiContextAndQuestionEncoder.mkLoop table e
       (Some (pad_rows n qdim rows)) (Some (pad_planes n pd cdim planes)))
  = if forallb (forallb (context_word_known self)) (context doc) then
      inr (let r := resolve_words is_train we QuestionSide (question doc) ∅ e in
           MultiContextAndQuestionEncoder.mkLoop r.1.2 r.2
             (Some (pad_rows n qdim (rows ++ [r.1.1])))
             (Some (pad_planes n pd cdim (planes ++ [paragraph_ids we doc]))))
    else inl ValueError.
Proof.
  intros Hpl Hi Hq Hp Hfit. unfold MultiContextAndQuestionEncoder.doc_body.
  cbn [MultiContextAndQuestionEncoder.placeholders
         MultiContextAndQuestionEncoder.emb_state
         MultiContextAndQuestionEncoder.question_words
         MultiContextAndQuestionEncoder.context_words].
  rewrite <- (pad_rows_snoc_nil n qdim rows) by done.
  pose proof (mc_question_loop self is_train we Hwe n qdim rows [] (question doc)
                ∅ e (Some (pad_planes n pd cdim planes)) Hi) as Hloop.
  cbn [length app] in Hloop. rewrite Hloop by lia. clear Hloop.
  cbn [mbind result_bind].
  destruct (resolve_words is_train we QuestionSide (question doc) ∅ e)
    as [[ids t1] e1].
  cbn [fst snd MultiContextAndQuestionEncoder.placeholders
         MultiContextAndQuestionEncoder.emb_state
         MultiContextAndQuestionEncoder.question_words
         MultiContextAndQuestionEncoder.context_words].
  rewrite <- (pad_planes_snoc_nil n pd cdim planes) by lia.
  pose proof (mc_paras_loop self we Hwe n pd cdim planes [] (context doc)) as Hloop.
  cbn [length app fmap list_fmap] in Hloop. rewrite Hpl in Hloop.
  rewrite Hloop by (done || lia). clear Hloop.
  by destruct (forallb (forallb (context_word_known self)) (context doc)).
Qed.

Lemma mc_batch_loop (rows : list (list Z)) (planes : list (list (list Z)))
    (rest : list ParagraphAndQuestion) (table : gmap string Z) (e : E) :
  length planes = length rows -> length rows + length rest <= n ->
  Forall (fun doc => length (question doc) <= qdim /\ length (context doc) <= pd /\
                     Forall (fun p => length p <= cdim) (context doc)) rest ->
  if forallb (fun doc => forallb (forallb (context_word_known self)) (context doc)) rest
  then
    exists table',
      for_enumerate (MultiContextAndQuestionEncoder.doc_body self is_train)
        (length rows) rest
        (MultiContextAndQuestionEncoder.mkLoop table e
           (Some (pad_rows n qdim rows)) (Some (pad_planes n pd cdim planes)))
      = inr (MultiContextAndQuestionEncoder.mkLoop table'
               (question_ids is_train we rest e).2
               (Some (pad_rows n qdim (rows ++ (question_ids is_train we rest e).1)))
               (Some (pad_planes n pd cdim (planes ++ (paragraph_ids we <$> rest)))))
  else
    for_enumerate (MultiContextAndQuestionEncoder.doc_body self is_train)
      (length rows) rest
      (MultiContextAndQuestionEncoder.mkLoop table e
         (Some (pad_rows n qdim rows)) (Some (pad_planes n pd cdim planes)))
    = inl ValueError.
Proof.
  revert rows planes table e.
  induction rest as [|doc rest IH]; intros rows planes table e Hpl Hlen Hfit;
    cbn [for_enumerate forallb question_ids].
  - exists table. by rewrite !app_nil_r.
  - simpl in Hlen. apply Forall_cons in Hfit as [(Hq & Hp & Hc) Hfit].
    rewrite mc_doc_body_eq by (done || lia).
    destruct (forallb (forallb (context_word_known self)) (context doc));
      [|done].
    cbn [mbind result_bind andb].
    destruct (resolve_words is_train we QuestionSide (question doc) ∅ e)
      as [[ids t1] e1].
    cbn [fst snd].
    specialize (IH (rows ++ [ids]) (planes ++ [paragraph_ids we doc]) t1 e1).
    rewrite !length_app in IH. simpl in IH.
    replace (length rows + 1) with (S (length rows)) in IH by lia.
    specialize (IH ltac:(lia) ltac:(lia) Hfit).
    destruct (question_ids is_train we rest e1) as [qrows e2].
    destruct (forallb _ rest); [|exact IH].
    destruct IH as [table' IH]. exists table'. rewrite IH.
    cbn [fst snd fmap list_fmap]. by rewrite <- !app_assoc.
Qed.
End MultiBatch.

(** Without a word embedder the loop over the batch writes nothing. *)
Lemma mc_doc_body_none {E : Type} (self : MultiContextAndQuestionEncoder.t E)
    (is_train : bool) (doc : ParagraphAndQuestion) (i : nat)
    (table : gmap string Z) (e : E) :
  MultiContextAndQuestionEncoder._word_embedder self = None ->
  MultiContextAndQuestionEncoder.doc_body self is_train i doc
    (MultiContextAndQuestionEncoder.mkLoop table e None None)
  = inr (MultiContextAndQuestionEncoder.mkLoop ∅ e None None).
Proof.
  intros Hwe. unfold MultiContextAndQuestionEncoder.doc_body.
  rewrite for_enumerate_id.
  - cbn [mbind result_bind]. rewrite for_enumerate_id; [done|].
    intros k p s. unfold MultiContextAndQuestionEncoder.para_body.
    apply for_enumerate_id. intros j w s'.
    unfold MultiContextAndQuestionEncoder.context_word_body. by rewrite Hwe.
  - intros k w s. unfold MultiContextAndQuestionEncoder.question_word_body.
    by rewrite Hwe.
Qed.

Lemma mc_batch_loop_none {E : Type} (self : MultiContextAndQuestionEncoder.t E)
    (is_train : bool) (batch : list ParagraphAndQuestion) (i : nat)
    (table : gmap string Z) (e : E) :
  MultiContextAndQuestionEncoder._word_embedder self = None ->
  exists table',
    for_enumerate (MultiContextAndQuestionEncoder.doc_body self is_train) i batch
      (MultiContextAndQuestionEncoder.mkLoop table e None None)
    = inr (MultiContextAndQuestionEncoder.mkLoop table' e None None).
Proof.
  intros Hwe. revert i table.
  induction batch as [|doc batch IH]; intros i table; cbn [for_enumerate].
  - by exists table.
  - rewrite mc_doc_body_none by done. cbn [mbind result_bind]. apply IH.
Qed.

Lemma elem_of_concat {A : Type} (x : A) (ls : list (list A)) :
  x ∈ concat ls <-> exists l, l ∈ ls /\ x ∈ l.
Proof.
  rewrite list_elem_of_In, in_concat. split.
  - intros (l & Hl & Hx). exists l. by rewrite !list_elem_of_In.
  - intros (l & Hl & Hx). exists l. by rewrite <- !list_elem_of_In.
Qed.

Lemma elem_of_pad_rows (n d : nat) (rows : list (list Z)) (r : list Z) :
  r ∈ pad_rows n d rows -> r = replicate d 0%Z \/ exists r0, r0 ∈ rows /\ r = pad_row d r0.
Proof.
  unfold pad_rows. rewrite elem_of_app. intros [H|H].
  - apply list_elem_of_fmap in H as (r0 & -> & H0). eauto.
  - apply elem_of_replicate in H as [-> _]. by left.
Qed.


(** The maximum of the padded matrix of paragraph lengths. *)
Lemma np_max_context_len (n pd : nat) (contexts : list (list (list string))) :
  length contexts <= n -> Forall (fun c => length c <= pd) contexts ->
  concat contexts <> [] ->
  np_max (concat (pad_rows n pd
                    ((fun c : list (list string) =>
                        (fun s => Z.of_nat (length s)) <$> c) <$> contexts)))
  = inr (Z.of_nat (max_length (concat contexts))).
Proof.
  intros Hn Hfit Hne.
  set (S := concat (pad_rows n pd
                      ((fun c : list (list string) =>
                          (fun s => Z.of_nat (length s)) <$> c) <$> contexts))).
  set (M := max_length (concat contexts)).
  assert (Hup : forall x, x ∈ S -> (x <= Z.of_nat M)%Z).
  { intros x Hx. apply elem_of_concat in Hx as (r & Hr & Hx).
    apply elem_of_pad_rows in Hr as [->|(r0 & Hr0 & ->)].
    - apply elem_of_replicate in Hx as [-> _]. lia.
    - apply list_elem_of_fmap in Hr0 as (c & -> & Hc).
      unfold pad_row in Hx. apply elem_of_app in Hx as [Hx|Hx].
      + apply list_elem_of_fmap in Hx as (p & -> & Hp).
        assert (length p <= M); [|lia].
        apply max_length_le. apply elem_of_concat. eauto.
      + apply elem_of_replicate in Hx as [-> _]. lia. }
  assert (Hin : Z.of_nat M ∈ S).
  { assert (HM : M ∈ length <$> concat contexts) by (by apply max_list_elem_of; destruct (concat contexts)).
    apply list_elem_of_fmap in HM as (p & HM & Hp).
    apply elem_of_concat in Hp as (c & Hc & Hp).
    apply elem_of_concat. exists (pad_row pd ((fun s : list string => Z.of_nat (length s)) <$> c)).
    split.
    - unfold pad_rows. apply elem_of_app. left.
      apply list_elem_of_fmap. eexists. split; [done|].
      apply list_elem_of_fmap. eauto.
    - unfold pad_row. apply elem_of_app. left. rewrite HM.
      apply list_elem_of_fmap. eauto. }
  destruct (np_max_nonempty S) as [m Hm]; [by intros HS; rewrite HS in Hin; apply elem_of_nil in Hin|].
  rewrite Hm. f_equal. apply np_max_inr in Hm as [Hm1 Hm2].
  apply Hup in Hm1. apply Hm2 in Hin. lia.
Qed.


Section MultiEncode.
Context {E : Type}.
Variable self : MultiContextAndQuestionEncoder.t E.
Variable is_train : bool.

End MultiEncode.

Section MultiEncodeRun.
Context {E : Type}.
Variable self : MultiContextAndQuestionEncoder.t E.
Variable is_train : bool.

(** [encode] on a batch with a paragraph, in closed form. *)
Lemma mc_encode_run (batch : list ParagraphAndQuestion) (e : E) :
  concat (context <$> batch) <> [] ->
  let n := length batch in
  let pd := max_length (context <$> batch) in
  let cdim := max_length (concat (context <$> batch)) in
  let qdim := max_length (question <$> batch) in
  let base : feed_dict :=
    <[question_len_slot := IntVec ((fun x => Z.of_nat (length (question x))) <$> batch)]>
      {[ context_len_slot := IntMat pd (pad_rows n pd (paragraph_lengths <$> batch)) ]} in
  match MultiContextAndQuestionEncoder._word_embedder self with
  | None => MultiContextAndQuestionEncoder.encode self is_train batch e = inr (base, e)
  | Some we =>
      if forallb (fun doc => forallb (forallb (context_word_known self)) (context doc))
           batch
      then
        MultiContextAndQuestionEncoder.encode self is_train batch e
        = inr (feed_opt question_words_slot
                 (Some (IntMat qdim
                          (pad_rows n qdim (question_ids is_train we batch e).1)))
                 (feed_opt context_words_slot
                    (Some (IntCube pd cdim
                             (pad_planes n pd cdim (paragraph_ids we <$> batch))))
                    base),
               (question_ids is_train we batch e).2)
      else MultiContextAndQuestionEncoder.encode self is_train batch e = inl ValueError
  end.
Proof.
  intros Hne n pd cdim qdim base.
  assert (Hb : batch <> []) by (by intros ->).
  assert (Hpd : np_max ((fun c : list (list string) => Z.of_nat (length c))
                          <$> (context <$> batch)) = inr (Z.of_nat pd)).
  { apply (np_max_lengths length). by destruct batch. }
  assert (Hlens : (fun c : list (list string) =>
                     (fun s => Z.of_nat (length s)) <$> c) <$> (context <$> batch)
                  = paragraph_lengths <$> batch).
  { by rewrite <- list_fmap_compose. }
  assert (Hcl : for_enumerate MultiContextAndQuestionEncoder.context_len_body 0
                  (context <$> batch) (np_zeros2 0%Z n pd)
                = inr (pad_rows n pd (paragraph_lengths <$> batch))).
  { rewrite pad_rows_zeros.
    pose proof (context_len_loop n pd [] (context <$> batch)) as Hloop.
    cbn [length app fmap list_fmap] in Hloop. rewrite Hloop, Hlens; [done| |].
    - unfold n. rewrite length_fmap. simpl. lia.
    - apply Forall_forall. intros c Hc. by apply max_length_le. }
  assert (Hcd : np_max (concat (pad_rows n pd (paragraph_lengths <$> batch)))
                = inr (Z.of_nat cdim)).
  { rewrite <- Hlens. apply np_max_context_len; [|
      apply Forall_forall; intros c Hc; by apply max_length_le|done].
    unfold n. by rewrite length_fmap. }
  assert (Hqd : np_max ((fun x => Z.of_nat (length (question x))) <$> batch)
                = inr (Z.of_nat qdim)).
  { rewrite (np_max_lengths (fun x => length (question x)) batch Hb).
    unfold qdim, max_length. by rewrite <- list_fmap_compose. }
  assert (Hfit : Forall (fun doc => length (question doc) <= qdim /\
                                    length (context doc) <= pd /\
                                    Forall (fun p => length p <= cdim) (context doc))
                   batch).
  { apply Forall_forall. intros doc Hdoc. split; [|split].
    - apply max_length_le. apply list_elem_of_fmap. eauto.
    - apply max_length_le. apply list_elem_of_fmap. eauto.
    - apply Forall_forall. intros p Hp. apply max_length_le.
      apply elem_of_concat. exists (context doc). split; [|done].
      apply list_elem_of_fmap. eauto. }
  unfold MultiContextAndQuestionEncoder.encode.
  rewrite Hpd. cbn [mbind result_bind]. rewrite Nat2Z.id.
  fold n. rewrite Hcl. cbn [mbind result_bind].
  rewrite Hcd. cbn [mbind result_bind]. rewrite Nat2Z.id.
  rewrite Hqd. cbn [mbind result_bind]. rewrite Nat2Z.id.
  destruct (MultiContextAndQuestionEncoder._word_embedder self) as [we|] eqn:Hwe.
  - rewrite pad_rows_zeros, pad_planes_zeros.
    pose proof (mc_batch_loop self is_train we Hwe n pd cdim qdim [] [] batch ∅ e
                  eq_refl ltac:(simpl; lia) Hfit) as Hloop.
    cbn [length app] in Hloop.
    destruct (forallb _ batch).
    + destruct Hloop as [table' ->]. done.
    + by rewrite Hloop.
  - destruct (mc_batch_loop_none self is_train batch 0 ∅ e Hwe) as [table' ->].
    done.
Qed.
End MultiEncodeRun.

Lemma concat_contexts_nil (batch : list ParagraphAndQuestion) :
  concat (context <$> batch) = [] <-> forall doc, doc ∈ batch -> context doc = [].
Proof.
  split.
  - intros Hnil doc Hdoc. destruct (context doc) as [|p c] eqn:Hc; [done|]. exfalso.
    assert (Hp : p ∈ concat (context <$> batch)).
    { apply elem_of_concat. exists (context doc). split.
      - apply list_elem_of_fmap. eauto.
      - rewrite Hc. left. }
    rewrite Hnil in Hp. by apply elem_of_nil in Hp.
  - intros Hall. destruct (concat (context <$> batch)) as [|p l] eqn:Hc; [done|].
    exfalso. assert (Hp : p ∈ concat (context <$> batch)) by (rewrite Hc; left).
    apply elem_of_concat in Hp as (c & Hcin & Hp).
    apply list_elem_of_fmap in Hcin as (doc & -> & Hdoc).
    rewrite (Hall doc Hdoc) in Hp. by apply elem_of_nil in Hp.
Qed.

Lemma context_words_rejected {E : Type} (self : MultiContextAndQuestionEncoder.t E)
    (batch : list ParagraphAndQuestion) :
  forallb (fun doc => forallb (forallb (context_word_known self)) (context doc)) batch
  = false <->
  exists we doc para w,
    MultiContextAndQuestionEncoder._word_embedder self = Some we /\
    doc ∈ batch /\ para ∈ context doc /\ w ∈ para /\ (context_word_to_ix we w < 0)%Z.
Proof.
  rewrite forallb_false. split.
  - intros (doc & Hdoc & Hf). apply forallb_false in Hf as (para & Hpara & Hf).
    apply forallb_false in Hf as (w & Hw & Hk).
    unfold context_word_known in Hk.
    destruct (MultiContextAndQuestionEncoder._word_embedder self) as [we|]; [|done].
    apply bool_decide_eq_false in Hk. exists we, doc, para, w.
    repeat split; try done. lia.
  - intros (we & doc & para & w & Hwe & Hdoc & Hpara & Hw & Hneg).
    exists doc. split; [done|]. apply forallb_false. exists para. split; [done|].
    apply forallb_false. exists w. split; [done|].
    unfold context_word_known. rewrite Hwe. apply bool_decide_eq_false. lia.
Qed.

(** ** Properties of [MultiContextAndQuestionEncoder.encode] *)


Lemma question_word_ids_eq {E : Type} (is_train : bool) (we : WordEmbedder E)
    (batch : list ParagraphAndQuestion) (e : E) :
  question_word_ids is_train we batch e = question_ids is_train we batch e.
Proof.
  revert e. induction batch as [|doc batch IH]; intros e; [done|].
  cbn [question_word_ids question_ids]. rewrite word_ids_resolve.
  destruct (resolve_words is_train we QuestionSide (question doc) ∅ e) as [[ids t] e1].
  by rewrite IH.
Qed.

(** On a batch of ASCII words with a paragraph, whose paragraph words all
    have an id that is not negative and whose ids all lie in the int32 range,
    [MultiContextAndQuestionEncoder.encode] returns.  The context length
    array has one row per example and as many positions as the largest
    number of paragraphs, each row the lengths of the paragraphs of its
    example followed by zeros.  With a word embedder the question word array
    holds per example the ids of its question (a known word the id of its
    lookup, an unknown word the placeholder of its lowercased form in its
    example) followed by zeros, the context word array holds per example and
    paragraph the ids of the words followed by zeros up to the longest
    paragraph, and the embedder is left in the state after the questions in
    batch order; without one no word array is fed and the embedder state is
    unchanged. *)
Theorem multi_encoder_arrays {E : Type} (self : MultiContextAndQuestionEncoder.t E)
    (is_train : bool) (batch : list ParagraphAndQuestion) (e : E) :
  (exists doc, doc ∈ batch /\ context doc <> []) ->
  ascii_batch batch = true ->
  (forall we doc para w,
     MultiContextAndQuestionEncoder._word_embedder self = Some we ->
     doc ∈ batch -> para ∈ context doc -> w ∈ para ->
     (0 <= context_word_to_ix we w < 2 ^ 31)%Z) ->
  (forall we, MultiContextAndQuestionEncoder._word_embedder self = Some we ->
              int32_rows (question_word_ids is_train we batch e).1 = true) ->
  exists feed e',
    MultiContextAndQuestionEncoder.encode self is_train batch e = inr (feed, e') /\
    feed !! context_len_slot
      = Some (IntMat (max_length (context <$> batch))
                (pad_rows (length batch) (max_length (context <$> batch))
                   (paragraph_lengths <$> batch))) /\
    feed !! question_len_slot
      = Some (IntVec ((fun x => Z.of_nat (length (question x))) <$> batch)) /\
    match MultiContextAndQuestionEncoder._word_embedder self with
    | Some we =>
        feed !! question_words_slot
          = Some (IntMat (max_length (question <$> batch))
                    (pad_rows (length batch) (max_length (question <$> batch))
                       (question_word_ids is_train we batch e).1)) /\
        feed !! context_words_slot
          = Some (IntCube (max_length (context <$> batch))
                    (max_length (concat (context <$> batch)))
                    (pad_planes (length batch) (max_length (context <$> batch))
                       (max_length (concat (context <$> batch)))
                       (paragraph_ids we <$> batch))) /\
        e' = (question_word_ids is_train we batch e).2
    | None =>
        feed !! question_words_slot = None /\ feed !! context_words_slot = None /\
        e' = e
    end.
Proof.
  intros (doc0 & Hdoc0 & Hc0) _ Hknown _.
  assert (Hne : concat (context <$> batch) <> []).
  { intros Hnil. apply Hc0. by apply (proj1 (concat_contexts_nil batch) Hnil). }
  pose proof (mc_encode_run self is_train batch e Hne) as Hrun. cbv zeta in Hrun.
  destruct (MultiContextAndQuestionEncoder._word_embedder self) as [we|] eqn:Hwe.
  - destruct (forallb _ batch) eqn:Hall.
    + eexists _, _. split; [exact Hrun|]. rewrite !feed_opt_lookup. simpl.
      rewrite question_word_ids_eq. repeat split; done.
    + apply context_words_rejected in Hall
        as (we' & doc & para & w & Hwe' & Hdoc & Hpara & Hw & Hneg).
      rewrite Hwe in Hwe'. injection Hwe' as <-.
      specialize (Hknown we doc para w eq_refl Hdoc Hpara Hw). lia.
  - eexists _, _. split; [exact Hrun|]. repeat split; done.
Qed.

Lemma multi_encoder_arrays_witness :
  exists feed e',
    MultiContextAndQuestionEncoder.encode multi_encoder true
      [mkDoc ["foo"%string; "the"%string] [["the"%string; "a"%string]; ["what"%string]]
         NoAnswer;
       mkDoc ["Foo"%string] [["a"%string]] NoAnswer] 100%Z = inr (feed, e') /\
    feed !! context_len_slot = Some (IntMat 2 [[2; 1]; [1; 0]]%Z) /\
    feed !! question_words_slot = Some (IntMat 2 [[100; 5]; [101; 0]]%Z) /\
    feed !! context_words_slot
      = Some (IntCube 2 2 [[[5; 7]; [6; 0]]; [[7; 0]; [0; 0]]]%Z) /\
    e' = 102%Z.
Proof.
  destruct (multi_encoder_arrays multi_encoder true
              [mkDoc ["foo"%string; "the"%string]
                 [["the"%string; "a"%string]; ["what"%string]] NoAnswer;
               mkDoc ["Foo"%string] [["a"%string]] NoAnswer] 100%Z)
    as (feed & e' & Hrun & Hcl & _ & Hqw & Hcw & He).
  - eexists. split; [left|discriminate].
  - reflexivity.
  - intros we doc para w [= <-] Hdoc Hpara Hw.
    repeat (apply elem_of_cons in Hdoc as [->|Hdoc]);
      [| |by apply elem_of_nil in Hdoc]; simpl in Hpara;
      repeat (apply elem_of_cons in Hpara as [->|Hpara]);
      try (by apply elem_of_nil in Hpara);
      repeat (apply elem_of_cons in Hw as [->|Hw]);
      try (by apply elem_of_nil in Hw); vm_compute; (split; [discriminate|reflexivity]).
  - intros we [= <-]. reflexivity.
  - exists feed, e'. split; [exact Hrun|].
    split; [rewrite Hcl; reflexivity|]. split; [rewrite Hqw; reflexivity|].
    split; [rewrite Hcw; reflexivity|]. rewrite He. reflexivity.
Defined.

(** ** The feed dict and the placeholders *)

Lemma features_keys {E : Type} (self : DocumentAndQuestionEncoder E)
    (n dim qdim : nat) (batch : list ParagraphAndQuestion) (feed0 feed : feed_dict)
    (s : slot) :
  features self n dim qdim batch feed0 = inr feed -> is_Some (feed !! s) ->
  is_Some (feed0 !! s) \/
  (is_Some (word_featurizer self) /\
   (s = question_features_slot \/ s = context_features_slot)).
Proof.
  unfold features. destruct (word_featurizer self) as [f|].
  - intros H. inv_bind H. destruct x as [qf cf]. injection H as <-.
    intros Hs. destruct (decide (s = question_features_slot)) as [->|Hq]; [by eauto|].
    destruct (decide (s = context_features_slot)) as [->|Hc]; [by eauto|].
    left. by rewrite !lookup_insert_ne in Hs.
  - intros [= <-] Hs. by left.
Qed.

Lemma elem_of_get_placeholders {E : Type} (self : DocumentAndQuestionEncoder E)
    (answer_placeholders : list slot) (s : slot) :
  s ∈ get_placeholders self answer_placeholders <->
  s = question_len_slot \/ s = question_words_slot \/
  s = context_len_slot \/ s = context_words_slot \/
  (is_Some (char_emb self) /\ (s = question_chars_slot \/ s = context_chars_slot)) \/
  (is_Some (word_featurizer self) /\
   (s = question_features_slot \/ s = context_features_slot)) \/
  s ∈ answer_placeholders.
Proof.
  unfold get_placeholders. rewrite elem_of_app.
  destruct (char_emb self) as [ce|], (word_featurizer self) as [f|]; simpl;
    rewrite ?elem_of_cons, elem_of_nil, ?is_Some_alt;
    intuition (subst; auto 10).
Qed.

Lemma single_span_keys (n : nat) (cl : list Z) (dim : nat)
    (batch : list ParagraphAndQuestion) (g g' : RandomState) (feed : feed_dict)
    (s : slot) :
  encode SingleSpanAnswerEncoder n cl dim batch g = inr (feed, g') ->
  is_Some (feed !! s) -> s ∈ SingleSpanAnswerEncoder_get_placeholders.
Proof.
  simpl. unfold SingleSpanAnswerEncoder_encode. intros H. inv_bind H.
  destruct x as [arr g1]. injection H as <- <-. intros [x Hs].
  apply lookup_singleton_Some in Hs as [<- _]. left.
Qed.

(** Every key of the feed dict of a returning call is one of
    [get_placeholders()], when this holds of the answer encoder; and without
    a word embedder the placeholders [question_words] and [context_words],
    which [get_placeholders()] lists all the same, are not fed. *)
Theorem feed_keys_are_placeholders {E : Type} (self : DocumentAndQuestionEncoder E)
    (is_train : bool) (batch : list ParagraphAndQuestion) (e e' : E)
    (g g' : RandomState) (feed : feed_dict) (answer_placeholders : list slot) :
  (forall n cl dim batch g feed g' s,
     encode (answer_encoder self) n cl dim batch g = inr (feed, g') ->
     is_Some (feed !! s) -> s ∈ answer_placeholders) ->
  DocumentAndQuestionEncoder_encode self is_train batch e g = inr (feed, e', g') ->
  (forall s, is_Some (feed !! s) -> s ∈ get_placeholders self answer_placeholders) /\
  (word_embedder self = None ->
   question_words_slot ∈ get_placeholders self answer_placeholders /\
   context_words_slot ∈ get_placeholders self answer_placeholders /\
   (question_words_slot ∉ answer_placeholders -> feed !! question_words_slot = None) /\
   (context_words_slot ∉ answer_placeholders -> feed !! context_words_slot = None)).
Proof.
  intros Hans Hrun.
  apply encode_run in Hrun
    as (n & cl & dim & qdim & mq & st & answers & Hn & Hcl & Hmq & Hle & _ & Hfill &
        Ha & Hfeat & _).
  assert (Hshape : bufs_shape self n dim qdim (bufs st)).
  { destruct (batch_loop_total self is_train n dim qdim batch
                (mkFill ∅ e (allocate self n dim qdim))) as (st2 & Hfill2 & Hshape);
      [by apply padded_batch_size_inr in Hn as [? _]
      |by eapply encode_run_fits|apply allocate_shape|].
    rewrite Hfill in Hfill2. by injection Hfill2 as <-. }
  destruct Hshape as [Hw Hc].
  assert (Hbuf : forall s,
    is_Some (feed_buffers self dim qdim (bufs st) (base_feed batch cl) !! s) ->
    s = context_len_slot \/ s = question_len_slot \/
    (is_Some (word_embedder self) /\
     (s = question_words_slot \/ s = context_words_slot)) \/
    (is_Some (char_emb self) /\
     (s = question_chars_slot \/ s = context_chars_slot))).
  { intros s [x Hs]. unfold feed_buffers, base_feed in Hs.
    rewrite !feed_opt_lookup in Hs.
    destruct (word_embedder self), (char_emb self).
    all: repeat match goal with
           | H : exists _, _ |- _ => destruct H
           | H : _ /\ _ |- _ => destruct H
           end.
    all: repeat match goal with
           | H : question_words _ = _ |- _ => rewrite H in Hs
           | H : context_words _ = _ |- _ => rewrite H in Hs
           | H : question_chars _ = _ |- _ => rewrite H in Hs
           | H : context_chars _ = _ |- _ => rewrite H in Hs
           end.
    all: simpl in Hs; repeat case_decide; subst; eauto 10.
    all: apply lookup_insert_Some in Hs as [[<- _]|[_ Hs]]; eauto.
    all: apply lookup_singleton_Some in Hs as [<- _]; eauto. }
  split.
  - intros s Hs. apply elem_of_get_placeholders.
    eapply features_keys in Hs; [|exact Hfeat].
    destruct Hs as [Hs|Hs]; [|by auto 10].
    apply lookup_union_is_Some in Hs as [Hs|Hs].
    + do 6 right. eapply Hans; eauto.
    + apply Hbuf in Hs. destruct Hs as [->|[->|[[_ [-> | ->]]|Hs]]]; auto 10.
  - intros Hwe.
    split; [apply elem_of_get_placeholders; auto|].
    split; [apply elem_of_get_placeholders; auto 10|].
    assert (Hno : forall s, s = question_words_slot \/ s = context_words_slot ->
                            s ∉ answer_placeholders -> feed !! s = None).
    { intros s Hcase Hnot. destruct (feed !! s) eqn:Hl; [|done]. exfalso.
      assert (Hs : is_Some (feed !! s)) by (by rewrite Hl).
      eapply features_keys in Hs; [|exact Hfeat].
      destruct Hs as [Hs|[_ Hs]]; [|destruct Hcase, Hs; congruence].
      apply lookup_union_is_Some in Hs as [Hs|Hs]; [by eapply Hnot, Hans; eauto|].
      apply Hbuf in Hs. rewrite Hwe in Hs.
      destruct Hs as [?|[?|[[[? ?] _]|[_ ?]]]]; [| |done|];
        destruct Hcase; subst; try discriminate;
        match goal with H : _ \/ _ |- _ => destruct H; discriminate end. }
    split; intros Hnot; apply Hno; auto.
Qed.

Lemma feed_keys_are_placeholders_witness :
  exists feed e' g',
    DocumentAndQuestionEncoder_encode small_encoder false [foo_doc] 100%Z g_zero
    = inr (feed, e', g') /\
    forall s, is_Some (feed !! s) ->
              s ∈ get_placeholders small_encoder SingleSpanAnswerEncoder_get_placeholders.
Proof.
  eexists _, _, _. split; [vm_compute; reflexivity|].
  refine (proj1 (feed_keys_are_placeholders small_encoder false [foo_doc] 100%Z _
                   g_zero _ _ SingleSpanAnswerEncoder_get_placeholders
                   (fun n cl dim batch g feed g' s =>
                      single_span_keys n cl dim batch g g' feed s) _)).
  vm_compute. reflexivity.
Defined.

(** ** Further properties of the answer encoders *)




(** In a call of [SingleSpanAnswerEncoder.encode] that returns, the batch has
    at most [batch_size] examples and at most as many as [context_len] has
    entries, and the rows after those of the batch hold the span (0, 0). *)
Theorem single_span_padding_rows (batch_size : nat) (context_len : list Z)
    (context_word_dim : nat) (batch : list ParagraphAndQuestion)
    (g g' : RandomState) (arr : list (list Z)) :
  SingleSpanAnswerEncoder_arrays batch_size context_len context_word_dim batch g
  = inr (arr, g') ->
  length batch <= batch_size /\ length batch <= length context_len /\
  forall j, length batch <= j < batch_size -> arr !! j = Some [0; 0]%Z.
Proof.
  unfold SingleSpanAnswerEncoder_arrays. intros Hrun.
  pose (Inv := fun (k : nat) (st : list (list Z) * RandomState) =>
    length st.1 = batch_size /\ k <= batch_size /\ k <= length context_len /\
    forall j, k <= j < batch_size -> st.1 !! j = Some [0; 0]%Z).
  assert (HI : Inv (length batch) (arr, g')).
  { eapply (for_enumerate_inv _ Inv); [| |exact Hrun].
    - intros k doc [a1 g1] [a2 g2] Hk (Hlen & Hkb & Hkc & Hrest) Hbody. simpl in *.
      apply single_span_body_inr in Hbody
        as (s & e & limit & row & _ & Hlim & _ & Hrow & _ & ->).
      apply lookup_lt_Some in Hrow, Hlim.
      unfold Inv. simpl. rewrite length_insert.
      split; [done|]. split; [lia|]. split; [lia|].
      intros j Hj. rewrite list_lookup_insert_ne by lia. apply Hrest. lia.
    - unfold Inv, np_zeros2. simpl. rewrite length_replicate.
      split; [done|]. split; [lia|]. split; [lia|].
      intros j Hj. apply lookup_replicate_2. lia. }
  destruct HI as (_ & H1 & H2 & H3). done.
Qed.

Lemma single_span_padding_rows_witness :
  exists arr g',
    SingleSpanAnswerEncoder_arrays 3 [3%Z] 3
      [mkDoc [] [] (TriviaQaAnswer [(1, 2)]%Z)] g_zero = inr (arr, g') /\
    length [mkDoc [] [] (TriviaQaAnswer [(1, 2)]%Z)] <= 3 /\
    length [mkDoc [] [] (TriviaQaAnswer [(1, 2)]%Z)] <= length [3%Z] /\
    forall j, 1 <= j < 3 -> arr !! j = Some [0; 0]%Z.
Proof.
  eexists _, _. split; [vm_compute; reflexivity|].
  apply (single_span_padding_rows 3 [3%Z] 3 [mkDoc [] [] (TriviaQaAnswer [(1, 2)]%Z)]
           g_zero (next g_zero)).
  vm_compute. reflexivity.
Defined.

(** ** Index arrays, exactly *)

Lemma np_index_valid (n : nat) (i : Z) :
  (exists j, np_index n i = inr j) <-> (- Z.of_nat n <= i < Z.of_nat n)%Z.
Proof.
  unfold np_index. split.
  - intros [j H]. repeat case_decide; simplify_eq; lia.
  - intros H. destruct (decide (0 <= i)%Z).
    + rewrite decide_True by lia. eauto.
    + rewrite decide_False, decide_True by lia. eauto.
Qed.

Lemma np_set_many_exact {A : Type} (idxs : list Z) (v : A) (row row' : list A) :
  np_set_many idxs v row = inr row' ->
  forall j, row' !! j = Some v <->
            row !! j = Some v \/ exists i, i ∈ idxs /\ np_index (length row) i = inr j.
Proof.
  revert row. induction idxs as [|i idxs IH]; intros row; simpl.
  - intros [= <-] j. split; [by left|]. intros [H|(i & Hi & _)]; [done|].
    by apply elem_of_nil in Hi.
  - intros H j. inv_bind H. unfold np_set1 in Hx. inv_bind Hx. injection Hx as <-.
    rewrite (IH _ H j), length_insert. clear IH H.
    pose proof (np_index_inr _ _ _ Hx0) as [Hlt _].
    split.
    + intros [Hj|(i' & Hi' & Hidx)].
      * destruct (decide (x0 = j)) as [<-|Hne].
        -- right. exists i. split; [left|done].
        -- left. by rewrite list_lookup_insert_ne in Hj.
      * right. exists i'. split; [by right|done].
    + intros [Hj|(i' & Hi' & Hidx)].
      * left. destruct (decide (x0 = j)) as [<-|Hne].
        -- by apply list_lookup_insert_eq.
        -- by rewrite list_lookup_insert_ne.
      * apply elem_of_cons in Hi' as [->|Hi'].
        -- left. rewrite Hx0 in Hidx. injection Hidx as <-.
           by apply list_lookup_insert_eq.
        -- right. eauto.
Qed.

Lemma np_set_many_total {A : Type} (idxs : list Z) (v : A) (row : list A) :
  Forall (fun i => (- Z.of_nat (length row) <= i < Z.of_nat (length row))%Z) idxs ->
  exists row', np_set_many idxs v row = inr row' /\ length row' = length row.
Proof.
  revert row. induction idxs as [|i idxs IH]; intros row Hall; simpl; [eauto|].
  apply Forall_cons in Hall as [Hi Hall].
  apply np_index_valid in Hi as [j Hj]. unfold np_set1. rewrite Hj.
  cbn [mbind result_bind].
  destruct (IH (<[j := v]> row)) as (row' & Hrun & Hlen).
  { by rewrite length_insert. }
  rewrite length_insert in Hlen. eauto.
Qed.

(** ** PackedMultiSpanAnswerEncoder, exactly *)

Section PackedExact.
Variable pack : Z -> Z -> Z -> Z -> Z.
Variable bound : Z.
Variable context_word_dim : nat.

Lemma packed_body_exact (sz k : nat) (doc : ParagraphAndQuestion)
    (out out' : list (list bool)) :
  out !! k = Some (replicate sz false) ->
  packed_body pack bound context_word_dim k doc out = inr out' ->
  exists row, out' = <[k := row]> out /\
              packed_exact_row pack bound context_word_dim sz doc row.
Proof.
  intros Hk H. unfold packed_body in H. inv_bind H. rename x into spans.
  apply np_set_row_many_inr in H as (row & row' & Hrow & Hset & ->).
  rewrite Hk in Hrow. injection Hrow as <-.
  exists row'. split; [done|]. exists spans. split; [done|].
  pose proof (np_set_many_inr _ _ _ _ Hset) as (Hlen & Hmark & _).
  pose proof (np_set_many_exact _ _ _ _ Hset) as Hexact.
  rewrite length_replicate in Hlen, Hmark, Hexact.
  split; [done|]. split.
  - intros sp Hsp. apply np_index_valid.
    destruct (Hmark (pack sp.1 sp.2 (Z.of_nat context_word_dim) bound))
      as (j & Hj & _); [|eauto].
    unfold to_packed_coordinates_np. apply list_elem_of_fmap. eauto.
  - intros j. rewrite Hexact. split.
    + intros [Hf|(i & Hi & Hidx)].
      * apply lookup_replicate in Hf as [? _]. done.
      * unfold to_packed_coordinates_np in Hi.
        apply list_elem_of_fmap in Hi as (sp & -> & Hsp). eauto.
    + intros (sp & Hsp & Hidx). right. eexists. split; [|exact Hidx].
      unfold to_packed_coordinates_np. apply list_elem_of_fmap. eauto.
Qed.

Lemma packed_body_total (sz k : nat) (doc : ParagraphAndQuestion)
    (out : list (list bool)) (spans : list span) :
  out !! k = Some (replicate sz false) ->
  answer_spans_of (answer doc) = inr spans ->
  (forall sp, sp ∈ spans ->
     (- Z.of_nat sz <= pack sp.1 sp.2 (Z.of_nat context_word_dim) bound
      < Z.of_nat sz)%Z) ->
  exists out', packed_body pack bound context_word_dim k doc out = inr out'.
Proof.
  intros Hk Hspans Hvalid. unfold packed_body. rewrite Hspans.
  cbn [mbind result_bind]. unfold np_set_row_many, np_get. rewrite Hk.
  cbn [mbind result_bind].
  destruct (np_set_many_total
              (to_packed_coordinates_np pack spans (Z.of_nat context_word_dim) bound)
              true (replicate sz false)) as (row' & -> & _); [|simpl; eauto].
  rewrite length_replicate. apply Forall_forall. intros i Hi.
  unfold to_packed_coordinates_np in Hi.
  apply list_elem_of_fmap in Hi as (sp & -> & Hsp). by apply Hvalid.
Qed.

(** The rows of the loop: exact for the examples treated, untouched for
    the others. *)
Lemma packed_loop_exact (sz : nat) (batch : list ParagraphAndQuestion)
    (out : list (list bool)) :
  for_enumerate (packed_body pack bound context_word_dim) 0 batch
    (np_zeros2 false (length batch) sz) = inr out ->
  length out = length batch /\
  forall i doc, batch !! i = Some doc ->
    exists row, out !! i = Some row /\
                packed_exact_row pack bound context_word_dim sz doc row.
Proof.
  intros Hrun.
  pose (Inv := fun (k : nat) (o : list (list bool)) =>
    length o = length batch /\
    (forall j, k <= j < length batch -> o !! j = Some (replicate sz false)) /\
    forall i doc, i < k -> batch !! i = Some doc ->
      exists row, o !! i = Some row /\
                  packed_exact_row pack bound context_word_dim sz doc row).
  assert (HI : Inv (length batch) out).
  { eapply (for_enumerate_inv _ Inv); [| |exact Hrun].
    - intros k doc o o' Hk (Hlen & Hrest & Hdone) Hbody.
      pose proof (lookup_lt_Some _ _ _ Hk) as Hkl.
      destruct (packed_body_exact sz k doc o o') as (row & -> & Hrow);
        [apply Hrest; lia|done|].
      unfold Inv. rewrite length_insert. split; [done|]. split.
      + intros j Hj. rewrite list_lookup_insert_ne by lia. apply Hrest. lia.
      + intros i d Hi Hd. destruct (decide (i = k)) as [->|Hne].
        * rewrite Hk in Hd. injection Hd as <-. exists row.
          split; [apply list_lookup_insert_eq; lia|done].
        * rewrite list_lookup_insert_ne by done. apply Hdone; [lia|done].
    - unfold Inv, np_zeros2. rewrite length_replicate. split; [done|]. split.
      + intros j Hj. apply lookup_replicate_2. lia.
      + intros i doc Hi. lia. }
  destruct HI as (Hlen & _ & Hdone). split; [done|].
  intros i doc Hi. apply Hdone; [|done]. eapply lookup_lt_Some; eauto.
Qed.

Lemma packed_loop_total (sz : nat) (batch : list ParagraphAndQuestion) :
  (forall doc, doc ∈ batch ->
     exists spans, answer_spans_of (answer doc) = inr spans /\
       forall sp, sp ∈ spans ->
         (- Z.of_nat sz <= pack sp.1 sp.2 (Z.of_nat context_word_dim) bound
          < Z.of_nat sz)%Z) ->
  exists out, for_enumerate (packed_body pack bound context_word_dim) 0 batch
                (np_zeros2 false (length batch) sz) = inr out.
Proof.
  intros Hdocs.
  destruct (for_enumerate_total (packed_body pack bound context_word_dim)
              (fun k o => length o = length batch /\
                 forall j, k <= j < length batch ->
                           o !! j = Some (replicate sz false)) batch)
    with (st := np_zeros2 false (length batch) sz) as (out & Hrun & _); [| |eauto].
  - intros k doc o Hk [Hlen Hrest].
    pose proof (lookup_lt_Some _ _ _ Hk) as Hkl.
    destruct (Hdocs doc) as (spans & Hspans & Hvalid);
      [eapply list_elem_of_lookup_2; eauto|].
    destruct (packed_body_total sz k doc o spans) as [o' Hbody];
      [apply Hrest; lia|done|done|].
    exists o'. split; [done|].
    destruct (packed_body_exact sz k doc o o') as (row & -> & _);
      [apply Hrest; lia|done|].
    rewrite length_insert. split; [done|].
    intros j Hj. rewrite list_lookup_insert_ne by lia. apply Hrest. lia.
  - unfold np_zeros2. rewrite length_replicate. split; [done|].
    intros j Hj. apply lookup_replicate_2. lia.
Qed.
End PackedExact.

(** [PackedMultiSpanAnswerEncoder.encode] returns exactly when the declared
    width [pack(L - bound, L - 1, L, bound) + 1] is not negative, every
    example has an answer with spans, and the packed index of every span is
    an index of a row of this width (between minus the width and the width):
    an index outside never goes unnoticed. *)
Theorem packed_returns_iff (pack : Z -> Z -> Z -> Z -> Z) (bound : Z) (batch_size : nat)
    (context_len : list Z) (context_word_dim : nat)
    (batch : list ParagraphAndQuestion) :
  (exists r, PackedMultiSpanAnswerEncoder_arrays pack bound batch_size context_len
               context_word_dim batch = inr r) <->
  (0 <= packed_width pack bound context_word_dim)%Z /\
  forall doc, doc ∈ batch ->
    exists spans, answer_spans_of (answer doc) = inr spans /\
      forall sp, sp ∈ spans ->
        (- packed_width pack bound context_word_dim
         <= pack sp.1 sp.2 (Z.of_nat context_word_dim) bound
         < packed_width pack bound context_word_dim)%Z.
Proof.
  unfold PackedMultiSpanAnswerEncoder_arrays. rewrite packed_size_eq.
  cbn [mbind result_bind]. split.
  - intros [[sz out] H]. case_decide as Hneg; [discriminate|].
    inv_bind H. injection H as <- <-. split; [lia|].
    apply packed_loop_exact in Hx as [_ Hrows].
    intros doc Hdoc. apply list_elem_of_lookup in Hdoc as [i Hi].
    destruct (Hrows i doc Hi) as (row & _ & spans & Hspans & _ & Hvalid & _).
    exists spans. split; [done|]. intros sp Hsp. specialize (Hvalid sp Hsp). lia.
  - intros [Hw Hdocs]. rewrite decide_False by lia.
    destruct (packed_loop_total pack bound context_word_dim
                (Z.to_nat (packed_width pack bound context_word_dim)) batch)
      as [out ->]; [|simpl; eauto].
    intros doc Hdoc. destruct (Hdocs doc Hdoc) as (spans & Hspans & Hvalid).
    exists spans. split; [done|]. intros sp Hsp. specialize (Hvalid sp Hsp). lia.
Qed.

(** In a call of [PackedMultiSpanAnswerEncoder.encode] that returns, an entry
    of the row of an example is true exactly when its position is the packed
    index (wrapped when negative) of one of the example's gold spans. *)
Theorem packed_rows_exact (pack : Z -> Z -> Z -> Z -> Z) (bound : Z) (batch_size : nat)
    (context_len : list Z) (context_word_dim : nat)
    (batch : list ParagraphAndQuestion) (sz : nat) (output : list (list bool)) :
  PackedMultiSpanAnswerEncoder_arrays pack bound batch_size context_len
    context_word_dim batch = inr (sz, output) ->
  forall i doc, batch !! i = Some doc ->
    exists row, output !! i = Some row /\ length row = sz /\
      forall j, row !! j = Some true <->
        exists sp, sp ∈ gold_spans (answer doc) /\
          np_index sz (pack sp.1 sp.2 (Z.of_nat context_word_dim) bound) = inr j.
Proof.
  unfold PackedMultiSpanAnswerEncoder_arrays. rewrite packed_size_eq.
  cbn [mbind result_bind]. case_decide as Hneg; [discriminate|].
  intros H. inv_bind H. injection H as <- <-.
  apply packed_loop_exact in Hx as [_ Hrows].
  intros i doc Hi.
  destruct (Hrows i doc Hi) as (row & Hrow & spans & Hspans & Hlen & _ & Hex).
  exists row. split; [done|]. split; [done|].
  rewrite (gold_spans_inr _ _ Hspans). exact Hex.
Qed.

Lemma packed_rows_exact_witness :
  exists row,
    [[false; false; true; true; false]] !! 0 = Some row /\ length row = 5 /\
    forall j, row !! j = Some true <->
      exists sp, sp ∈ gold_spans (TriviaQaAnswer [(0, 1); (2, 2)]%Z) /\
        np_index 5 (pack_by_length sp.1 sp.2 3 2) = inr j.
Proof.
  apply (packed_rows_exact pack_by_length 2 1 [3%Z] 3
           [mkDoc [] [] (TriviaQaAnswer [(0, 1); (2, 2)]%Z)] 5
           [[false; false; true; true; false]] eq_refl 0
           (mkDoc [] [] (TriviaQaAnswer [(0, 1); (2, 2)]%Z)) eq_refl).
Defined.

(** ** Further properties of [CheatingEncoder.encode] *)

Lemma context_lengths_nonempty {E : Type} (self : DocumentAndQuestionEncoder E)
    (is_train : bool) (batch : list ParagraphAndQuestion) :
  batch <> [] ->
  exists cl dim, context_lengths self is_train batch = inr (cl, Some dim) /\
                 exists cm, np_max cl = inr cm.
Proof.
  intros Hne. unfold context_lengths.
  assert (Hmax : exists m,
            np_max ((fun doc => Z.of_nat (context_size doc)) <$> batch) = inr m).
  { apply np_max_nonempty. by destruct batch. }
  destruct Hmax as [m Hm].
  destruct is_train, (max_context_word_dim self) as [M|]; try rewrite Hm;
    cbn [mbind result_bind]; eexists _, _; (split; [done|]); eauto.
  apply np_max_nonempty. by destruct batch.
Qed.

(** [CheatingEncoder.encode] needs a fixed question dimension and a word
    embedder: on a batch that is not empty and within the fixed batch size it
    raises TypeError when [max_ques_word_dim] is [None] (the comparison of a
    length with [None]), and, when the questions fit the fixed dimension,
    when there is no word embedder (item assignment into [None]). *)
Theorem cheating_type_errors {E : Type} (self : DocumentAndQuestionEncoder E)
    (is_train : bool) (batch : list ParagraphAndQuestion) (g : RandomState) :
  batch <> [] ->
  (forall fixed, batch_size self = Some fixed -> length batch <= fixed) ->
  (max_ques_word_dim self = None ->
   CheatingEncoder_encode self is_train batch g = inl TypeError) /\
  (forall q, max_ques_word_dim self = Some q ->
     (forall doc, doc ∈ batch -> length (question doc) <= q) ->
     word_embedder self = None ->
     CheatingEncoder_encode self is_train batch g = inl TypeError).
Proof.
  intros Hne Hcap.
  assert (Hn : exists n, padded_batch_size self batch = inr n).
  { unfold padded_batch_size. destruct (batch_size self) as [fixed|]; [|eauto].
    specialize (Hcap fixed eq_refl). case_decide; [lia|eauto]. }
  destruct Hn as [n Hn].
  destruct (context_lengths_nonempty self is_train batch Hne)
    as (cl & dim & Hcl & cm & Hcm).
  destruct (np_max_nonempty (question_lengths batch)) as [mq Hmq].
  { unfold question_lengths. by destruct batch. }
  unfold CheatingEncoder_encode. rewrite Hn. cbn [mbind result_bind].
  rewrite Hcl. cbn [mbind result_bind]. rewrite Hmq. cbn [mbind result_bind].
  split.
  - intros ->. done.
  - intros q -> Hfit Hwe.
    assert (Hle : (mq <= Z.of_nat q)%Z).
    { apply np_max_inr in Hmq as [Hin _]. unfold question_lengths in Hin.
      apply list_elem_of_fmap in Hin as (doc & -> & Hdoc).
      specialize (Hfit doc Hdoc). lia. }
    rewrite decide_False by lia. cbn [mbind result_bind].
    rewrite Hcm.
    assert (Hloop : forall n dim qdim,
      for_enumerate (cheat_body self) 0 batch (context_words (allocate self n dim qdim))
      = inl TypeError).
    { intros n' dim' qdim'. unfold allocate. simpl. rewrite Hwe.
      destruct batch as [|doc batch]; [done|]. done. }
    destruct (len_opt self); cbn [mbind result_bind]; by rewrite Hloop.
Qed.

Lemma cheating_type_errors_witness :
  CheatingEncoder_encode
    (mkEncoder Z DenseMultiSpanAnswerEncoder None None (Some counting_embedder) None
       false None None None 1) false [marked_doc] g_zero = inl TypeError.
Proof.
  apply (proj1 (cheating_type_errors
                  (mkEncoder Z DenseMultiSpanAnswerEncoder None None
                     (Some counting_embedder) None false None None None 1)
                  false [marked_doc] g_zero ltac:(discriminate)
                  ltac:(intros fixed; discriminate))).
  reflexivity.
Defined.

(** In a call of [CheatingEncoder.encode] that returns, the question
    dimension is [max_ques_word_dim] and the context dimension the one of
    [DocumentAndQuestionEncoder.encode], both cut down to the longest
    question and the longest context length of the batch when [len_opt] is
    set; the character arrays, when there is a character embedder, have
    these dimensions and are all zeros: no character is looked up. *)
Theorem cheating_dimensions {E : Type} (self : DocumentAndQuestionEncoder E)
    (is_train : bool) (batch : list ParagraphAndQuestion) (g g' : RandomState)
    (feed : feed_dict) :
  answer_encoder self = DenseMultiSpanAnswerEncoder ->
  CheatingEncoder_encode self is_train batch g = inr (feed, g') ->
  exists n q mq cl dim0 cm qdim dim,
    padded_batch_size self batch = inr n /\
    max_ques_word_dim self = Some q /\
    np_max (question_lengths batch) = inr mq /\
    context_lengths self is_train batch = inr (cl, Some dim0) /\
    np_max cl = inr cm /\
    qdim = (if len_opt self then q `min` Z.to_nat mq else q) /\
    dim = (if len_opt self then dim0 `min` Z.to_nat cm else dim0) /\
    match char_emb self with
    | Some _ =>
        feed !! question_chars_slot
          = Some (IntCube qdim (max_char_dim self)
                    (np_zeros3 0%Z n qdim (max_char_dim self))) /\
        feed !! context_chars_slot
          = Some (IntCube dim (max_char_dim self)
                    (np_zeros3 0%Z n dim (max_char_dim self)))
    | None =>
        feed !! question_chars_slot = None /\ feed !! context_chars_slot = None
    end.
Proof.
  intros Hae H. unfold CheatingEncoder_encode in H.
  inv_bind H. rename x into n. inv_bind H. destruct x as [cl dim0'].
  destruct (context_lengths_inr self is_train batch cl dim0' Hx0)
    as (Hcll & dim0 & -> & _).
  inv_bind H. rename x into mq. inv_bind H. rename x into q0.
  destruct (max_ques_word_dim self) as [q|] eqn:Hq; [|discriminate].
  case_decide as Hgt; [discriminate|]. injection Hx2 as <-.
  inv_bind H. destruct x as [qdim dim]. inv_bind H. rename x into cw.
  inv_bind H. destruct x as [answers g1]. injection H as <- <-.
  assert (Hcm : exists cm, np_max cl = inr cm).
  { apply np_max_nonempty. intros ->. simpl in Hcll.
    destruct batch; [discriminate|done]. }
  destruct Hcm as [cm Hcm].
  exists n, q, mq, cl, dim0, cm, qdim, dim. do 5 (split; [done|]).
  assert (Hdims : qdim = (if len_opt self then q `min` Z.to_nat mq else q) /\
                  dim = (if len_opt self then dim0 `min` Z.to_nat cm else dim0)).
  { destruct (len_opt self).
    - rewrite Hcm in Hx2. cbn [mbind result_bind] in Hx2. by injection Hx2 as <- <-.
    - by injection Hx2 as <- <-. }
  destruct Hdims as [Hqd Hd]. split; [done|]. split; [done|].
  assert (Hnone : forall s, ~ answer_slot s -> answers !! s = None).
  { intros s Hs. destruct (answers !! s) eqn:Ha; [|done]. exfalso. apply Hs.
    rewrite Hae in Hx4. eapply dense_encoder_ok; [exact Hx4|]. by rewrite Ha. }
  match goal with
  | |- context [feed_buffers self dim qdim ?b _] =>
      destruct (feed_buffers_lookup self dim qdim b batch cl)
        as (_ & _ & _ & _ & F5 & F6)
  end.
  fold (base_feed batch cl).
  rewrite !lookup_union_r
    by (apply Hnone; unfold answer_slot; intros [?|[?|[?|?]]]; discriminate).
  rewrite F5, F6. unfold allocate. simpl.
  by destruct (char_emb self).
Qed.

Lemma cheating_dimensions_witness :
  exists feed g',
    CheatingEncoder_encode
      (mkEncoder Z DenseMultiSpanAnswerEncoder None None (Some counting_embedder)
         (Some ascii_embedder) true (Some 2) (Some 5) (Some 4) 1)
      false [marked_doc] g_zero = inr (feed, g') /\
    feed !! question_chars_slot = Some (IntCube 1 1 [[[0%Z]]; [[0%Z]]]) /\
    feed !! context_chars_slot
      = Some (IntCube 4 1 [[[0]; [0]; [0]; [0]]; [[0]; [0]; [0]; [0]]]%Z).
Proof.
  eexists _, _. split; [vm_compute; reflexivity|].
  destruct (cheating_dimensions
              (mkEncoder Z DenseMultiSpanAnswerEncoder None None (Some counting_embedder)
                 (Some ascii_embedder) true (Some 2) (Some 5) (Some 4) 1)
              false [marked_doc] g_zero _ _ eq_refl ltac:(vm_compute; reflexivity))
    as (n & q & mq & cl & dim0 & cm & qdim & dim & Hn & Hq & Hmq & Hcl & Hcm & -> & -> &
        Hqc & Hcc).
  vm_compute in Hn, Hq, Hmq, Hcl. injection Hn as <-. injection Hq as <-.
  injection Hmq as <-. injection Hcl as <- <-.
  vm_compute in Hcm. injection Hcm as <-.
  split; [rewrite Hqc|rewrite Hcc]; reflexivity.
Defined.

(** ** DenseMultiSpanAnswerEncoder, exactly *)

Lemma np_set_many_zeros (n : nat) (idxs : list Z) (row' : list bool) :
  np_set_many idxs true (replicate n false) = inr row' ->
  length row' = n /\
  Forall (fun i => (- Z.of_nat n <= i < Z.of_nat n)%Z) idxs /\
  forall j, row' !! j = Some true <-> exists i, i ∈ idxs /\ np_index n i = inr j.
Proof.
  intros H.
  pose proof (np_set_many_inr _ _ _ _ H) as (Hlen & Hmark & _).
  pose proof (np_set_many_exact _ _ _ _ H) as Hexact.
  rewrite length_replicate in Hlen, Hmark, Hexact.
  split; [done|]. split.
  - apply Forall_forall. intros i Hi. apply np_index_valid.
    destruct (Hmark i Hi) as (j & Hj & _). eauto.
  - intros j. rewrite Hexact. split; [|by right].
    intros [Hf|Hi]; [|done]. apply lookup_replicate in Hf as [? _]. done.
Qed.

Lemma answer_none_or_not (a : Answer) : a = NoAnswer \/ a <> NoAnswer.
Proof. destruct a; [by left|by right..]. Qed.

Section DenseExact.
Variable context_word_dim : nat.

Lemma dense_body_spans (k : nat) (doc : ParagraphAndQuestion)
    (starts ends : list (list bool)) :
  answer doc <> NoAnswer ->
  dense_body context_word_dim k doc (starts, ends)
  = (answer_spans ← answer_spans_of (answer doc);
     answer_starts ←
       np_set_row_many k ((kept context_word_dim answer_spans).*1) true starts;
     answer_ends ←
       np_set_row_many k ((kept context_word_dim answer_spans).*2) true ends;
     inr (answer_starts, answer_ends)).
Proof. intros Hne. unfold dense_body. by destruct (answer doc). Qed.

Lemma dense_body_exact (k : nat) (doc : ParagraphAndQuestion)
    (starts ends starts' ends' : list (list bool)) :
  (k < length starts -> starts !! k = Some (replicate context_word_dim false)) ->
  (k < length ends -> ends !! k = Some (replicate context_word_dim false)) ->
  length starts = length ends ->
  dense_body context_word_dim k doc (starts, ends) = inr (starts', ends') ->
  dense_accepts (length starts) context_word_dim k (answer doc) /\
  length starts' = length starts /\ length ends' = length ends /\
  (forall j, j <> k -> starts' !! j = starts !! j /\ ends' !! j = ends !! j) /\
  (k < length starts ->
   exists srow erow, starts' !! k = Some srow /\ ends' !! k = Some erow /\
                     dense_exact_row context_word_dim (answer doc) srow erow).
Proof.
  intros Hs He Hlen H.
  destruct (answer_none_or_not (answer doc)) as [Hno|Hyes].
  - unfold dense_body in H. rewrite Hno in H. injection H as <- <-.
    split; [by left|]. do 3 (split; [done|]).
    intros Hk. eexists _, _. split; [by apply Hs|]. split; [apply He; lia|].
    unfold dense_exact_row, gold_spans. rewrite Hno. simpl.
    rewrite !length_replicate.
    do 2 (split; [done|]). intros j.
    split; (split; [intros Hf; apply lookup_replicate in Hf as [? _]; done|]);
      intros (sp & Hsp & _); by apply elem_of_nil in Hsp.
  - rewrite dense_body_spans in H by done. inv_bind H. rename x into spans.
    inv_bind H. inv_bind H. injection H as <- <-.
    apply np_set_row_many_inr in Hx0 as (srow0 & srow & Hs0 & Hsset & ->).
    apply np_set_row_many_inr in Hx1 as (erow0 & erow & He0 & Heset & ->).
    pose proof (lookup_lt_Some _ _ _ Hs0) as Hks.
    pose proof (lookup_lt_Some _ _ _ He0) as Hke.
    rewrite (Hs Hks) in Hs0. injection Hs0 as <-.
    rewrite (He Hke) in He0. injection He0 as <-.
    apply np_set_many_zeros in Hsset as (Hsl & Hsv & Hsx).
    apply np_set_many_zeros in Heset as (Hel & Hev & Hex).
    rewrite !length_insert.
    split.
    { right. split; [done|]. exists spans. split; [done|]. intros sp Hsp. split.
      - eapply Forall_forall in Hsv; [exact Hsv|].
        apply list_elem_of_fmap. eauto.
      - eapply Forall_forall in Hev; [|apply list_elem_of_fmap; eauto]. lia. }
    do 2 (split; [done|]). split.
    { intros j Hj. by rewrite !list_lookup_insert_ne. }
    intros _. exists srow, erow.
    rewrite !list_lookup_insert_eq by done. do 2 (split; [done|]).
    unfold dense_exact_row. rewrite (gold_spans_inr _ _ Hx).
    do 2 (split; [done|]). intros j. rewrite Hsx, Hex. split.
    + split.
      * intros (i & Hi & Hidx). apply list_elem_of_fmap in Hi as (sp & -> & Hsp).
        eauto.
      * intros (sp & Hsp & Hidx). eexists. split; [|exact Hidx].
        apply list_elem_of_fmap. eauto.
    + split.
      * intros (i & Hi & Hidx). apply list_elem_of_fmap in Hi as (sp & -> & Hsp).
        eauto.
      * intros (sp & Hsp & Hidx). eexists. split; [|exact Hidx].
        apply list_elem_of_fmap. eauto.
Qed.

Lemma dense_body_total (k : nat) (doc : ParagraphAndQuestion)
    (starts ends : list (list bool)) :
  (k < length starts -> starts !! k = Some (replicate context_word_dim false)) ->
  (k < length ends -> ends !! k = Some (replicate context_word_dim false)) ->
  length starts = length ends ->
  dense_accepts (length starts) context_word_dim k (answer doc) ->
  exists st, dense_body context_word_dim k doc (starts, ends) = inr st.
Proof.
  intros Hs He Hlen [Hno|(Hk & spans & Hspans & Hvalid)].
  - unfold dense_body. rewrite Hno. eauto.
  - destruct (answer_none_or_not (answer doc)) as [Hno|Hyes].
    { unfold dense_body. rewrite Hno. eauto. }
    rewrite dense_body_spans by done. rewrite Hspans. cbn [mbind result_bind].
    unfold np_set_row_many, np_get. rewrite (Hs Hk). cbn [mbind result_bind].
    destruct (np_set_many_total ((kept context_word_dim spans).*1) true
                (replicate context_word_dim false)) as (srow & -> & _).
    { rewrite length_replicate. apply Forall_forall. intros i Hi.
      apply list_elem_of_fmap in Hi as (sp & -> & Hsp). by apply Hvalid. }
    cbn [mbind result_bind]. rewrite (He ltac:(lia)). cbn [mbind result_bind].
    destruct (np_set_many_total ((kept context_word_dim spans).*2) true
                (replicate context_word_dim false)) as (erow & -> & _).
    { rewrite length_replicate. apply Forall_forall. intros i Hi.
      apply list_elem_of_fmap in Hi as (sp & -> & Hsp).
      destruct (Hvalid sp Hsp) as [_ Hlo].
      apply list_elem_of_filter in Hsp as [Hlt _]. lia. }
    cbn [mbind result_bind]. eauto.
Qed.
End DenseExact.

Lemma dense_loop_exact (batch_size context_word_dim : nat)
    (batch : list ParagraphAndQuestion) (starts ends : list (list bool)) :
  for_enumerate (dense_body context_word_dim) 0 batch
    (np_zeros2 false batch_size context_word_dim,
     np_zeros2 false batch_size context_word_dim) = inr (starts, ends) ->
  length starts = batch_size /\ length ends = batch_size /\
  (forall i doc, batch !! i = Some doc ->
     dense_accepts batch_size context_word_dim i (answer doc) /\
     (i < batch_size ->
      exists srow erow, starts !! i = Some srow /\ ends !! i = Some erow /\
                        dense_exact_row context_word_dim (answer doc) srow erow)) /\
  forall j, length batch <= j < batch_size ->
    starts !! j = Some (replicate context_word_dim false) /\
    ends !! j = Some (replicate context_word_dim false).
Proof.
  intros Hrun.
  pose (Inv := fun (k : nat) (st : list (list bool) * list (list bool)) =>
    length st.1 = batch_size /\ length st.2 = batch_size /\
    (forall j, k <= j < batch_size ->
       st.1 !! j = Some (replicate context_word_dim false) /\
       st.2 !! j = Some (replicate context_word_dim false)) /\
    forall i doc, i < k -> batch !! i = Some doc ->
      dense_accepts batch_size context_word_dim i (answer doc) /\
      (i < batch_size ->
       exists srow erow, st.1 !! i = Some srow /\ st.2 !! i = Some erow /\
                         dense_exact_row context_word_dim (answer doc) srow erow)).
  assert (HI : Inv (length batch) (starts, ends)).
  { eapply (for_enumerate_inv _ Inv); [| |exact Hrun].
    - intros k doc [s0 e0] [s1 e1] Hk (Hl1 & Hl2 & Hrest & Hdone) Hbody.
      simpl in Hl1, Hl2, Hrest, Hdone.
      destruct (dense_body_exact context_word_dim k doc s0 e0 s1 e1)
        as (Hacc & Hl1' & Hl2' & Hother & Hrow); try done.
      { intros Hlt. apply Hrest. lia. }
      { intros Hlt. apply Hrest. lia. }
      { lia. }
      unfold Inv. simpl. split; [lia|]. split; [lia|]. split.
      + intros j Hj. destruct (Hother j ltac:(lia)) as [-> ->]. apply Hrest. lia.
      + intros i d Hi Hd. destruct (decide (i = k)) as [->|Hne].
        * rewrite Hk in Hd. injection Hd as <-. rewrite Hl1 in Hacc, Hrow. done.
        * destruct (Hother i Hne) as [-> ->]. apply Hdone; [lia|done].
    - unfold Inv, np_zeros2. simpl. rewrite !length_replicate.
      do 2 (split; [done|]). split.
      + intros j Hj. split; apply lookup_replicate_2; lia.
      + intros i doc Hi. lia. }
  destruct HI as (H1 & H2 & Hrest & Hdone). do 2 (split; [done|]).
  split; [|done].
  intros i doc Hi. apply Hdone; [|done]. eapply lookup_lt_Some; eauto.
Qed.

Lemma dense_arrays_returns (batch_size : nat) (context_len : list Z)
    (context_word_dim : nat) (batch : list ParagraphAndQuestion) :
  (exists r, DenseMultiSpanAnswerEncoder_arrays batch_size context_len
               context_word_dim batch = inr r) <->
  forall i doc, batch !! i = Some doc ->
    dense_accepts batch_size context_word_dim i (answer doc).
Proof.
  unfold DenseMultiSpanAnswerEncoder_arrays. split.
  - intros [[starts ends] Hrun] i doc Hi.
    apply dense_loop_exact in Hrun as (_ & _ & Hdocs & _). by apply Hdocs.
  - intros Hacc.
    destruct (for_enumerate_total (dense_body context_word_dim)
                (fun k st =>
                   length st.1 = batch_size /\ length st.2 = batch_size /\
                   forall j, k <= j < batch_size ->
                     st.1 !! j = Some (replicate context_word_dim false) /\
                     st.2 !! j = Some (replicate context_word_dim false)) batch)
      with (st := (np_zeros2 false batch_size context_word_dim,
                   np_zeros2 false batch_size context_word_dim))
      as (st & Hrun & _); [| |eauto].
    + intros k doc [s0 e0] Hk (Hl1 & Hl2 & Hrest). simpl in Hl1, Hl2, Hrest.
      destruct (dense_body_total context_word_dim k doc s0 e0) as [[s1 e1] Hbody].
      { intros Hlt. apply Hrest. lia. }
      { intros Hlt. apply Hrest. lia. }
      { lia. }
      { rewrite Hl1. by apply Hacc. }
      exists (s1, e1). split; [done|].
      destruct (dense_body_exact context_word_dim k doc s0 e0 s1 e1)
        as (_ & Hl1' & Hl2' & Hother & _); try done.
      { intros Hlt. apply Hrest. lia. }
      { intros Hlt. apply Hrest. lia. }
      { lia. }
      simpl. split; [lia|]. split; [lia|].
      intros j Hj. destruct (Hother j ltac:(lia)) as [-> ->]. apply Hrest. lia.
    + unfold np_zeros2. simpl. rewrite !length_replicate. do 2 (split; [done|]).
      intros j Hj. split; apply lookup_replicate_2; lia.
Qed.

(** [DenseMultiSpanAnswerEncoder.encode] returns exactly when every example
    is accepted at its position: its answer is [None] (at any position, also
    past the batch dimension), or it is within the batch dimension and has
    spans of which every one that ends before [context_word_dim] has its
    start between minus [context_word_dim] and [context_word_dim], and its
    end not below minus [context_word_dim]. *)
Theorem dense_returns_iff (batch_size : nat) (context_len : list Z)
    (context_word_dim : nat) (batch : list ParagraphAndQuestion) :
  (exists r, DenseMultiSpanAnswerEncoder_arrays batch_size context_len
               context_word_dim batch = inr r) <->
  forall i doc, batch !! i = Some doc ->
    dense_accepts batch_size context_word_dim i (answer doc).
Proof. apply dense_arrays_returns. Qed.

Lemma dense_encode_inr (batch_size : nat) (context_len : list Z)
    (context_word_dim : nat) (batch : list ParagraphAndQuestion) (g g' : RandomState)
    (feed : feed_dict) :
  DenseMultiSpanAnswerEncoder_encode batch_size context_len context_word_dim batch g
  = inr (feed, g') ->
  exists starts ends,
    DenseMultiSpanAnswerEncoder_arrays batch_size context_len context_word_dim batch
    = inr (starts, ends) /\
    feed = <[ answer_ends_slot := BoolMat context_word_dim ends ]>
             {[ answer_starts_slot := BoolMat context_word_dim starts ]} /\
    g' = g.
Proof.
  unfold DenseMultiSpanAnswerEncoder_encode. intros H. inv_bind H.
  destruct x as [starts ends]. injection H as <- <-. by exists starts, ends.
Qed.





(** In a call of [DenseMultiSpanAnswerEncoder.encode] that returns, with or
    without the invariant [0 <= start <= end] on the spans, the feed dict
    holds two masks of [batch_size] rows and the generator is untouched; an
    entry of the start (end) mask of an example is true exactly when its
    position is the start (end) of a gold span that ends before
    [context_word_dim], a negative start or end counting from the end of the
    row; the rows after those of the batch are all false. *)
Theorem dense_rows_exact (batch_size : nat) (context_len : list Z)
    (context_word_dim : nat) (batch : list ParagraphAndQuestion) (g g' : RandomState)
    (feed : feed_dict) :
  DenseMultiSpanAnswerEncoder_encode batch_size context_len context_word_dim batch g
  = inr (feed, g') ->
  exists starts ends,
    feed !! answer_starts_slot = Some (BoolMat context_word_dim starts) /\
    feed !! answer_ends_slot = Some (BoolMat context_word_dim ends) /\
    g' = g /\ length starts = batch_size /\ length ends = batch_size /\
    (forall i doc, batch !! i = Some doc -> i < batch_size ->
       exists srow erow, starts !! i = Some srow /\ ends !! i = Some erow /\
                         dense_exact_row context_word_dim (answer doc) srow erow) /\
    (forall j, length batch <= j < batch_size ->
       starts !! j = Some (replicate context_word_dim false) /\
       ends !! j = Some (replicate context_word_dim false)).
Proof.
  intros Hrun. apply dense_encode_inr in Hrun as (starts & ends & Hrun & -> & ->).
  unfold DenseMultiSpanAnswerEncoder_arrays in Hrun.
  apply dense_loop_exact in Hrun as (Hls & Hle & Hdocs & Hpad).
  exists starts, ends. split; [done|]. split; [done|].
  do 3 (split; [done|]). split; [|done].
  intros i doc Hi Hlt. by apply (Hdocs i doc Hi).
Qed.

Lemma dense_rows_exact_witness :
  exists feed g',
    DenseMultiSpanAnswerEncoder_encode 2 [3%Z] 3
      [mkDoc [] [] (TriviaQaAnswer [(-1, 0); (1, 5)]%Z)] g_zero = inr (feed, g') /\
    exists starts ends,
      feed !! answer_starts_slot = Some (BoolMat 3 starts) /\
      feed !! answer_ends_slot = Some (BoolMat 3 ends) /\
      g' = g_zero /\ length starts = 2 /\ length ends = 2 /\
      (forall i doc,
         [mkDoc [] [] (TriviaQaAnswer [(-1, 0); (1, 5)]%Z)] !! i = Some doc -> i < 2 ->
         exists srow erow, starts !! i = Some srow /\ ends !! i = Some erow /\
                           dense_exact_row 3 (answer doc) srow erow) /\
      (forall j, 1 <= j < 2 ->
         starts !! j = Some (replicate 3 false) /\ ends !! j = Some (replicate 3 false)).
Proof.
  eexists _, _. split; [vm_compute; reflexivity|].
  apply (dense_rows_exact 2 [3%Z] 3 [mkDoc [] [] (TriviaQaAnswer [(-1, 0); (1, 5)]%Z)]
           g_zero g_zero _ eq_refl).
Defined.




(** ** The feature arrays *)

Lemma feature_cube_zeros (n d nf : nat) :
  np_zeros3 0%float n d nf = feature_cube n d nf [].
Proof.
  unfold feature_cube, feature_plane, np_zeros3. simpl. by rewrite !Nat.sub_0_r.
Qed.

Lemma feature_cube_lookup_zero (n d nf k : nat) (planes : list (list (list float))) :
  length planes <= k < n ->
  feature_cube n d nf planes !! k = Some (replicate d (replicate nf 0%float)).
Proof.
  intros H. unfold feature_cube. rewrite lookup_app_r by (rewrite length_fmap; lia).
  rewrite lookup_replicate_2 by (rewrite length_fmap; lia).
  unfold feature_plane. simpl. by rewrite Nat.sub_0_r.
Qed.

Lemma feature_cube_snoc (n d nf : nat) (planes : list (list (list float)))
    (p : list (list float)) :
  length planes < n ->
  <[length planes := feature_plane d nf p]> (feature_cube n d nf planes)
  = feature_cube n d nf (planes ++ [p]).
Proof.
  intros H. unfold feature_cube.
  rewrite insert_app_r_alt by (rewrite length_fmap; lia).
  rewrite length_fmap, Nat.sub_diag, fmap_app, <- app_assoc, length_app. simpl.
  f_equal. replace (n - length planes) with (S (n - (length planes + 1))) by lia.
  done.
Qed.

Lemma assign_rows_zeros (d nf : nat) (rows : list (list float)) :
  length rows <= d -> Forall (fun r => length r = nf) rows ->
  assign_rows nf rows (replicate d (replicate nf 0%float))
  = inr (feature_plane d nf rows).
Proof.
  intros Hl Hw. unfold assign_rows.
  rewrite decide_True by (by rewrite length_replicate).
  by rewrite drop_replicate.
Qed.

Section Features.
Context {E : Type}.
Variable self : DocumentAndQuestionEncoder E.
Variable f : QaTextFeautrizer.
Variables n dim qdim : nat.

Lemma feature_loop (done rest : list ParagraphAndQuestion) :
  length done + length rest <= n ->
  Forall (features_fit self f dim qdim) rest ->
  for_enumerate (feature_body self f) (length done) rest
    (feature_cube n qdim (n_question_features f)
       ((fun doc => (example_features self f doc).1) <$> done),
     feature_cube n dim (n_context_features f)
       ((fun doc => (example_features self f doc).2) <$> done))
  = inr (feature_cube n qdim (n_question_features f)
           ((fun doc => (example_features self f doc).1) <$> done ++ rest),
         feature_cube n dim (n_context_features f)
           ((fun doc => (example_features self f doc).2) <$> done ++ rest)).
Proof.
  revert done. induction rest as [|doc rest IH]; intros done Hlen Hfit;
    cbn [for_enumerate].
  - by rewrite app_nil_r.
  - simpl in Hlen. apply Forall_cons in Hfit as [(Hq1 & Hq2 & Hc1 & Hc2) Hfit].
    assert (Hbody :
      feature_body self f (length done) doc
        (feature_cube n qdim (n_question_features f)
           ((fun doc => (example_features self f doc).1) <$> done),
         feature_cube n dim (n_context_features f)
           ((fun doc => (example_features self f doc).2) <$> done))
      = inr (feature_cube n qdim (n_question_features f)
               ((fun doc => (example_features self f doc).1) <$> done ++ [doc]),
             feature_cube n dim (n_context_features f)
               ((fun doc => (example_features self f doc).2) <$> done ++ [doc]))).
    { unfold feature_body.
      change (get_features f (question doc)
                (slice_to (max_context_word_dim self)
                   (truncated_context self (context doc) 0)))
        with (example_features self f doc).
      destruct (example_features self f doc) as [q_f c_f] eqn:Hx.
      simpl in Hq1, Hq2, Hc1, Hc2. unfold np_get.
      rewrite !feature_cube_lookup_zero by (rewrite length_fmap; lia).
      cbn [mbind result_bind].
      rewrite !assign_rows_zeros by done. cbn [mbind result_bind].
      rewrite !fmap_app. simpl. rewrite Hx. simpl.
      rewrite <- !feature_cube_snoc by (rewrite length_fmap; lia).
      by rewrite !length_fmap. }
    rewrite Hbody. cbn [mbind result_bind].
    replace (S (length done)) with (length (done ++ [doc]))
      by (rewrite length_app; simpl; lia).
    rewrite IH by (rewrite ?length_app; simpl; done || lia).
    by rewrite <- app_assoc.
Qed.
End Features.

(** With a word featurizer that returns, on every example of the batch, at
    most as many rows as the question and the context dimension, each of the
    width it declares, [features] returns the feed dict with the two feature
    arrays added: for each example the rows of the featurizer followed by
    rows of zeros, and planes of zeros up to the batch dimension.  The
    context features are those of the written context. *)
Theorem features_hold_rows {E : Type} (self : DocumentAndQuestionEncoder E)
    (f : QaTextFeautrizer) (n dim qdim : nat) (batch : list ParagraphAndQuestion)
    (feed : feed_dict) :
  word_featurizer self = Some f ->
  length batch <= n ->
  Forall (features_fit self f dim qdim) batch ->
  features self n dim qdim batch feed
  = inr (<[question_features_slot :=
             FloatCube qdim (n_question_features f)
               (feature_cube n qdim (n_question_features f)
                  ((fun doc => (example_features self f doc).1) <$> batch))]>
           (<[context_features_slot :=
                FloatCube dim (n_context_features f)
                  (feature_cube n dim (n_context_features f)
                     ((fun doc => (example_features self f doc).2) <$> batch))]>
              feed)).
Proof.
  intros Hf Hn Hfit. unfold features. rewrite Hf.
  rewrite !feature_cube_zeros.
  pose proof (feature_loop self f n dim qdim [] batch) as Hloop.
  cbn [length app fmap list_fmap] in Hloop. rewrite Hloop by (done || simpl; lia).
  done.
Qed.

Lemma features_hold_rows_witness :
  features featurizing_encoder 2 3 2 [foo_doc] ∅
  = inr (<[question_features_slot :=
             FloatCube 2 1 [[[1%float]; [1%float]]; [[0%float]; [0%float]]]]>
           (<[context_features_slot :=
                FloatCube 3 2
                  [[[1%float; 2%float]; [1%float; 2%float]; [1%float; 2%float]];
                   [[0%float; 0%float]; [0%float; 0%float]; [0%float; 0%float]]]]>
              ∅)).
Proof.
  apply (features_hold_rows featurizing_encoder length_featurizer 2 3 2 [foo_doc] ∅).
  - reflexivity.
  - simpl. lia.
  - constructor; [|constructor]. unfold features_fit. vm_compute.
    repeat split; try lia; repeat constructor.
Defined.

(** ** When [DocumentAndQuestionEncoder.encode] returns *)




(** In a call that returns, every entry of the context length array is at
    most the context dimension and every entry of the question length array
    at most the question dimension, these being the second dimensions of the
    word and character arrays that are fed. *)
Theorem lengths_within_dimensions {E : Type} (self : DocumentAndQuestionEncoder E)
    (is_train : bool) (batch : list ParagraphAndQuestion) (e e' : E)
    (g g' : RandomState) (feed : feed_dict) :
  answer_encoder_ok (answer_encoder self) ->
  DocumentAndQuestionEncoder_encode self is_train batch e g = inr (feed, e', g') ->
  exists cl dim qdim,
    feed !! context_len_slot = Some (IntVec cl) /\
    feed !! question_len_slot = Some (IntVec (question_lengths batch)) /\
    Forall (fun x => (0 <= x <= Z.of_nat dim)%Z) cl /\
    Forall (fun x => (0 <= x <= Z.of_nat qdim)%Z) (question_lengths batch) /\
    (forall d m, feed !! context_words_slot = Some (IntMat d m) -> d = dim) /\
    (forall d m, feed !! question_words_slot = Some (IntMat d m) -> d = qdim) /\
    (forall d1 d2 c, feed !! context_chars_slot = Some (IntCube d1 d2 c) -> d1 = dim) /\
    (forall d1 d2 c, feed !! question_chars_slot = Some (IntCube d1 d2 c) -> d1 = qdim).
Proof.
  intros Hok Hrun.
  pose proof (encode_feed self is_train batch e e' g g' feed Hok Hrun)
    as (n' & cl' & dim' & qdim' & st' & _ & Hcl' & _ & _ & Fcl & Fql & _).
  apply encode_arrays in Hrun
    as (n & cl & dim & qdim & mq & st & Hn & Hcl & Hmq & Hle & _ & Hfill & _ &
        Fcw & Fqw & Fcc & Fqc); [|done].
  rewrite Hcl in Hcl'. injection Hcl' as <- <-.
  exists cl, dim, qdim. do 2 (split; [done|]). split; [|split].
  - apply Forall_forall. intros x Hx.
    apply context_lengths_inr in Hcl as (_ & d & [= <-] & Hcase).
    destruct Hcase as [(_ & _ & ->)|(_ & -> & Hmax)].
    + apply list_elem_of_fmap in Hx as (doc & -> & _). lia.
    + apply np_max_inr in Hmax as [_ Hmax]. pose proof (Hmax x Hx).
      apply list_elem_of_fmap in Hx as (doc & -> & _). lia.
  - apply Forall_forall. intros x Hx.
    apply np_max_inr in Hmq as [_ Hmax]. pose proof (Hmax x Hx).
    unfold question_lengths in Hx.
    apply list_elem_of_fmap in Hx as (doc & -> & _). lia.
  - repeat split.
    + intros d m Hl. rewrite Hl in Fcw.
      destruct (context_words (bufs st)); [by injection Fcw|done].
    + intros d m Hl. rewrite Hl in Fqw.
      destruct (question_words (bufs st)); [by injection Fqw|done].
    + intros d1 d2 c Hl. rewrite Hl in Fcc.
      destruct (context_chars (bufs st)); [by injection Fcc|done].
    + intros d1 d2 c Hl. rewrite Hl in Fqc.
      destruct (question_chars (bufs st)); [by injection Fqc|done].
Qed.

Lemma lengths_within_dimensions_witness :
  exists feed e' g',
    DocumentAndQuestionEncoder_encode small_encoder true [foo_doc] 100%Z g_zero
    = inr (feed, e', g') /\
    exists cl dim qdim,
      feed !! context_len_slot = Some (IntVec cl) /\
      feed !! question_len_slot = Some (IntVec (question_lengths [foo_doc])) /\
      Forall (fun x => (0 <= x <= Z.of_nat dim)%Z) cl /\
      Forall (fun x => (0 <= x <= Z.of_nat qdim)%Z) (question_lengths [foo_doc]) /\
      (forall d m, feed !! context_words_slot = Some (IntMat d m) -> d = dim) /\
      (forall d m, feed !! question_words_slot = Some (IntMat d m) -> d = qdim) /\
      (forall d1 d2 c, feed !! context_chars_slot = Some (IntCube d1 d2 c) -> d1 = dim) /\
      (forall d1 d2 c, feed !! question_chars_slot = Some (IntCube d1 d2 c) -> d1 = qdim).
Proof.
  eexists _, _, _. split; [vm_compute; reflexivity|].
  eapply (lengths_within_dimensions small_encoder true [foo_doc] 100%Z _ g_zero);
    [exact single_span_encoder_ok | vm_compute; reflexivity].
Defined.

(** With the single span answer encoder, in training and with a maximal
    context dimension, an example none of whose spans ends before the
    truncated context length [min(words of the context, max_context_word_dim)]
    makes [encode] raise: an answer that the truncation cuts off is never
    encoded. *)
Theorem truncated_answer_raises {E : Type} (self : DocumentAndQuestionEncoder E)
    (batch : list ParagraphAndQuestion) (e : E) (g : RandomState)
    (i : nat) (doc : ParagraphAndQuestion) (limit : nat) :
  answer_encoder self = SingleSpanAnswerEncoder ->
  max_context_word_dim self = Some limit ->
  batch !! i = Some doc ->
  (forall sp, sp ∈ offered_spans (answer doc) ->
              (Z.of_nat (context_size doc `min` limit) <= sp.2)%Z) ->
  is_raise (DocumentAndQuestionEncoder_encode self true batch e g).
Proof.
  intros Hae Hm Hi Hcut.
  destruct (DocumentAndQuestionEncoder_encode self true batch e g)
    as [ex|[[feed e'] g']] eqn:Hrun; [by exists ex|]. exfalso.
  apply encode_run in Hrun
    as (n & cl & dim & qdim & mq & st & answers & _ & Hcl & _ & _ & _ & _ & Ha & _).
  rewrite Hae in Ha. simpl in Ha. unfold SingleSpanAnswerEncoder_encode in Ha.
  inv_bind Ha. destruct x as [arr g1].
  apply single_span_rows in Hx as [_ Hrows].
  destruct (Hrows i doc Hi) as (s & en & lim & _ & Hlim & Hin & Hle).
  apply context_lengths_inr in Hcl as (_ & d & _ & Hcase).
  destruct Hcase as [(_ & Hm' & ->)|([?|Hnone] & _)]; [|done|congruence].
  rewrite Hm in Hm'. injection Hm' as <-.
  rewrite list_lookup_fmap, Hi in Hlim. injection Hlim as <-.
  specialize (Hcut (s, en) Hin). simpl in Hcut. lia.
Qed.

Lemma truncated_answer_raises_witness :
  is_raise (DocumentAndQuestionEncoder_encode small_encoder true
              [mkDoc ["the"%string]
                 [["the"%string; "a"%string; "what"%string; "the"%string]]
                 (ParagraphSpans [(3, 3)%Z])] 100%Z g_zero).
Proof.
  apply (truncated_answer_raises small_encoder
           [mkDoc ["the"%string]
              [["the"%string; "a"%string; "what"%string; "the"%string]]
              (ParagraphSpans [(3, 3)%Z])] 100%Z g_zero 0
           (mkDoc ["the"%string]
              [["the"%string; "a"%string; "what"%string; "the"%string]]
              (ParagraphSpans [(3, 3)%Z])) 3 eq_refl eq_refl eq_refl).
  intros sp Hsp. apply list_elem_of_singleton in Hsp as ->. simpl. lia.
Defined.
